(** * TRG game engine: a shallow embedding of [game_engine.py]

  The development follows the Python module class by class:
  [NoteType], [JudgementResult], [Difficulty] (enumerations), [Note],
  [Track], [JudgementSystem] and [GameState].  Python [int] is [Z];
  Python [float] is an IEEE-754 binary64 value, modelled with the
  [spec_float] type of the standard library ([prec = 53], [emax = 1024],
  round to nearest even).  Note objects are shared between
  [GameState.notes] and the per-track cache, so they live in a store
  keyed by [Note.id] and the lists hold ids. *)

From Stdlib Require Import ZArith Bool List Lia Sorted.
From Stdlib Require Import Floats.SpecFloat.
From stdpp Require Import base option list strings gmap.

Local Open Scope Z_scope.

(** ** Python floats *)

Module PyFloat.

Definition prec : Z := 53.
Definition emax : Z := 1024.

Abbreviation float := spec_float.

Definition mul : float -> float -> float := SFmul prec emax.
Definition add : float -> float -> float := SFadd prec emax.
Definition div : float -> float -> float := SFdiv prec emax.

(** [float(z)]: the binary64 value nearest to the integer [z]. *)
Definition of_int (z : Z) : float := binary_normalize prec emax z 0 false.

(** [a / b] on two Python ints: the correctly rounded quotient.  The
    callers below never pass [b = 0] (Python raises ZeroDivisionError). *)
Definition int_truediv (a b : Z) : float :=
  match a, b with
  | _, Z0 => S754_nan
  | Z0, _ => S754_zero false
  | _, _ =>
      let '(mz, ez, lz) :=
        SFdiv_core_binary prec emax (Z.abs a) 0 (Z.abs b) 0 in
      binary_round_aux prec emax (xorb (a <? 0) (b <? 0)) mz ez lz
  end.

(** Decimal literals are read as the nearest binary64 value. *)
Definition lit_1_0 : float := S754_finite false 4503599627370496 (-52).
Definition lit_0_0 : float := S754_zero false.
Definition lit_0_65 : float := S754_finite false 5854679515581645 (-53).
Definition lit_1_3 : float := S754_finite false 5854679515581645 (-52).
Definition lit_0_8 : float := S754_finite false 7205759403792794 (-53).
Definition lit_0_6 : float := S754_finite false 5404319552844595 (-53).
Definition lit_0_5 : float := S754_finite false 4503599627370496 (-53).

(** [math.ceil(x)].  Python raises on an infinity or a NaN; the value [0]
    stands for that case, which [calculate_score] never reaches. *)
Definition ceil (x : float) : Z :=
  match x with
  | S754_finite s m e =>
      let v := if s then Z.neg m else Z.pos m in
      match e with
      | Zneg p => - ((- v) / 2 ^ Z.pos p)
      | _ => v * 2 ^ e
      end
  | _ => 0
  end.

(** [int(x)]: truncation toward zero (same remark on infinities). *)
Definition trunc (x : float) : Z :=
  match x with
  | S754_finite s m e =>
      let v := if s then Z.neg m else Z.pos m in
      match e with
      | Zneg p => Z.quot v (2 ^ Z.pos p)
      | _ => v * 2 ^ e
      end
  | _ => 0
  end.

End PyFloat.

(** ** Enumerations *)

Module NoteType.
Inductive t := NORMAL | HOLD | DRAG.
Definition eqb (a b : t) : bool :=
  match a, b with
  | NORMAL, NORMAL | HOLD, HOLD | DRAG, DRAG => true
  | _, _ => false
  end.
End NoteType.

Module JudgementResult.
Inductive t := PERFECT | GOOD | BAD | MISS.
Definition eqb (a b : t) : bool :=
  match a, b with
  | PERFECT, PERFECT | GOOD, GOOD | BAD, BAD | MISS, MISS => true
  | _, _ => false
  end.
End JudgementResult.

Module Difficulty.
Inductive t := EASY | NORMAL | HARD | EXPERT | MASTER.
End Difficulty.

(** ** class Note *)

Module Note.

Record t := mk {
  id : nat;
  track_index : Z;
  type : NoteType.t;
  perfect_time : Z;
  duration : Z;
  hit : bool;
  held_time : Z;
  judgement : option JudgementResult.t;
  start_hold_time : option Z;
  current_track : Z
}.

(** [Note(track_index, note_type, perfect_time, duration)]; the caller
    supplies the value of the class counter [Note._next_id]. *)
Definition __init__ (next_id : nat) (track_index : Z) (note_type : NoteType.t)
    (perfect_time duration : Z) : t :=
  mk next_id track_index note_type perfect_time duration
     false 0 None None track_index.

Definition set_current_track (v : Z) (self : t) : t :=
  mk (id self) (track_index self) (type self) (perfect_time self)
     (duration self) (hit self) (held_time self) (judgement self)
     (start_hold_time self) v.

Definition set_start_hold_time (v : option Z) (self : t) : t :=
  mk (id self) (track_index self) (type self) (perfect_time self)
     (duration self) (hit self) (held_time self) (judgement self)
     v (current_track self).

Definition set_held_time (v : Z) (self : t) : t :=
  mk (id self) (track_index self) (type self) (perfect_time self)
     (duration self) (hit self) v (judgement self)
     (start_hold_time self) (current_track self).

Definition set_hit (v : bool) (self : t) : t :=
  mk (id self) (track_index self) (type self) (perfect_time self)
     (duration self) v (held_time self) (judgement self)
     (start_hold_time self) (current_track self).

Definition set_judgement (v : option JudgementResult.t) (self : t) : t :=
  mk (id self) (track_index self) (type self) (perfect_time self)
     (duration self) (hit self) (held_time self) v
     (start_hold_time self) (current_track self).

(** [note.update(current_time, activated, current_track)]; the default
    value of [current_track] is [-1]. *)
Definition update (current_time : Z) (activated : bool) (current_track : Z)
    (self : t) : t :=
  let self :=
    if negb (current_track =? -1) then set_current_track current_track self
    else self in
  if NoteType.eqb (type self) NoteType.HOLD && hit self && activated then
    let self :=
      match start_hold_time self with
      | None => set_start_hold_time (Some current_time) self
      | Some _ => self
      end in
    set_held_time (Z.min (current_time - perfect_time self) (duration self)) self
  else self.

Definition is_complete (current_time : Z) (self : t) : bool :=
  match type self with
  | NoteType.NORMAL | NoteType.DRAG =>
      hit self || (perfect_time self + 200 <? current_time)
  | NoteType.HOLD =>
      (hit self && (duration self <=? held_time self))
      || (perfect_time self + 200 <? current_time)
  end.

Definition is_within_judgement_window (current_time window_ms : Z) (self : t) : bool :=
  Z.abs (current_time - perfect_time self) <=? window_ms.

End Note.

(** ** class Track

  The [on_press] / [on_release] callbacks are observers and are left out. *)

Module Track.

Record t := mk {
  index : Z;
  activated : bool;
  last_press_time : Z;
  press_count : Z
}.

Definition __init__ (index : Z) : t := mk index false 0 0.

Definition press (current_time : Z) (self : t) : t :=
  if negb (activated self)
  then mk (index self) true current_time (press_count self + 1)
  else self.

Definition release (self : t) : t :=
  if activated self
  then mk (index self) false (last_press_time self) (press_count self)
  else self.

Definition reset (self : t) : t :=
  mk (index self) false 0 (press_count self).

(** The direct assignment [track.activated = True] of the autoplay code. *)
Definition set_activated (v : bool) (self : t) : t :=
  mk (index self) v (last_press_time self) (press_count self).

End Track.

(** ** class JudgementSystem *)

Module JudgementSystem.

Import JudgementResult.

(** The dictionary [judgement_counts], one entry per result. *)
Record counts := mk_counts {
  n_perfect : Z;
  n_good : Z;
  n_bad : Z;
  n_miss : Z
}.

Definition count (c : counts) (r : JudgementResult.t) : Z :=
  match r with
  | PERFECT => n_perfect c
  | GOOD => n_good c
  | BAD => n_bad c
  | MISS => n_miss c
  end.

(** [judgement_counts[r] += 1] *)
Definition incr (r : JudgementResult.t) (c : counts) : counts :=
  match r with
  | PERFECT => mk_counts (n_perfect c + 1) (n_good c) (n_bad c) (n_miss c)
  | GOOD => mk_counts (n_perfect c) (n_good c + 1) (n_bad c) (n_miss c)
  | BAD => mk_counts (n_perfect c) (n_good c) (n_bad c + 1) (n_miss c)
  | MISS => mk_counts (n_perfect c) (n_good c) (n_bad c) (n_miss c + 1)
  end.

Definition DEFAULT_JUDGEMENT_WINDOWS (r : JudgementResult.t) : option Z :=
  match r with
  | PERFECT => Some 80
  | GOOD => Some 160
  | BAD => Some 200
  | MISS => None
  end.

Definition DEFAULT_JUDGEMENT_SCORES (r : JudgementResult.t) : PyFloat.float :=
  match r with
  | PERFECT => PyFloat.lit_1_0
  | GOOD => PyFloat.lit_0_65
  | BAD => PyFloat.lit_0_0
  | MISS => PyFloat.lit_0_0
  end.

Definition MAX_SCORE : Z := 1000000.

Definition difficulty_factors (d : Difficulty.t) : PyFloat.float :=
  match d with
  | Difficulty.EASY => PyFloat.lit_1_3
  | Difficulty.NORMAL => PyFloat.lit_1_0
  | Difficulty.HARD => PyFloat.lit_0_8
  | Difficulty.EXPERT => PyFloat.lit_0_6
  | Difficulty.MASTER => PyFloat.lit_0_5
  end.

(** [_adjust_windows_for_difficulty]: [max(10, int(window * factor))] for
    every result that has a window. *)
Definition _adjust_windows_for_difficulty (d : Difficulty.t)
    (windows : JudgementResult.t -> option Z) (r : JudgementResult.t) : option Z :=
  match r with
  | MISS => None
  | _ =>
      match windows r with
      | Some window =>
          Some (Z.max 10
                  (PyFloat.trunc
                     (PyFloat.mul (PyFloat.of_int window) (difficulty_factors d))))
      | None => None
      end
  end.

(** [judgement_windows] and [judgement_scores] are assigned in [__init__]
    and never again, so they are functions of the difficulty rather than
    fields. *)
Record t := mk {
  difficulty : Difficulty.t;
  judgement_counts : counts;
  total_notes : Z
}.

Definition __init__ (d : Difficulty.t) : t := mk d (mk_counts 0 0 0 0) 0.

Definition judgement_windows (self : t) : JudgementResult.t -> option Z :=
  _adjust_windows_for_difficulty (difficulty self) DEFAULT_JUDGEMENT_WINDOWS.

Definition judgement_scores (self : t) : JudgementResult.t -> PyFloat.float :=
  DEFAULT_JUDGEMENT_SCORES.

(** [judgement_windows[r]] for a key that is present. *)
Definition window (self : t) (r : JudgementResult.t) : Z :=
  default 0 (judgement_windows self r).

Definition get_judgement (time_diff : Z) (self : t) : JudgementResult.t :=
  if time_diff <=? window self PERFECT then PERFECT
  else if time_diff <=? window self GOOD then GOOD
  else if time_diff <=? window self BAD then BAD
  else MISS.

Definition calculate_score (judgement : JudgementResult.t) (self : t) : Z :=
  if total_notes self =? 0 then 0
  else
    let base_score_per_note := PyFloat.int_truediv MAX_SCORE (total_notes self) in
    let score := PyFloat.mul base_score_per_note (judgement_scores self judgement) in
    PyFloat.ceil score.

Definition reset_statistics (self : t) : t :=
  mk (difficulty self) (mk_counts 0 0 0 0) 0.

Definition set_total_notes (n : Z) (self : t) : t :=
  mk (difficulty self) (judgement_counts self) n.

Definition record (r : JudgementResult.t) (self : t) : t :=
  mk (difficulty self) (incr r (judgement_counts self)) (total_notes self).

End JudgementSystem.

(** ** Python lists *)

Module PyList.

(** [l[i]] with Python's negative indices; [None] is IndexError. *)
Definition index (len : nat) (i : Z) : option nat :=
  if 0 <=? i then
    if i <? Z.of_nat len then Some (Z.to_nat i) else None
  else
    if - Z.of_nat len <=? i then Some (Z.to_nat (Z.of_nat len + i)) else None.

(** [l.remove(x)]: drops the first occurrence. *)
Fixpoint remove (x : nat) (l : list nat) : list nat :=
  match l with
  | [] => []
  | y :: l' => if Nat.eqb x y then l' else y :: remove x l'
  end.

(** [l.sort(key=...)]: the sort is stable, so its result is that of a
    stable insertion sort. *)
Fixpoint insert_by {A} (key : A -> Z) (x : A) (l : list A) : list A :=
  match l with
  | [] => [x]
  | y :: l' => if key x <=? key y then x :: y :: l' else y :: insert_by key x l'
  end.

Fixpoint sort_by {A} (key : A -> Z) (l : list A) : list A :=
  match l with
  | [] => []
  | x :: l' => insert_by key x (sort_by key l')
  end.

End PyList.

(** ** Chart data handed to [load_chart] *)

Module Chart.

(** The value stored under the key ['type'] of a note descriptor. *)
Inductive py_value :=
  | PyStr (s : string)
  | PyInt (z : Z)
  | PyOther.

(** A note descriptor: a dictionary, of which the four keys read by
    [load_chart] are kept ([None]: key absent), or some other object. *)
Inductive note_data :=
  | NoteDict (type : option py_value) (track_index perfect_time duration : option Z)
  | NotADict.

Record t := mk {
  notes : option (list note_data);
  end_time_ms : option Z
}.

End Chart.

(** ** class GameState *)

Module GameState.

Import JudgementResult.

Definition num_tracks : Z := 4.

(** [objects] holds the Note objects by id, [next_id] is the class
    counter [Note._next_id], and [judged] lists the [on_note_judged]
    notifications, the most recent first.  The other callbacks have no
    effect on the state and are left out, as are the audio manager, the
    text events and the rendering settings. *)
Record t := mk {
  score : Z;
  combo : Z;
  max_combo : Z;
  judgement : option JudgementResult.t;
  current_time_ms : Z;
  is_playing : bool;
  is_paused : bool;
  autoplay : bool;
  tracks : list Track.t;
  notes : list nat;
  chart_end_time_ms : option Z;
  judgement_system : JudgementSystem.t;
  _notes_by_track : list (list nat);
  _update_notes_cache : bool;
  objects : gmap nat Note.t;
  next_id : nat;
  judged : list (nat * JudgementResult.t)
}.

Definition set_score (v : Z) (self : t) : t :=
  mk v (combo self) (max_combo self) (judgement self)
    (current_time_ms self) (is_playing self) (is_paused self)
    (autoplay self) (tracks self) (notes self) (chart_end_time_ms self)
    (judgement_system self) (_notes_by_track self)
    (_update_notes_cache self) (objects self) (next_id self) (judged self).

Definition set_combo (v : Z) (self : t) : t :=
  mk (score self) v (max_combo self) (judgement self)
    (current_time_ms self) (is_playing self) (is_paused self)
    (autoplay self) (tracks self) (notes self) (chart_end_time_ms self)
    (judgement_system self) (_notes_by_track self)
    (_update_notes_cache self) (objects self) (next_id self) (judged self).

Definition set_max_combo (v : Z) (self : t) : t :=
  mk (score self) (combo self) v (judgement self) (current_time_ms self)
    (is_playing self) (is_paused self) (autoplay self) (tracks self)
    (notes self) (chart_end_time_ms self) (judgement_system self)
    (_notes_by_track self) (_update_notes_cache self) (objects self)
    (next_id self) (judged self).

Definition set_judgement (v : option JudgementResult.t) (self : t) : t :=
  mk (score self) (combo self) (max_combo self) v (current_time_ms self)
    (is_playing self) (is_paused self) (autoplay self) (tracks self)
    (notes self) (chart_end_time_ms self) (judgement_system self)
    (_notes_by_track self) (_update_notes_cache self) (objects self)
    (next_id self) (judged self).

Definition set_current_time_ms (v : Z) (self : t) : t :=
  mk (score self) (combo self) (max_combo self) (judgement self) v
    (is_playing self) (is_paused self) (autoplay self) (tracks self)
    (notes self) (chart_end_time_ms self) (judgement_system self)
    (_notes_by_track self) (_update_notes_cache self) (objects self)
    (next_id self) (judged self).

Definition set_is_playing (v : bool) (self : t) : t :=
  mk (score self) (combo self) (max_combo self) (judgement self)
    (current_time_ms self) v (is_paused self) (autoplay self)
    (tracks self) (notes self) (chart_end_time_ms self)
    (judgement_system self) (_notes_by_track self)
    (_update_notes_cache self) (objects self) (next_id self) (judged self).

Definition set_is_paused (v : bool) (self : t) : t :=
  mk (score self) (combo self) (max_combo self) (judgement self)
    (current_time_ms self) (is_playing self) v (autoplay self)
    (tracks self) (notes self) (chart_end_time_ms self)
    (judgement_system self) (_notes_by_track self)
    (_update_notes_cache self) (objects self) (next_id self) (judged self).

Definition set_autoplay (v : bool) (self : t) : t :=
  mk (score self) (combo self) (max_combo self) (judgement self)
    (current_time_ms self) (is_playing self) (is_paused self) v
    (tracks self) (notes self) (chart_end_time_ms self)
    (judgement_system self) (_notes_by_track self)
    (_update_notes_cache self) (objects self) (next_id self) (judged self).

Definition set_tracks (v : list Track.t) (self : t) : t :=
  mk (score self) (combo self) (max_combo self) (judgement self)
    (current_time_ms self) (is_playing self) (is_paused self)
    (autoplay self) v (notes self) (chart_end_time_ms self)
    (judgement_system self) (_notes_by_track self)
    (_update_notes_cache self) (objects self) (next_id self) (judged self).

Definition set_notes (v : list nat) (self : t) : t :=
  mk (score self) (combo self) (max_combo self) (judgement self)
    (current_time_ms self) (is_playing self) (is_paused self)
    (autoplay self) (tracks self) v (chart_end_time_ms self)
    (judgement_system self) (_notes_by_track self)
    (_update_notes_cache self) (objects self) (next_id self) (judged self).

Definition set_chart_end_time_ms (v : option Z) (self : t) : t :=
  mk (score self) (combo self) (max_combo self) (judgement self)
    (current_time_ms self) (is_playing self) (is_paused self)
    (autoplay self) (tracks self) (notes self) v (judgement_system self)
    (_notes_by_track self) (_update_notes_cache self) (objects self)
    (next_id self) (judged self).

Definition set_judgement_system (v : JudgementSystem.t) (self : t) : t :=
  mk (score self) (combo self) (max_combo self) (judgement self)
    (current_time_ms self) (is_playing self) (is_paused self)
    (autoplay self) (tracks self) (notes self) (chart_end_time_ms self) v
    (_notes_by_track self) (_update_notes_cache self) (objects self)
    (next_id self) (judged self).

Definition set_notes_by_track (v : list (list nat)) (self : t) : t :=
  mk (score self) (combo self) (max_combo self) (judgement self)
    (current_time_ms self) (is_playing self) (is_paused self)
    (autoplay self) (tracks self) (notes self) (chart_end_time_ms self)
    (judgement_system self) v (_update_notes_cache self) (objects self)
    (next_id self) (judged self).

Definition set_update_notes_cache (v : bool) (self : t) : t :=
  mk (score self) (combo self) (max_combo self) (judgement self)
    (current_time_ms self) (is_playing self) (is_paused self)
    (autoplay self) (tracks self) (notes self) (chart_end_time_ms self)
    (judgement_system self) (_notes_by_track self) v (objects self)
    (next_id self) (judged self).

Definition set_objects (v : gmap nat Note.t) (self : t) : t :=
  mk (score self) (combo self) (max_combo self) (judgement self)
    (current_time_ms self) (is_playing self) (is_paused self)
    (autoplay self) (tracks self) (notes self) (chart_end_time_ms self)
    (judgement_system self) (_notes_by_track self)
    (_update_notes_cache self) v (next_id self) (judged self).

Definition set_next_id (v : nat) (self : t) : t :=
  mk (score self) (combo self) (max_combo self) (judgement self)
    (current_time_ms self) (is_playing self) (is_paused self)
    (autoplay self) (tracks self) (notes self) (chart_end_time_ms self)
    (judgement_system self) (_notes_by_track self)
    (_update_notes_cache self) (objects self) v (judged self).

Definition set_judged (v : list (nat * JudgementResult.t)) (self : t) : t :=
  mk (score self) (combo self) (max_combo self) (judgement self)
    (current_time_ms self) (is_playing self) (is_paused self)
    (autoplay self) (tracks self) (notes self) (chart_end_time_ms self)
    (judgement_system self) (_notes_by_track self)
    (_update_notes_cache self) (objects self) (next_id self) v.


(** An [update] either returns or lets the IndexError of an unchecked
    [self.tracks[...]] escape; both leave a state behind. *)
Inductive outcome :=
  | Returned (s : t)
  | Raised (s : t).

Definition state_of (o : outcome) : t :=
  match o with Returned s | Raised s => s end.

Definition __init__ (difficulty : Difficulty.t) (next_id : nat) : t :=
  mk 0 0 0 None 0 false false false
     (map Track.__init__ [0; 1; 2; 3]) [] None
     (JudgementSystem.__init__ difficulty)
     [[]; []; []; []] true ∅ next_id [].

Definition now (self : t) : Z := current_time_ms self.

Definition perfect_time_of (self : t) (i : nat) : Z :=
  match objects self !! i with
  | Some note => Note.perfect_time note
  | None => 0
  end.

Definition _reset_game_state (self : t) : t :=
  mk 0 0 0 None 0 false false (autoplay self)
     (map Track.reset (tracks self)) [] None
     (JudgementSystem.reset_statistics (judgement_system self))
     [[]; []; []; []] true (objects self) (next_id self) (judged self).

(** *** load_chart, for chart data passed as a dictionary *)

Definition note_type_of_value (v : Chart.py_value) : NoteType.t :=
  match v with
  | Chart.PyStr s =>
      if String.eqb s "normal" then NoteType.NORMAL
      else if String.eqb s "hold" then NoteType.HOLD
      else if String.eqb s "drag" then NoteType.DRAG
      else NoteType.NORMAL
  | Chart.PyInt z =>
      if (0 <=? z) && (z <? 3) then
        nth (Z.to_nat z) [NoteType.NORMAL; NoteType.HOLD; NoteType.DRAG]
            NoteType.NORMAL
      else NoteType.NORMAL
  | Chart.PyOther => NoteType.NORMAL
  end.

(** The body of the [try] in the loop over [chart['notes']]: [None] when
    it raises (missing key, descriptor that is not a dictionary). *)
Definition make_note (next_id : nat) (note_data : Chart.note_data) : option Note.t :=
  match note_data with
  | Chart.NoteDict ty (Some track_index) (Some perfect_time) duration =>
      Some (Note.__init__ next_id track_index
              (note_type_of_value (default (Chart.PyInt 0) ty))
              perfect_time (default 0 duration))
  | _ => None
  end.

(** One iteration; the second component collects the descriptors for
    which a warning is logged. *)
Definition load_note (acc : t * list Chart.note_data) (note_data : Chart.note_data)
    : t * list Chart.note_data :=
  let '(self, warned) := acc in
  match make_note (next_id self) note_data with
  | Some note =>
      (set_next_id (S (next_id self))
         (set_notes (notes self ++ [Note.id note])
            (set_objects (<[Note.id note := note]> (objects self)) self)),
       warned)
  | None => (self, warned ++ [note_data])
  end.

Definition load_chart (chart_data : Chart.t) (self : t)
    : bool * list Chart.note_data * t :=
  let self := _reset_game_state self in
  let self := set_chart_end_time_ms (Chart.end_time_ms chart_data) self in
  let '(self, warned) :=
    match Chart.notes chart_data with
    | Some l => fold_left load_note l (self, [])
    | None => (self, [])
    end in
  let self := set_notes (PyList.sort_by (perfect_time_of self) (notes self)) self in
  let self :=
    set_judgement_system
      (JudgementSystem.set_total_notes (Z.of_nat (length (notes self)))
         (judgement_system self)) self in
  let self := set_update_notes_cache true self in
  (true, warned, self).

(** *** The per-track cache *)

Definition cache_append (self : t) (cache : list (list nat)) (i : nat)
    : list (list nat) :=
  match objects self !! i with
  | Some note =>
      if (0 <=? Note.track_index note) && (Note.track_index note <? num_tracks)
         && negb (Note.hit note)
      then alter (fun l => l ++ [i]) (Z.to_nat (Note.track_index note)) cache
      else cache
  | None => cache
  end.

Definition _update_notes_cache_impl (self : t) : t :=
  if negb (_update_notes_cache self) then self
  else
    let cache := map (fun _ => []) (_notes_by_track self) in
    let cache := fold_left (cache_append self) (notes self) cache in
    let cache := map (PyList.sort_by (perfect_time_of self)) cache in
    set_update_notes_cache false (set_notes_by_track cache self).

Definition check_track_state (track_index : Z) (self : t) : bool :=
  if (0 <=? track_index) && (track_index <? num_tracks) then
    match tracks self !! Z.to_nat track_index with
    | Some track => Track.activated track
    | None => false
    end
  else false.

(** *** Judging one note *)

Definition mark (r : JudgementResult.t) (note : Note.t) : Note.t :=
  Note.set_judgement (Some r) (Note.set_hit true note).

Definition _judge_note (i : nat) (time_diff : Z) (self : t)
    : JudgementResult.t * t :=
  let result := JudgementSystem.get_judgement time_diff (judgement_system self) in
  let self := set_objects (alter (mark result) i (objects self)) self in
  let self :=
    if negb (JudgementResult.eqb result MISS) then
      let score_gain :=
        JudgementSystem.calculate_score result (judgement_system self) in
      let self :=
        set_score (Z.min (score self + score_gain) JudgementSystem.MAX_SCORE) self in
      let self := set_combo (combo self + 1) self in
      set_max_combo (Z.max (max_combo self) (combo self)) self
    else set_combo 0 self in
  let self :=
    set_judgement_system (JudgementSystem.record result (judgement_system self)) self in
  let self := set_judgement (Some result) self in
  let self := set_update_notes_cache true self in
  let self := set_judged ((i, result) :: judged self) self in
  (result, self).

Definition _judge_perfect (i : nat) (self : t) : t :=
  snd (_judge_note i 0 self).

Definition _judge_miss (i : nat) (self : t) : t :=
  let self := set_objects (alter (mark MISS) i (objects self)) self in
  let self := set_combo 0 self in
  let self :=
    set_judgement_system (JudgementSystem.record MISS (judgement_system self)) self in
  let self := set_judgement (Some MISS) self in
  let self := set_update_notes_cache true self in
  set_judged ((i, MISS) :: judged self) self.

(** *** The automatic policies of a tick *)

Definition auto_miss_step (self : t) (i : nat) : t :=
  match objects self !! i with
  | Some note =>
      if negb (Note.hit note) && (Note.perfect_time note + 200 <? now self)
      then _judge_miss i self
      else self
  | None => self
  end.

Definition _process_auto_miss (self : t) : t :=
  fold_left auto_miss_step (notes self) self.

(** [self.tracks[track_index].activated = True], unchecked. *)
Definition activate_track (track_index : Z) (self : t) : option t :=
  match PyList.index (length (tracks self)) track_index with
  | Some k => Some (set_tracks (alter (Track.set_activated true) k (tracks self)) self)
  | None => None
  end.

Definition autoplay_step (self : t) (i : nat) : outcome :=
  match objects self !! i with
  | Some note =>
      if negb (Note.hit note) then
        let perfect_window :=
          JudgementSystem.window (judgement_system self) PERFECT * 2 in
        let time_diff := Z.abs (now self - Note.perfect_time note) in
        if time_diff <=? perfect_window then
          if NoteType.eqb (Note.type note) NoteType.DRAG then
            match activate_track (Note.track_index note) self with
            | Some self => Returned (_judge_perfect i self)
            | None => Raised self
            end
          else Returned (_judge_perfect i self)
        else Returned self
      else if NoteType.eqb (Note.type note) NoteType.HOLD
              && (now self <? Note.perfect_time note + Note.duration note) then
        match activate_track (Note.track_index note) self with
        | Some self =>
            Returned
              (set_objects
                 (<[i := Note.update (now self) true (-1) note]> (objects self)) self)
        | None => Raised self
        end
      else Returned self
  | None => Returned self
  end.

Fixpoint run_autoplay (l : list nat) (self : t) : outcome :=
  match l with
  | [] => Returned self
  | i :: l' =>
      match autoplay_step self i with
      | Returned self => run_autoplay l' self
      | Raised self => Raised self
      end
  end.

Definition _process_autoplay (self : t) : outcome :=
  run_autoplay (notes self) self.

(** The DRAG rule of [update]. *)
Definition drag_step (self : t) (i : nat) : t :=
  match objects self !! i with
  | Some note =>
      if NoteType.eqb (Note.type note) NoteType.DRAG && negb (Note.hit note) then
        let time_diff := Z.abs (now self - Note.perfect_time note) in
        if time_diff <=? 200 then
          if check_track_state (Note.track_index note) self
          then _judge_perfect i self
          else _judge_miss i self
        else self
      else self
  | None => self
  end.

(** The per-note update and eviction of [update]; a [remove] of a note
    that is not in the list raises, and the [except] skips the rest. *)
Definition lifecycle_step (self : t) (i : nat) : t :=
  match objects self !! i with
  | Some note =>
      let activated := check_track_state (Note.track_index note) self in
      let note := Note.update (now self) activated (-1) note in
      let self := set_objects (<[i := note]> (objects self)) self in
      if Note.is_complete (now self) note then
        if bool_decide (i ∈ notes self) then
          set_update_notes_cache true (set_notes (PyList.remove i (notes self)) self)
        else self
      else self
  | None => self
  end.

Definition stop_game (self : t) : t :=
  set_is_paused false (set_is_playing false self).

Definition end_marker_step (end_time : Z) (self : t) (i : nat) : t :=
  match objects self !! i with
  | Some note =>
      if negb (Note.hit note) && (Note.perfect_time note <=? end_time)
      then _judge_miss i self
      else self
  | None => self
  end.

Definition _check_game_over (self : t) : t :=
  if negb (is_playing self) then self
  else
    let fallback (self : t) :=
      match notes self with
      | [] => stop_game self
      | _ => self
      end in
    match chart_end_time_ms self with
    | Some end_time =>
        if end_time <=? now self then
          stop_game (fold_left (end_marker_step end_time) (notes self) self)
        else fallback self
    | None => fallback self
    end.

(** *** update *)

Definition advance_time (delta_time_ms : Z) (self : t) : t :=
  if (current_time_ms self =? 0) || (0 <? delta_time_ms)
  then set_current_time_ms (current_time_ms self + delta_time_ms) self
  else self.

(** What follows the automatic policy in [update]. *)
Definition finish_update (self : t) : t :=
  let self :=
    if negb (autoplay self) then fold_left drag_step (notes self) self
    else self in
  let self := fold_left lifecycle_step (notes self) self in
  _check_game_over self.

Definition update (delta_time_ms : Z) (self : t) : outcome :=
  if negb (is_playing self) || is_paused self then Returned self
  else
    let self := advance_time delta_time_ms self in
    let self := _update_notes_cache_impl self in
    if autoplay self then
      match _process_autoplay self with
      | Returned self => Returned (finish_update self)
      | Raised self => Raised self
      end
    else Returned (finish_update (_process_auto_miss self)).

(** *** judge_note *)

Definition is_bad (j : option JudgementResult.t) : bool :=
  match j with
  | Some BAD => true
  | _ => false
  end.

(** One iteration of the scan made on a release: a HOLD note of the
    track that was hit and is not complete is forced to BAD, once. *)
Definition release_step (track_index : Z) (self : t) (i : nat) : t :=
  match objects self !! i with
  | Some note =>
      if NoteType.eqb (Note.type note) NoteType.HOLD
         && (Note.track_index note =? track_index)
         && Note.hit note
         && negb (Note.is_complete (now self) note) then
        if negb (is_bad (Note.judgement note)) then
          let self :=
            set_objects (alter (Note.set_judgement (Some BAD)) i (objects self)) self in
          let self :=
            set_judgement_system
              (JudgementSystem.record BAD (judgement_system self)) self in
          let self := set_judgement (Some BAD) self in
          set_judged ((i, BAD) :: judged self) self
        else self
      else self
  | None => self
  end.

Definition release_scan (track_index : Z) (self : t) : t :=
  fold_left (release_step track_index) (notes self) self.

Definition press_track (track_index : Z) (self : t) : t :=
  set_tracks
    (alter (Track.press (now self)) (Z.to_nat track_index) (tracks self)) self.

Definition release_track (track_index : Z) (self : t) : t :=
  set_tracks (alter Track.release (Z.to_nat track_index) (tracks self)) self.

Definition target_step (self : t) (acc : list (nat * Z)) (i : nat)
    : list (nat * Z) :=
  match objects self !! i with
  | Some note =>
      if negb (Note.hit note)
         && negb (NoteType.eqb (Note.type note) NoteType.DRAG) then
        let time_diff := Z.abs (now self - Note.perfect_time note) in
        if time_diff <=? 200 then acc ++ [(i, time_diff)] else acc
      else acc
  | None => acc
  end.

(** The part of [judge_note] after the track has been pressed or
    released. *)
Definition judge_target (track_index : Z) (self : t)
    : option JudgementResult.t * t :=
  let self := _update_notes_cache_impl self in
  let track_notes := default [] (_notes_by_track self !! Z.to_nat track_index) in
  let target_notes := fold_left (target_step self) track_notes [] in
  match PyList.sort_by snd target_notes with
  | [] => (None, self)
  | (target_note, min_time_diff) :: _ =>
      let '(result, self) := _judge_note target_note min_time_diff self in
      (Some result, self)
  end.

Definition judge_note (track_index : Z) (action : string) (self : t)
    : option JudgementResult.t * t :=
  if negb (is_playing self) || is_paused self then (None, self)
  else if (track_index <? 0) || (num_tracks <=? track_index) then (None, self)
  else if String.eqb action "press" then
    judge_target track_index (press_track track_index self)
  else if String.eqb action "release" then
    judge_target track_index
      (release_track track_index (release_scan track_index self))
  else (None, self).

Definition hit_note (track_index : Z) (self : t)
    : option JudgementResult.t * t :=
  judge_note track_index "press" self.

Definition down (number : Z) (self : t) : t :=
  if (0 <=? number) && (number <? num_tracks) then press_track number self
  else self.

Definition up (number : Z) (self : t) : t :=
  if (0 <=? number) && (number <? num_tracks) then release_track number self
  else self.

(** *** Session control *)

Definition start_game (self : t) : t :=
  match notes self with
  | [] => self
  | _ => set_current_time_ms 0 (set_is_paused false (set_is_playing true self))
  end.

Definition pause_game (self : t) : t :=
  if is_playing self then set_is_paused true self else self.

Definition resume_game (self : t) : t :=
  if is_playing self && is_paused self then set_is_paused false self else self.

Definition set_difficulty (difficulty : Difficulty.t) (self : t) : t :=
  set_judgement_system (JudgementSystem.__init__ difficulty) self.

(** *** Statistics *)

Definition get_accuracy (self : t) : PyFloat.float :=
  let c := JudgementSystem.judgement_counts (judgement_system self) in
  let total_notes :=
    JudgementSystem.n_perfect c + JudgementSystem.n_good c
    + JudgementSystem.n_bad c + JudgementSystem.n_miss c in
  if total_notes =? 0 then PyFloat.lit_1_0
  else
    let weighted_score :=
      PyFloat.add
        (PyFloat.add
           (PyFloat.mul (PyFloat.of_int (JudgementSystem.n_perfect c)) PyFloat.lit_1_0)
           (PyFloat.mul (PyFloat.of_int (JudgementSystem.n_good c)) PyFloat.lit_0_65))
        (PyFloat.mul (PyFloat.of_int (JudgementSystem.n_bad c)) PyFloat.lit_0_0) in
    PyFloat.div weighted_score (PyFloat.of_int total_notes).

Definition miss_unhit_step (self : t) (i : nat) : t :=
  match objects self !! i with
  | Some note => if negb (Note.hit note) then _judge_miss i self else self
  | None => self
  end.

Definition all_hit (self : t) : bool :=
  forallb (fun i => match objects self !! i with
                    | Some note => Note.hit note
                    | None => true
                    end) (notes self).

Definition should_game_end (self : t) : bool * t :=
  match chart_end_time_ms self with
  | Some end_time => (end_time <=? now self, self)
  | None =>
      match notes self with
      | i :: l =>
          let last_note_time :=
            fold_left Z.max (map (perfect_time_of self) l) (perfect_time_of self i) in
          if last_note_time + 3000 <? now self
          then (true, fold_left miss_unhit_step (notes self) self)
          else (all_hit self, self)
      | [] => (true, self)
      end
  end.

End GameState.

(** * Vocabulary of the statements *)

Module Spec.

Import GameState.

(** The [on_note_judged] notifications that concern note [i]. *)
Definition events_of (i : nat) (s : t) : list (nat * JudgementResult.t) :=
  List.filter (fun e => Nat.eqb (fst e) i) (judged s).

Definition counts_of (s : t) : JudgementSystem.counts :=
  JudgementSystem.judgement_counts (judgement_system s).

Definition total_notes_of (s : t) : Z :=
  JudgementSystem.total_notes (judgement_system s).

(** A run of judgements through [_judge_note], one per pair of a note and
    a time difference. *)
Definition judge_all (l : list (nat * Z)) (s : t) : t :=
  fold_left (fun s x => snd (_judge_note (fst x) (snd x) s)) l s.

(** The calls a driver makes between two loads of a chart. *)
Inductive call :=
  | Press (track_index : Z)
  | Release (track_index : Z)
  | Tick (delta_time_ms : Z).

Definition run_call (s : t) (c : call) : t :=
  match c with
  | Press k => snd (judge_note k "press" s)
  | Release k => snd (judge_note k "release" s)
  | Tick dt => state_of (update dt s)
  end.

Definition run_calls (l : list call) (s : t) : t := fold_left run_call l s.

(** Descriptors for which the loop body of [load_chart] does not raise. *)
Definition has_required_keys (d : Chart.note_data) : bool :=
  match d with
  | Chart.NoteDict _ (Some _) (Some _) _ => true
  | _ => false
  end.

Definition descriptors (c : Chart.t) : list Chart.note_data :=
  default [] (Chart.notes c).

(** The value names one of the three note types. *)
Definition known_type (v : Chart.py_value) : bool :=
  match v with
  | Chart.PyStr s => String.eqb s "normal" || String.eqb s "hold" || String.eqb s "drag"
  | _ => false
  end.

Definition valid_track (d : Chart.note_data) : Prop :=
  match d with
  | Chart.NoteDict _ (Some k) _ _ => 0 <= k < num_tracks
  | _ => True
  end.

(** Note [i] has received its last judgement: it is hit and, if it is a
    HOLD note, already BAD. *)
Definition final (i : nat) (s : t) : Prop :=
  exists note,
    objects s !! i = Some note
    /\ Note.hit note = true
    /\ (Note.type note = NoteType.HOLD -> is_bad (Note.judgement note) = true).

(** Note [i] and the notifications about it are the same in both states. *)
Definition same_note (i : nat) (s s' : t) : Prop :=
  objects s' !! i = objects s !! i /\ events_of i s' = events_of i s.

(** What no step of a tick changes once the clock has advanced. *)
Definition statics (s : t) : Z * option Z * bool * Difficulty.t * Z :=
  (current_time_ms s, chart_end_time_ms s, autoplay s,
   JudgementSystem.difficulty (judgement_system s),
   JudgementSystem.total_notes (judgement_system s)).

(** The end marker of the chart, if any, lies after the given time. *)
Definition before_end_marker (now : Z) (s : t) : Prop :=
  match chart_end_time_ms s with
  | Some end_time => now < end_time
  | None => True
  end.

(** The tiers in the order of decreasing accuracy. *)
Definition rank (r : JudgementResult.t) : Z :=
  match r with
  | JudgementResult.PERFECT => 0
  | JudgementResult.GOOD => 1
  | JudgementResult.BAD => 2
  | JudgementResult.MISS => 3
  end.

(** Note [i] is hit and has left the list of active notes. *)
Definition evicted (i : nat) (s : t) : Prop :=
  (i ∉ notes s)
  /\ exists note, objects s !! i = Some note /\ Note.hit note = true.

(** What no press, release or tick changes. *)
Definition settings (s : t) : Difficulty.t * Z * option Z * bool :=
  (JudgementSystem.difficulty (judgement_system s),
   JudgementSystem.total_notes (judgement_system s),
   chart_end_time_ms s, autoplay s).

(** The counters after the notifications [new], the most recent first. *)
Definition tally (new : list (nat * JudgementResult.t)) (c : JudgementSystem.counts)
    : JudgementSystem.counts :=
  fold_right (fun e c => JudgementSystem.incr (snd e) c) c new.

(** How many of the notifications carry the result [r]. *)
Definition occurrences (r : JudgementResult.t)
    (new : list (nat * JudgementResult.t)) : Z :=
  Z.of_nat (length (List.filter (fun e => JudgementResult.eqb (snd e) r) new)).

(** The notifications sent between two states, with the counters moved
    accordingly. *)
Definition recorded (s s' : t) : Prop :=
  exists new,
    judged s' = new ++ judged s /\ counts_of s' = tally new (counts_of s).

(** Score and combo are within their bounds. *)
Definition bounded (s : t) : Prop :=
  0 <= score s <= JudgementSystem.MAX_SCORE /\ 0 <= combo s <= max_combo s.

(** From a state within bounds, the later state is within bounds and
    neither the score nor the maximum combo has gone down. *)
Definition scored (s s' : t) : Prop :=
  total_notes_of s' = total_notes_of s
  /\ (bounded s ->
      bounded s' /\ score s <= score s' /\ max_combo s <= max_combo s').

(** Note [i] is an unhit note of track [k]. *)
Definition unhit_on_track (k : Z) (s : t) (i : nat) : bool :=
  match objects s !! i with
  | Some note => (Note.track_index note =? k) && negb (Note.hit note)
  | None => false
  end.

(** The per-track cache has one list per track and, unless it is marked
    stale, the list of a track holds the unhit notes of that track in the
    order of their perfect times. *)
Definition cache_ok (s : t) : Prop :=
  length (_notes_by_track s) = 4%nat
  /\ (_update_notes_cache s = false ->
      forall k, 0 <= k < num_tracks ->
        _notes_by_track s !! Z.to_nat k
        = Some (PyList.sort_by (perfect_time_of s)
                  (List.filter (unhit_on_track k s) (notes s)))).

(** The distance of the clock to the perfect time of note [i]. *)
Definition offset (s : t) (i : nat) : Z := Z.abs (now s - perfect_time_of s i).

(** Note [i] is unhit, not a DRAG note and within 200 ms of the clock. *)
Definition judgeable (s : t) (i : nat) : bool :=
  match objects s !! i with
  | Some note =>
      negb (Note.hit note)
      && negb (NoteType.eqb (Note.type note) NoteType.DRAG)
      && (offset s i <=? 200)
  | None => false
  end.

(** Note [i] is one that a press on track [k] can judge. *)
Definition candidate (k : Z) (s : t) (i : nat) : bool :=
  unhit_on_track k s i && judgeable s i.

(** What the cache depends on in a note. *)
Definition signature (note : Note.t) : Z * bool * Z :=
  (Note.track_index note, Note.hit note, Note.perfect_time note).

(** Every Note object of the store satisfies [P]. *)
Definition all_notes (P : Note.t -> Prop) (s : t) : Prop :=
  forall i note, objects s !! i = Some note -> P note.

(** The state of a note is coherent: a hit note has a judgement, an unhit
    note has none and has not been held, only HOLD notes are held, and
    the held time does not exceed a duration that is not negative. *)
Definition note_ok (note : Note.t) : Prop :=
  (Note.hit note = true -> Note.judgement note <> None)
  /\ (Note.hit note = false ->
      Note.judgement note = None /\ Note.held_time note = 0
      /\ Note.start_hold_time note = None)
  /\ (Note.type note <> NoteType.HOLD -> Note.held_time note = 0)
  /\ (0 <= Note.duration note -> Note.held_time note <= Note.duration note).

(** The track index of a note names one of the four tracks. *)
Definition on_a_track (note : Note.t) : Prop :=
  0 <= Note.track_index note < num_tracks.

(** The sum of the scores of the notifications [new]. *)
Definition gains (js : JudgementSystem.t) (new : list (nat * JudgementResult.t)) : Z :=
  fold_right (fun e acc => JudgementSystem.calculate_score (snd e) js + acc) 0 new.

(** Note [i], the object [note], is an active HOLD note that was hit
    PERFECT and whose track is activated, in a session without autoplay. *)
Definition held_perfect (i : nat) (note : Note.t) (s : t) : Prop :=
  autoplay s = false
  /\ NoDup (notes s) /\ i ∈ notes s
  /\ objects s !! i = Some note
  /\ Note.type note = NoteType.HOLD
  /\ Note.hit note = true
  /\ Note.judgement note = Some JudgementResult.PERFECT
  /\ check_track_state (Note.track_index note) s = true.

End Spec.

(** * Scenarios *)

Module Scenario.

Import GameState.

Definition descriptor (ty : string) (track_index perfect_time : Z)
    (duration : option Z) : Chart.note_data :=
  Chart.NoteDict (Some (Chart.PyStr ty)) (Some track_index) (Some perfect_time)
    duration.

(** A fresh engine on which the chart is loaded and the game started. *)
Definition boot (d : Difficulty.t) (c : Chart.t) : t :=
  start_game (snd (load_chart c (__init__ d 0))).

(** Scenario 1: one NORMAL note on track 0 at 1000 ms. *)
Definition single_normal : Chart.t :=
  Chart.mk (Some [descriptor "normal" 0 1000 None]) None.

Definition at_1005 (d : Difficulty.t) : t :=
  state_of (update 1005 (boot d single_normal)).

(** Scenario 3: one HOLD note on track 1 at 2000 ms, lasting 1000 ms. *)
Definition single_hold : Chart.t :=
  Chart.mk (Some [descriptor "hold" 1 2000 (Some 1000)]) None.

Definition hold_pressed_at (time : Z) : t :=
  snd (judge_note 1 "press"
         (state_of (update time (boot Difficulty.NORMAL single_hold)))).

(** Scenario 4: one DRAG note on track 2 at 5000 ms. *)
Definition single_drag : Chart.t :=
  Chart.mk (Some [descriptor "drag" 2 5000 None]) None.

Definition drag_track_held : t :=
  down 2 (state_of (update 4700 (boot Difficulty.NORMAL single_drag))).

(** A chart with a descriptor of unknown type, one that lacks its keys
    and one that is not a dictionary. *)
Definition odd_chart : Chart.t :=
  Chart.mk
    (Some [descriptor "slide" 0 1000 None;
           Chart.NoteDict None None (Some 3) None;
           Chart.NotADict;
           descriptor "hold" 3 500 (Some 250)])
    None.

(** The single note with an end marker 100 ms after it, autoplay on. *)
Definition autoplay_with_end_marker : t :=
  set_autoplay true
    (boot Difficulty.NORMAL
       (Chart.mk (Some [descriptor "normal" 0 1000 None]) (Some 1100))).

Definition autoplay_hard_at_830 : t :=
  state_of (update 830 (set_autoplay true (boot Difficulty.HARD single_normal))).

(** A judgement system that has seen three notes. *)
Definition three_notes : JudgementSystem.t :=
  JudgementSystem.set_total_notes 3 (JudgementSystem.__init__ Difficulty.NORMAL).

(** Scenario 3 followed by a NORMAL note on track 0 at 5000 ms, which
    keeps the session running after the HOLD note. *)
Definition hold_then_normal : Chart.t :=
  Chart.mk
    (Some [descriptor "hold" 1 2000 (Some 1000); descriptor "normal" 0 5000 None])
    None.

Definition hold_then_normal_pressed_at (time : Z) : t :=
  snd (judge_note 1 "press"
         (state_of (update time (boot Difficulty.NORMAL hold_then_normal)))).

End Scenario.

(** * Properties *)

(** ** Binary64 arithmetic

    Facts about the rounding of [SpecFloat] needed to evaluate the float
    expressions of the engine on symbolic integers. *)

Lemma digits2_pos_size (p : positive) : digits2_pos p = Pos.size p.
Proof. induction p; simpl; congruence. Qed.

Lemma Zdigits2_log2 (m : Z) : 0 < m -> Zdigits2 m = Z.log2 m + 1.
Proof.
  destruct m as [|p|p]; try lia. intros _. simpl.
  rewrite digits2_pos_size. destruct p; simpl; lia.
Qed.

Lemma Zdigits2_bounds (m : Z) :
  0 < m -> 2 ^ (Zdigits2 m - 1) <= m < 2 ^ Zdigits2 m.
Proof.
  intros Hm. rewrite Zdigits2_log2 by lia.
  replace (Z.log2 m + 1 - 1) with (Z.log2 m) by lia.
  replace (Z.log2 m + 1) with (Z.succ (Z.log2 m)) by lia.
  apply Z.log2_spec; lia.
Qed.

Lemma Zdigits2_unique (m d : Z) :
  2 ^ (d - 1) <= m < 2 ^ d -> 0 < d -> Zdigits2 m = d.
Proof.
  intros H Hd.
  assert (0 < m) by (pose proof (Z.pow_pos_nonneg 2 (d - 1)); lia).
  rewrite Zdigits2_log2 by lia.
  assert (Z.log2 m = d - 1); [|lia].
  apply Z.log2_unique; [lia|]. replace (Z.succ (d - 1)) with d by lia. lia.
Qed.

Lemma pow2_xO (p : positive) : 2 ^ Z.pos p~0 = 2 ^ Z.pos p * 2 ^ Z.pos p.
Proof.
  rewrite (Pos2Z.inj_xO p).
  replace (2 * Z.pos p) with (Z.pos p + Z.pos p) by lia.
  apply Z.pow_add_r; lia.
Qed.

Lemma pow2_xI (p : positive) : 2 ^ Z.pos p~1 = 2 * (2 ^ Z.pos p * 2 ^ Z.pos p).
Proof.
  rewrite (Pos2Z.inj_xI p), Z.pow_add_r by lia.
  rewrite <- pow2_xO, (Pos2Z.inj_xO p). change (2 ^ 1) with 2. lia.
Qed.

Lemma shr_1_m (mrs : shr_record) :
  0 <= shr_m mrs -> shr_m (shr_1 mrs) = shr_m mrs / 2.
Proof.
  destruct mrs as [m r s]; simpl. intros Hm.
  destruct m as [|[p|p|]|p]; simpl; try lia.
  - reflexivity.
  - apply Z.div_unique with (r := 1); lia.
  - apply Z.div_unique with (r := 0); lia.
  - reflexivity.
Qed.

Lemma iter_pos_shr_m (p : positive) (mrs : shr_record) :
  0 <= shr_m mrs ->
  shr_m (SpecFloat.iter_pos shr_1 p mrs) = shr_m mrs / 2 ^ Z.pos p.
Proof.
  revert mrs. induction p as [p IH|p IH|]; intros mrs Hm; cbn [SpecFloat.iter_pos].
  - assert (H1 : 0 <= shr_m (shr_1 mrs)).
    { rewrite shr_1_m by lia. apply Z.div_pos; lia. }
    assert (H2 : 0 <= shr_m (SpecFloat.iter_pos shr_1 p (shr_1 mrs))).
    { rewrite IH by lia. apply Z.div_pos; [lia|]. apply Z.pow_pos_nonneg; lia. }
    rewrite IH, IH, shr_1_m by lia.
    assert (Hp : 0 < 2 ^ Z.pos p) by (apply Z.pow_pos_nonneg; lia).
    rewrite !Z.div_div by lia. f_equal.
    rewrite pow2_xI. lia.
  - assert (H2 : 0 <= shr_m (SpecFloat.iter_pos shr_1 p mrs)).
    { rewrite IH by lia. apply Z.div_pos; [lia|]. apply Z.pow_pos_nonneg; lia. }
    rewrite IH, IH by lia.
    assert (Hp : 0 < 2 ^ Z.pos p) by (apply Z.pow_pos_nonneg; lia).
    rewrite !Z.div_div by lia. f_equal.
    rewrite pow2_xO. lia.
  - rewrite shr_1_m by lia. reflexivity.
Qed.

Lemma shr_1_exact (k : Z) :
  0 <= k ->
  shr_1 (Build_shr_record (2 * k) false false) = Build_shr_record k false false.
Proof. intros Hk. destruct k as [|p|p]; [reflexivity|reflexivity|lia]. Qed.

Lemma iter_pos_shr_exact (p : positive) (k : Z) :
  0 <= k ->
  SpecFloat.iter_pos shr_1 p (Build_shr_record (k * 2 ^ Z.pos p) false false)
  = Build_shr_record k false false.
Proof.
  revert k. induction p as [p IH|p IH|]; intros k Hk; cbn [SpecFloat.iter_pos].
  - assert (Hp : 0 < 2 ^ Z.pos p) by (apply Z.pow_pos_nonneg; lia).
    replace (k * 2 ^ Z.pos p~1) with (2 * ((k * 2 ^ Z.pos p) * 2 ^ Z.pos p)).
    + rewrite shr_1_exact by nia. rewrite IH by nia. apply IH; lia.
    + rewrite pow2_xI. lia.
  - assert (Hp : 0 < 2 ^ Z.pos p) by (apply Z.pow_pos_nonneg; lia).
    replace (k * 2 ^ Z.pos p~0) with ((k * 2 ^ Z.pos p) * 2 ^ Z.pos p).
    + rewrite IH by nia. apply IH; lia.
    + rewrite pow2_xO. lia.
  - change (2 ^ 1) with 2. replace (k * 2) with (2 * k) by lia.
    apply shr_1_exact; lia.
Qed.

(** [shr] by a non-negative amount divides the mantissa and keeps an
    exact record exact when the division has no remainder. *)
Lemma shr_spec (m e sh : Z) (l : location) :
  0 <= m -> 0 <= sh ->
  exists mrs,
    shr (shr_record_of_loc m l) e sh = (mrs, e + sh)
    /\ shr_m mrs = m / 2 ^ sh
    /\ (l = loc_Exact -> (exists k, m = k * 2 ^ sh) ->
        loc_of_shr_record mrs = loc_Exact).
Proof.
  intros Hm Hsh.
  assert (Hrec : shr_m (shr_record_of_loc m l) = m).
  { destruct l as [|[]]; reflexivity. }
  destruct sh as [|p|p]; [| |lia].
  - exists (shr_record_of_loc m l). simpl. rewrite Z.add_0_r, Z.div_1_r.
    repeat split; [exact Hrec|]. intros -> _. reflexivity.
  - exists (SpecFloat.iter_pos shr_1 p (shr_record_of_loc m l)). simpl shr.
    repeat split.
    + rewrite iter_pos_shr_m by lia. rewrite Hrec. reflexivity.
    + intros -> [k Hk]. subst m. simpl shr_record_of_loc.
      assert (Hp : 0 < 2 ^ Z.pos p) by (apply Z.pow_pos_nonneg; lia).
      rewrite iter_pos_shr_exact by nia. reflexivity.
Qed.

Lemma fexp_normal (x : Z) :
  -1074 <= x - 53 -> fexp PyFloat.prec PyFloat.emax x = x - 53.
Proof. unfold fexp, emin, PyFloat.prec, PyFloat.emax. lia. Qed.

Lemma round_nearest_even_cases (m : Z) (l : location) :
  round_nearest_even m l = m \/ round_nearest_even m l = m + 1.
Proof.
  destruct l as [|[]]; simpl; auto. destruct (Z.even m); auto.
Qed.

(** Rounding a mantissa of at least 53 bits whose result stays in the
    normal range: the result is finite, its mantissa has 53 bits, and it
    stands for [c * 2 ^ (e + sh)] where [sh] is the number of bits dropped
    and [c] is the truncated mantissa or its successor. *)
Lemma binary_round_aux_normal (sx : bool) (m e : Z) (l : location) :
  2 ^ 52 <= m ->
  -1074 <= e + (Zdigits2 m - 53) ->
  e + (Zdigits2 m - 53) + 1 <= 971 ->
  exists (m' : positive) (e' c : Z),
    binary_round_aux PyFloat.prec PyFloat.emax sx m e l = S754_finite sx m' e'
    /\ 2 ^ 52 <= Z.pos m' < 2 ^ 53
    /\ e + (Zdigits2 m - 53) <= e'
    /\ Z.pos m' * 2 ^ (e' - (e + (Zdigits2 m - 53))) = c
    /\ (c = m / 2 ^ (Zdigits2 m - 53) \/ c = m / 2 ^ (Zdigits2 m - 53) + 1)
    /\ (l = loc_Exact -> (exists k, m = k * 2 ^ (Zdigits2 m - 53)) ->
        c = m / 2 ^ (Zdigits2 m - 53)).
Proof.
  intros Hm Hlo Hhi.
  assert (Hm0 : 0 < m) by (assert (0 < 2 ^ 52) by reflexivity; lia).
  pose proof (Zdigits2_bounds m Hm0) as HD.
  set (D := Zdigits2 m) in *. set (sh := D - 53) in *.
  assert (HD53 : 53 <= D).
  { destruct (Z_lt_le_dec D 53) as [Hlt|]; [|lia].
    assert (2 ^ D <= 2 ^ 52) by (apply Z.pow_le_mono_r; lia). lia. }
  assert (Hsh : 0 <= sh) by (unfold sh; lia).
  assert (Hpsh : 0 < 2 ^ sh) by (apply Z.pow_pos_nonneg; lia).
  assert (HDm1 : 2 ^ (D - 1) = 2 ^ 52 * 2 ^ sh).
  { rewrite <- Z.pow_add_r by lia. f_equal. unfold sh. lia. }
  assert (HDs : 2 ^ D = 2 ^ 53 * 2 ^ sh).
  { rewrite <- Z.pow_add_r by lia. f_equal. unfold sh. lia. }
  set (a := m / 2 ^ sh).
  assert (Ha : 2 ^ 52 <= a < 2 ^ 53).
  { unfold a. split.
    - apply Z.div_le_lower_bound; lia.
    - apply Z.div_lt_upper_bound; lia. }
  unfold binary_round_aux.
  unfold shr_fexp at 1. fold D.
  rewrite fexp_normal by (unfold sh in *; lia).
  replace (D + e - 53 - e) with sh by (unfold sh; lia).
  destruct (shr_spec m e sh l) as (mrs & Heq & Hmrs & Hex); [lia|lia|].
  rewrite Heq. fold a in Hmrs. rewrite Hmrs.
  set (c := round_nearest_even a (loc_of_shr_record mrs)).
  assert (Hc : c = a \/ c = a + 1) by apply round_nearest_even_cases.
  assert (Hcex : l = loc_Exact -> (exists k, m = k * 2 ^ sh) -> c = a).
  { intros Hl Hk. unfold c. rewrite (Hex Hl Hk). reflexivity. }
  clearbody c.
  assert (Hp52 : 0 < 2 ^ 52) by reflexivity.
  destruct (Z_lt_le_dec c (2 ^ 53)) as [Hlt|Hge].
  - (* no carry *)
    assert (Hdc : Zdigits2 c = 53) by (apply Zdigits2_unique; simpl Z.sub; lia).
    unfold shr_fexp. rewrite Hdc.
    rewrite fexp_normal by lia.
    replace (53 + (e + sh) - 53 - (e + sh)) with 0 by lia.
    cbn [shr shr_record_of_loc shr_m].
    destruct c as [|pc|pc]; try lia.
    replace (e + sh <=? PyFloat.emax - PyFloat.prec) with true
      by (symmetry; apply Z.leb_le; unfold PyFloat.emax, PyFloat.prec; lia).
    exists pc, (e + sh), (Z.pos pc).
    split; [reflexivity|]. split; [lia|]. split; [lia|].
    split; [rewrite Z.sub_diag; simpl; lia|].
    split; [exact Hc|exact Hcex].
  - (* the rounding carried into bit 54 *)
    assert (Hc53 : c = 2 ^ 53) by lia.
    unfold shr_fexp. rewrite Hc53.
    change (Zdigits2 (2 ^ 53)) with 54.
    rewrite fexp_normal by lia.
    replace (54 + (e + sh) - 53 - (e + sh)) with 1 by lia.
    cbn [shr shr_record_of_loc SpecFloat.iter_pos].
    change (shr_m (shr_1 {| shr_m := 2 ^ 53; shr_r := false; shr_s := false |}))
      with (2 ^ 52).
    change (2 ^ 52) with (Z.pos 4503599627370496) at 1.
    cbv iota beta.
    replace (e + sh + 1 <=? PyFloat.emax - PyFloat.prec) with true
      by (symmetry; apply Z.leb_le; unfold PyFloat.emax, PyFloat.prec; lia).
    exists 4503599627370496%positive, (e + sh + 1), c.
    split; [reflexivity|]. split; [split; [discriminate|reflexivity]|].
    split; [lia|].
    split.
    { replace (e + sh + 1 - (e + sh)) with 1 by lia. rewrite Hc53. reflexivity. }
    split; [exact Hc|exact Hcex].
Qed.

Lemma ceil_finite_scaled (m' : positive) (e' c E : Z) :
  E <= e' -> Z.pos m' * 2 ^ (e' - E) = c -> E < 0 ->
  PyFloat.ceil (S754_finite false m' e') = - ((- c) / 2 ^ (- E)).
Proof.
  intros HE Hc HEn. subst c. unfold PyFloat.ceil.
  assert (Hk : 0 < 2 ^ (e' - E)) by (apply Z.pow_pos_nonneg; lia).
  destruct e' as [|p|p].
  - replace (0 - E) with (- E) by lia. rewrite Z.pow_0_r, Z.mul_1_r.
    replace (- (Z.pos m' * 2 ^ (- E))) with ((- Z.pos m') * 2 ^ (- E)) by lia.
    rewrite Z.div_mul by lia. lia.
  - replace (Z.pos p - E) with (Z.pos p + - E) by lia.
    rewrite Z.pow_add_r by lia.
    assert (0 < 2 ^ (- E)) by (apply Z.pow_pos_nonneg; lia).
    replace (- (Z.pos m' * (2 ^ Z.pos p * 2 ^ (- E))))
      with ((- (Z.pos m' * 2 ^ Z.pos p)) * 2 ^ (- E)) by lia.
    rewrite Z.div_mul by lia. lia.
  - assert (Hp : 0 < 2 ^ Z.pos p) by (apply Z.pow_pos_nonneg; lia).
    replace (- E) with (Z.pos p + (Z.neg p - E)) by lia.
    rewrite Z.pow_add_r by lia.
    replace (- (Z.pos m' * 2 ^ (Z.neg p - E)))
      with ((- Z.pos m') * 2 ^ (Z.neg p - E)) by lia.
    rewrite Z.div_mul_cancel_r by lia. reflexivity.
Qed.

(** Multiplying a normal number by [1.0] returns it unchanged. *)
Lemma mul_lit_1_0 (m : positive) (e : Z) :
  2 ^ 52 <= Z.pos m < 2 ^ 53 -> -1074 <= e -> e + 1 <= 971 ->
  PyFloat.mul (S754_finite false m e) PyFloat.lit_1_0 = S754_finite false m e.
Proof.
  intros Hm Hlo Hhi. unfold PyFloat.mul, PyFloat.lit_1_0, SFmul.
  change (xorb false false) with false.
  rewrite Pos2Z.inj_mul. change (Z.pos 4503599627370496) with (2 ^ 52).
  assert (Hd : Zdigits2 (Z.pos m * 2 ^ 52) = 105).
  { apply Zdigits2_unique; [|lia].
    change (2 ^ (105 - 1)) with (2 ^ 52 * 2 ^ 52).
    change (2 ^ 105) with (2 ^ 53 * 2 ^ 52).
    assert (0 < 2 ^ 52) by reflexivity. nia. }
  destruct (binary_round_aux_normal false (Z.pos m * 2 ^ 52) (e + -52) loc_Exact)
    as (m' & e' & c & Heq & Hm' & He' & Hval & _ & Hex).
  - assert (0 < 2 ^ 52) by reflexivity. nia.
  - rewrite Hd. lia.
  - rewrite Hd. lia.
  - rewrite Heq. rewrite Hd in *.
    replace (e + -52 + (105 - 53)) with e in * by lia.
    change (105 - 53) with 52 in Hex.
    assert (Hc : c = Z.pos m).
    { rewrite Hex; [|reflexivity|exists (Z.pos m); reflexivity].
      apply Z.div_mul. discriminate. }
    rewrite Hc in Hval.
    assert (He : e' = e).
    { destruct (Z.eq_dec e' e) as [|Hne]; [assumption|exfalso].
      assert (H2 : 2 ^ 1 <= 2 ^ (e' - e)) by (apply Z.pow_le_mono_r; lia).
      change (2 ^ 1) with 2 in H2. nia. }
    subst e'. rewrite Z.sub_diag in Hval. simpl in Hval.
    f_equal. lia.
Qed.

Lemma new_location_exact (n : Z) : new_location n 0 = loc_Exact.
Proof.
  unfold new_location, new_location_even, new_location_odd.
  destruct (Z.even n); reflexivity.
Qed.

(** The quotient and exponent that [MAX_SCORE / n] hands to the rounding. *)
Lemma div_core_MAX_SCORE (n : Z) :
  0 < n -> Zdigits2 n <= 1041 ->
  SFdiv_core_binary PyFloat.prec PyFloat.emax 1000000 0 n 0
  = ((1000000 * 2 ^ (33 + Zdigits2 n)) / n, - (33 + Zdigits2 n),
     new_location n ((1000000 * 2 ^ (33 + Zdigits2 n)) mod n)).
Proof.
  intros Hn Hd.
  assert (Hd1 : 1 <= Zdigits2 n).
  { destruct n; try lia. simpl. lia. }
  unfold SFdiv_core_binary.
  change (Zdigits2 1000000) with 20.
  rewrite fexp_normal by lia.
  replace (Z.min (20 + 0 - (Zdigits2 n + 0) - 53) (0 - 0))
    with (- (33 + Zdigits2 n)) by lia.
  replace (0 - 0 - - (33 + Zdigits2 n)) with (33 + Zdigits2 n) by lia.
  destruct (33 + Zdigits2 n) as [|p|p] eqn:Hs; try lia.
  rewrite Z.shiftl_mul_pow2 by lia.
  unfold Z.div, Z.modulo.
  destruct (Z.div_eucl (1000000 * 2 ^ Z.pos p) n) as [q r]. reflexivity.
Qed.

Lemma int_truediv_pos (a b : Z) :
  0 < a -> 0 < b ->
  PyFloat.int_truediv a b
  = let '(mz, ez, lz) := SFdiv_core_binary PyFloat.prec PyFloat.emax a 0 b 0 in
    binary_round_aux PyFloat.prec PyFloat.emax false mz ez lz.
Proof.
  intros Ha Hb. destruct a as [|a|a]; try lia. destruct b as [|b|b]; try lia.
  reflexivity.
Qed.


Lemma quotient_bounds (n B q r : Z) :
  0 < B -> B <= n < 2 * B ->
  1000000 * (17179869184 * B) = n * q + r -> 0 <= r < n ->
  4503599627370496 <= q < 18014398509481984.
Proof. intros HB Hn Hqr Hr. nia. Qed.

Lemma quotient_far_from_integers (n B k rho q r P : Z) :
  0 < B -> B <= n < 2 * B -> P = 17179869184 * B ->
  1000000 = n * k + rho -> 0 < rho < n -> 0 <= k ->
  1000000 * P = n * q + r -> 0 <= r < n ->
  k * P + 3 <= q /\ q + 3 <= (k + 1) * P.
Proof. intros HB Hn HP Hk Hrho Hk0 Hqr Hr. subst P. nia. Qed.

Lemma rounded_between (k T sh q a c P : Z) :
  0 < T -> P = T * (1 + sh) -> sh = 0 \/ sh = 1 ->
  k * P + 3 <= q -> q + 3 <= (k + 1) * P ->
  (1 + sh) * a <= q < (1 + sh) * a + (1 + sh) ->
  c = a \/ c = a + 1 ->
  k * T < c < (k + 1) * T.
Proof. intros HT HP Hsh Hlo Hhi Ha Hc. subst P. destruct Hsh as [-> | ->]; nia. Qed.

Lemma Zdigits2_le (n k : Z) : 0 < n -> 0 <= k -> n < 2 ^ k -> Zdigits2 n <= k.
Proof.
  intros Hn Hk Hlt. pose proof (Zdigits2_bounds n Hn) as [Hlo _].
  destruct (Z_lt_le_dec k (Zdigits2 n)) as [Hgt|]; [exfalso|assumption].
  assert (2 ^ k <= 2 ^ (Zdigits2 n - 1)) by (apply Z.pow_le_mono_r; lia).
  eapply Z.lt_irrefl, Z.lt_le_trans; [exact Hlt|].
  eapply Z.le_trans; eassumption.
Qed.

Lemma Zdigits2_pos (n : Z) : 0 < n -> 1 <= Zdigits2 n.
Proof. destruct n; try lia. intros _. simpl. lia. Qed.

(** [math.ceil(MAX_SCORE / n)] is the integer ceiling of the quotient: the
    rounding of the division never reaches an integer it should not. *)
Lemma truediv_MAX_SCORE_digits (n : Z) :
  1 <= n -> Zdigits2 n <= 1000 ->
  exists (m : positive) (e : Z),
    PyFloat.int_truediv 1000000 n = S754_finite false m e
    /\ 2 ^ 52 <= Z.pos m < 2 ^ 53
    /\ -1074 <= e < 0
    /\ PyFloat.ceil (S754_finite false m e) = (1000000 + n - 1) / n.
Proof.
  intros Hn Hd1000.
  assert (Hn0 : 0 < n) by lia.
  pose proof (Zdigits2_bounds n Hn0) as Hdn.
  pose proof (Zdigits2_pos n Hn0) as Hd1.
  set (d := Zdigits2 n) in *.
  set (B := 2 ^ (d - 1)) in *.
  assert (HB : 0 < B) by (apply Z.pow_pos_nonneg; lia).
  assert (HA : 2 ^ d = 2 * B).
  { unfold B. replace d with (1 + (d - 1)) at 1 by lia.
    rewrite Z.pow_add_r by lia. reflexivity. }
  set (P := 2 ^ (33 + d)).
  assert (HP : P = 17179869184 * B).
  { unfold P. rewrite Z.pow_add_r, HA by lia. change (2 ^ 33) with 8589934592. lia. }
  set (q := (1000000 * P) / n). set (r := (1000000 * P) mod n).
  assert (Hqr : 1000000 * P = n * q + r) by (apply Z.div_mod; lia).
  assert (Hr : 0 <= r < n) by (apply Z.mod_pos_bound; lia).
  assert (Hq : 4503599627370496 <= q < 18014398509481984).
  { apply (quotient_bounds n B q r); [lia|lia| |lia]. rewrite <- HP. exact Hqr. }
  set (k := 1000000 / n). set (rho := 1000000 mod n).
  assert (Hk : 1000000 = n * k + rho) by (apply Z.div_mod; lia).
  assert (Hrho : 0 <= rho < n) by (apply Z.mod_pos_bound; lia).
  assert (Hk0 : 0 <= k) by (apply Z.div_pos; lia).
  set (sh := if Z_lt_le_dec q 9007199254740992 then 0 else 1).
  assert (Hsh : sh = 0 \/ sh = 1) by (unfold sh; destruct (Z_lt_le_dec _ _); auto).
  assert (Hdq : Zdigits2 q = 53 + sh).
  { unfold sh. destruct (Z_lt_le_dec q 9007199254740992).
    - apply Zdigits2_unique; [|lia]. change (2 ^ (53 + 0 - 1)) with 4503599627370496.
      change (2 ^ (53 + 0)) with 9007199254740992. lia.
    - apply Zdigits2_unique; [|lia]. change (2 ^ (53 + 1 - 1)) with 9007199254740992.
      change (2 ^ (53 + 1)) with 18014398509481984. lia. }
  assert (Hpsh : 2 ^ sh = 1 + sh) by (destruct Hsh as [-> | ->]; reflexivity).
  set (T := 2 ^ (33 + d - sh)).
  assert (HT0 : 0 < T) by (apply Z.pow_pos_nonneg; lia).
  assert (HT : P = T * (1 + sh)).
  { rewrite <- Hpsh. unfold P, T. rewrite <- Z.pow_add_r by lia. f_equal. lia. }
  rewrite int_truediv_pos by lia.
  rewrite div_core_MAX_SCORE by (fold d; lia).
  fold d P q r.
  destruct (binary_round_aux_normal false q (- (33 + d)) (new_location n r))
    as (m' & e' & c & Heq & Hm' & He' & Hval & Hc & Hex).
  { change (2 ^ 52) with 4503599627370496. lia. }
  { rewrite Hdq. lia. }
  { rewrite Hdq. lia. }
  rewrite Hdq in He', Hval, Hc, Hex.
  replace (53 + sh - 53) with sh in He', Hval, Hc, Hex by lia.
  rewrite Hpsh in Hc, Hex.
  set (a := q / (1 + sh)) in *.
  assert (Ha : (1 + sh) * a <= q < (1 + sh) * a + (1 + sh)).
  { pose proof (Z.div_mod q (1 + sh) ltac:(lia)) as H1.
    pose proof (Z.mod_pos_bound q (1 + sh) ltac:(lia)) as H2.
    fold a in H1. lia. }
  exists m', e'. split; [exact Heq|]. split; [exact Hm'|].
  assert (He'hi : e' < 0).
  { destruct (Z_lt_le_dec e' 0) as [|Hge]; [assumption|exfalso].
    assert (H35 : 2 ^ 3 <= 2 ^ (e' - (- (33 + d) + sh)))
      by (apply Z.pow_le_mono_r; lia).
    change (2 ^ 3) with 8 in H35.
    change (2 ^ 52) with 4503599627370496 in Hm'.
    assert (Hca : c <= q + 1) by (destruct Hsh as [Hs|Hs]; rewrite Hs in Ha; lia).
    clear - H35 Hm' Hca Hval Hq. nia. }
  split; [lia|].
  rewrite (ceil_finite_scaled m' e' c (- (33 + d) + sh)) by lia.
  replace (- (- (33 + d) + sh)) with (33 + d - sh) by lia. fold T.
  destruct (Z.eq_dec rho 0) as [Hrho0|Hrho0].
  - (* n divides MAX_SCORE: the division is exact *)
    assert (Hqk : q = k * P).
    { unfold q. replace (1000000 * P) with (k * P * n) by (rewrite Hk at 1; lia).
      apply Z.div_mul. lia. }
    assert (Hr0 : r = 0).
    { unfold r. replace (1000000 * P) with (k * P * n) by (rewrite Hk at 1; lia).
      apply Z.mod_mul. lia. }
    assert (Hcv : c = k * T).
    { rewrite Hex.
      - unfold a. rewrite Hqk, HT.
        replace (k * (T * (1 + sh))) with (k * T * (1 + sh)) by lia.
        apply Z.div_mul. lia.
      - rewrite Hr0. apply new_location_exact.
      - exists (k * T). rewrite Hqk, HT. lia. }
    rewrite Hcv.
    replace (- (k * T)) with ((- k) * T) by lia.
    rewrite Z.div_mul by lia.
    replace (- - k) with k by lia.
    apply Z.div_unique with (r := n - 1); lia.
  - (* otherwise the rounded quotient stays strictly between k and k + 1 *)
    destruct (quotient_far_from_integers n B k rho q r P) as [Hqlo Hqhi];
      try assumption; try lia.
    destruct (rounded_between k T sh q a c P) as [Hclo Hchi]; try assumption.
    assert (Hdiv : - c / T = - (k + 1)).
    { symmetry. apply Z.div_unique with (r := (k + 1) * T - c); lia. }
    rewrite Hdiv.
    replace (- - (k + 1)) with (k + 1) by lia.
    apply Z.div_unique with (r := rho - 1); lia.
Qed.

Lemma truediv_MAX_SCORE (n : Z) :
  1 <= n < 2 ^ 1000 ->
  exists (m : positive) (e : Z),
    PyFloat.int_truediv 1000000 n = S754_finite false m e
    /\ 2 ^ 52 <= Z.pos m < 2 ^ 53
    /\ -1074 <= e < 0
    /\ PyFloat.ceil (S754_finite false m e) = (1000000 + n - 1) / n.
Proof.
  intros [Hlo Hhi]. apply truediv_MAX_SCORE_digits; [exact Hlo|].
  apply Zdigits2_le; [|discriminate|exact Hhi].
  eapply Z.lt_le_trans; [|exact Hlo]. reflexivity.
Qed.

Lemma calculate_score_perfect (js : JudgementSystem.t) :
  1 <= JudgementSystem.total_notes js < 2 ^ 1000 ->
  JudgementSystem.calculate_score JudgementResult.PERFECT js
  = (1000000 + JudgementSystem.total_notes js - 1) / JudgementSystem.total_notes js.
Proof.
  intros Hn. unfold JudgementSystem.calculate_score.
  replace (JudgementSystem.total_notes js =? 0) with false
    by (symmetry; apply Z.eqb_neq; lia).
  unfold JudgementSystem.MAX_SCORE, JudgementSystem.judgement_scores,
    JudgementSystem.DEFAULT_JUDGEMENT_SCORES.
  destruct (truediv_MAX_SCORE _ Hn) as (m & e & Heq & Hm & He & Hceil).
  rewrite Heq, mul_lit_1_0 by lia. exact Hceil.
Qed.

(** *** Signs *)

Lemma binary_round_aux_abs (m e : Z) (l : location) :
  SFabs (binary_round_aux PyFloat.prec PyFloat.emax false m e l)
  = binary_round_aux PyFloat.prec PyFloat.emax false m e l.
Proof.
  unfold binary_round_aux.
  destruct (shr_fexp _ _ m e l) as [mrs e1].
  destruct (shr_fexp _ _ _ e1 loc_Exact) as [mrs' e2].
  destruct (shr_m mrs'); [reflexivity| |reflexivity].
  destruct (e2 <=? _); reflexivity.
Qed.

Lemma binary_round_abs (m : positive) (e : Z) :
  SFabs (binary_round PyFloat.prec PyFloat.emax false m e)
  = binary_round PyFloat.prec PyFloat.emax false m e.
Proof.
  unfold binary_round. destruct (shl_align _ _ _) as [mz ez].
  apply binary_round_aux_abs.
Qed.

Lemma of_int_abs (z : Z) : 0 <= z -> SFabs (PyFloat.of_int z) = PyFloat.of_int z.
Proof.
  intros Hz. destruct z as [|p|p]; [reflexivity| |lia].
  apply binary_round_abs.
Qed.

Lemma mul_abs (x y : PyFloat.float) :
  SFabs x = x -> SFabs y = y -> SFabs (PyFloat.mul x y) = PyFloat.mul x y.
Proof.
  intros Hx Hy.
  destruct x as [[]|[]| |[] mx ex]; try discriminate;
    destruct y as [[]|[]| |[] my ey]; try discriminate; try reflexivity.
  apply binary_round_aux_abs.
Qed.

Lemma add_abs (x y : PyFloat.float) :
  SFabs x = x -> SFabs y = y -> SFabs (PyFloat.add x y) = PyFloat.add x y.
Proof.
  intros Hx Hy.
  destruct x as [[]|[]| |[] mx ex]; try discriminate;
    destruct y as [[]|[]| |[] my ey]; try discriminate; try reflexivity.
  unfold PyFloat.add, SFadd, cond_Zopp.
  rewrite <- Pos2Z.inj_add. apply binary_round_abs.
Qed.

Lemma add_zero_r (x : PyFloat.float) :
  SFabs x = x -> PyFloat.add x PyFloat.lit_0_0 = x.
Proof.
  intros Hx. destruct x as [[]|[]| |[] mx ex]; try discriminate; reflexivity.
Qed.

Lemma pos_iter_xO (p k : positive) :
  Z.pos (Pos.iter xO p k) = Z.pos p * 2 ^ Z.pos k.
Proof.
  induction k as [|k IH] using Pos.peano_ind.
  - simpl. lia.
  - rewrite Pos.iter_succ, Pos2Z.inj_xO, IH.
    rewrite Pos2Z.inj_succ, Z.pow_succ_r by lia. lia.
Qed.

(** [float(z)] is finite for a positive [z] below [2 ^ 1023]. *)
Lemma of_int_finite (z : Z) :
  0 < z < 2 ^ 1023 ->
  exists (m : positive) (e : Z), PyFloat.of_int z = S754_finite false m e.
Proof.
  intros Hz. destruct z as [|p|p]; try lia.
  pose proof (Zdigits2_bounds (Z.pos p) ltac:(lia)) as HD.
  unfold PyFloat.of_int, binary_normalize, binary_round.
  change (Z.pos (digits2_pos p)) with (Zdigits2 (Z.pos p)).
  set (D := Zdigits2 (Z.pos p)) in *.
  assert (HD1 : 1 <= D) by (unfold D; simpl; lia).
  assert (HD1023 : D <= 1023).
  { destruct (Z_lt_le_dec 1023 D) as [Hlt|]; [|lia].
    assert (2 ^ 1023 <= 2 ^ (D - 1)) by (apply Z.pow_le_mono_r; lia). lia. }
  rewrite fexp_normal by lia. unfold shl_align.
  replace (D + 0 - 53 - 0) with (D - 53) by lia.
  destruct (D - 53) as [|k|k] eqn:Hk.
  - destruct (binary_round_aux_normal false (Z.pos p) 0 loc_Exact)
      as (m' & e' & c & Heq & _); fold D.
    + replace (2 ^ 52) with (2 ^ (D - 1)) by (f_equal; lia). lia.
    + lia.
    + lia.
    + eauto.
  - destruct (binary_round_aux_normal false (Z.pos p) 0 loc_Exact)
      as (m' & e' & c & Heq & _); fold D.
    + assert (2 ^ 52 <= 2 ^ (D - 1)) by (apply Z.pow_le_mono_r; lia). lia.
    + lia.
    + lia.
    + eauto.
  - assert (Hm : 2 ^ 52 <= Z.pos (Pos.iter xO p k) < 2 ^ 53).
    { rewrite pos_iter_xO.
      replace (2 ^ 52) with (2 ^ (D - 1) * 2 ^ Z.pos k)
        by (rewrite <- Z.pow_add_r by lia; f_equal; lia).
      replace (2 ^ 53) with (2 ^ D * 2 ^ Z.pos k)
        by (rewrite <- Z.pow_add_r by lia; f_equal; lia).
      assert (0 < 2 ^ Z.pos k) by (apply Z.pow_pos_nonneg; lia). nia. }
    assert (Hd : Zdigits2 (Z.pos (Pos.iter xO p k)) = 53)
      by (apply Zdigits2_unique; simpl Z.sub; lia).
    destruct (binary_round_aux_normal false (Z.pos (Pos.iter xO p k)) (D - 53) loc_Exact)
      as (m' & e' & c & Heq & _).
    + lia.
    + rewrite Hd. lia.
    + rewrite Hd. lia.
    + replace (D + 0 - 53) with (D - 53) by lia. eauto.
Qed.

Lemma mul_of_int_zero (z : Z) :
  0 <= z < 2 ^ 1023 -> PyFloat.mul (PyFloat.of_int z) PyFloat.lit_0_0 = PyFloat.lit_0_0.
Proof.
  intros Hz. destruct (Z.eq_dec z 0) as [->|Hne]; [reflexivity|].
  destruct (of_int_finite z) as (m & e & ->); [lia|reflexivity].
Qed.

(** ** Judgement windows *)

Lemma windows_table (d : Difficulty.t) :
  let js := JudgementSystem.__init__ d in
  (JudgementSystem.window js JudgementResult.PERFECT,
   JudgementSystem.window js JudgementResult.GOOD,
   JudgementSystem.window js JudgementResult.BAD)
  = match d with
    | Difficulty.EASY => (104, 208, 260)
    | Difficulty.NORMAL => (80, 160, 200)
    | Difficulty.HARD => (64, 128, 160)
    | Difficulty.EXPERT => (48, 96, 120)
    | Difficulty.MASTER => (40, 80, 100)
    end.
Proof. destruct d; vm_compute; reflexivity. Qed.

Lemma window_perfect_lower (js : JudgementSystem.t) :
  40 <= JudgementSystem.window js JudgementResult.PERFECT.
Proof.
  destruct js as [d c n]. destruct d; vm_compute; discriminate.
Qed.

Lemma get_judgement_0 (js : JudgementSystem.t) :
  JudgementSystem.get_judgement 0 js = JudgementResult.PERFECT.
Proof.
  unfold JudgementSystem.get_judgement.
  pose proof (window_perfect_lower js).
  destruct (Z.leb_spec 0 (JudgementSystem.window js JudgementResult.PERFECT));
    [reflexivity|lia].
Qed.

(** ** Scenario 1 *)

(** C1: with the single NORMAL note of track 0 at 1000 ms loaded and the
    game running, a press on track 0 at 1005 ms is judged PERFECT, and the
    score becomes 1,000,000 and the combo 1, on every difficulty. *)
Theorem press_at_1005_is_perfect (d : Difficulty.t) :
  let s := Scenario.at_1005 d in
  let r := GameState.judge_note 0 "press" s in
  GameState.is_playing s = true
  /\ GameState.is_paused s = false
  /\ GameState.current_time_ms s = 1005
  /\ Spec.total_notes_of s = 1
  /\ fst r = Some JudgementResult.PERFECT
  /\ GameState.score (snd r) = 1000000
  /\ GameState.combo (snd r) = 1.
Proof. destruct d; vm_compute; repeat split; reflexivity. Qed.

(** ** Scores *)

Lemma judge_note_fields (i : nat) (d : Z) (s : GameState.t) :
  let s' := snd (GameState._judge_note i d s) in
  let r := JudgementSystem.get_judgement d (GameState.judgement_system s) in
  fst (GameState._judge_note i d s) = r
  /\ GameState.objects s' = alter (GameState.mark r) i (GameState.objects s)
  /\ GameState.judged s' = (i, r) :: GameState.judged s
  /\ GameState.judgement_system s'
     = JudgementSystem.record r (GameState.judgement_system s)
  /\ GameState.tracks s' = GameState.tracks s
  /\ GameState.notes s' = GameState.notes s
  /\ GameState.current_time_ms s' = GameState.current_time_ms s
  /\ GameState.is_playing s' = GameState.is_playing s
  /\ GameState.is_paused s' = GameState.is_paused s
  /\ GameState.autoplay s' = GameState.autoplay s
  /\ GameState.chart_end_time_ms s' = GameState.chart_end_time_ms s.
Proof.
  cbv zeta. unfold GameState._judge_note.
  destruct (negb (JudgementResult.eqb _ JudgementResult.MISS));
    cbn; repeat split; reflexivity.
Qed.

Lemma judge_note_score (i : nat) (d : Z) (s : GameState.t) :
  let r := JudgementSystem.get_judgement d (GameState.judgement_system s) in
  GameState.score (snd (GameState._judge_note i d s))
  = if JudgementResult.eqb r JudgementResult.MISS then GameState.score s
    else Z.min (GameState.score s
                + JudgementSystem.calculate_score r (GameState.judgement_system s))
               JudgementSystem.MAX_SCORE.
Proof.
  cbv zeta. unfold GameState._judge_note.
  destruct (JudgementResult.eqb _ JudgementResult.MISS); cbn; reflexivity.
Qed.

Lemma get_judgement_perfect (d : Z) (js : JudgementSystem.t) :
  d <= JudgementSystem.window js JudgementResult.PERFECT ->
  JudgementSystem.get_judgement d js = JudgementResult.PERFECT.
Proof.
  intros H. unfold JudgementSystem.get_judgement.
  destruct (Z.leb_spec d (JudgementSystem.window js JudgementResult.PERFECT));
    [reflexivity|lia].
Qed.

Lemma record_static (r : JudgementResult.t) (js : JudgementSystem.t) :
  JudgementSystem.total_notes (JudgementSystem.record r js)
  = JudgementSystem.total_notes js
  /\ JudgementSystem.difficulty (JudgementSystem.record r js)
     = JudgementSystem.difficulty js.
Proof. split; reflexivity. Qed.

Lemma window_record (r q : JudgementResult.t) (js : JudgementSystem.t) :
  JudgementSystem.window (JudgementSystem.record r js) q = JudgementSystem.window js q.
Proof. reflexivity. Qed.

Lemma calculate_score_record (r q : JudgementResult.t) (js : JudgementSystem.t) :
  JudgementSystem.calculate_score q (JudgementSystem.record r js)
  = JudgementSystem.calculate_score q js.
Proof. reflexivity. Qed.

(** The score after a run of PERFECT judgements. *)
Lemma judge_all_perfect_score (l : list (nat * Z)) (s : GameState.t) :
  Forall (fun x => snd x <= JudgementSystem.window (GameState.judgement_system s)
                             JudgementResult.PERFECT) l ->
  0 <= JudgementSystem.calculate_score JudgementResult.PERFECT
         (GameState.judgement_system s) ->
  GameState.score s <= JudgementSystem.MAX_SCORE ->
  GameState.score (Spec.judge_all l s)
  = Z.min (GameState.score s
           + Z.of_nat (length l)
             * JudgementSystem.calculate_score JudgementResult.PERFECT
                 (GameState.judgement_system s))
          JudgementSystem.MAX_SCORE.
Proof.
  revert s. induction l as [|[i d] l IH]; intros s Hl Hg Hs.
  - cbn. lia.
  - apply Forall_cons in Hl as [Hd Hl]. cbn [fst snd] in Hd.
    unfold Spec.judge_all in *. cbn [fold_left fst snd].
    destruct (judge_note_fields i d s) as (_ & _ & _ & Hjs & _).
    cbv zeta in Hjs. rewrite get_judgement_perfect in Hjs by exact Hd.
    rewrite IH.
    + rewrite Hjs, calculate_score_record, judge_note_score.
      rewrite get_judgement_perfect by exact Hd. cbn [JudgementResult.eqb].
      cbn [length]. lia.
    + rewrite Hjs. exact Hl.
    + rewrite Hjs, calculate_score_record. exact Hg.
    + rewrite judge_note_score, get_judgement_perfect by exact Hd.
      cbn [JudgementResult.eqb]. lia.
Qed.

(** C8: for [1 <= n] notes the PERFECT score of a note is the integer
    ceiling of [MAX_SCORE / n], so [n] of them sum to at least MAX_SCORE
    and to at most [MAX_SCORE + n - 1]; a run in which all [n] notes are
    judged PERFECT from a score of 0 ends, after the clamp, at exactly
    MAX_SCORE.  ([n] is the length of a list, hence far below [2 ^ 1000].) *)
Theorem perfect_scores_sum_to_MAX_SCORE (s : GameState.t) :
  let js := GameState.judgement_system s in
  let n := JudgementSystem.total_notes js in
  let gain := JudgementSystem.calculate_score JudgementResult.PERFECT js in
  1 <= n < 2 ^ 1000 ->
  gain = (JudgementSystem.MAX_SCORE + n - 1) / n
  /\ JudgementSystem.MAX_SCORE <= n * gain <= JudgementSystem.MAX_SCORE + (n - 1)
  /\ (forall l : list (nat * Z),
        Z.of_nat (length l) = n ->
        Forall (fun x => snd x <= JudgementSystem.window js JudgementResult.PERFECT) l ->
        GameState.score s = 0 ->
        GameState.score (Spec.judge_all l s) = JudgementSystem.MAX_SCORE).
Proof.
  intros js n gain Hn.
  assert (Hgain : gain = (JudgementSystem.MAX_SCORE + n - 1) / n)
    by (apply calculate_score_perfect; exact Hn).
  assert (Hsum : JudgementSystem.MAX_SCORE <= n * gain
                 <= JudgementSystem.MAX_SCORE + (n - 1)).
  { rewrite Hgain. unfold JudgementSystem.MAX_SCORE.
    pose proof (Z.div_mod (1000000 + n - 1) n ltac:(lia)) as Hdm.
    pose proof (Z.mod_pos_bound (1000000 + n - 1) n ltac:(lia)) as Hmb.
    lia. }
  split; [exact Hgain|]. split; [exact Hsum|].
  intros l Hlen Hl Hs0.
  rewrite judge_all_perfect_score; fold js gain.
  - rewrite Hs0, Hlen. lia.
  - exact Hl.
  - unfold JudgementSystem.MAX_SCORE in Hsum. nia.
  - rewrite Hs0. unfold JudgementSystem.MAX_SCORE. lia.
Qed.

Lemma perfect_scores_sum_to_MAX_SCORE_witness :
  let s := GameState.set_judgement_system Scenario.three_notes
             (GameState.__init__ Difficulty.NORMAL 0) in
  JudgementSystem.calculate_score JudgementResult.PERFECT Scenario.three_notes = 333334
  /\ 1000000 <= 3 * 333334 <= 1000000 + (3 - 1)
  /\ GameState.score (Spec.judge_all [(0%nat, 0); (1%nat, 12); (2%nat, 80)] s) = 1000000.
Proof.
  intros s.
  destruct (perfect_scores_sum_to_MAX_SCORE s) as (Hg & Hsum & Hrun).
  - vm_compute. split; [discriminate|reflexivity].
  - split; [exact Hg|]. split; [lia|].
    apply Hrun; [reflexivity| |reflexivity].
    repeat constructor; vm_compute; discriminate.
Defined.

(** ** Accuracy *)

(** C10: [get_accuracy] is exactly [1.0] when no judgement has been
    recorded; otherwise it is [(perfect * 1.0 + good * 0.65) / total] in
    binary64 arithmetic, where [total] counts PERFECT, GOOD, BAD and MISS
    alike and neither BAD nor MISS enters the numerator. *)
Theorem get_accuracy_spec (s : GameState.t) :
  let c := Spec.counts_of s in
  let p := JudgementSystem.n_perfect c in
  let g := JudgementSystem.n_good c in
  let b := JudgementSystem.n_bad c in
  let m := JudgementSystem.n_miss c in
  0 <= p -> 0 <= g -> 0 <= b < 2 ^ 1023 -> 0 <= m ->
  (p = 0 /\ g = 0 /\ b = 0 /\ m = 0 -> GameState.get_accuracy s = PyFloat.lit_1_0)
  /\ (0 < p + g + b + m ->
      GameState.get_accuracy s
      = PyFloat.div
          (PyFloat.add (PyFloat.mul (PyFloat.of_int p) PyFloat.lit_1_0)
                       (PyFloat.mul (PyFloat.of_int g) PyFloat.lit_0_65))
          (PyFloat.of_int (p + g + b + m))).
Proof.
  intros c p g b m Hp Hg Hb Hm.
  unfold GameState.get_accuracy. fold (Spec.counts_of s). fold c p g b m.
  split.
  - intros (-> & -> & -> & ->). reflexivity.
  - intros Htot.
    replace (p + g + b + m =? 0) with false by (symmetry; apply Z.eqb_neq; lia).
    rewrite mul_of_int_zero by exact Hb.
    rewrite add_zero_r; [reflexivity|].
    apply add_abs; apply mul_abs; try apply of_int_abs; try assumption; reflexivity.
Qed.

Lemma get_accuracy_spec_witness :
  let s := GameState.set_judgement_system
             (JudgementSystem.mk Difficulty.NORMAL
                (JudgementSystem.mk_counts 2 1 1 1) 5)
             (GameState.__init__ Difficulty.NORMAL 0) in
  GameState.get_accuracy s
  = PyFloat.div
      (PyFloat.add (PyFloat.mul (PyFloat.of_int 2) PyFloat.lit_1_0)
                   (PyFloat.mul (PyFloat.of_int 1) PyFloat.lit_0_65))
      (PyFloat.of_int (2 + 1 + 1 + 1)).
Proof.
  intros s.
  apply (get_accuracy_spec s); try (vm_compute; discriminate);
    try (vm_compute; split; [discriminate|reflexivity]); reflexivity.
Defined.

(** ** Note.update and Note.is_complete *)

Lemma note_update_hit (t : Z) (a : bool) (k : Z) (n : Note.t) :
  Note.hit (Note.update t a k n) = Note.hit n
  /\ Note.judgement (Note.update t a k n) = Note.judgement n
  /\ Note.type (Note.update t a k n) = Note.type n
  /\ Note.perfect_time (Note.update t a k n) = Note.perfect_time n
  /\ Note.duration (Note.update t a k n) = Note.duration n
  /\ Note.track_index (Note.update t a k n) = Note.track_index n.
Proof.
  unfold Note.update.
  destruct (negb (k =? -1)); cbn;
    destruct (NoteType.eqb (Note.type n) NoteType.HOLD && Note.hit n && a); cbn;
    try destruct (Note.start_hold_time n); cbn; repeat split; reflexivity.
Qed.

Lemma note_update_held_time (t : Z) (a : bool) (k : Z) (n : Note.t) :
  Note.held_time (Note.update t a k n)
  = if NoteType.eqb (Note.type n) NoteType.HOLD && Note.hit n && a
    then Z.min (t - Note.perfect_time n) (Note.duration n)
    else Note.held_time n.
Proof.
  unfold Note.update.
  destruct (negb (k =? -1)); cbn;
    destruct (NoteType.eqb (Note.type n) NoteType.HOLD && Note.hit n && a); cbn;
    try destruct (Note.start_hold_time n); cbn; reflexivity.
Qed.

(** ** The effect of the steps of a tick *)

Ltac break_match :=
  match goal with
  | |- context [match ?x with _ => _ end] => destruct x eqn:?
  end.

Ltac step_cases := repeat (break_match; cbn); cbn.

Lemma judge_miss_fields (i : nat) (s : GameState.t) :
  let s' := GameState._judge_miss i s in
  GameState.objects s'
  = alter (GameState.mark JudgementResult.MISS) i (GameState.objects s)
  /\ GameState.judged s' = (i, JudgementResult.MISS) :: GameState.judged s
  /\ GameState.judgement_system s'
     = JudgementSystem.record JudgementResult.MISS (GameState.judgement_system s)
  /\ GameState.combo s' = 0
  /\ GameState.score s' = GameState.score s
  /\ GameState.tracks s' = GameState.tracks s
  /\ GameState.notes s' = GameState.notes s
  /\ GameState.current_time_ms s' = GameState.current_time_ms s
  /\ GameState.is_playing s' = GameState.is_playing s
  /\ GameState.is_paused s' = GameState.is_paused s
  /\ GameState.autoplay s' = GameState.autoplay s
  /\ GameState.chart_end_time_ms s' = GameState.chart_end_time_ms s.
Proof. cbn. repeat split; reflexivity. Qed.

Arguments GameState._judge_note : simpl never.
Arguments GameState._judge_miss : simpl never.

(** Every step of a tick after the clock has advanced leaves the clock
    alone. *)
Lemma cache_impl_time (s : GameState.t) :
  GameState.current_time_ms (GameState._update_notes_cache_impl s)
  = GameState.current_time_ms s.
Proof. unfold GameState._update_notes_cache_impl. step_cases; reflexivity. Qed.

Lemma auto_miss_step_time (s : GameState.t) (i : nat) :
  GameState.current_time_ms (GameState.auto_miss_step s i)
  = GameState.current_time_ms s.
Proof. unfold GameState.auto_miss_step. step_cases; reflexivity. Qed.

Lemma drag_step_time (s : GameState.t) (i : nat) :
  GameState.current_time_ms (GameState.drag_step s i)
  = GameState.current_time_ms s.
Proof.
  unfold GameState.drag_step, GameState._judge_perfect.
  step_cases; try reflexivity. apply (judge_note_fields i 0 s).
Qed.

Lemma lifecycle_step_time (s : GameState.t) (i : nat) :
  GameState.current_time_ms (GameState.lifecycle_step s i)
  = GameState.current_time_ms s.
Proof. unfold GameState.lifecycle_step. step_cases; reflexivity. Qed.

Lemma end_marker_step_time (e : Z) (s : GameState.t) (i : nat) :
  GameState.current_time_ms (GameState.end_marker_step e s i)
  = GameState.current_time_ms s.
Proof. unfold GameState.end_marker_step. step_cases; reflexivity. Qed.

Lemma fold_left_preserves {A B C : Type} (f : A -> B -> A) (proj : A -> C)
    (l : list B) (a : A) :
  (forall a b, proj (f a b) = proj a) -> proj (fold_left f l a) = proj a.
Proof.
  intros Hf. revert a. induction l as [|b l IH]; intros a; cbn; [reflexivity|].
  rewrite IH. apply Hf.
Qed.

Lemma check_game_over_time (s : GameState.t) :
  GameState.current_time_ms (GameState._check_game_over s)
  = GameState.current_time_ms s.
Proof.
  unfold GameState._check_game_over.
  step_cases; try reflexivity.
  apply (fold_left_preserves _ GameState.current_time_ms), end_marker_step_time.
Qed.

Lemma activate_track_time (k : Z) (s s' : GameState.t) :
  GameState.activate_track k s = Some s' ->
  GameState.current_time_ms s' = GameState.current_time_ms s.
Proof.
  unfold GameState.activate_track. destruct (PyList.index _ _); [|discriminate].
  intros [= <-]. reflexivity.
Qed.

Lemma autoplay_step_time (s : GameState.t) (i : nat) :
  GameState.current_time_ms (GameState.state_of (GameState.autoplay_step s i))
  = GameState.current_time_ms s.
Proof.
  unfold GameState.autoplay_step, GameState._judge_perfect.
  repeat (break_match; cbn [GameState.state_of]); try reflexivity;
    try (erewrite (proj1 (proj2 (proj2 (proj2 (proj2 (proj2 (proj2
           (judge_note_fields i 0 _))))))));
         eauto using activate_track_time);
    try (cbn; eauto using activate_track_time).
Qed.

Lemma run_autoplay_preserves {C : Type} (proj : GameState.t -> C)
    (l : list nat) (s : GameState.t) :
  (forall s i, proj (GameState.state_of (GameState.autoplay_step s i)) = proj s) ->
  proj (GameState.state_of (GameState.run_autoplay l s)) = proj s.
Proof.
  intros Hf. revert s. induction l as [|i l IH]; intros s; cbn; [reflexivity|].
  specialize (Hf s i). destruct (GameState.autoplay_step s i) as [s'|s']; cbn in *.
  - rewrite IH. exact Hf.
  - exact Hf.
Qed.

Lemma finish_update_time (s : GameState.t) :
  GameState.current_time_ms (GameState.finish_update s)
  = GameState.current_time_ms s.
Proof.
  unfold GameState.finish_update. rewrite check_game_over_time.
  rewrite (fold_left_preserves _ GameState.current_time_ms)
    by apply lifecycle_step_time.
  destruct (negb (GameState.autoplay s)); [|reflexivity].
  apply (fold_left_preserves _ GameState.current_time_ms), drag_step_time.
Qed.

(** The clock after an [update], whether it returns or raises. *)
Lemma update_time (dt : Z) (s : GameState.t) :
  GameState.current_time_ms (GameState.state_of (GameState.update dt s))
  = if negb (GameState.is_playing s) || GameState.is_paused s
    then GameState.current_time_ms s
    else GameState.current_time_ms (GameState.advance_time dt s).
Proof.
  unfold GameState.update.
  destruct (negb (GameState.is_playing s) || GameState.is_paused s);
    [reflexivity|].
  destruct (GameState.autoplay (GameState._update_notes_cache_impl _)).
  - unfold GameState._process_autoplay.
    pose proof (run_autoplay_preserves GameState.current_time_ms
                  (GameState.notes (GameState._update_notes_cache_impl
                                      (GameState.advance_time dt s)))
                  (GameState._update_notes_cache_impl (GameState.advance_time dt s))
                  autoplay_step_time) as H.
    destruct (GameState.run_autoplay _ _) as [s'|s']; cbn [GameState.state_of] in *.
    + rewrite finish_update_time, H. apply cache_impl_time.
    + rewrite H. apply cache_impl_time.
  - cbn [GameState.state_of]. rewrite finish_update_time.
    unfold GameState._process_auto_miss.
    rewrite (fold_left_preserves _ GameState.current_time_ms)
      by apply auto_miss_step_time.
    apply cache_impl_time.
Qed.

(** ** The clock *)

(** C9, counterexample: at time 0 a negative delta is applied as it is. *)
Lemma clock_can_go_back :
  ~ (forall (s : GameState.t) (delta_time_ms : Z),
       GameState.is_playing s = true -> GameState.is_paused s = false ->
       GameState.current_time_ms s
       <= GameState.current_time_ms
            (GameState.state_of (GameState.update delta_time_ms s))).
Proof.
  intros H.
  specialize (H (Scenario.boot Difficulty.NORMAL Scenario.single_normal) (-5)
                eq_refl eq_refl).
  vm_compute in H. apply H. reflexivity.
Qed.

(** C9, as amended: while the game is playing and not paused, an
    [update(delta_time_ms)] with [delta_time_ms >= 0], or made when the
    clock is not at 0, leaves [current_time_ms] at least as large as it
    was; precisely, the clock advances by the delta when the delta is
    positive or the clock is at 0, and stays put otherwise. *)
Theorem clock_nondecreasing (s : GameState.t) (delta_time_ms : Z) :
  GameState.is_playing s = true -> GameState.is_paused s = false ->
  let after :=
    GameState.current_time_ms
      (GameState.state_of (GameState.update delta_time_ms s)) in
  after = (if (GameState.current_time_ms s =? 0) || (0 <? delta_time_ms)
           then GameState.current_time_ms s + delta_time_ms
           else GameState.current_time_ms s)
  /\ (0 <= delta_time_ms \/ GameState.current_time_ms s <> 0 ->
      GameState.current_time_ms s <= after).
Proof.
  intros Hplay Hpause after. unfold after. rewrite update_time.
  rewrite Hplay, Hpause. cbn [negb orb]. unfold GameState.advance_time.
  destruct (Z.eqb_spec (GameState.current_time_ms s) 0) as [H0|H0];
    destruct (Z.ltb_spec 0 delta_time_ms) as [Hd|Hd]; cbn; split;
    try reflexivity; lia.
Qed.

Lemma clock_nondecreasing_witness :
  let s := Scenario.at_1005 Difficulty.NORMAL in
  GameState.current_time_ms s
  <= GameState.current_time_ms (GameState.state_of (GameState.update 16 s)).
Proof.
  intros s.
  apply (clock_nondecreasing s 16); [reflexivity|reflexivity|].
  left. discriminate.
Defined.

(** ** Combo *)

Lemma fold_left_invariant {A B : Type} (f : A -> B -> A) (P : A -> Prop)
    (l : list B) (a : A) :
  P a -> (forall a b, P a -> P (f a b)) -> P (fold_left f l a).
Proof.
  intros Ha Hf. revert a Ha. induction l as [|b l IH]; intros a Ha; cbn; auto.
Qed.

Lemma judge_note_combo (i : nat) (d : Z) (s : GameState.t) :
  let r := JudgementSystem.get_judgement d (GameState.judgement_system s) in
  GameState.combo (snd (GameState._judge_note i d s))
  = if JudgementResult.eqb r JudgementResult.MISS then 0 else GameState.combo s + 1.
Proof.
  cbv zeta. unfold GameState._judge_note.
  destruct (JudgementResult.eqb _ JudgementResult.MISS); reflexivity.
Qed.

Lemma judge_target_result (k : Z) (s : GameState.t) (r : JudgementResult.t) :
  fst (GameState.judge_target k s) = Some r ->
  exists (i : nat) (d : Z) (s0 : GameState.t),
    GameState.judge_target k s
    = (Some (fst (GameState._judge_note i d s0)), snd (GameState._judge_note i d s0))
    /\ fst (GameState._judge_note i d s0) = r.
Proof.
  unfold GameState.judge_target.
  destruct (PyList.sort_by snd _) as [|[i d] l]; [discriminate|].
  destruct (GameState._judge_note i d _) as [r' s'] eqn:Hj. cbn.
  intros [= ->]. exists i, d, (GameState._update_notes_cache_impl s).
  rewrite Hj. auto.
Qed.

(** A pass that only ever calls [_judge_miss] either records nothing or
    ends with the combo at 0. *)
Lemma miss_pass_combo (step : GameState.t -> nat -> GameState.t)
    (l : list nat) (s : GameState.t) :
  (forall s i, step s i = s \/ step s i = GameState._judge_miss i s) ->
  let s' := fold_left step l s in
  (JudgementSystem.n_miss (Spec.counts_of s') = JudgementSystem.n_miss (Spec.counts_of s)
   /\ GameState.combo s' = GameState.combo s)
  \/ (JudgementSystem.n_miss (Spec.counts_of s) < JudgementSystem.n_miss (Spec.counts_of s')
      /\ GameState.combo s' = 0).
Proof.
  intros Hstep. cbv zeta. apply fold_left_invariant; [left; auto|].
  intros a i Ha. destruct (Hstep a i) as [-> | ->]; [exact Ha|].
  destruct (judge_miss_fields i a) as (_ & _ & Hjs & Hc & _). cbv zeta in Hjs, Hc.
  right. unfold Spec.counts_of in *. rewrite Hjs, Hc. cbn. split; [lia|reflexivity].
Qed.

Lemma auto_miss_step_cases (s : GameState.t) (i : nat) :
  GameState.auto_miss_step s i = s
  \/ GameState.auto_miss_step s i = GameState._judge_miss i s.
Proof. unfold GameState.auto_miss_step. step_cases; auto. Qed.

Lemma end_marker_step_cases (e : Z) (s : GameState.t) (i : nat) :
  GameState.end_marker_step e s i = s
  \/ GameState.end_marker_step e s i = GameState._judge_miss i s.
Proof. unfold GameState.end_marker_step. step_cases; auto. Qed.

Lemma release_step_combo (k : Z) (s : GameState.t) (i : nat) :
  GameState.combo (GameState.release_step k s i) = GameState.combo s
  /\ GameState.score (GameState.release_step k s i) = GameState.score s.
Proof. unfold GameState.release_step. step_cases; auto. Qed.

(** C2, counterexample: the HOLD note of scenario 3 is hit PERFECT at
    2010 ms (combo 1) and released at once; the release records the forced
    BAD and the combo is still 1. *)
Lemma forced_bad_keeps_combo :
  ~ (forall (s : GameState.t) (k : Z),
       GameState.is_playing s = true -> GameState.is_paused s = false ->
       JudgementSystem.n_bad (Spec.counts_of (GameState.release_scan k s))
       = JudgementSystem.n_bad (Spec.counts_of s) + 1 ->
       GameState.combo (snd (GameState.judge_note k "release" s)) = 0).
Proof.
  intros H.
  specialize (H (Scenario.hold_pressed_at 2010) 1 eq_refl eq_refl eq_refl).
  vm_compute in H. discriminate H.
Qed.

(** C2, as amended: the combo is 0 after every Miss judgement, that is
    after [_judge_miss], after a [_judge_note] or a [judge_note] that
    classifies as MISS, and after an auto-miss pass or an end-marker pass
    that recorded a Miss; a forced BAD (the scan made on a release) leaves
    the combo as it was. *)
Theorem miss_resets_combo (s : GameState.t) :
  (forall i, GameState.combo (GameState._judge_miss i s) = 0)
  /\ (forall i d,
        fst (GameState._judge_note i d s) = JudgementResult.MISS ->
        GameState.combo (snd (GameState._judge_note i d s)) = 0)
  /\ (forall k action,
        fst (GameState.judge_note k action s) = Some JudgementResult.MISS ->
        GameState.combo (snd (GameState.judge_note k action s)) = 0)
  /\ (JudgementSystem.n_miss (Spec.counts_of s)
      < JudgementSystem.n_miss (Spec.counts_of (GameState._process_auto_miss s)) ->
      GameState.combo (GameState._process_auto_miss s) = 0)
  /\ (JudgementSystem.n_miss (Spec.counts_of s)
      < JudgementSystem.n_miss (Spec.counts_of (GameState._check_game_over s)) ->
      GameState.combo (GameState._check_game_over s) = 0)
  /\ (forall k, GameState.combo (GameState.release_scan k s) = GameState.combo s).
Proof.
  split; [reflexivity|].
  split.
  { intros i d Hr. rewrite judge_note_combo.
    destruct (judge_note_fields i d s) as (Hfst & _). cbv zeta in Hfst.
    rewrite <- Hfst, Hr. reflexivity. }
  split.
  { intros k action. unfold GameState.judge_note.
    repeat (break_match; try discriminate).
    - intros Hr. destruct (judge_target_result _ _ _ Hr) as (i & d & s0 & -> & Hi).
      cbn [snd]. rewrite judge_note_combo.
      destruct (judge_note_fields i d s0) as (Hfst & _). cbv zeta in Hfst.
      rewrite <- Hfst, Hi. reflexivity.
    - intros Hr. destruct (judge_target_result _ _ _ Hr) as (i & d & s0 & -> & Hi).
      cbn [snd]. rewrite judge_note_combo.
      destruct (judge_note_fields i d s0) as (Hfst & _). cbv zeta in Hfst.
      rewrite <- Hfst, Hi. reflexivity. }
  split.
  { intros Hlt. unfold GameState._process_auto_miss in *.
    destruct (miss_pass_combo GameState.auto_miss_step (GameState.notes s) s
                auto_miss_step_cases) as [[Heq _]|[_ Hc]]; [lia|exact Hc]. }
  split.
  { unfold GameState._check_game_over.
    destruct (negb (GameState.is_playing s)); [lia|].
    assert (Hfb : forall s0 : GameState.t,
              JudgementSystem.n_miss (Spec.counts_of s)
              < JudgementSystem.n_miss
                  (Spec.counts_of match GameState.notes s0 with
                                  | [] => GameState.stop_game s0
                                  | _ :: _ => s0
                                  end) ->
              s0 = s -> False).
    { intros s0 Hlt ->. unfold Spec.counts_of in Hlt.
      destruct (GameState.notes s); cbn in Hlt; lia. }
    destruct (GameState.chart_end_time_ms s) as [e|]; [|intros Hlt; exfalso; eauto].
    destruct (e <=? GameState.now s); [|intros Hlt; exfalso; eauto].
    intros Hlt.
    destruct (miss_pass_combo (GameState.end_marker_step e) (GameState.notes s) s
                (end_marker_step_cases e)) as [[Heq _]|[_ Hc]].
    - unfold Spec.counts_of in *. cbn in Hlt. lia.
    - cbn. exact Hc. }
  intros k. unfold GameState.release_scan.
  apply (fold_left_preserves _ GameState.combo). intros a b.
  apply release_step_combo.
Qed.

Lemma miss_resets_combo_witness :
  let s := Scenario.at_1005 Difficulty.NORMAL in
  GameState.combo (GameState._process_auto_miss
                     (GameState.set_combo 7 (GameState.set_current_time_ms 1201 s))) = 0.
Proof.
  intros s.
  destruct (miss_resets_combo
              (GameState.set_combo 7 (GameState.set_current_time_ms 1201 s)))
    as (_ & _ & _ & H & _).
  apply H. vm_compute. reflexivity.
Defined.

(** ** Autoplay *)

Lemma judge_note_statics (i : nat) (d : Z) (s : GameState.t) :
  Spec.statics (snd (GameState._judge_note i d s)) = Spec.statics s.
Proof.
  unfold Spec.statics.
  destruct (judge_note_fields i d s)
    as (_ & _ & _ & Hjs & _ & _ & Ht & _ & _ & Ha & He).
  cbv zeta in *. rewrite Hjs, Ht, Ha, He. reflexivity.
Qed.

Lemma judge_miss_statics (i : nat) (s : GameState.t) :
  Spec.statics (GameState._judge_miss i s) = Spec.statics s.
Proof. reflexivity. Qed.

Lemma cache_impl_statics (s : GameState.t) :
  Spec.statics (GameState._update_notes_cache_impl s) = Spec.statics s.
Proof. unfold GameState._update_notes_cache_impl. step_cases; reflexivity. Qed.

Lemma cache_impl_judged (s : GameState.t) :
  GameState.judged (GameState._update_notes_cache_impl s) = GameState.judged s
  /\ GameState.judgement_system (GameState._update_notes_cache_impl s)
     = GameState.judgement_system s.
Proof. unfold GameState._update_notes_cache_impl. step_cases; auto. Qed.

Lemma activate_track_fields (k : Z) (s s' : GameState.t) :
  GameState.activate_track k s = Some s' ->
  Spec.statics s' = Spec.statics s
  /\ GameState.judged s' = GameState.judged s
  /\ GameState.judgement_system s' = GameState.judgement_system s
  /\ GameState.objects s' = GameState.objects s
  /\ GameState.notes s' = GameState.notes s.
Proof.
  unfold GameState.activate_track. destruct (PyList.index _ _); [|discriminate].
  intros [= <-]. repeat split; reflexivity.
Qed.

(** What one step of the autoplay policy records: nothing, or one PERFECT. *)
Lemma autoplay_step_records (s : GameState.t) (i : nat) :
  let s' := GameState.state_of (GameState.autoplay_step s i) in
  Spec.statics s' = Spec.statics s
  /\ ((GameState.judged s' = GameState.judged s
       /\ GameState.judgement_system s' = GameState.judgement_system s)
      \/ (GameState.judged s' = (i, JudgementResult.PERFECT) :: GameState.judged s
          /\ GameState.judgement_system s'
             = JudgementSystem.record JudgementResult.PERFECT
                 (GameState.judgement_system s))).
Proof.
  assert (Hj : forall s0 : GameState.t,
            Spec.statics s0 = Spec.statics s ->
            GameState.judged s0 = GameState.judged s ->
            GameState.judgement_system s0 = GameState.judgement_system s ->
            Spec.statics (GameState._judge_perfect i s0) = Spec.statics s
            /\ (GameState.judged (GameState._judge_perfect i s0)
                = (i, JudgementResult.PERFECT) :: GameState.judged s
                /\ GameState.judgement_system (GameState._judge_perfect i s0)
                   = JudgementSystem.record JudgementResult.PERFECT
                       (GameState.judgement_system s))).
  { intros s0 H1 H2 H3. unfold GameState._judge_perfect.
    rewrite judge_note_statics.
    destruct (judge_note_fields i 0 s0) as (_ & _ & Hjud & Hjs & _).
    cbv zeta in Hjud, Hjs. rewrite get_judgement_0 in Hjud, Hjs.
    rewrite Hjud, Hjs, H2, H3. auto. }
  cbv zeta. unfold GameState.autoplay_step.
  repeat (break_match; cbn [GameState.state_of]);
    try (split; [reflexivity|left; split; reflexivity]);
    try (match goal with
         | H : GameState.activate_track _ _ = Some _ |- _ =>
             destruct (activate_track_fields _ _ _ H) as (A1 & A2 & A3 & _)
         end);
    try (destruct (Hj _ A1 A2 A3) as [B1 B2]; split; [exact B1|right; exact B2]);
    try (destruct (Hj s eq_refl eq_refl eq_refl) as [B1 B2];
         split; [exact B1|right; exact B2]).
  split; [exact A1|left; split; [exact A2|exact A3]].
Qed.

Lemma record_counts (r : JudgementResult.t) (js : JudgementSystem.t) :
  JudgementSystem.judgement_counts (JudgementSystem.record r js)
  = JudgementSystem.incr r (JudgementSystem.judgement_counts js).
Proof. reflexivity. Qed.

(** The autoplay policy records PERFECT judgements only. *)
Lemma run_autoplay_records (l : list nat) (s : GameState.t) :
  let s' := GameState.state_of (GameState.run_autoplay l s) in
  Spec.statics s' = Spec.statics s
  /\ exists perfects,
       GameState.judged s' = perfects ++ GameState.judged s
       /\ Forall (fun e => snd e = JudgementResult.PERFECT) perfects
       /\ JudgementSystem.n_perfect (Spec.counts_of s')
          = JudgementSystem.n_perfect (Spec.counts_of s) + Z.of_nat (length perfects)
       /\ JudgementSystem.n_good (Spec.counts_of s')
          = JudgementSystem.n_good (Spec.counts_of s)
       /\ JudgementSystem.n_bad (Spec.counts_of s')
          = JudgementSystem.n_bad (Spec.counts_of s)
       /\ JudgementSystem.n_miss (Spec.counts_of s')
          = JudgementSystem.n_miss (Spec.counts_of s).
Proof.
  cbv zeta. revert s. induction l as [|i l IH]; intros s; cbn [GameState.run_autoplay].
  - cbn. split; [reflexivity|]. exists []. cbn. repeat split; auto; lia.
  - destruct (autoplay_step_records s i) as [Hst Hrec]. cbv zeta in Hst, Hrec.
    assert (Hone : exists p1,
              GameState.judged (GameState.state_of (GameState.autoplay_step s i))
              = p1 ++ GameState.judged s
              /\ Forall (fun e => snd e = JudgementResult.PERFECT) p1
              /\ JudgementSystem.n_perfect
                   (Spec.counts_of (GameState.state_of (GameState.autoplay_step s i)))
                 = JudgementSystem.n_perfect (Spec.counts_of s) + Z.of_nat (length p1)
              /\ JudgementSystem.n_good
                   (Spec.counts_of (GameState.state_of (GameState.autoplay_step s i)))
                 = JudgementSystem.n_good (Spec.counts_of s)
              /\ JudgementSystem.n_bad
                   (Spec.counts_of (GameState.state_of (GameState.autoplay_step s i)))
                 = JudgementSystem.n_bad (Spec.counts_of s)
              /\ JudgementSystem.n_miss
                   (Spec.counts_of (GameState.state_of (GameState.autoplay_step s i)))
                 = JudgementSystem.n_miss (Spec.counts_of s)).
    { unfold Spec.counts_of. destruct Hrec as [[Hj Hjs]|[Hj Hjs]]; rewrite Hj, Hjs.
      - exists []. cbn. repeat split; auto; lia.
      - exists [(i, JudgementResult.PERFECT)]. rewrite record_counts. cbn.
        repeat split; auto. }
    destruct Hone as (p1 & Hj1 & Hp1 & Hc1 & Hc2 & Hc3 & Hc4).
    destruct (GameState.autoplay_step s i) as [s1|s1]; cbn [GameState.state_of] in *.
    + destruct (IH s1) as (Hst' & p2 & Hj2 & Hp2 & Hd1 & Hd2 & Hd3 & Hd4).
      split; [congruence|].
      exists (p2 ++ p1). rewrite Hj2, Hj1, app_assoc.
      split; [reflexivity|]. split; [apply Forall_app; auto|].
      rewrite length_app. repeat split; lia.
    + split; [exact Hst|]. exists p1. repeat split; auto.
Qed.

Lemma lifecycle_step_records (s : GameState.t) (i : nat) :
  Spec.statics (GameState.lifecycle_step s i) = Spec.statics s
  /\ GameState.judged (GameState.lifecycle_step s i) = GameState.judged s
  /\ GameState.judgement_system (GameState.lifecycle_step s i)
     = GameState.judgement_system s.
Proof. unfold GameState.lifecycle_step. step_cases; auto. Qed.

Lemma lifecycle_pass_records (l : list nat) (s : GameState.t) :
  Spec.statics (fold_left GameState.lifecycle_step l s) = Spec.statics s
  /\ GameState.judged (fold_left GameState.lifecycle_step l s) = GameState.judged s
  /\ GameState.judgement_system (fold_left GameState.lifecycle_step l s)
     = GameState.judgement_system s.
Proof.
  repeat split.
  - apply (fold_left_preserves _ Spec.statics). intros a b.
    apply lifecycle_step_records.
  - apply (fold_left_preserves _ GameState.judged). intros a b.
    apply lifecycle_step_records.
  - apply (fold_left_preserves _ GameState.judgement_system). intros a b.
    apply lifecycle_step_records.
Qed.

(** A pass that only ever calls [_judge_miss] records MISS judgements only. *)
Lemma miss_pass_records (step : GameState.t -> nat -> GameState.t)
    (l : list nat) (s : GameState.t) :
  (forall s i, step s i = s \/ step s i = GameState._judge_miss i s) ->
  let s' := fold_left step l s in
  Spec.statics s' = Spec.statics s
  /\ exists misses,
       GameState.judged s' = misses ++ GameState.judged s
       /\ Forall (fun e => snd e = JudgementResult.MISS) misses
       /\ JudgementSystem.n_perfect (Spec.counts_of s')
          = JudgementSystem.n_perfect (Spec.counts_of s)
       /\ JudgementSystem.n_good (Spec.counts_of s')
          = JudgementSystem.n_good (Spec.counts_of s)
       /\ JudgementSystem.n_bad (Spec.counts_of s')
          = JudgementSystem.n_bad (Spec.counts_of s)
       /\ JudgementSystem.n_miss (Spec.counts_of s')
          = JudgementSystem.n_miss (Spec.counts_of s) + Z.of_nat (length misses).
Proof.
  intros Hstep. cbv zeta.
  apply (fold_left_invariant step
           (fun s' =>
              Spec.statics s' = Spec.statics s
              /\ exists misses,
                   GameState.judged s' = misses ++ GameState.judged s
                   /\ Forall (fun e => snd e = JudgementResult.MISS) misses
                   /\ JudgementSystem.n_perfect (Spec.counts_of s')
                      = JudgementSystem.n_perfect (Spec.counts_of s)
                   /\ JudgementSystem.n_good (Spec.counts_of s')
                      = JudgementSystem.n_good (Spec.counts_of s)
                   /\ JudgementSystem.n_bad (Spec.counts_of s')
                      = JudgementSystem.n_bad (Spec.counts_of s)
                   /\ JudgementSystem.n_miss (Spec.counts_of s')
                      = JudgementSystem.n_miss (Spec.counts_of s)
                        + Z.of_nat (length misses))).
  - split; [reflexivity|]. exists []. cbn. repeat split; auto; lia.
  - intros a i (Hst & m & Hj & Hm & H1 & H2 & H3 & H4).
    destruct (Hstep a i) as [-> | ->]; [eauto 10|].
    split; [rewrite judge_miss_statics; exact Hst|].
    destruct (judge_miss_fields i a) as (_ & Hjud & Hjs & _). cbv zeta in Hjud, Hjs.
    exists ((i, JudgementResult.MISS) :: m).
    unfold Spec.counts_of in *. rewrite Hjud, Hjs, Hj, record_counts. cbn [length].
    split; [reflexivity|]. split; [constructor; auto|].
    cbn [JudgementSystem.incr JudgementSystem.n_perfect JudgementSystem.n_good
         JudgementSystem.n_bad JudgementSystem.n_miss].
    repeat split; lia.
Qed.

(** The end-of-session check records MISS judgements only, and none
    before the end marker. *)
Lemma check_game_over_records (s : GameState.t) :
  let s' := GameState._check_game_over s in
  Spec.statics s' = Spec.statics s
  /\ exists misses,
       GameState.judged s' = misses ++ GameState.judged s
       /\ Forall (fun e => snd e = JudgementResult.MISS) misses
       /\ JudgementSystem.n_perfect (Spec.counts_of s')
          = JudgementSystem.n_perfect (Spec.counts_of s)
       /\ JudgementSystem.n_good (Spec.counts_of s')
          = JudgementSystem.n_good (Spec.counts_of s)
       /\ JudgementSystem.n_bad (Spec.counts_of s')
          = JudgementSystem.n_bad (Spec.counts_of s)
       /\ JudgementSystem.n_miss (Spec.counts_of s')
          = JudgementSystem.n_miss (Spec.counts_of s) + Z.of_nat (length misses)
       /\ (Spec.before_end_marker (GameState.current_time_ms s) s -> misses = []).
Proof.
  cbv zeta.
  assert (Hnone : forall s0 : GameState.t,
            Spec.statics s0 = Spec.statics s ->
            GameState.judged s0 = GameState.judged s ->
            GameState.judgement_system s0 = GameState.judgement_system s ->
            Spec.statics s0 = Spec.statics s
            /\ exists misses,
                 GameState.judged s0 = misses ++ GameState.judged s
                 /\ Forall (fun e => snd e = JudgementResult.MISS) misses
                 /\ JudgementSystem.n_perfect (Spec.counts_of s0)
                    = JudgementSystem.n_perfect (Spec.counts_of s)
                 /\ JudgementSystem.n_good (Spec.counts_of s0)
                    = JudgementSystem.n_good (Spec.counts_of s)
                 /\ JudgementSystem.n_bad (Spec.counts_of s0)
                    = JudgementSystem.n_bad (Spec.counts_of s)
                 /\ JudgementSystem.n_miss (Spec.counts_of s0)
                    = JudgementSystem.n_miss (Spec.counts_of s)
                      + Z.of_nat (length misses)
                 /\ (Spec.before_end_marker (GameState.current_time_ms s) s ->
                     misses = [])).
  { intros s0 H1 H2 H3. split; [exact H1|]. exists [].
    unfold Spec.counts_of. rewrite H2, H3. cbn. repeat split; auto; lia. }
  unfold GameState._check_game_over.
  destruct (negb (GameState.is_playing s)); [apply Hnone; reflexivity|].
  destruct (GameState.chart_end_time_ms s) as [e|] eqn:He.
  - destruct (Z.leb_spec e (GameState.now s)) as [Hle|Hgt].
    + destruct (miss_pass_records (GameState.end_marker_step e) (GameState.notes s) s
                  (end_marker_step_cases e))
        as (Hst & m & Hj & Hm & H1 & H2 & H3 & H4).
      split; [exact Hst|]. exists m. unfold Spec.counts_of in *. cbn.
      repeat split; auto.
      unfold Spec.before_end_marker. rewrite He. unfold GameState.now in Hle. lia.
    + destruct (GameState.notes s); apply Hnone; reflexivity.
  - destruct (GameState.notes s); apply Hnone; reflexivity.
Qed.

Lemma advance_time_fields (dt : Z) (s : GameState.t) :
  GameState.judged (GameState.advance_time dt s) = GameState.judged s
  /\ GameState.judgement_system (GameState.advance_time dt s)
     = GameState.judgement_system s
  /\ GameState.chart_end_time_ms (GameState.advance_time dt s)
     = GameState.chart_end_time_ms s
  /\ GameState.autoplay (GameState.advance_time dt s) = GameState.autoplay s
  /\ GameState.objects (GameState.advance_time dt s) = GameState.objects s
  /\ GameState.notes (GameState.advance_time dt s) = GameState.notes s
  /\ GameState.tracks (GameState.advance_time dt s) = GameState.tracks s.
Proof. unfold GameState.advance_time. step_cases; repeat split; reflexivity. Qed.

Lemma statics_autoplay (s s' : GameState.t) :
  Spec.statics s' = Spec.statics s -> GameState.autoplay s' = GameState.autoplay s.
Proof. unfold Spec.statics. congruence. Qed.

Lemma statics_before_end_marker (s s' : GameState.t) :
  Spec.statics s' = Spec.statics s ->
  Spec.before_end_marker (GameState.current_time_ms s') s'
  <-> Spec.before_end_marker (GameState.current_time_ms s) s.
Proof.
  unfold Spec.statics, Spec.before_end_marker. intros [= -> -> _ _ _]. reflexivity.
Qed.

(** C3, counterexample: autoplay is on, difficulty HARD, and the player
    presses track 0 at 830 ms, 170 ms before the note; [judge_note]
    classifies the press by its true offset and records a MISS. *)
Lemma autoplay_records_a_miss :
  ~ (forall (s : GameState.t) (k : Z),
       GameState.autoplay s = true ->
       let s' := snd (GameState.judge_note k "press" s) in
       JudgementSystem.n_miss (Spec.counts_of s')
       = JudgementSystem.n_miss (Spec.counts_of s)
       /\ Forall (fun e => snd e = JudgementResult.PERFECT) (GameState.judged s')).
Proof.
  intros H. destruct (H Scenario.autoplay_hard_at_830 0 eq_refl) as [Hmiss _].
  vm_compute in Hmiss. discriminate Hmiss.
Qed.

(** C3, as amended: the autoplay policy of a tick records PERFECT
    judgements only (each through [_judge_note] with a time difference of
    0) and never a Miss; in a whole tick made while autoplay is enabled
    the only other judgements are the Misses that the end-of-session check
    forces once the end marker is reached, so before the end marker the
    Miss counter does not move.  (A [judge_note] made by the player while
    autoplay is enabled is classified by its true offset.) *)
Theorem autoplay_tick_records (s : GameState.t) (delta_time_ms : Z) :
  GameState.autoplay s = true ->
  let s' := GameState.state_of (GameState.update delta_time_ms s) in
  exists perfects misses,
    GameState.judged s' = misses ++ perfects ++ GameState.judged s
    /\ Forall (fun e => snd e = JudgementResult.PERFECT) perfects
    /\ Forall (fun e => snd e = JudgementResult.MISS) misses
    /\ JudgementSystem.n_perfect (Spec.counts_of s')
       = JudgementSystem.n_perfect (Spec.counts_of s) + Z.of_nat (length perfects)
    /\ JudgementSystem.n_good (Spec.counts_of s')
       = JudgementSystem.n_good (Spec.counts_of s)
    /\ JudgementSystem.n_bad (Spec.counts_of s')
       = JudgementSystem.n_bad (Spec.counts_of s)
    /\ JudgementSystem.n_miss (Spec.counts_of s')
       = JudgementSystem.n_miss (Spec.counts_of s) + Z.of_nat (length misses)
    /\ (Spec.before_end_marker
          (GameState.current_time_ms (GameState.advance_time delta_time_ms s)) s ->
        misses = []).
Proof.
  intros Hauto. cbv zeta. unfold GameState.update.
  destruct (negb (GameState.is_playing s) || GameState.is_paused s).
  { exists [], []. cbn. repeat split; auto; lia. }
  destruct (advance_time_fields delta_time_ms s) as (Ha1 & Ha2 & Ha3 & Ha4 & _).
  set (s1 := GameState.advance_time delta_time_ms s) in *.
  destruct (cache_impl_judged s1) as [Hc1 Hc2].
  pose proof (cache_impl_statics s1) as Hc3.
  set (s2 := GameState._update_notes_cache_impl s1) in *.
  rewrite (statics_autoplay _ _ Hc3), Ha4, Hauto.
  unfold GameState._process_autoplay.
  destruct (run_autoplay_records (GameState.notes s2) s2)
    as (Hst & p & Hj & Hp & Hp1 & Hp2 & Hp3 & Hp4).
  cbv zeta in Hst, Hj, Hp1, Hp2, Hp3, Hp4.
  assert (Hs2 : Spec.counts_of s2 = Spec.counts_of s)
    by (unfold Spec.counts_of; congruence).
  rewrite Hs2 in Hp1, Hp2, Hp3, Hp4. rewrite Hc1, Ha1 in Hj.
  destruct (GameState.run_autoplay (GameState.notes s2) s2) as [s3|s3];
    cbn [GameState.state_of] in *.
  - unfold GameState.finish_update.
    rewrite (statics_autoplay _ _ Hst), (statics_autoplay _ _ Hc3), Ha4, Hauto.
    cbn [negb].
    destruct (lifecycle_pass_records (GameState.notes s3) s3) as (Hl1 & Hl2 & Hl3).
    set (s4 := fold_left GameState.lifecycle_step (GameState.notes s3) s3) in *.
    destruct (check_game_over_records s4)
      as (_ & m & Hm1 & Hm2 & Hm3 & Hm4 & Hm5 & Hm6 & Hm7).
    cbv zeta in Hm1, Hm3, Hm4, Hm5, Hm6.
    assert (Hs4 : Spec.counts_of s4 = Spec.counts_of s3)
      by (unfold Spec.counts_of; congruence).
    exists p, m. rewrite Hm1, Hl2, Hj, Hm3, Hm4, Hm5, Hm6, Hs4.
    repeat split; auto; try lia.
    intros Hbefore. apply Hm7.
    apply (statics_before_end_marker s1 s4); [congruence|].
    unfold Spec.before_end_marker in *. rewrite Ha3. exact Hbefore.
  - exists p, []. cbn [app length]. repeat split; auto; lia.
Qed.

Lemma autoplay_tick_records_witness :
  exists perfects misses,
    GameState.judged
      (GameState.state_of (GameState.update 850 (GameState.set_autoplay true
         (Scenario.boot Difficulty.NORMAL Scenario.single_normal))))
    = misses ++ perfects ++ []
    /\ Forall (fun e => snd e = JudgementResult.PERFECT) perfects
    /\ Forall (fun e => snd e = JudgementResult.MISS) misses.
Proof.
  destruct (autoplay_tick_records
              (GameState.set_autoplay true
                 (Scenario.boot Difficulty.NORMAL Scenario.single_normal)) 850)
    as (p & m & H1 & H2 & H3 & _); [reflexivity|].
  exists p, m. auto.
Defined.

(** ** Loading a chart *)

Lemma insert_by_perm {A : Type} (key : A -> Z) (x : A) (l : list A) :
  Permutation (PyList.insert_by key x l) (x :: l).
Proof.
  induction l as [|y l IH]; cbn; [reflexivity|].
  destruct (key x <=? key y); [reflexivity|].
  rewrite IH. apply perm_swap.
Qed.

Lemma sort_by_perm {A : Type} (key : A -> Z) (l : list A) :
  Permutation (PyList.sort_by key l) l.
Proof.
  induction l as [|x l IH]; cbn; [reflexivity|].
  rewrite insert_by_perm. constructor. exact IH.
Qed.

Lemma make_note_keys (k : nat) (d : Chart.note_data) :
  match GameState.make_note k d with
  | Some note => Spec.has_required_keys d = true /\ Note.id note = k
  | None => Spec.has_required_keys d = false
  end.
Proof. destruct d as [ty [tr|] [pt|] du|]; cbn; auto. Qed.

(** The loop over the descriptors: the well-formed ones receive successive
    ids, in order, and the others are set aside with a warning. *)
Lemma load_notes_fold (l : list Chart.note_data) (s : GameState.t)
    (w : list Chart.note_data) :
  let good := List.filter Spec.has_required_keys l in
  let s' := fst (fold_left GameState.load_note l (s, w)) in
  snd (fold_left GameState.load_note l (s, w))
  = w ++ List.filter (fun d => negb (Spec.has_required_keys d)) l
  /\ GameState.notes s'
     = GameState.notes s ++ seq (GameState.next_id s) (length good)
  /\ (forall j d, good !! j = Some d ->
        GameState.objects s' !! (GameState.next_id s + j)%nat
        = GameState.make_note (GameState.next_id s + j) d)
  /\ (forall k, (k < GameState.next_id s)%nat ->
        GameState.objects s' !! k = GameState.objects s !! k)
  /\ GameState.judgement_system s' = GameState.judgement_system s
  /\ GameState.chart_end_time_ms s' = GameState.chart_end_time_ms s.
Proof.
  cbv zeta. revert s w. induction l as [|d l IH]; intros s w.
  - cbn. rewrite !app_nil_r. repeat split; auto. intros j d Hj. discriminate Hj.
  - cbn [fold_left GameState.load_note List.filter].
    pose proof (make_note_keys (GameState.next_id s) d) as Hk.
    destruct (GameState.make_note (GameState.next_id s) d) as [note|] eqn:Hmk.
    + destruct Hk as [Hk Hid]. rewrite Hk. cbn [negb].
      set (s1 := GameState.set_next_id _ _).
      destruct (IH s1 w) as (H1 & H2 & H3 & H4 & H5 & H6).
      assert (Hn1 : GameState.next_id s1 = S (GameState.next_id s)) by reflexivity.
      rewrite Hn1 in H2, H3, H4.
      split; [exact H1|]. split.
      { rewrite H2. unfold s1. cbn [GameState.notes GameState.set_next_id
          GameState.set_notes]. rewrite Hid, <- app_assoc. reflexivity. }
      split.
      { intros [|j] d' Hj.
        - cbn in Hj. injection Hj as <-. rewrite Nat.add_0_r, H4 by lia.
          unfold s1. cbn. rewrite Hid, Hmk. apply lookup_insert_eq.
        - cbn in Hj. replace (GameState.next_id s + S j)%nat
            with (S (GameState.next_id s) + j)%nat by lia.
          apply H3. exact Hj. }
      split.
      { intros k Hlt. rewrite H4 by lia. unfold s1. cbn. rewrite Hid.
        apply lookup_insert_ne. lia. }
      split; [rewrite H5|rewrite H6]; reflexivity.
    + rewrite Hk. cbn [negb].
      destruct (IH s (w ++ [d])) as (H1 & H2 & H3 & H4 & H5 & H6).
      split; [rewrite H1, <- app_assoc; reflexivity|].
      repeat split; assumption.
Qed.

(** C7, counterexample: a descriptor of unknown type "slide" is not skipped;
    [load_chart] creates a note of type NORMAL for it and logs no warning
    about it. *)
Lemma unknown_type_is_loaded :
  ~ (forall (c : Chart.t) (s : GameState.t) (d : Chart.note_data)
            (v : Chart.py_value) (tr pt du : option Z),
       d ∈ Spec.descriptors c -> d = Chart.NoteDict (Some v) tr pt du ->
       Spec.known_type v = false ->
       d ∈ snd (fst (GameState.load_chart c s))
       /\ length (GameState.notes (snd (GameState.load_chart c s)))
          < length (Spec.descriptors c))%nat.
Proof.
  intros H.
  destruct (H (Chart.mk (Some [Scenario.descriptor "slide" 0 1000 None]) None)
              (GameState.__init__ Difficulty.NORMAL 0)
              (Scenario.descriptor "slide" 0 1000 None)
              (Chart.PyStr "slide") (Some 0) (Some 1000) None)
    as [_ Hlen].
  - constructor.
  - reflexivity.
  - reflexivity.
  - vm_compute in Hlen. lia.
Qed.

(** C7, as amended: [load_chart] on chart data always returns success.
    A descriptor is skipped, with a logged warning, exactly when it is not
    a dictionary or lacks the key [track_index] or [perfect_time]; every
    other descriptor yields a Note, the j-th of them with id
    [next_id + j].  A descriptor whose type is unknown is not skipped: its
    Note has the default type NORMAL.  (Track indices are taken within
    0..3 here.) *)
Theorem load_chart_descriptors (c : Chart.t) (s : GameState.t) :
  Forall Spec.valid_track (Spec.descriptors c) ->
  let r := GameState.load_chart c s in
  let good := List.filter Spec.has_required_keys (Spec.descriptors c) in
  fst (fst r) = true
  /\ snd (fst r)
     = List.filter (fun d => negb (Spec.has_required_keys d)) (Spec.descriptors c)
  /\ Permutation (GameState.notes (snd r)) (seq (GameState.next_id s) (length good))
  /\ Spec.total_notes_of (snd r) = Z.of_nat (length good)
  /\ (forall j d, good !! j = Some d ->
        GameState.objects (snd r) !! (GameState.next_id s + j)%nat
        = GameState.make_note (GameState.next_id s + j) d)
  /\ (forall j str tr pt du,
        good !! j = Some (Chart.NoteDict (Some (Chart.PyStr str)) (Some tr) (Some pt) du) ->
        Spec.known_type (Chart.PyStr str) = false ->
        exists note,
          GameState.objects (snd r) !! (GameState.next_id s + j)%nat = Some note
          /\ Note.type note = NoteType.NORMAL
          /\ Note.track_index note = tr
          /\ Note.perfect_time note = pt
          /\ Note.hit note = false).
Proof.
  intros _. cbv zeta. unfold GameState.load_chart, Spec.descriptors.
  set (s0 := GameState.set_chart_end_time_ms _ (GameState._reset_game_state s)).
  assert (Hfold : exists s1 w,
            match Chart.notes c with
            | Some l => fold_left GameState.load_note l (s0, [])
            | None => (s0, [])
            end = (s1, w)
            /\ w = List.filter (fun d => negb (Spec.has_required_keys d))
                     (default [] (Chart.notes c))
            /\ GameState.notes s1
               = seq (GameState.next_id s)
                   (length (List.filter Spec.has_required_keys
                              (default [] (Chart.notes c))))
            /\ (forall j d,
                  List.filter Spec.has_required_keys (default [] (Chart.notes c)) !! j
                  = Some d ->
                  GameState.objects s1 !! (GameState.next_id s + j)%nat
                  = GameState.make_note (GameState.next_id s + j) d)).
  { destruct (Chart.notes c) as [l|]; cbn [default].
    - destruct (load_notes_fold l s0 []) as (H1 & H2 & H3 & _).
      destruct (fold_left GameState.load_note l (s0, [])) as [s1 w].
      exists s1, w. cbn [fst snd] in *. repeat split; auto.
    - exists s0, []. cbn. repeat split; auto. intros j d Hj. discriminate Hj. }
  destruct Hfold as (s1 & w & -> & Hw & Hn & Ho).
  cbn [fst snd]. split; [reflexivity|]. split; [exact Hw|].
  assert (Hperm : Permutation
                    (PyList.sort_by (GameState.perfect_time_of s1) (GameState.notes s1))
                    (seq (GameState.next_id s)
                       (length (List.filter Spec.has_required_keys
                                  (default [] (Chart.notes c)))))).
  { rewrite sort_by_perm, Hn. reflexivity. }
  split; [exact Hperm|]. split.
  { unfold Spec.total_notes_of. cbn. rewrite (Permutation_length Hperm), length_seq.
    reflexivity. }
  split; [exact Ho|].
  intros j str tr pt du Hj Hun. cbn. rewrite (Ho _ _ Hj). cbn.
  eexists; split; [reflexivity|]. cbn.
  unfold Spec.known_type in Hun.
  destruct (String.eqb str "normal"), (String.eqb str "hold"),
    (String.eqb str "drag"); try discriminate; auto.
Qed.

Lemma load_chart_descriptors_witness :
  let r := GameState.load_chart Scenario.odd_chart
             (GameState.__init__ Difficulty.NORMAL 0) in
  fst (fst r) = true
  /\ snd (fst r) = [Chart.NoteDict None None (Some 3) None; Chart.NotADict]
  /\ Spec.total_notes_of (snd r) = 2
  /\ exists note,
       GameState.objects (snd r) !! 0%nat = Some note
       /\ Note.type note = NoteType.NORMAL.
Proof.
  intros r.
  destruct (load_chart_descriptors Scenario.odd_chart
              (GameState.__init__ Difficulty.NORMAL 0))
    as (H1 & H2 & _ & H4 & _ & H6).
  - repeat constructor; cbn; lia.
  - split; [exact H1|]. split; [exact H2|]. split; [exact H4|].
    destruct (H6 0%nat "slide"%string 0 1000 None eq_refl eq_refl)
      as (note & Hn & Hty & _).
    exists note. split; [exact Hn|exact Hty].
Defined.

(** ** Notes that a step does not concern *)

Lemma same_note_refl (i : nat) (s : GameState.t) : Spec.same_note i s s.
Proof. split; reflexivity. Qed.

Lemma same_note_trans (i : nat) (s1 s2 s3 : GameState.t) :
  Spec.same_note i s1 s2 -> Spec.same_note i s2 s3 -> Spec.same_note i s1 s3.
Proof. intros [H1 H2] [H3 H4]. split; congruence. Qed.

Lemma same_note_ext (i : nat) (s s' : GameState.t) :
  GameState.objects s' = GameState.objects s ->
  GameState.judged s' = GameState.judged s ->
  Spec.same_note i s s'.
Proof. intros Ho Hj. unfold Spec.same_note, Spec.events_of. rewrite Ho, Hj. auto. Qed.

Lemma same_note_final (i : nat) (s s' : GameState.t) :
  Spec.same_note i s s' -> Spec.final i s -> Spec.final i s'.
Proof. intros [Ho _] (n & Hn & H). exists n. rewrite Ho. auto. Qed.

Lemma events_of_cons (i j : nat) (r : JudgementResult.t) (s s' : GameState.t) :
  GameState.judged s' = (j, r) :: GameState.judged s ->
  Spec.events_of i s'
  = if Nat.eqb j i then (j, r) :: Spec.events_of i s else Spec.events_of i s.
Proof. intros Hj. unfold Spec.events_of. rewrite Hj. reflexivity. Qed.

Lemma same_note_judge_miss (i j : nat) (s : GameState.t) :
  j <> i -> Spec.same_note i s (GameState._judge_miss j s).
Proof.
  intros Hne. destruct (judge_miss_fields j s) as (Ho & Hj & _). cbv zeta in Ho, Hj.
  split.
  - rewrite Ho. apply lookup_alter_ne. exact Hne.
  - rewrite (events_of_cons i j _ s _ Hj).
    destruct (Nat.eqb_spec j i); [contradiction|reflexivity].
Qed.

Lemma same_note_judge_note (i j : nat) (d : Z) (s : GameState.t) :
  j <> i -> Spec.same_note i s (snd (GameState._judge_note j d s)).
Proof.
  intros Hne. destruct (judge_note_fields j d s) as (_ & Ho & Hj & _).
  cbv zeta in Ho, Hj. split.
  - rewrite Ho. apply lookup_alter_ne. exact Hne.
  - rewrite (events_of_cons i j _ s _ Hj).
    destruct (Nat.eqb_spec j i); [contradiction|reflexivity].
Qed.

Lemma same_note_insert (i j : nat) (n : Note.t) (s s' : GameState.t) :
  j <> i ->
  GameState.objects s' = <[j := n]> (GameState.objects s) ->
  GameState.judged s' = GameState.judged s ->
  Spec.same_note i s s'.
Proof.
  intros Hne Ho Hj. unfold Spec.same_note, Spec.events_of. rewrite Ho, Hj.
  split; [apply lookup_insert_ne; exact Hne|reflexivity].
Qed.

Lemma auto_miss_step_other (i j : nat) (s : GameState.t) :
  j <> i -> Spec.same_note i s (GameState.auto_miss_step s j).
Proof.
  intros Hne. unfold GameState.auto_miss_step.
  step_cases; auto using same_note_refl, same_note_judge_miss.
Qed.

Lemma end_marker_step_other (e : Z) (i j : nat) (s : GameState.t) :
  j <> i -> Spec.same_note i s (GameState.end_marker_step e s j).
Proof.
  intros Hne. unfold GameState.end_marker_step.
  step_cases; auto using same_note_refl, same_note_judge_miss.
Qed.

Lemma drag_step_other (i j : nat) (s : GameState.t) :
  j <> i -> Spec.same_note i s (GameState.drag_step s j).
Proof.
  intros Hne. unfold GameState.drag_step, GameState._judge_perfect.
  step_cases; auto using same_note_refl, same_note_judge_miss, same_note_judge_note.
Qed.

Lemma lifecycle_step_other (i j : nat) (s : GameState.t) :
  j <> i -> Spec.same_note i s (GameState.lifecycle_step s j).
Proof.
  intros Hne. unfold GameState.lifecycle_step.
  destruct (GameState.objects s !! j) as [n|]; [|apply same_note_refl].
  step_cases; eapply same_note_insert; eauto; reflexivity.
Qed.

Lemma release_step_other (k : Z) (i j : nat) (s : GameState.t) :
  j <> i -> Spec.same_note i s (GameState.release_step k s j).
Proof.
  intros Hne. unfold GameState.release_step.
  step_cases; try apply same_note_refl.
  split; cbn.
  - apply lookup_alter_ne. exact Hne.
  - unfold Spec.events_of. cbn.
    destruct (Nat.eqb_spec j i); [contradiction|reflexivity].
Qed.

Lemma activate_track_same_note (i : nat) (k : Z) (s s' : GameState.t) :
  GameState.activate_track k s = Some s' -> Spec.same_note i s s'.
Proof.
  intros H. destruct (activate_track_fields _ _ _ H) as (_ & Hj & _ & Ho & _).
  apply same_note_ext; assumption.
Qed.

Lemma autoplay_step_other (i j : nat) (s : GameState.t) :
  j <> i ->
  Spec.same_note i s (GameState.state_of (GameState.autoplay_step s j)).
Proof.
  intros Hne. unfold GameState.autoplay_step, GameState._judge_perfect.
  repeat (break_match; cbn [GameState.state_of]); try apply same_note_refl;
    try (eapply same_note_trans;
         [eapply activate_track_same_note; eassumption|]);
    try (apply same_note_judge_note; exact Hne).
  eapply same_note_insert; eauto; reflexivity.
Qed.

(** ** Notes that have received their last judgement *)

Lemma kept_of_same (i : nat) (s s' : GameState.t) :
  Spec.same_note i s s' ->
  Spec.final i s -> Spec.final i s' /\ Spec.events_of i s' = Spec.events_of i s.
Proof. intros Hs Hf. split; [eapply same_note_final; eauto|apply Hs]. Qed.

Lemma final_update (i : nat) (t k : Z) (a : bool) (n : Note.t)
    (s s' : GameState.t) :
  GameState.objects s !! i = Some n ->
  Note.hit n = true ->
  (Note.type n = NoteType.HOLD -> GameState.is_bad (Note.judgement n) = true) ->
  GameState.objects s' = <[i := Note.update t a k n]> (GameState.objects s) ->
  GameState.judged s' = GameState.judged s ->
  Spec.final i s' /\ Spec.events_of i s' = Spec.events_of i s.
Proof.
  intros Hn Hhit Hbad Ho Hj. split.
  - exists (Note.update t a k n). rewrite Ho, lookup_insert_eq.
    destruct (note_update_hit t a k n) as (H1 & H2 & H3 & _).
    rewrite H1, H2, H3. auto.
  - unfold Spec.events_of. rewrite Hj. reflexivity.
Qed.

Lemma auto_miss_step_final (i j : nat) (s : GameState.t) :
  Spec.final i s ->
  Spec.final i (GameState.auto_miss_step s j)
  /\ Spec.events_of i (GameState.auto_miss_step s j) = Spec.events_of i s.
Proof.
  intros Hf. destruct (decide (j = i)) as [->|Hne];
    [|apply kept_of_same; auto using auto_miss_step_other].
  destruct Hf as (n & Hn & Hhit & Hbad) eqn:Hfe. clear Hfe.
  unfold GameState.auto_miss_step. rewrite Hn, Hhit. cbn.
  split; [exists n; auto|reflexivity].
Qed.

Lemma end_marker_step_final (e : Z) (i j : nat) (s : GameState.t) :
  Spec.final i s ->
  Spec.final i (GameState.end_marker_step e s j)
  /\ Spec.events_of i (GameState.end_marker_step e s j) = Spec.events_of i s.
Proof.
  intros Hf. destruct (decide (j = i)) as [->|Hne];
    [|apply kept_of_same; auto using end_marker_step_other].
  destruct Hf as (n & Hn & Hhit & Hbad).
  unfold GameState.end_marker_step. rewrite Hn, Hhit. cbn.
  split; [exists n; auto|reflexivity].
Qed.

Lemma drag_step_final (i j : nat) (s : GameState.t) :
  Spec.final i s ->
  Spec.final i (GameState.drag_step s j)
  /\ Spec.events_of i (GameState.drag_step s j) = Spec.events_of i s.
Proof.
  intros Hf. destruct (decide (j = i)) as [->|Hne];
    [|apply kept_of_same; auto using drag_step_other].
  destruct Hf as (n & Hn & Hhit & Hbad).
  unfold GameState.drag_step. rewrite Hn, Hhit, andb_false_r.
  split; [exists n; auto|reflexivity].
Qed.

Lemma lifecycle_step_final (i j : nat) (s : GameState.t) :
  Spec.final i s ->
  Spec.final i (GameState.lifecycle_step s j)
  /\ Spec.events_of i (GameState.lifecycle_step s j) = Spec.events_of i s.
Proof.
  intros Hf. destruct (decide (j = i)) as [->|Hne];
    [|apply kept_of_same; auto using lifecycle_step_other].
  destruct Hf as (n & Hn & Hhit & Hbad).
  unfold GameState.lifecycle_step. rewrite Hn.
  step_cases; eapply final_update; eauto; reflexivity.
Qed.

Lemma release_step_final (k : Z) (i j : nat) (s : GameState.t) :
  Spec.final i s ->
  Spec.final i (GameState.release_step k s j)
  /\ Spec.events_of i (GameState.release_step k s j) = Spec.events_of i s.
Proof.
  intros Hf. destruct (decide (j = i)) as [->|Hne];
    [|apply kept_of_same; auto using release_step_other].
  destruct Hf as (n & Hn & Hhit & Hbad).
  unfold GameState.release_step. rewrite Hn.
  destruct (NoteType.eqb (Note.type n) NoteType.HOLD) eqn:Hty; cbn [andb];
    [|split; [exists n; auto|reflexivity]].
  rewrite Hbad by (destruct (Note.type n); [discriminate|reflexivity|discriminate]).
  cbn [negb]. destruct (_ && _); split; try reflexivity; exists n; auto.
Qed.

Lemma autoplay_step_final (i j : nat) (s : GameState.t) :
  Spec.final i s ->
  Spec.final i (GameState.state_of (GameState.autoplay_step s j))
  /\ Spec.events_of i (GameState.state_of (GameState.autoplay_step s j))
     = Spec.events_of i s.
Proof.
  intros Hf. destruct (decide (j = i)) as [->|Hne];
    [|apply kept_of_same; auto using autoplay_step_other].
  destruct Hf as (n & Hn & Hhit & Hbad) eqn:Hfe.
  unfold GameState.autoplay_step. rewrite Hn, Hhit. cbn [negb].
  destruct (_ && _); cbn [GameState.state_of]; [|auto].
  destruct (GameState.activate_track _ s) as [s1|] eqn:Hact;
    cbn [GameState.state_of]; [|auto].
  destruct (activate_track_fields _ _ _ Hact) as (_ & Hj & _ & Ho & _).
  assert (Hsame : Spec.events_of i s1 = Spec.events_of i s)
    by (unfold Spec.events_of; rewrite Hj; reflexivity).
  rewrite <- Hsame.
  eapply (final_update i _ _ _ n s1); eauto; try reflexivity.
  rewrite Ho. exact Hn.
Qed.

(** Passes over a list of notes. *)
Lemma pass_final (step : GameState.t -> nat -> GameState.t) (i : nat)
    (l : list nat) (s : GameState.t) :
  (forall j s, Spec.final i s ->
               Spec.final i (step s j)
               /\ Spec.events_of i (step s j) = Spec.events_of i s) ->
  Spec.final i s ->
  Spec.final i (fold_left step l s)
  /\ Spec.events_of i (fold_left step l s) = Spec.events_of i s.
Proof.
  intros Hstep Hf.
  apply (fold_left_invariant step
           (fun s' => Spec.final i s'
                      /\ Spec.events_of i s' = Spec.events_of i s));
    [auto|].
  intros a j [Ha He]. destruct (Hstep j a Ha) as [H1 H2].
  split; [exact H1|congruence].
Qed.

Lemma run_autoplay_final (i : nat) (l : list nat) (s : GameState.t) :
  Spec.final i s ->
  Spec.final i (GameState.state_of (GameState.run_autoplay l s))
  /\ Spec.events_of i (GameState.state_of (GameState.run_autoplay l s))
     = Spec.events_of i s.
Proof.
  revert s. induction l as [|j l IH]; intros s Hf; cbn [GameState.run_autoplay].
  - auto.
  - destruct (autoplay_step_final i j s Hf) as [H1 H2].
    destruct (GameState.autoplay_step s j) as [s1|s1]; cbn [GameState.state_of] in *.
    + destruct (IH s1 H1) as [H3 H4]. split; [exact H3|congruence].
    + auto.
Qed.

Lemma final_ext (i : nat) (s s' : GameState.t) :
  GameState.objects s' = GameState.objects s ->
  GameState.judged s' = GameState.judged s ->
  Spec.final i s ->
  Spec.final i s' /\ Spec.events_of i s' = Spec.events_of i s.
Proof. intros Ho Hj. apply kept_of_same, same_note_ext; assumption. Qed.

Lemma cache_impl_objects (s : GameState.t) :
  GameState.objects (GameState._update_notes_cache_impl s) = GameState.objects s
  /\ GameState.notes (GameState._update_notes_cache_impl s) = GameState.notes s
  /\ GameState.tracks (GameState._update_notes_cache_impl s) = GameState.tracks s.
Proof. unfold GameState._update_notes_cache_impl. step_cases; auto. Qed.

Lemma check_game_over_final (i : nat) (s : GameState.t) :
  Spec.final i s ->
  Spec.final i (GameState._check_game_over s)
  /\ Spec.events_of i (GameState._check_game_over s) = Spec.events_of i s.
Proof.
  intros Hf. unfold GameState._check_game_over.
  destruct (negb (GameState.is_playing s)); [auto|].
  assert (Hfb : Spec.final i match GameState.notes s with
                             | [] => GameState.stop_game s
                             | _ :: _ => s
                             end
                /\ Spec.events_of i match GameState.notes s with
                                    | [] => GameState.stop_game s
                                    | _ :: _ => s
                                    end = Spec.events_of i s).
  { destruct (GameState.notes s); [|auto]. apply (final_ext i s); auto. }
  destruct (GameState.chart_end_time_ms s) as [e|]; [|exact Hfb].
  destruct (e <=? GameState.now s); [|exact Hfb].
  destruct (pass_final (GameState.end_marker_step e) i (GameState.notes s) s
              (end_marker_step_final e i) Hf) as [H1 H2].
  destruct (final_ext i
              (fold_left (GameState.end_marker_step e) (GameState.notes s) s)
              (GameState.stop_game
                 (fold_left (GameState.end_marker_step e) (GameState.notes s) s))
              eq_refl eq_refl H1)
    as [H3 H4].
  split; [exact H3|congruence].
Qed.

Lemma finish_update_final (i : nat) (s : GameState.t) :
  Spec.final i s ->
  Spec.final i (GameState.finish_update s)
  /\ Spec.events_of i (GameState.finish_update s) = Spec.events_of i s.
Proof.
  intros Hf. unfold GameState.finish_update.
  set (s1 := if negb (GameState.autoplay s)
             then fold_left GameState.drag_step (GameState.notes s) s else s).
  assert (H1 : Spec.final i s1 /\ Spec.events_of i s1 = Spec.events_of i s).
  { unfold s1. destruct (negb (GameState.autoplay s)); [|auto].
    apply pass_final; auto using drag_step_final. }
  destruct H1 as [H1 E1].
  destruct (pass_final GameState.lifecycle_step i (GameState.notes s1) s1
              (lifecycle_step_final i) H1) as [H2 E2].
  destruct (check_game_over_final i _ H2) as [H3 E3].
  split; [exact H3|congruence].
Qed.

Lemma update_final (i : nat) (dt : Z) (s : GameState.t) :
  Spec.final i s ->
  Spec.final i (GameState.state_of (GameState.update dt s))
  /\ Spec.events_of i (GameState.state_of (GameState.update dt s))
     = Spec.events_of i s.
Proof.
  intros Hf. unfold GameState.update.
  destruct (negb (GameState.is_playing s) || GameState.is_paused s); [auto|].
  destruct (advance_time_fields dt s) as (Hj & _ & _ & _ & Ho & _).
  destruct (final_ext i s _ Ho Hj Hf) as [H1 E1].
  destruct (cache_impl_objects (GameState.advance_time dt s)) as (Ho2 & _).
  destruct (cache_impl_judged (GameState.advance_time dt s)) as (Hj2 & _).
  destruct (final_ext i _ _ Ho2 Hj2 H1) as [H2 E2].
  set (s2 := GameState._update_notes_cache_impl (GameState.advance_time dt s)) in *.
  destruct (GameState.autoplay s2).
  - unfold GameState._process_autoplay.
    destruct (run_autoplay_final i (GameState.notes s2) s2 H2) as [H3 E3].
    destruct (GameState.run_autoplay (GameState.notes s2) s2) as [s3|s3];
      cbn [GameState.state_of] in *.
    + destruct (finish_update_final i s3 H3) as [H4 E4].
      split; [exact H4|congruence].
    + split; [exact H3|congruence].
  - cbn [GameState.state_of]. unfold GameState._process_auto_miss.
    destruct (pass_final GameState.auto_miss_step i (GameState.notes s2) s2
                (auto_miss_step_final i) H2) as [H3 E3].
    destruct (finish_update_final i _ H3) as [H4 E4].
    split; [exact H4|congruence].
Qed.

Lemma target_step_unhit (s : GameState.t) (l : list nat) (acc : list (nat * Z))
    (x : nat * Z) :
  In x (fold_left (GameState.target_step s) l acc) ->
  In x acc
  \/ exists n, GameState.objects s !! fst x = Some n /\ Note.hit n = false.
Proof.
  revert acc. induction l as [|j l IH]; intros acc Hx; cbn in Hx; [auto|].
  destruct (IH _ Hx) as [Hacc|Hn]; [|auto].
  unfold GameState.target_step in Hacc.
  destruct (GameState.objects s !! j) as [n|] eqn:Hj; [|auto].
  destruct (Note.hit n) eqn:Hhit; cbn in Hacc; [auto|].
  destruct (negb (NoteType.eqb (Note.type n) NoteType.DRAG)); [|auto].
  destruct (_ <=? 200); [|auto].
  apply in_app_or in Hacc as [Hacc|[<-|[]]]; [auto|].
  right. exists n. auto.
Qed.

(** The note picked by [judge_note] is unhit. *)
Lemma judge_target_cases (k : Z) (s : GameState.t) :
  let s1 := GameState._update_notes_cache_impl s in
  GameState.judge_target k s = (None, s1)
  \/ exists j d n,
       GameState.objects s1 !! j = Some n /\ Note.hit n = false
       /\ GameState.judge_target k s
          = (Some (fst (GameState._judge_note j d s1)),
             snd (GameState._judge_note j d s1)).
Proof.
  cbv zeta. unfold GameState.judge_target.
  set (s1 := GameState._update_notes_cache_impl s).
  set (targets := fold_left (GameState.target_step s1) _ []).
  destruct (PyList.sort_by snd targets) as [|[j d] rest] eqn:Hsort; [auto|].
  right.
  assert (Hin : In (j, d) targets).
  { apply (Permutation_in (j, d) (sort_by_perm snd targets)).
    rewrite Hsort. left. reflexivity. }
  destruct (target_step_unhit _ _ _ _ Hin) as [[]|(n & Hn & Hhit)].
  exists j, d, n. split; [exact Hn|]. split; [exact Hhit|].
  destruct (GameState._judge_note j d s1); reflexivity.
Qed.

Lemma judge_target_final (i : nat) (k : Z) (s : GameState.t) :
  Spec.final i s ->
  Spec.final i (snd (GameState.judge_target k s))
  /\ Spec.events_of i (snd (GameState.judge_target k s)) = Spec.events_of i s.
Proof.
  intros Hf.
  destruct (cache_impl_objects s) as (Ho & _).
  destruct (cache_impl_judged s) as (Hj & _).
  destruct (final_ext i s _ Ho Hj Hf) as [H1 E1].
  destruct (judge_target_cases k s) as [->|(j & d & n & Hn & Hhit & ->)];
    cbn [snd]; [auto|].
  assert (Hne : j <> i).
  { intros ->. destruct H1 as (n' & Hn' & Hhit' & _). congruence. }
  destruct (kept_of_same i _ _ (same_note_judge_note i j d _ Hne) H1) as [H2 E2].
  split; [exact H2|congruence].
Qed.

Lemma judge_note_final (i : nat) (k : Z) (action : string) (s : GameState.t) :
  Spec.final i s ->
  Spec.final i (snd (GameState.judge_note k action s))
  /\ Spec.events_of i (snd (GameState.judge_note k action s)) = Spec.events_of i s.
Proof.
  intros Hf. unfold GameState.judge_note.
  destruct (negb (GameState.is_playing s) || GameState.is_paused s); [auto|].
  destruct ((k <? 0) || (GameState.num_tracks <=? k)); [auto|].
  destruct (String.eqb action "press").
  - destruct (final_ext i s (GameState.press_track k s) eq_refl eq_refl Hf)
      as [H1 E1].
    destruct (judge_target_final i k _ H1) as [H2 E2].
    split; [exact H2|congruence].
  - destruct (String.eqb action "release"); [|auto].
    unfold GameState.release_scan.
    destruct (pass_final (GameState.release_step k) i (GameState.notes s) s
                (release_step_final k i) Hf) as [H1 E1].
    set (s1 := fold_left (GameState.release_step k) (GameState.notes s) s) in *.
    destruct (final_ext i s1 (GameState.release_track k s1) eq_refl eq_refl H1)
      as [H2 E2].
    destruct (judge_target_final i k _ H2) as [H3 E3].
    split; [exact H3|congruence].
Qed.

(** Once a note has received its last judgement, no press, release or tick
    produces another notification about it. *)
Lemma run_calls_final (i : nat) (calls : list Spec.call) (s : GameState.t) :
  Spec.final i s ->
  Spec.final i (Spec.run_calls calls s)
  /\ Spec.events_of i (Spec.run_calls calls s) = Spec.events_of i s.
Proof.
  intros Hf. unfold Spec.run_calls.
  apply (fold_left_invariant Spec.run_call
           (fun s' => Spec.final i s'
                      /\ Spec.events_of i s' = Spec.events_of i s));
    [auto|].
  intros a c [Ha Ea].
  assert (H : Spec.final i (Spec.run_call a c)
              /\ Spec.events_of i (Spec.run_call a c) = Spec.events_of i a).
  { destruct c as [k|k|dt]; cbn [Spec.run_call];
      auto using judge_note_final, update_final. }
  destruct H as [H1 H2]. split; [exact H1|congruence].
Qed.

(** ** Early release of a HOLD note *)

Lemma pass_same (step : GameState.t -> nat -> GameState.t) (i : nat)
    (l : list nat) (s : GameState.t) :
  (forall j s, j <> i -> Spec.same_note i s (step s j)) ->
  i ∉ l -> Spec.same_note i s (fold_left step l s).
Proof.
  intros Hstep. revert s. induction l as [|j l IH]; intros s Hi; cbn.
  - apply same_note_refl.
  - apply not_elem_of_cons in Hi as [Hne Hi].
    eapply same_note_trans;
      [apply Hstep; intros Heq; apply Hne; symmetry; exact Heq|apply IH; exact Hi].
Qed.

Lemma release_step_static (k : Z) (s : GameState.t) (j : nat) :
  GameState.notes (GameState.release_step k s j) = GameState.notes s
  /\ GameState.current_time_ms (GameState.release_step k s j)
     = GameState.current_time_ms s.
Proof. unfold GameState.release_step. step_cases; auto. Qed.

Lemma release_pass_static (k : Z) (l : list nat) (s : GameState.t) :
  GameState.notes (fold_left (GameState.release_step k) l s) = GameState.notes s
  /\ GameState.current_time_ms (fold_left (GameState.release_step k) l s)
     = GameState.current_time_ms s.
Proof.
  split.
  - apply (fold_left_preserves _ GameState.notes). intros a b.
    apply release_step_static.
  - apply (fold_left_preserves _ GameState.current_time_ms). intros a b.
    apply release_step_static.
Qed.

Lemma set_judgement_bad (n : Note.t) :
  GameState.is_bad (Note.judgement n) = true ->
  Note.set_judgement (Some JudgementResult.BAD) n = n.
Proof.
  destruct n as [a b c d e f g j h k]. cbn.
  destruct j as [[]|]; try discriminate. reflexivity.
Qed.

(** The scan reaches the HOLD note itself. *)
Lemma release_step_hold (k : Z) (s : GameState.t) (i : nat) (n : Note.t) :
  GameState.objects s !! i = Some n ->
  Note.type n = NoteType.HOLD -> Note.track_index n = k ->
  Note.hit n = true -> Note.is_complete (GameState.now s) n = false ->
  let s' := GameState.release_step k s i in
  GameState.objects s' !! i
  = Some (Note.set_judgement (Some JudgementResult.BAD) n)
  /\ Spec.events_of i s'
     = (if GameState.is_bad (Note.judgement n) then []
        else [(i, JudgementResult.BAD)]) ++ Spec.events_of i s.
Proof.
  intros Hn Hty Htr Hhit Hc. cbv zeta. unfold GameState.release_step.
  rewrite Hn, Hty, Htr, Hhit, Hc, Z.eqb_refl. cbn [NoteType.eqb andb negb].
  destruct (GameState.is_bad (Note.judgement n)) eqn:Hbad; cbn [negb].
  - rewrite set_judgement_bad by exact Hbad. auto.
  - cbn. rewrite lookup_alter_eq, Hn. unfold Spec.events_of. cbn.
    rewrite Nat.eqb_refl. auto.
Qed.

Lemma judge_target_same (i : nat) (k : Z) (s : GameState.t) (n : Note.t) :
  GameState.objects s !! i = Some n -> Note.hit n = true ->
  Spec.same_note i s (snd (GameState.judge_target k s)).
Proof.
  intros Hn Hhit.
  destruct (cache_impl_objects s) as (Ho & _).
  destruct (cache_impl_judged s) as (Hj & _).
  pose proof (same_note_ext i s _ Ho Hj) as H1.
  destruct (judge_target_cases k s) as [->|(j & d & m & Hm & Hmh & ->)];
    cbn [snd]; [exact H1|].
  assert (Hne : j <> i).
  { intros ->. rewrite Ho, Hn in Hm. congruence. }
  eapply same_note_trans; [exact H1|apply same_note_judge_note; exact Hne].
Qed.

Lemma judge_target_notes (k : Z) (s : GameState.t) :
  GameState.notes (snd (GameState.judge_target k s)) = GameState.notes s.
Proof.
  destruct (cache_impl_objects s) as (_ & Hn & _).
  destruct (judge_target_cases k s) as [->|(j & d & m & _ & _ & ->)]; cbn [snd];
    [exact Hn|].
  destruct (judge_note_fields j d (GameState._update_notes_cache_impl s))
    as (_ & _ & _ & _ & _ & Hnotes & _).
  cbv zeta in Hnotes. congruence.
Qed.

(** The scan records forced BAD judgements only, one counter increment
    per notification. *)
Lemma release_scan_records (k : Z) (s : GameState.t) :
  exists forced,
    GameState.judged (GameState.release_scan k s) = forced ++ GameState.judged s
    /\ Forall (fun e => snd e = JudgementResult.BAD) forced
    /\ JudgementSystem.n_bad (Spec.counts_of (GameState.release_scan k s))
       = JudgementSystem.n_bad (Spec.counts_of s) + Z.of_nat (length forced).
Proof.
  unfold GameState.release_scan.
  apply (fold_left_invariant (GameState.release_step k)
           (fun s' =>
              exists forced,
                GameState.judged s' = forced ++ GameState.judged s
                /\ Forall (fun e => snd e = JudgementResult.BAD) forced
                /\ JudgementSystem.n_bad (Spec.counts_of s')
                   = JudgementSystem.n_bad (Spec.counts_of s)
                     + Z.of_nat (length forced))).
  - exists []. cbn. repeat split; auto. lia.
  - intros a j (forced & Hj & Hf & Hc). unfold GameState.release_step.
    repeat break_match; try (exists forced; split; [|split]; assumption).
    exists ((j, JudgementResult.BAD) :: forced). unfold Spec.counts_of in *. cbn.
    rewrite Hj. split; [reflexivity|]. split; [constructor; auto|]. lia.
Qed.

(** The whole scan, for a HOLD note of the list that is hit and not
    complete. *)
Lemma release_scan_hold (k : Z) (s : GameState.t) (i : nat) (n : Note.t) :
  NoDup (GameState.notes s) -> i ∈ GameState.notes s ->
  GameState.objects s !! i = Some n ->
  Note.type n = NoteType.HOLD -> Note.track_index n = k ->
  Note.hit n = true -> Note.is_complete (GameState.now s) n = false ->
  let sc := GameState.release_scan k s in
  GameState.notes sc = GameState.notes s
  /\ GameState.objects sc !! i
     = Some (Note.set_judgement (Some JudgementResult.BAD) n)
  /\ Spec.events_of i sc
     = (if GameState.is_bad (Note.judgement n) then []
        else [(i, JudgementResult.BAD)]) ++ Spec.events_of i s.
Proof.
  intros Hnd Hin Hn Hty Htr Hhit Hc. cbv zeta.
  split; [apply release_pass_static|].
  unfold GameState.release_scan.
  destruct (list_elem_of_split _ _ Hin) as (l1 & l2 & Hl).
  assert (Hl1 : (i ∉ l1) /\ (i ∉ l2)).
  { rewrite Hl in Hnd. apply NoDup_app in Hnd as (_ & Hd & Hnd2).
    split; [intros Hi; apply (Hd _ Hi), list_elem_of_here|].
    apply NoDup_cons_1_1. exact Hnd2. }
  destruct Hl1 as [Hl1 Hl2].
  rewrite Hl, fold_left_app. cbn [fold_left].
  pose proof (pass_same (GameState.release_step k) i l1 s
                (fun j s => release_step_other k i j s) Hl1) as [Ho1 He1].
  destruct (release_pass_static k l1 s) as [_ Ht1].
  set (sa := fold_left (GameState.release_step k) l1 s) in *.
  destruct (release_step_hold k sa i n) as [Ho2 He2]; auto.
  { rewrite Ho1. exact Hn. }
  { unfold GameState.now. rewrite Ht1. exact Hc. }
  set (sb := GameState.release_step k sa i) in *.
  pose proof (pass_same (GameState.release_step k) i l2 sb
                (fun j s => release_step_other k i j s) Hl2) as [Ho3 He3].
  split; [rewrite Ho3; exact Ho2|].
  rewrite He3, He2, He1. reflexivity.
Qed.

(** A release does not always record a Bad: the HOLD note is pressed
    170 ms early and judged BAD; it is hit and not complete, and its release
    records nothing. *)
Lemma release_of_bad_hold_records_nothing :
  ~ (forall (s : GameState.t) (k : Z) (i : nat) (n : Note.t),
       GameState.is_playing s = true -> GameState.is_paused s = false ->
       i ∈ GameState.notes s -> GameState.objects s !! i = Some n ->
       Note.type n = NoteType.HOLD -> Note.track_index n = k ->
       Note.hit n = true -> Note.is_complete (GameState.now s) n = false ->
       JudgementSystem.n_bad
         (Spec.counts_of (snd (GameState.judge_note k "release" s)))
       = JudgementSystem.n_bad (Spec.counts_of s) + 1
       /\ Spec.events_of i (snd (GameState.judge_note k "release" s))
          = (i, JudgementResult.BAD) :: Spec.events_of i s).
Proof.
  intros H.
  destruct (H (Scenario.hold_pressed_at 1830) 1 0%nat
              (GameState.mark JudgementResult.BAD
                 (Note.__init__ 0 1 NoteType.HOLD 2000 1000)))
    as [Hbad _]; try reflexivity.
  - apply list_elem_of_here.
  - vm_compute in Hbad. discriminate Hbad.
Qed.

(** X1: when the track of a HOLD note that is hit and not yet complete is
    released through [judge_note], the note ends up BAD and is not evicted; the
    release records one Bad for it if its judgement was not BAD already,
    and none if it was (judged BAD on the press, or forced by an earlier
    release); the Bad counter moves by one per forced notification; and
    whatever presses, releases and ticks follow, no further judgement is
    recorded for that note. *)
Theorem early_release_forces_bad_once (s : GameState.t) (k : Z) (i : nat)
    (n : Note.t) :
  GameState.is_playing s = true -> GameState.is_paused s = false ->
  0 <= k < GameState.num_tracks ->
  NoDup (GameState.notes s) -> i ∈ GameState.notes s ->
  GameState.objects s !! i = Some n ->
  Note.type n = NoteType.HOLD -> Note.track_index n = k ->
  Note.hit n = true -> Note.is_complete (GameState.now s) n = false ->
  let s' := snd (GameState.judge_note k "release" s) in
  GameState.notes s' = GameState.notes s
  /\ GameState.objects s' !! i
     = Some (Note.set_judgement (Some JudgementResult.BAD) n)
  /\ Spec.events_of i s'
     = (if GameState.is_bad (Note.judgement n) then []
        else [(i, JudgementResult.BAD)]) ++ Spec.events_of i s
  /\ (exists forced,
        GameState.judged (GameState.release_scan k s)
        = forced ++ GameState.judged s
        /\ Forall (fun e => snd e = JudgementResult.BAD) forced
        /\ JudgementSystem.n_bad (Spec.counts_of (GameState.release_scan k s))
           = JudgementSystem.n_bad (Spec.counts_of s) + Z.of_nat (length forced))
  /\ (forall calls,
        Spec.events_of i (Spec.run_calls calls s') = Spec.events_of i s').
Proof.
  intros Hplay Hpause Hk Hnd Hin Hn Hty Htr Hhit Hc. cbv zeta.
  unfold GameState.judge_note. rewrite Hplay, Hpause. cbn [negb orb].
  replace ((k <? 0) || (GameState.num_tracks <=? k)) with false
    by (symmetry; apply orb_false_iff; split;
        [apply Z.ltb_ge|apply Z.leb_gt]; lia).
  cbn [String.eqb Ascii.eqb Bool.eqb].
  destruct (release_scan_hold k s i n Hnd Hin Hn Hty Htr Hhit Hc)
    as (Hnc & Hoc & Hec).
  pose proof (release_scan_records k s) as Hrec.
  set (sc := GameState.release_scan k s) in *.
  set (sd := GameState.release_track k sc).
  assert (Hod : GameState.objects sd !! i
                = Some (Note.set_judgement (Some JudgementResult.BAD) n))
    by exact Hoc.
  assert (Hed : Spec.events_of i sd = Spec.events_of i sc) by reflexivity.
  assert (Hhd : Note.hit (Note.set_judgement (Some JudgementResult.BAD) n) = true)
    by exact Hhit.
  destruct (judge_target_same i k sd _ Hod Hhd) as [Ho4 He4].
  split; [rewrite judge_target_notes; exact Hnc|].
  split; [rewrite Ho4; exact Hod|].
  split; [rewrite He4, Hed; exact Hec|].
  split; [exact Hrec|].
  intros calls. apply run_calls_final.
  exists (Note.set_judgement (Some JudgementResult.BAD) n).
  split; [rewrite Ho4; exact Hod|]. split; [exact Hhit|reflexivity].
Qed.

Lemma early_release_forces_bad_once_witness :
  let s := Scenario.hold_pressed_at 2010 in
  let s' := snd (GameState.judge_note 1 "release" s) in
  Spec.events_of 0 s' = [(0%nat, JudgementResult.BAD)] ++ Spec.events_of 0 s
  /\ Spec.events_of 0
       (Spec.run_calls [Spec.Press 1; Spec.Release 1; Spec.Tick 16; Spec.Release 1] s')
     = Spec.events_of 0 s'.
Proof.
  intros s s'.
  destruct (early_release_forces_bad_once s 1 0%nat
              (GameState.mark JudgementResult.PERFECT
                 (Note.__init__ 0 1 NoteType.HOLD 2000 1000)))
    as (_ & _ & He & _ & Hlater); try reflexivity.
  - split; [discriminate|reflexivity].
  - apply NoDup_singleton.
  - apply list_elem_of_here.
  - split; [exact He|apply Hlater].
Defined.

(** ** The DRAG rule *)

Lemma remove_elem_of (i j : nat) (l : list nat) :
  i ∈ PyList.remove j l -> i ∈ l.
Proof.
  induction l as [|x l IH]; cbn; [auto|].
  destruct (Nat.eqb j x); intros H.
  - apply list_elem_of_further. exact H.
  - apply elem_of_cons in H as [->|H];
      [apply list_elem_of_here|apply list_elem_of_further; auto].
Qed.

Lemma remove_elem_of_other (i j : nat) (l : list nat) :
  j <> i -> i ∈ l -> i ∈ PyList.remove j l.
Proof.
  intros Hne. induction l as [|x l IH]; cbn; [auto|].
  intros H. apply elem_of_cons in H as [->|H].
  - destruct (Nat.eqb_spec j x); [contradiction|apply list_elem_of_here].
  - destruct (Nat.eqb j x); [exact H|apply list_elem_of_further; auto].
Qed.

Lemma remove_NoDup (j : nat) (l : list nat) : NoDup l -> NoDup (PyList.remove j l).
Proof.
  induction l as [|x l IH]; cbn; [auto|]. intros Hnd.
  pose proof (NoDup_cons_1_1 _ _ Hnd) as Hx.
  pose proof (NoDup_cons_1_2 _ _ Hnd) as Hl.
  destruct (Nat.eqb j x); [exact Hl|].
  apply NoDup_cons_2; [|auto]. intros H. apply Hx. eapply remove_elem_of; eauto.
Qed.

Lemma remove_not_elem_of (i : nat) (l : list nat) :
  NoDup l -> i ∉ PyList.remove i l.
Proof.
  induction l as [|x l IH]; cbn; intros Hnd; [apply not_elem_of_nil|].
  pose proof (NoDup_cons_1_1 _ _ Hnd) as Hx.
  pose proof (NoDup_cons_1_2 _ _ Hnd) as Hl.
  destruct (Nat.eqb_spec i x) as [->|Hne]; [exact Hx|].
  apply not_elem_of_cons. split; [exact Hne|auto].
Qed.

(** What the steps of a tick without autoplay leave alone. *)
Lemma auto_miss_step_quiet (s : GameState.t) (j : nat) :
  GameState.tracks (GameState.auto_miss_step s j) = GameState.tracks s
  /\ GameState.notes (GameState.auto_miss_step s j) = GameState.notes s
  /\ GameState.current_time_ms (GameState.auto_miss_step s j)
     = GameState.current_time_ms s.
Proof. unfold GameState.auto_miss_step. step_cases; auto. Qed.

Lemma drag_step_quiet (s : GameState.t) (j : nat) :
  GameState.tracks (GameState.drag_step s j) = GameState.tracks s
  /\ GameState.notes (GameState.drag_step s j) = GameState.notes s
  /\ GameState.current_time_ms (GameState.drag_step s j)
     = GameState.current_time_ms s.
Proof.
  unfold GameState.drag_step, GameState._judge_perfect. step_cases; auto.
  destruct (judge_note_fields j 0 s) as (_ & _ & _ & _ & Ht & Hn & Hc & _).
  auto.
Qed.

Lemma end_marker_step_quiet (e : Z) (s : GameState.t) (j : nat) :
  GameState.tracks (GameState.end_marker_step e s j) = GameState.tracks s
  /\ GameState.notes (GameState.end_marker_step e s j) = GameState.notes s
  /\ GameState.current_time_ms (GameState.end_marker_step e s j)
     = GameState.current_time_ms s.
Proof. unfold GameState.end_marker_step. step_cases; auto. Qed.

Lemma lifecycle_step_quiet (s : GameState.t) (j : nat) :
  GameState.tracks (GameState.lifecycle_step s j) = GameState.tracks s
  /\ GameState.current_time_ms (GameState.lifecycle_step s j)
     = GameState.current_time_ms s
  /\ (GameState.notes (GameState.lifecycle_step s j) = GameState.notes s
      \/ GameState.notes (GameState.lifecycle_step s j)
         = PyList.remove j (GameState.notes s)).
Proof. unfold GameState.lifecycle_step. step_cases; auto. Qed.

Lemma pass_quiet (step : GameState.t -> nat -> GameState.t) (l : list nat)
    (s : GameState.t) :
  (forall s j,
     GameState.tracks (step s j) = GameState.tracks s
     /\ GameState.notes (step s j) = GameState.notes s
     /\ GameState.current_time_ms (step s j) = GameState.current_time_ms s) ->
  GameState.tracks (fold_left step l s) = GameState.tracks s
  /\ GameState.notes (fold_left step l s) = GameState.notes s
  /\ GameState.current_time_ms (fold_left step l s) = GameState.current_time_ms s.
Proof.
  intros Hstep. repeat split.
  - apply (fold_left_preserves _ GameState.tracks). intros a b. apply Hstep.
  - apply (fold_left_preserves _ GameState.notes). intros a b. apply Hstep.
  - apply (fold_left_preserves _ GameState.current_time_ms). intros a b.
    apply Hstep.
Qed.

Lemma check_track_state_tracks (k : Z) (s s' : GameState.t) :
  GameState.tracks s' = GameState.tracks s ->
  GameState.check_track_state k s' = GameState.check_track_state k s.
Proof. intros H. unfold GameState.check_track_state. rewrite H. reflexivity. Qed.

(** The auto-miss pass leaves alone a note that is not yet late. *)
Lemma auto_miss_pass_early (i : nat) (n : Note.t) (l : list nat)
    (s : GameState.t) :
  GameState.objects s !! i = Some n ->
  GameState.now s <= Note.perfect_time n + 200 ->
  Spec.same_note i s (fold_left GameState.auto_miss_step l s).
Proof.
  intros Hn Hearly.
  enough (H : Spec.same_note i s (fold_left GameState.auto_miss_step l s)
              /\ GameState.current_time_ms (fold_left GameState.auto_miss_step l s)
                 = GameState.current_time_ms s) by apply H.
  apply (fold_left_invariant GameState.auto_miss_step
           (fun s' => Spec.same_note i s s'
                      /\ GameState.current_time_ms s' = GameState.current_time_ms s)).
  - split; [apply same_note_refl|reflexivity].
  - intros a j [Ha Ht].
    split; [|rewrite (proj2 (proj2 (auto_miss_step_quiet a j))); exact Ht].
    eapply same_note_trans; [exact Ha|].
    destruct (decide (j = i)) as [->|Hne]; [|apply auto_miss_step_other; exact Hne].
    unfold GameState.auto_miss_step. rewrite (proj1 Ha), Hn.
    replace (Note.perfect_time n + 200 <? GameState.now a) with false
      by (symmetry; apply Z.ltb_ge; unfold GameState.now in *; lia).
    rewrite andb_false_r. apply same_note_refl.
Qed.

(** The step of the DRAG rule on an unhit DRAG note inside the window. *)
Lemma drag_step_self (i : nat) (n : Note.t) (s : GameState.t) :
  GameState.objects s !! i = Some n ->
  Note.type n = NoteType.DRAG -> Note.hit n = false ->
  Z.abs (GameState.now s - Note.perfect_time n) <= 200 ->
  let J := if GameState.check_track_state (Note.track_index n) s
           then JudgementResult.PERFECT else JudgementResult.MISS in
  GameState.objects (GameState.drag_step s i) !! i = Some (GameState.mark J n)
  /\ Spec.events_of i (GameState.drag_step s i) = (i, J) :: Spec.events_of i s.
Proof.
  intros Hn Hty Hhit Hwin. cbv zeta. unfold GameState.drag_step.
  rewrite Hn, Hty, Hhit. cbn [NoteType.eqb negb andb].
  replace (Z.abs (GameState.now s - Note.perfect_time n) <=? 200) with true
    by (symmetry; apply Z.leb_le; exact Hwin).
  destruct (GameState.check_track_state (Note.track_index n) s).
  - unfold GameState._judge_perfect.
    destruct (judge_note_fields i 0 s) as (_ & Ho & Hj & _). cbv zeta in Ho, Hj.
    rewrite get_judgement_0 in Ho, Hj.
    rewrite Ho, lookup_alter_eq, Hn, (events_of_cons i i _ s _ Hj), Nat.eqb_refl.
    auto.
  - destruct (judge_miss_fields i s) as (Ho & Hj & _). cbv zeta in Ho, Hj.
    rewrite Ho, lookup_alter_eq, Hn, (events_of_cons i i _ s _ Hj), Nat.eqb_refl.
    auto.
Qed.

Lemma note_update_not_hold (t : Z) (a : bool) (n : Note.t) :
  Note.type n <> NoteType.HOLD -> Note.update t a (-1) n = n.
Proof.
  destruct n as [i k ty p d h ht j st c]. cbn. intros Hty.
  destruct ty; try contradiction; reflexivity.
Qed.

(** The lifecycle step of a note that is hit and not a HOLD note: the note
    is unchanged and leaves the list. *)
Lemma lifecycle_step_self (i : nat) (n : Note.t) (s : GameState.t) :
  GameState.objects s !! i = Some n ->
  Note.type n <> NoteType.HOLD -> Note.hit n = true ->
  NoDup (GameState.notes s) ->
  Spec.same_note i s (GameState.lifecycle_step s i)
  /\ i ∉ GameState.notes (GameState.lifecycle_step s i).
Proof.
  intros Hn Hty Hhit Hnd. unfold GameState.lifecycle_step. rewrite Hn.
  rewrite note_update_not_hold by exact Hty.
  assert (Hc : forall t, Note.is_complete t n = true).
  { intros t. unfold Note.is_complete. rewrite Hhit.
    destruct (Note.type n); try contradiction; reflexivity. }
  rewrite Hc.
  assert (Hsame : Spec.same_note i s
                    (GameState.set_objects (<[i:=n]> (GameState.objects s)) s)).
  { split; [cbn; rewrite lookup_insert_eq; auto|reflexivity]. }
  cbn [GameState.notes GameState.set_objects].
  destruct (bool_decide (i ∈ GameState.notes s)) eqn:Hin.
  - split; [exact Hsame|]. cbn. apply remove_not_elem_of. exact Hnd.
  - split; [exact Hsame|]. cbn. apply bool_decide_eq_false in Hin. exact Hin.
Qed.

Lemma lifecycle_pass_other (i : nat) (l : list nat) (s : GameState.t) :
  i ∉ l ->
  Spec.same_note i s (fold_left GameState.lifecycle_step l s)
  /\ (NoDup (GameState.notes s) ->
      NoDup (GameState.notes (fold_left GameState.lifecycle_step l s)))
  /\ (i ∉ GameState.notes s ->
      i ∉ GameState.notes (fold_left GameState.lifecycle_step l s))
  /\ GameState.current_time_ms (fold_left GameState.lifecycle_step l s)
     = GameState.current_time_ms s
  /\ GameState.tracks (fold_left GameState.lifecycle_step l s) = GameState.tracks s.
Proof.
  revert s. induction l as [|j l IH]; intros s Hi; cbn [fold_left].
  - split; [apply same_note_refl|auto].
  - apply not_elem_of_cons in Hi as [Hne Hi].
    destruct (IH (GameState.lifecycle_step s j) Hi) as (H1 & H2 & H3 & H4 & H5).
    destruct (lifecycle_step_quiet s j) as (Q1 & Q2 & Q3).
    split.
    { eapply same_note_trans; [|exact H1]. apply lifecycle_step_other.
      intros Heq. apply Hne. symmetry. exact Heq. }
    split.
    { intros Hnd. apply H2. destruct Q3 as [-> | ->]; [exact Hnd|].
      apply remove_NoDup. exact Hnd. }
    split.
    { intros Hnot. apply H3. destruct Q3 as [-> | ->]; [exact Hnot|].
      intros Hin. apply Hnot. eapply remove_elem_of. exact Hin. }
    split; congruence.
Qed.

Lemma end_marker_pass_hit (e : Z) (i : nat) (n : Note.t) (l : list nat)
    (s : GameState.t) :
  GameState.objects s !! i = Some n -> Note.hit n = true ->
  Spec.same_note i s (fold_left (GameState.end_marker_step e) l s).
Proof.
  intros Hn Hhit.
  apply (fold_left_invariant (GameState.end_marker_step e)
           (fun s' => Spec.same_note i s s')); [apply same_note_refl|].
  intros a j Ha. eapply same_note_trans; [exact Ha|].
  destruct (decide (j = i)) as [->|Hne]; [|apply end_marker_step_other; exact Hne].
  unfold GameState.end_marker_step. rewrite (proj1 Ha), Hn, Hhit.
  apply same_note_refl.
Qed.

Lemma check_game_over_hit (i : nat) (n : Note.t) (s : GameState.t) :
  GameState.objects s !! i = Some n -> Note.hit n = true ->
  Spec.same_note i s (GameState._check_game_over s)
  /\ GameState.notes (GameState._check_game_over s) = GameState.notes s.
Proof.
  intros Hn Hhit. unfold GameState._check_game_over.
  destruct (negb (GameState.is_playing s)); [split; [apply same_note_refl|auto]|].
  assert (Hfb : Spec.same_note i s match GameState.notes s with
                                   | [] => GameState.stop_game s
                                   | _ :: _ => s
                                   end
                /\ GameState.notes match GameState.notes s with
                                   | [] => GameState.stop_game s
                                   | _ :: _ => s
                                   end = GameState.notes s).
  { destruct (GameState.notes s) eqn:Hl; split; auto using same_note_refl.
    apply same_note_ext; reflexivity. }
  destruct (GameState.chart_end_time_ms s) as [e|]; [|exact Hfb].
  destruct (e <=? GameState.now s); [|exact Hfb].
  split.
  - eapply same_note_trans; [apply (end_marker_pass_hit e i n); eassumption|].
    apply same_note_ext; reflexivity.
  - cbn. apply (pass_quiet (GameState.end_marker_step e)).
    apply end_marker_step_quiet.
Qed.

Lemma split_NoDup (i : nat) (l : list nat) :
  NoDup l -> i ∈ l ->
  exists l1 l2, l = l1 ++ i :: l2 /\ (i ∉ l1) /\ (i ∉ l2).
Proof.
  intros Hnd Hin. destruct (list_elem_of_split _ _ Hin) as (l1 & l2 & Hl).
  exists l1, l2. split; [exact Hl|].
  rewrite Hl in Hnd. apply NoDup_app in Hnd as (_ & Hd & Hnd2).
  split; [intros Hi; apply (Hd _ Hi), list_elem_of_here|].
  apply NoDup_cons_1_1. exact Hnd2.
Qed.

(** X2: in a tick without autoplay, an unhit DRAG note of the active list
    whose perfect time is within 200 ms of the new clock is judged in that
    tick without any press: PERFECT if its track is activated, MISS
    otherwise.  It is judged once: the tick records exactly one judgement
    for it, evicts it, and no later press, release or tick records another. *)
Theorem drag_note_judged_on_entering_window (s : GameState.t)
    (delta_time_ms : Z) (i : nat) (n : Note.t) :
  GameState.is_playing s = true -> GameState.is_paused s = false ->
  GameState.autoplay s = false ->
  NoDup (GameState.notes s) -> i ∈ GameState.notes s ->
  GameState.objects s !! i = Some n ->
  Note.type n = NoteType.DRAG -> Note.hit n = false ->
  Z.abs (GameState.current_time_ms (GameState.advance_time delta_time_ms s)
         - Note.perfect_time n) <= 200 ->
  let J := if GameState.check_track_state (Note.track_index n) s
           then JudgementResult.PERFECT else JudgementResult.MISS in
  exists s',
    GameState.update delta_time_ms s = GameState.Returned s'
    /\ GameState.objects s' !! i = Some (GameState.mark J n)
    /\ Spec.events_of i s' = (i, J) :: Spec.events_of i s
    /\ (i ∉ GameState.notes s')
    /\ (forall calls,
          Spec.events_of i (Spec.run_calls calls s') = Spec.events_of i s').
Proof.
  intros Hplay Hpause Hauto Hnd Hin Hn Hty Hhit Hwin J.
  unfold GameState.update. rewrite Hplay, Hpause. cbn [negb orb].
  destruct (advance_time_fields delta_time_ms s)
    as (Hj1 & _ & _ & Ha1 & Ho1 & Hn1 & Ht1).
  set (s1 := GameState.advance_time delta_time_ms s) in *.
  destruct (cache_impl_objects s1) as (Ho2 & Hn2 & Ht2).
  destruct (cache_impl_judged s1) as (Hj2 & _).
  pose proof (cache_impl_statics s1) as Hst2.
  set (s2 := GameState._update_notes_cache_impl s1) in *.
  assert (Ha2 : GameState.autoplay s2 = false).
  { rewrite (statics_autoplay _ _ Hst2), Ha1. exact Hauto. }
  assert (Hc2 : GameState.current_time_ms s2 = GameState.current_time_ms s1).
  { unfold Spec.statics in Hst2. congruence. }
  rewrite Ha2.
  assert (Hs2 : Spec.same_note i s s2).
  { apply same_note_ext; congruence. }
  (* the auto-miss pass *)
  unfold GameState._process_auto_miss.
  assert (Hn_s2 : GameState.objects s2 !! i = Some n)
    by (rewrite (proj1 Hs2); exact Hn).
  assert (Hearly : GameState.now s2 <= Note.perfect_time n + 200)
    by (unfold GameState.now; lia).
  pose proof (auto_miss_pass_early i n (GameState.notes s2) s2 Hn_s2 Hearly) as Hs3.
  destruct (pass_quiet GameState.auto_miss_step (GameState.notes s2) s2
              auto_miss_step_quiet) as (Ht3 & Hn3 & Hc3).
  set (s3 := fold_left GameState.auto_miss_step (GameState.notes s2) s2) in *.
  assert (Ha3 : GameState.autoplay s3 = false).
  { unfold s3. rewrite (fold_left_preserves _ GameState.autoplay); [exact Ha2|].
    intros a b. unfold GameState.auto_miss_step. step_cases; reflexivity. }
  (* the DRAG rule *)
  unfold GameState.finish_update. rewrite Ha3. cbn [negb].
  assert (Hnotes3 : GameState.notes s3 = GameState.notes s) by congruence.
  destruct (split_NoDup i (GameState.notes s) Hnd Hin) as (l1 & l2 & Hl & Hl1 & Hl2).
  rewrite Hnotes3, Hl, fold_left_app. cbn [fold_left].
  pose proof (pass_same GameState.drag_step i l1 s3
                (fun j s => drag_step_other i j s) Hl1) as Hs4a.
  destruct (pass_quiet GameState.drag_step l1 s3 drag_step_quiet)
    as (Ht4a & Hn4a & Hc4a).
  set (s4a := fold_left GameState.drag_step l1 s3) in *.
  assert (Hn_4a : GameState.objects s4a !! i = Some n).
  { rewrite (proj1 Hs4a), (proj1 Hs3). exact Hn_s2. }
  assert (Hwin4 : Z.abs (GameState.now s4a - Note.perfect_time n) <= 200).
  { unfold GameState.now. rewrite Hc4a, Hc3, Hc2. exact Hwin. }
  destruct (drag_step_self i n s4a Hn_4a Hty Hhit Hwin4) as [Ho4b He4b].
  cbv zeta in Ho4b, He4b.
  rewrite (check_track_state_tracks _ s s4a) in Ho4b, He4b by congruence.
  fold J in Ho4b, He4b.
  destruct (drag_step_quiet s4a i) as (Ht4b & Hn4b & Hc4b).
  set (s4b := GameState.drag_step s4a i) in *.
  pose proof (pass_same GameState.drag_step i l2 s4b
                (fun j s => drag_step_other i j s) Hl2) as Hs4.
  destruct (pass_quiet GameState.drag_step l2 s4b drag_step_quiet)
    as (Ht4 & Hn4 & Hc4).
  set (s4 := fold_left GameState.drag_step l2 s4b) in *.
  assert (Hnotes4 : GameState.notes s4 = l1 ++ i :: l2) by congruence.
  assert (Ho4 : GameState.objects s4 !! i = Some (GameState.mark J n))
    by (rewrite (proj1 Hs4); exact Ho4b).
  assert (He4 : Spec.events_of i s4 = (i, J) :: Spec.events_of i s).
  { rewrite (proj2 Hs4), He4b, (proj2 Hs4a), (proj2 Hs3), (proj2 Hs2).
    reflexivity. }
  (* the lifecycle pass *)
  rewrite Hnotes4, fold_left_app. cbn [fold_left].
  destruct (lifecycle_pass_other i l1 s4 Hl1) as (Hs5a & Hnd5a & _ & _ & _).
  assert (Hnd4 : NoDup (GameState.notes s4)) by (rewrite Hnotes4, <- Hl; exact Hnd).
  specialize (Hnd5a Hnd4).
  set (s5a := fold_left GameState.lifecycle_step l1 s4) in *.
  assert (Ho5a : GameState.objects s5a !! i = Some (GameState.mark J n))
    by (rewrite (proj1 Hs5a); exact Ho4).
  assert (Hmty : Note.type (GameState.mark J n) <> NoteType.HOLD)
    by (cbn; rewrite Hty; discriminate).
  destruct (lifecycle_step_self i (GameState.mark J n) s5a Ho5a Hmty eq_refl Hnd5a)
    as [Hs5b Hout5b].
  set (s5b := GameState.lifecycle_step s5a i) in *.
  destruct (lifecycle_pass_other i l2 s5b Hl2) as (Hs5 & _ & Hout5 & _ & _).
  specialize (Hout5 Hout5b).
  set (s5 := fold_left GameState.lifecycle_step l2 s5b) in *.
  assert (Ho5 : GameState.objects s5 !! i = Some (GameState.mark J n)).
  { rewrite (proj1 Hs5), (proj1 Hs5b). exact Ho5a. }
  assert (He5 : Spec.events_of i s5 = (i, J) :: Spec.events_of i s).
  { rewrite (proj2 Hs5), (proj2 Hs5b), (proj2 Hs5a). exact He4. }
  (* the end-of-session check *)
  destruct (check_game_over_hit i (GameState.mark J n) s5 Ho5 eq_refl)
    as [Hs6 Hn6].
  exists (GameState._check_game_over s5).
  split; [reflexivity|].
  split; [rewrite (proj1 Hs6); exact Ho5|].
  split; [rewrite (proj2 Hs6); exact He5|].
  split; [rewrite Hn6; exact Hout5|].
  intros calls. apply run_calls_final.
  exists (GameState.mark J n).
  split; [rewrite (proj1 Hs6); exact Ho5|].
  split; [reflexivity|]. cbn. rewrite Hty. discriminate.
Qed.

Lemma drag_note_judged_on_entering_window_witness :
  exists s',
    GameState.update 100 Scenario.drag_track_held = GameState.Returned s'
    /\ Spec.events_of 0 s'
       = (0%nat, JudgementResult.PERFECT) :: Spec.events_of 0 Scenario.drag_track_held
    /\ (0%nat ∉ GameState.notes s').
Proof.
  assert (Hwin : Z.abs (GameState.current_time_ms
                         (GameState.advance_time 100 Scenario.drag_track_held)
                       - Note.perfect_time (Note.__init__ 0 2 NoteType.DRAG 5000 0))
                 <= 200) by (vm_compute; discriminate).
  destruct (drag_note_judged_on_entering_window Scenario.drag_track_held 100 0%nat
              (Note.__init__ 0 2 NoteType.DRAG 5000 0)
              eq_refl eq_refl eq_refl (NoDup_singleton 0%nat)
              (list_elem_of_here 0%nat []) eq_refl eq_refl eq_refl Hwin)
    as (s' & Hu & _ & He & Hout & _).
  exists s'. split; [exact Hu|]. split; [exact He|exact Hout].
Defined.

(** ** Tracks *)

Lemma tracks_lookup_alter (f : Track.t -> Track.t) (k j : nat) (l : list Track.t) :
  alter f k l !! j = if Nat.eqb j k then f <$> l !! j else l !! j.
Proof.
  destruct (Nat.eqb_spec j k) as [->|Hne].
  - apply list_lookup_alter_eq.
  - apply list_lookup_alter_ne. intros Heq. apply Hne. symmetry. exact Heq.
Qed.

(** X3: pressing a track twice without a release in between behaves as a
    single press: the track stays activated, its press count has grown by
    exactly one and the time of the press is that of the first call. *)
Theorem press_twice_is_single_press (tr : Track.t) (t1 t2 : Z) :
  Track.activated tr = false ->
  Track.press t2 (Track.press t1 tr) = Track.press t1 tr
  /\ Track.activated (Track.press t1 tr) = true
  /\ Track.press_count (Track.press t2 (Track.press t1 tr)) = Track.press_count tr + 1
  /\ Track.last_press_time (Track.press t2 (Track.press t1 tr)) = t1.
Proof.
  intros Hoff. unfold Track.press. rewrite Hoff. cbn. repeat split.
Qed.

Lemma press_twice_is_single_press_witness :
  Track.press 20 (Track.press 10 (Track.__init__ 0)) = Track.press 10 (Track.__init__ 0)
  /\ Track.press_count (Track.press 20 (Track.press 10 (Track.__init__ 0))) = 1.
Proof.
  destruct (press_twice_is_single_press (Track.__init__ 0) 10 20 eq_refl)
    as (H1 & _ & H2 & _).
  split; [exact H1|exact H2].
Defined.

(** X4: [down] and [up] set and clear the activation of the track they
    name, as [check_track_state] reads it, and leave the other tracks as
    they are; a number outside [0, 4) is ignored, and
    [check_track_state] answers [False] for such an index. *)
Theorem down_up_track_state (s : GameState.t) (number : Z) :
  length (GameState.tracks s) = 4%nat ->
  (0 <= number < 4 ->
     GameState.check_track_state number (GameState.down number s) = true
     /\ GameState.check_track_state number (GameState.up number s) = false
     /\ forall k, k <> number ->
          GameState.check_track_state k (GameState.down number s)
          = GameState.check_track_state k s
          /\ GameState.check_track_state k (GameState.up number s)
             = GameState.check_track_state k s)
  /\ (~ 0 <= number < 4 ->
        GameState.down number s = s /\ GameState.up number s = s
        /\ GameState.check_track_state number s = false).
Proof.
  intros Hlen. split.
  - intros Hk.
    assert (Hin : (Z.to_nat number < length (GameState.tracks s))%nat) by lia.
    destruct (lookup_lt_is_Some_2 _ _ Hin) as [tr Htr].
    unfold GameState.down, GameState.up, GameState.check_track_state,
      GameState.num_tracks.
    replace ((0 <=? number) && (number <? 4)) with true by lia.
    cbn [GameState.press_track GameState.release_track GameState.tracks
         GameState.set_tracks].
    rewrite !tracks_lookup_alter, Nat.eqb_refl, Htr. cbn [fmap option_fmap option_map].
    split; [unfold Track.press; destruct (Track.activated tr) eqn:E; cbn; auto|].
    split; [unfold Track.release; destruct (Track.activated tr) eqn:E; cbn; auto|].
    intros k Hne.
    destruct ((0 <=? k) && (k <? 4)) eqn:Ek; [|split; reflexivity].
    rewrite !tracks_lookup_alter.
    replace (Z.to_nat k =? Z.to_nat number)%nat with false; [split; reflexivity|].
    symmetry. apply Nat.eqb_neq. lia.
  - intros Hk.
    unfold GameState.down, GameState.up, GameState.check_track_state,
      GameState.num_tracks.
    replace ((0 <=? number) && (number <? 4)) with false by lia.
    repeat split.
Qed.

Lemma down_up_track_state_witness :
  GameState.check_track_state 2
    (GameState.down 2 (GameState.__init__ Difficulty.NORMAL 0)) = true
  /\ GameState.down 4 (GameState.__init__ Difficulty.NORMAL 0)
     = GameState.__init__ Difficulty.NORMAL 0.
Proof.
  destruct (down_up_track_state (GameState.__init__ Difficulty.NORMAL 0) 2 eq_refl)
    as [Hin _].
  destruct (down_up_track_state (GameState.__init__ Difficulty.NORMAL 0) 4 eq_refl)
    as [_ Hout].
  split.
  - apply Hin. lia.
  - apply Hout. lia.
Defined.

(** ** Classification *)

Lemma windows_cases (js : JudgementSystem.t) :
  exists p g b,
    JudgementSystem.window js JudgementResult.PERFECT = p
    /\ JudgementSystem.window js JudgementResult.GOOD = g
    /\ JudgementSystem.window js JudgementResult.BAD = b
    /\ 10 <= p /\ p < g /\ g < b /\ p <= 104 /\ b <= 260
    /\ (JudgementSystem.difficulty js <> Difficulty.EASY -> b <= 200).
Proof.
  destruct js as [d c n].
  assert (Hw : forall r, JudgementSystem.window (JudgementSystem.mk d c n) r
                         = JudgementSystem.window (JudgementSystem.__init__ d) r)
    by reflexivity.
  rewrite !Hw. cbn [JudgementSystem.difficulty].
  destruct d; do 3 eexists;
    (split; [vm_compute; reflexivity|]);
    (split; [vm_compute; reflexivity|]);
    (split; [vm_compute; reflexivity|]);
    (repeat split; try lia; try discriminate; intros Hd; try lia; contradiction).
Qed.

(** X5: for every difficulty the scaled windows satisfy
    10 <= Perfect < Good < Bad, and Miss has no window of its own. *)
Theorem windows_ordered (js : JudgementSystem.t) :
  10 <= JudgementSystem.window js JudgementResult.PERFECT
  /\ JudgementSystem.window js JudgementResult.PERFECT
     < JudgementSystem.window js JudgementResult.GOOD
  /\ JudgementSystem.window js JudgementResult.GOOD
     < JudgementSystem.window js JudgementResult.BAD
  /\ JudgementSystem.judgement_windows js JudgementResult.MISS = None.
Proof.
  destruct (windows_cases js) as (p & g & b & -> & -> & -> & H).
  repeat split; lia.
Qed.

(** X6: [get_judgement] is monotone: a larger time difference never gets
    a better tier.  A difference is PERFECT exactly when it is within the
    Perfect window and MISS exactly when it exceeds the Bad window. *)
Theorem get_judgement_monotone (js : JudgementSystem.t) (d1 d2 : Z) :
  (d1 <= d2 ->
   Spec.rank (JudgementSystem.get_judgement d1 js)
   <= Spec.rank (JudgementSystem.get_judgement d2 js))
  /\ (JudgementSystem.get_judgement d1 js = JudgementResult.PERFECT
      <-> d1 <= JudgementSystem.window js JudgementResult.PERFECT)
  /\ (JudgementSystem.get_judgement d1 js = JudgementResult.MISS
      <-> JudgementSystem.window js JudgementResult.BAD < d1).
Proof.
  destruct (windows_cases js) as (p & g & b & Hp & Hg & Hb & H).
  unfold JudgementSystem.get_judgement. rewrite Hp, Hg, Hb.
  split; [intros Hle|split].
  - destruct (d1 <=? p) eqn:E1, (d1 <=? g) eqn:E2, (d1 <=? b) eqn:E3,
      (d2 <=? p) eqn:E4, (d2 <=? g) eqn:E5, (d2 <=? b) eqn:E6; cbn; lia.
  - destruct (d1 <=? p) eqn:E1, (d1 <=? g) eqn:E2, (d1 <=? b) eqn:E3;
      split; intros; try discriminate; try reflexivity; lia.
  - destruct (d1 <=? p) eqn:E1, (d1 <=? g) eqn:E2, (d1 <=? b) eqn:E3;
      split; intros; try discriminate; try reflexivity; lia.
Qed.

(** ** Calls that are ignored *)

Lemma run_call_idle (s : GameState.t) (c : Spec.call) :
  GameState.is_playing s = false \/ GameState.is_paused s = true ->
  Spec.run_call s c = s.
Proof.
  intros H. unfold Spec.run_call, GameState.judge_note, GameState.update.
  assert (E : negb (GameState.is_playing s) || GameState.is_paused s = true).
  { destruct H as [-> | ->]; [reflexivity|apply orb_true_r]. }
  rewrite E. destruct c; reflexivity.
Qed.

Lemma run_calls_idle (calls : list Spec.call) (s : GameState.t) :
  GameState.is_playing s = false \/ GameState.is_paused s = true ->
  Spec.run_calls calls s = s.
Proof.
  intros H. unfold Spec.run_calls. induction calls as [|c l IH]; [reflexivity|].
  cbn [fold_left]. rewrite run_call_idle by exact H. exact IH.
Qed.

(** X7: pausing freezes the session: whatever presses, releases and ticks
    arrive while it is paused leave the whole state, the clock included,
    as it was, and [resume_game] gives back the state in which
    [pause_game] was called. *)
Theorem pause_freezes_until_resume (s : GameState.t) (calls : list Spec.call) :
  GameState.is_playing s = true -> GameState.is_paused s = false ->
  Spec.run_calls calls (GameState.pause_game s) = GameState.pause_game s
  /\ GameState.resume_game (Spec.run_calls calls (GameState.pause_game s)) = s.
Proof.
  intros Hplay Hpause.
  assert (E : Spec.run_calls calls (GameState.pause_game s) = GameState.pause_game s).
  { apply run_calls_idle. right. unfold GameState.pause_game. rewrite Hplay.
    reflexivity. }
  split; [exact E|]. rewrite E.
  unfold GameState.pause_game, GameState.resume_game. rewrite Hplay. cbn.
  rewrite Hplay. cbn. destruct s; cbn in *; subst; reflexivity.
Qed.

Lemma pause_freezes_until_resume_witness :
  GameState.resume_game
    (Spec.run_calls [Spec.Tick 500; Spec.Press 0; Spec.Release 0]
       (GameState.pause_game (Scenario.at_1005 Difficulty.NORMAL)))
  = Scenario.at_1005 Difficulty.NORMAL.
Proof.
  apply (pause_freezes_until_resume (Scenario.at_1005 Difficulty.NORMAL)
           [Spec.Tick 500; Spec.Press 0; Spec.Release 0] eq_refl eq_refl).
Defined.

(** X8: invalid runtime calls give no result and change nothing:
    [judge_note] returns [None] and leaves the state as it is when the
    game is not playing or is paused, when the track index is outside
    [0, 4), and when the action is neither 'press' nor 'release'; a tick
    of a game that is not playing or is paused returns the state as it is;
    and a stopped game stays stopped under presses, releases and ticks. *)
Theorem invalid_calls_are_ignored (s : GameState.t) (track_index : Z)
    (action : string) :
  (GameState.is_playing s = false \/ GameState.is_paused s = true
   \/ ~ 0 <= track_index < 4
   \/ (action <> "press" /\ action <> "release") ->
   GameState.judge_note track_index action s = (None, s))
  /\ (GameState.is_playing s = false \/ GameState.is_paused s = true ->
      forall delta_time_ms,
        GameState.update delta_time_ms s = GameState.Returned s)
  /\ (forall calls,
        Spec.run_calls calls (GameState.stop_game s) = GameState.stop_game s).
Proof.
  split; [|split].
  - intros H. unfold GameState.judge_note, GameState.num_tracks.
    destruct (negb (GameState.is_playing s) || GameState.is_paused s) eqn:E;
      [reflexivity|].
    destruct ((track_index <? 0) || (4 <=? track_index)) eqn:Ek; [reflexivity|].
    destruct H as [H | [H | [H | [H1 H2]]]].
    + rewrite H in E. discriminate.
    + rewrite H, orb_true_r in E. discriminate.
    + lia.
    + apply String.eqb_neq in H1, H2. rewrite H1, H2. reflexivity.
  - intros H dt. unfold GameState.update.
    replace (negb (GameState.is_playing s) || GameState.is_paused s) with true;
      [reflexivity|].
    destruct H as [-> | ->]; [reflexivity|symmetry; apply orb_true_r].
  - intros calls. apply run_calls_idle. left. reflexivity.
Qed.

Lemma invalid_calls_are_ignored_witness :
  GameState.judge_note 4 "press" (Scenario.at_1005 Difficulty.NORMAL)
  = (None, Scenario.at_1005 Difficulty.NORMAL)
  /\ GameState.judge_note 0 "hold" (Scenario.at_1005 Difficulty.NORMAL)
     = (None, Scenario.at_1005 Difficulty.NORMAL).
Proof.
  split.
  - apply (invalid_calls_are_ignored (Scenario.at_1005 Difficulty.NORMAL) 4 "press").
    right. right. left. lia.
  - apply (invalid_calls_are_ignored (Scenario.at_1005 Difficulty.NORMAL) 0 "hold").
    right. right. right. split; discriminate.
Defined.

(** ** Notes that have left the list *)

Lemma evicted_same (i : nat) (s s' : GameState.t) :
  Spec.same_note i s s' ->
  (i ∉ GameState.notes s -> i ∉ GameState.notes s') ->
  Spec.evicted i s ->
  Spec.evicted i s' /\ Spec.same_note i s s'.
Proof.
  intros [Ho He] Hn [Hout (n & Hobj & Hhit)].
  split; [|split; assumption]. split; [auto|]. exists n. rewrite Ho. auto.
Qed.

Lemma judge_perfect_notes (j : nat) (s : GameState.t) :
  GameState.notes (GameState._judge_perfect j s) = GameState.notes s.
Proof.
  unfold GameState._judge_perfect.
  destruct (judge_note_fields j 0 s) as (_ & _ & _ & _ & _ & Hn & _).
  exact Hn.
Qed.

Lemma autoplay_step_notes (s : GameState.t) (j : nat) :
  GameState.notes (GameState.state_of (GameState.autoplay_step s j))
  = GameState.notes s.
Proof.
  unfold GameState.autoplay_step.
  destruct (GameState.objects s !! j) as [n|]; [|reflexivity].
  destruct (negb (Note.hit n)).
  - destruct (_ <=? _); [|reflexivity].
    destruct (NoteType.eqb _ _); [|apply judge_perfect_notes].
    destruct (GameState.activate_track _ s) as [s1|] eqn:Ha; [|reflexivity].
    cbn [GameState.state_of]. rewrite judge_perfect_notes.
    apply (activate_track_fields _ _ _ Ha).
  - destruct (_ && _); [|reflexivity].
    destruct (GameState.activate_track _ s) as [s1|] eqn:Ha; [|reflexivity].
    cbn. apply (activate_track_fields _ _ _ Ha).
Qed.

Lemma run_autoplay_same (i : nat) (l : list nat) (s : GameState.t) :
  i ∉ l ->
  Spec.same_note i s (GameState.state_of (GameState.run_autoplay l s)).
Proof.
  revert s. induction l as [|j l IH]; intros s Hi; cbn [GameState.run_autoplay].
  - apply same_note_refl.
  - apply not_elem_of_cons in Hi as [Hne Hi].
    assert (Hne' : j <> i) by (intros Heq; apply Hne; symmetry; exact Heq).
    pose proof (autoplay_step_other i j s Hne') as H1.
    destruct (GameState.autoplay_step s j) as [s1|s1]; cbn [GameState.state_of] in *.
    + eapply same_note_trans; [exact H1|apply IH; exact Hi].
    + exact H1.
Qed.

Lemma finish_update_evicted (i : nat) (s : GameState.t) :
  Spec.evicted i s ->
  Spec.evicted i (GameState.finish_update s)
  /\ Spec.same_note i s (GameState.finish_update s).
Proof.
  intros He. unfold GameState.finish_update.
  set (s1 := if negb (GameState.autoplay s)
             then fold_left GameState.drag_step (GameState.notes s) s else s).
  assert (H1 : Spec.evicted i s1 /\ Spec.same_note i s s1).
  { unfold s1. destruct (negb (GameState.autoplay s)); [|split; [exact He|apply same_note_refl]].
    destruct (pass_quiet GameState.drag_step (GameState.notes s) s drag_step_quiet)
      as (_ & Hn & _).
    apply evicted_same; [|rewrite Hn; auto|exact He].
    apply pass_same; [intros j a; apply drag_step_other|apply He]. }
  clearbody s1. destruct H1 as [H1 E1].
  destruct (lifecycle_pass_other i (GameState.notes s1) s1 (proj1 H1))
    as (Hs & _ & Hout & _).
  destruct (evicted_same i _ _ Hs Hout H1) as [H2 E2].
  set (s2 := fold_left GameState.lifecycle_step (GameState.notes s1) s1) in *.
  destruct H2 as [Hout2 (n & Hn & Hhit)].
  destruct (check_game_over_hit i n s2 Hn Hhit) as [Hs3 Hn3].
  destruct (evicted_same i s2 (GameState._check_game_over s2) Hs3) as [H3 E3].
  - rewrite Hn3. auto.
  - split; [exact Hout2|eauto].
  - split; [exact H3|eauto using same_note_trans].
Qed.

Lemma update_evicted (i : nat) (dt : Z) (s : GameState.t) :
  Spec.evicted i s ->
  Spec.evicted i (GameState.state_of (GameState.update dt s))
  /\ Spec.same_note i s (GameState.state_of (GameState.update dt s)).
Proof.
  intros He. unfold GameState.update.
  destruct (negb (GameState.is_playing s) || GameState.is_paused s);
    [split; [exact He|apply same_note_refl]|].
  destruct (advance_time_fields dt s) as (Hj1 & _ & _ & _ & Ho1 & Hn1 & _).
  set (s1 := GameState.advance_time dt s) in *.
  destruct (cache_impl_objects s1) as (Ho2 & Hn2 & _).
  destruct (cache_impl_judged s1) as (Hj2 & _).
  set (s2 := GameState._update_notes_cache_impl s1) in *.
  destruct (evicted_same i s s2) as [H2 E2]; [| |exact He|].
  { apply same_note_ext; congruence. }
  { rewrite Hn2, Hn1. auto. }
  destruct (GameState.autoplay s2).
  - unfold GameState._process_autoplay.
    pose proof (run_autoplay_same i (GameState.notes s2) s2 (proj1 H2)) as Hs3.
    pose proof (run_autoplay_preserves GameState.notes (GameState.notes s2) s2
                  autoplay_step_notes) as Hn3.
    destruct (evicted_same i s2 _ Hs3) as [H3 E3]; [rewrite Hn3; auto|exact H2|].
    destruct (GameState.run_autoplay (GameState.notes s2) s2) as [s3|s3];
      cbn [GameState.state_of] in *.
    + destruct (finish_update_evicted i s3 H3) as [H4 E4].
      split; [exact H4|eauto using same_note_trans].
    + split; [exact H3|eauto using same_note_trans].
  - cbn [GameState.state_of]. unfold GameState._process_auto_miss.
    destruct (pass_quiet GameState.auto_miss_step (GameState.notes s2) s2
                auto_miss_step_quiet) as (_ & Hn3 & _).
    destruct (evicted_same i s2 (fold_left GameState.auto_miss_step
                                   (GameState.notes s2) s2)) as [H3 E3];
      [|rewrite Hn3; auto|exact H2|].
    { apply pass_same; [intros j a; apply auto_miss_step_other|apply H2]. }
    destruct (finish_update_evicted i _ H3) as [H4 E4].
    split; [exact H4|eauto using same_note_trans].
Qed.

Lemma judge_target_evicted (i : nat) (k : Z) (s : GameState.t) :
  Spec.evicted i s ->
  Spec.evicted i (snd (GameState.judge_target k s))
  /\ Spec.same_note i s (snd (GameState.judge_target k s)).
Proof.
  intros He. pose proof He as [Hout (n & Hn & Hhit)].
  apply evicted_same; [|rewrite judge_target_notes; auto|exact He].
  apply (judge_target_same i k s n Hn Hhit).
Qed.

Lemma judge_note_evicted (i : nat) (k : Z) (action : string) (s : GameState.t) :
  Spec.evicted i s ->
  Spec.evicted i (snd (GameState.judge_note k action s))
  /\ Spec.same_note i s (snd (GameState.judge_note k action s)).
Proof.
  intros He. unfold GameState.judge_note.
  destruct (negb (GameState.is_playing s) || GameState.is_paused s);
    [split; [exact He|apply same_note_refl]|].
  destruct ((k <? 0) || (GameState.num_tracks <=? k));
    [split; [exact He|apply same_note_refl]|].
  destruct (String.eqb action "press").
  - destruct (evicted_same i s (GameState.press_track k s)) as [H1 E1];
      [apply same_note_ext; reflexivity|auto|exact He|].
    destruct (judge_target_evicted i k _ H1) as [H2 E2].
    split; [exact H2|eauto using same_note_trans].
  - destruct (String.eqb action "release");
      [|split; [exact He|apply same_note_refl]].
    destruct (release_pass_static k (GameState.notes s) s) as [Hn1 _].
    destruct (evicted_same i s (GameState.release_scan k s)) as [H1 E1];
      [|unfold GameState.release_scan; rewrite Hn1; auto|exact He|].
    { apply pass_same; [intros j a; apply release_step_other|apply He]. }
    destruct (evicted_same i (GameState.release_scan k s)
                (GameState.release_track k (GameState.release_scan k s)))
      as [H2 E2]; [apply same_note_ext; reflexivity|auto|exact H1|].
    destruct (judge_target_evicted i k _ H2) as [H3 E3].
    split; [exact H3|eauto using same_note_trans].
Qed.

(** Once a hit note has left the list, no press, release or tick produces
    another notification about it. *)
Lemma run_calls_evicted (i : nat) (calls : list Spec.call) (s : GameState.t) :
  Spec.evicted i s ->
  Spec.evicted i (Spec.run_calls calls s)
  /\ Spec.same_note i s (Spec.run_calls calls s).
Proof.
  intros Hf. unfold Spec.run_calls.
  apply (fold_left_invariant Spec.run_call
           (fun s' => Spec.evicted i s' /\ Spec.same_note i s s'));
    [split; [exact Hf|apply same_note_refl]|].
  intros a c [Ha Ea].
  assert (H : Spec.evicted i (Spec.run_call a c)
              /\ Spec.same_note i a (Spec.run_call a c)).
  { destruct c as [k|k|dt]; cbn [Spec.run_call];
      auto using judge_note_evicted, update_evicted. }
  destruct H as [H1 H2]. split; [exact H1|eauto using same_note_trans].
Qed.

(** ** Notes that are late *)

Lemma pass_hit (step : GameState.t -> nat -> GameState.t) (i : nat) (n : Note.t)
    (l : list nat) (s : GameState.t) :
  (forall j s, j <> i -> Spec.same_note i s (step s j)) ->
  (forall s, GameState.objects s !! i = Some n -> step s i = s) ->
  GameState.objects s !! i = Some n ->
  Spec.same_note i s (fold_left step l s).
Proof.
  intros Hother Hself Hn.
  apply (fold_left_invariant step (fun s' => Spec.same_note i s s'));
    [apply same_note_refl|].
  intros a j Ha. eapply same_note_trans; [exact Ha|].
  destruct (decide (j = i)) as [->|Hne]; [|apply Hother; exact Hne].
  rewrite Hself; [apply same_note_refl|]. rewrite (proj1 Ha). exact Hn.
Qed.

Lemma auto_miss_step_hit (i : nat) (n : Note.t) :
  Note.hit n = true ->
  forall s, GameState.objects s !! i = Some n -> GameState.auto_miss_step s i = s.
Proof.
  intros Hhit s Hn. unfold GameState.auto_miss_step. rewrite Hn, Hhit. reflexivity.
Qed.

Lemma drag_step_hit (i : nat) (n : Note.t) :
  Note.hit n = true ->
  forall s, GameState.objects s !! i = Some n -> GameState.drag_step s i = s.
Proof.
  intros Hhit s Hn. unfold GameState.drag_step. rewrite Hn, Hhit.
  rewrite andb_false_r. reflexivity.
Qed.

Lemma is_complete_late (t t' k : Z) (a : bool) (n : Note.t) :
  Note.perfect_time n + 200 < t ->
  Note.is_complete t (Note.update t' a k n) = true.
Proof.
  intros Hlate. apply Z.ltb_lt in Hlate.
  destruct n as [id tr ty pt du h ht j st ct]. cbn in Hlate.
  unfold Note.update, Note.is_complete. cbn.
  destruct (negb (k =? -1)); cbn;
    destruct ty, h, a; cbn; try destruct st; cbn;
    rewrite ?Hlate, ?orb_true_r; reflexivity.
Qed.

(** The lifecycle step of a note whose timeout has passed: it leaves the
    list, whatever its type and state. *)
Lemma lifecycle_step_late (i : nat) (n : Note.t) (s : GameState.t) :
  GameState.objects s !! i = Some n ->
  Note.perfect_time n + 200 < GameState.now s ->
  NoDup (GameState.notes s) ->
  let s' := GameState.lifecycle_step s i in
  GameState.objects s' !! i
  = Some (Note.update (GameState.now s)
            (GameState.check_track_state (Note.track_index n) s) (-1) n)
  /\ Spec.events_of i s' = Spec.events_of i s
  /\ (i ∉ GameState.notes s').
Proof.
  intros Hn Hlate Hnd. cbv zeta. unfold GameState.lifecycle_step. rewrite Hn.
  set (n' := Note.update _ _ _ n).
  set (s1 := GameState.set_objects _ s).
  change (GameState.now s1) with (GameState.now s).
  change (GameState.notes s1) with (GameState.notes s).
  assert (Hc : Note.is_complete (GameState.now s) n' = true)
    by (apply is_complete_late; exact Hlate).
  rewrite Hc.
  destruct (bool_decide (i ∈ GameState.notes s)) eqn:Hin.
  - cbn. rewrite lookup_insert_eq. split; [reflexivity|]. split; [reflexivity|].
    apply remove_not_elem_of. exact Hnd.
  - cbn. rewrite lookup_insert_eq. split; [reflexivity|]. split; [reflexivity|].
    apply bool_decide_eq_false in Hin. exact Hin.
Qed.

Lemma check_game_over_notes (s : GameState.t) :
  GameState.notes (GameState._check_game_over s) = GameState.notes s.
Proof.
  unfold GameState._check_game_over.
  destruct (negb (GameState.is_playing s)); [reflexivity|].
  assert (Hfb : GameState.notes match GameState.notes s with
                                | [] => GameState.stop_game s
                                | _ :: _ => s
                                end = GameState.notes s)
    by (destruct (GameState.notes s) eqn:E; [cbn; exact E|exact E]).
  destruct (GameState.chart_end_time_ms s) as [e|]; [|exact Hfb].
  destruct (e <=? GameState.now s); [|exact Hfb].
  cbn. apply (pass_quiet (GameState.end_marker_step e) (GameState.notes s) s).
  apply end_marker_step_quiet.
Qed.

(** The lifecycle pass over a list in which the late note [i] occurs. *)
Lemma lifecycle_pass_late (i : nat) (n : Note.t) (s : GameState.t) :
  NoDup (GameState.notes s) -> i ∈ GameState.notes s ->
  GameState.objects s !! i = Some n ->
  Note.perfect_time n + 200 < GameState.now s ->
  let s' := fold_left GameState.lifecycle_step (GameState.notes s) s in
  GameState.objects s' !! i
  = Some (Note.update (GameState.now s)
            (GameState.check_track_state (Note.track_index n) s) (-1) n)
  /\ Spec.events_of i s' = Spec.events_of i s
  /\ (i ∉ GameState.notes s').
Proof.
  intros Hnd Hin Hn Hlate. cbv zeta.
  destruct (split_NoDup i (GameState.notes s) Hnd Hin) as (l1 & l2 & Hl & Hl1 & Hl2).
  rewrite Hl, fold_left_app. cbn [fold_left].
  destruct (lifecycle_pass_other i l1 s Hl1) as (Hs1 & Hnd1 & _ & Ht1 & Htr1).
  specialize (Hnd1 Hnd).
  set (s1 := fold_left GameState.lifecycle_step l1 s) in *.
  assert (Hn1 : GameState.objects s1 !! i = Some n) by (rewrite (proj1 Hs1); exact Hn).
  assert (Hlate1 : Note.perfect_time n + 200 < GameState.now s1)
    by (unfold GameState.now in *; rewrite Ht1; exact Hlate).
  destruct (lifecycle_step_late i n s1 Hn1 Hlate1 Hnd1) as (Ho2 & He2 & Hout2).
  cbv zeta in Ho2, He2, Hout2.
  rewrite (check_track_state_tracks _ s s1 Htr1) in Ho2.
  unfold GameState.now in Ho2. rewrite Ht1 in Ho2.
  set (s2 := GameState.lifecycle_step s1 i) in *.
  destruct (lifecycle_pass_other i l2 s2 Hl2) as (Hs3 & _ & Hout3 & _).
  split; [rewrite (proj1 Hs3); exact Ho2|].
  split; [rewrite (proj2 Hs3), He2; apply Hs1|].
  apply Hout3. exact Hout2.
Qed.

Lemma note_update_judged (t k : Z) (a : bool) (n : Note.t) :
  Note.hit (Note.update t a k n) = Note.hit n
  /\ Note.judgement (Note.update t a k n) = Note.judgement n
  /\ Note.perfect_time (Note.update t a k n) = Note.perfect_time n.
Proof.
  destruct n as [id tr ty pt du h ht j st ct]. unfold Note.update. cbn.
  destruct (negb (k =? -1)); cbn; destruct ty, h, a; cbn; try destruct st; cbn;
    repeat split.
Qed.

(** X9: in a tick without autoplay, an unhit note of the active list
    whose perfect time lies more than 200 ms before the new clock is
    missed automatically: the tick records exactly one judgement for it,
    a Miss, marks it hit and evicts it, and no later press, release or
    tick records another judgement for it. *)
Theorem late_note_is_missed (s : GameState.t) (delta_time_ms : Z) (i : nat)
    (n : Note.t) :
  GameState.is_playing s = true -> GameState.is_paused s = false ->
  GameState.autoplay s = false ->
  NoDup (GameState.notes s) -> i ∈ GameState.notes s ->
  GameState.objects s !! i = Some n -> Note.hit n = false ->
  Note.perfect_time n + 200
  < GameState.current_time_ms (GameState.advance_time delta_time_ms s) ->
  exists s' n',
    GameState.update delta_time_ms s = GameState.Returned s'
    /\ Spec.events_of i s' = (i, JudgementResult.MISS) :: Spec.events_of i s
    /\ GameState.objects s' !! i = Some n'
    /\ Note.hit n' = true
    /\ Note.judgement n' = Some JudgementResult.MISS
    /\ (i ∉ GameState.notes s')
    /\ (forall calls,
          Spec.events_of i (Spec.run_calls calls s') = Spec.events_of i s').
Proof.
  intros Hplay Hpause Hauto Hnd Hin Hn Hhit Hlate.
  unfold GameState.update. rewrite Hplay, Hpause. cbn [negb orb].
  destruct (advance_time_fields delta_time_ms s)
    as (Hj1 & _ & _ & Ha1 & Ho1 & Hn1 & Ht1).
  set (s1 := GameState.advance_time delta_time_ms s) in *.
  destruct (cache_impl_objects s1) as (Ho2 & Hn2 & Ht2).
  destruct (cache_impl_judged s1) as (Hj2 & _).
  pose proof (cache_impl_statics s1) as Hst2.
  set (s2 := GameState._update_notes_cache_impl s1) in *.
  assert (Ha2 : GameState.autoplay s2 = false).
  { rewrite (statics_autoplay _ _ Hst2), Ha1. exact Hauto. }
  assert (Hc2 : GameState.current_time_ms s2 = GameState.current_time_ms s1).
  { unfold Spec.statics in Hst2. congruence. }
  rewrite Ha2.
  assert (Hs2 : Spec.same_note i s s2) by (apply same_note_ext; congruence).
  assert (Hnotes2 : GameState.notes s2 = GameState.notes s) by congruence.
  (* the auto-miss pass *)
  unfold GameState._process_auto_miss.
  destruct (split_NoDup i (GameState.notes s) Hnd Hin) as (l1 & l2 & Hl & Hl1 & Hl2).
  rewrite Hnotes2, Hl, fold_left_app. cbn [fold_left].
  pose proof (pass_same GameState.auto_miss_step i l1 s2
                (fun j s => auto_miss_step_other i j s) Hl1) as Hs3a.
  destruct (pass_quiet GameState.auto_miss_step l1 s2 auto_miss_step_quiet)
    as (Ht3a & Hn3a & Hc3a).
  set (s3a := fold_left GameState.auto_miss_step l1 s2) in *.
  assert (Hn_3a : GameState.objects s3a !! i = Some n).
  { rewrite (proj1 Hs3a), (proj1 Hs2). exact Hn. }
  assert (Hstep : GameState.auto_miss_step s3a i = GameState._judge_miss i s3a).
  { unfold GameState.auto_miss_step. rewrite Hn_3a, Hhit.
    replace (Note.perfect_time n + 200 <? GameState.now s3a) with true;
      [reflexivity|].
    symmetry. apply Z.ltb_lt. unfold GameState.now. rewrite Hc3a, Hc2. exact Hlate. }
  rewrite Hstep.
  destruct (judge_miss_fields i s3a)
    as (Ho3b & Hj3b & _ & _ & _ & Ht3b & Hn3b & Hc3b & _ & _ & Ha3b & _).
  cbv zeta in Ho3b, Hj3b, Ht3b, Hn3b, Hc3b, Ha3b.
  set (s3b := GameState._judge_miss i s3a) in *.
  set (m := GameState.mark JudgementResult.MISS n).
  assert (Hm_3b : GameState.objects s3b !! i = Some m).
  { rewrite Ho3b, lookup_alter_eq, Hn_3a. reflexivity. }
  assert (He3b : Spec.events_of i s3b
                 = (i, JudgementResult.MISS) :: Spec.events_of i s).
  { rewrite (events_of_cons i i _ s3a _ Hj3b), Nat.eqb_refl.
    rewrite (proj2 Hs3a), (proj2 Hs2). reflexivity. }
  pose proof (pass_same GameState.auto_miss_step i l2 s3b
                (fun j s => auto_miss_step_other i j s) Hl2) as Hs3.
  destruct (pass_quiet GameState.auto_miss_step l2 s3b auto_miss_step_quiet)
    as (Ht3 & Hn3 & Hc3).
  set (s3 := fold_left GameState.auto_miss_step l2 s3b) in *.
  assert (Hm_3 : GameState.objects s3 !! i = Some m)
    by (rewrite (proj1 Hs3); exact Hm_3b).
  assert (Ha3 : GameState.autoplay s3 = false).
  { unfold s3. rewrite (fold_left_preserves _ GameState.autoplay).
    - rewrite Ha3b. unfold s3a.
      rewrite (fold_left_preserves _ GameState.autoplay); [exact Ha2|].
      intros a b. unfold GameState.auto_miss_step. step_cases; reflexivity.
    - intros a b. unfold GameState.auto_miss_step. step_cases; reflexivity. }
  (* the DRAG rule leaves a hit note alone *)
  unfold GameState.finish_update. rewrite Ha3. cbn [negb].
  pose proof (pass_hit GameState.drag_step i m (GameState.notes s3) s3
                (fun j s => drag_step_other i j s)
                (drag_step_hit i m eq_refl) Hm_3) as Hs4.
  destruct (pass_quiet GameState.drag_step (GameState.notes s3) s3 drag_step_quiet)
    as (Ht4 & Hn4 & Hc4).
  set (s4 := fold_left GameState.drag_step (GameState.notes s3) s3) in *.
  assert (Hnotes4 : GameState.notes s4 = GameState.notes s) by congruence.
  assert (Hm_4 : GameState.objects s4 !! i = Some m)
    by (rewrite (proj1 Hs4); exact Hm_3).
  assert (Hnow4 : GameState.now s4 = GameState.current_time_ms s1).
  { unfold GameState.now. congruence. }
  (* the lifecycle pass *)
  destruct (lifecycle_pass_late i m s4) as (Ho5 & He5 & Hout5).
  { rewrite Hnotes4. exact Hnd. }
  { rewrite Hnotes4. exact Hin. }
  { exact Hm_4. }
  { rewrite Hnow4. exact Hlate. }
  cbv zeta in Ho5, He5, Hout5.
  set (m' := Note.update _ _ _ m) in Ho5.
  set (s5 := fold_left GameState.lifecycle_step (GameState.notes s4) s4) in *.
  destruct (note_update_judged (GameState.now s4)
              (-1) (GameState.check_track_state (Note.track_index m) s4) m)
    as (Hh' & Hj' & _).
  fold m' in Hh', Hj'.
  destruct (check_game_over_hit i m' s5 Ho5 Hh') as [Hs6 Hn6].
  exists (GameState._check_game_over s5), m'.
  split; [reflexivity|].
  split.
  { rewrite (proj2 Hs6), He5, (proj2 Hs4), (proj2 Hs3). exact He3b. }
  split; [rewrite (proj1 Hs6); exact Ho5|].
  split; [exact Hh'|]. split; [exact Hj'|].
  split; [rewrite Hn6; exact Hout5|].
  intros calls. apply (run_calls_evicted i calls (GameState._check_game_over s5)).
  split; [rewrite Hn6; exact Hout5|].
  exists m'. split; [rewrite (proj1 Hs6); exact Ho5|exact Hh'].
Qed.

Lemma late_note_is_missed_witness :
  exists s',
    GameState.update 1250 (Scenario.boot Difficulty.NORMAL Scenario.single_normal)
    = GameState.Returned s'
    /\ Spec.events_of 0 s' = [(0%nat, JudgementResult.MISS)]
    /\ (0%nat ∉ GameState.notes s').
Proof.
  assert (Hlate : Note.perfect_time (Note.__init__ 0 0 NoteType.NORMAL 1000 0) + 200
                  < GameState.current_time_ms
                      (GameState.advance_time 1250
                         (Scenario.boot Difficulty.NORMAL Scenario.single_normal)))
    by (vm_compute; reflexivity).
  destruct (late_note_is_missed
              (Scenario.boot Difficulty.NORMAL Scenario.single_normal) 1250 0%nat
              (Note.__init__ 0 0 NoteType.NORMAL 1000 0)
              eq_refl eq_refl eq_refl (NoDup_singleton 0%nat)
              (list_elem_of_here 0%nat []) eq_refl eq_refl Hlate)
    as (s' & n' & Hu & He & _ & _ & _ & Hout & _).
  exists s'. split; [exact Hu|]. split; [exact He|exact Hout].
Defined.

(** X10: in a tick without autoplay, a note of the active list that is
    hit and whose perfect time lies more than 200 ms before the new clock
    is evicted, whatever its type: also a HOLD note whose duration has
    not elapsed.  The tick gives it one last update, records no
    judgement for it, and from then on neither the note (its held time
    included) nor the judgements recorded for it change. *)
Theorem hit_note_is_evicted_at_timeout (s : GameState.t) (delta_time_ms : Z)
    (i : nat) (n : Note.t) :
  GameState.is_playing s = true -> GameState.is_paused s = false ->
  GameState.autoplay s = false ->
  NoDup (GameState.notes s) -> i ∈ GameState.notes s ->
  GameState.objects s !! i = Some n -> Note.hit n = true ->
  Note.perfect_time n + 200
  < GameState.current_time_ms (GameState.advance_time delta_time_ms s) ->
  exists s',
    GameState.update delta_time_ms s = GameState.Returned s'
    /\ (i ∉ GameState.notes s')
    /\ GameState.objects s' !! i
       = Some (Note.update
                 (GameState.current_time_ms (GameState.advance_time delta_time_ms s))
                 (GameState.check_track_state (Note.track_index n) s) (-1) n)
    /\ Spec.events_of i s' = Spec.events_of i s
    /\ (forall calls,
          GameState.objects (Spec.run_calls calls s') !! i = GameState.objects s' !! i
          /\ Spec.events_of i (Spec.run_calls calls s') = Spec.events_of i s').
Proof.
  intros Hplay Hpause Hauto Hnd Hin Hn Hhit Hlate.
  unfold GameState.update. rewrite Hplay, Hpause. cbn [negb orb].
  destruct (advance_time_fields delta_time_ms s)
    as (Hj1 & _ & _ & Ha1 & Ho1 & Hn1 & Ht1).
  set (s1 := GameState.advance_time delta_time_ms s) in *.
  destruct (cache_impl_objects s1) as (Ho2 & Hn2 & Ht2).
  destruct (cache_impl_judged s1) as (Hj2 & _).
  pose proof (cache_impl_statics s1) as Hst2.
  set (s2 := GameState._update_notes_cache_impl s1) in *.
  assert (Ha2 : GameState.autoplay s2 = false).
  { rewrite (statics_autoplay _ _ Hst2), Ha1. exact Hauto. }
  assert (Hc2 : GameState.current_time_ms s2 = GameState.current_time_ms s1).
  { unfold Spec.statics in Hst2. congruence. }
  rewrite Ha2.
  assert (Hs2 : Spec.same_note i s s2) by (apply same_note_ext; congruence).
  assert (Hn_2 : GameState.objects s2 !! i = Some n)
    by (rewrite (proj1 Hs2); exact Hn).
  (* neither automatic policy touches a hit note *)
  unfold GameState._process_auto_miss.
  pose proof (pass_hit GameState.auto_miss_step i n (GameState.notes s2) s2
                (fun j s => auto_miss_step_other i j s)
                (auto_miss_step_hit i n Hhit) Hn_2) as Hs3.
  destruct (pass_quiet GameState.auto_miss_step (GameState.notes s2) s2
              auto_miss_step_quiet) as (Ht3 & Hn3 & Hc3).
  set (s3 := fold_left GameState.auto_miss_step (GameState.notes s2) s2) in *.
  assert (Ha3 : GameState.autoplay s3 = false).
  { unfold s3. rewrite (fold_left_preserves _ GameState.autoplay); [exact Ha2|].
    intros a b. unfold GameState.auto_miss_step. step_cases; reflexivity. }
  assert (Hn_3 : GameState.objects s3 !! i = Some n)
    by (rewrite (proj1 Hs3); exact Hn_2).
  unfold GameState.finish_update. rewrite Ha3. cbn [negb].
  pose proof (pass_hit GameState.drag_step i n (GameState.notes s3) s3
                (fun j s => drag_step_other i j s)
                (drag_step_hit i n Hhit) Hn_3) as Hs4.
  destruct (pass_quiet GameState.drag_step (GameState.notes s3) s3 drag_step_quiet)
    as (Ht4 & Hn4 & Hc4).
  set (s4 := fold_left GameState.drag_step (GameState.notes s3) s3) in *.
  assert (Hnotes4 : GameState.notes s4 = GameState.notes s) by congruence.
  assert (Hn_4 : GameState.objects s4 !! i = Some n)
    by (rewrite (proj1 Hs4); exact Hn_3).
  assert (Hnow4 : GameState.now s4 = GameState.current_time_ms s1).
  { unfold GameState.now. congruence. }
  assert (Htr4 : GameState.tracks s4 = GameState.tracks s) by congruence.
  (* the lifecycle pass *)
  destruct (lifecycle_pass_late i n s4) as (Ho5 & He5 & Hout5).
  { rewrite Hnotes4. exact Hnd. }
  { rewrite Hnotes4. exact Hin. }
  { exact Hn_4. }
  { rewrite Hnow4. exact Hlate. }
  cbv zeta in Ho5, He5, Hout5.
  rewrite Hnow4, (check_track_state_tracks _ s s4 Htr4) in Ho5.
  set (n' := Note.update _ _ _ n) in *.
  set (s5 := fold_left GameState.lifecycle_step (GameState.notes s4) s4) in *.
  assert (Hh' : Note.hit n' = true).
  { unfold n'. rewrite (proj1 (note_update_judged _ _ _ n)). exact Hhit. }
  destruct (check_game_over_hit i n' s5 Ho5 Hh') as [Hs6 Hn6].
  exists (GameState._check_game_over s5).
  split; [reflexivity|].
  split; [rewrite Hn6; exact Hout5|].
  split; [rewrite (proj1 Hs6); exact Ho5|].
  split.
  { rewrite (proj2 Hs6), He5, (proj2 Hs4), (proj2 Hs3). apply Hs2. }
  intros calls.
  apply (run_calls_evicted i calls (GameState._check_game_over s5)).
  split; [rewrite Hn6; exact Hout5|].
  exists n'. split; [rewrite (proj1 Hs6); exact Ho5|exact Hh'].
Qed.

Lemma hit_note_is_evicted_at_timeout_witness :
  exists s',
    GameState.update 200 (Scenario.hold_pressed_at 2010) = GameState.Returned s'
    /\ (0%nat ∉ GameState.notes s')
    /\ Note.held_time <$> GameState.objects s' !! 0%nat = Some 210.
Proof.
  assert (Hlate : Note.perfect_time
                    (GameState.mark JudgementResult.PERFECT
                       (Note.__init__ 0 1 NoteType.HOLD 2000 1000)) + 200
                  < GameState.current_time_ms
                      (GameState.advance_time 200 (Scenario.hold_pressed_at 2010)))
    by (vm_compute; reflexivity).
  destruct (hit_note_is_evicted_at_timeout (Scenario.hold_pressed_at 2010) 200 0%nat
              (GameState.mark JudgementResult.PERFECT
                 (Note.__init__ 0 1 NoteType.HOLD 2000 1000))
              eq_refl eq_refl eq_refl (NoDup_singleton 0%nat)
              (list_elem_of_here 0%nat []) eq_refl eq_refl Hlate)
    as (s' & Hu & Hout & Ho & _).
  exists s'. split; [exact Hu|]. split; [exact Hout|]. rewrite Ho. reflexivity.
Defined.

(** ** The list of active notes *)

Lemma insert_by_sorted {A : Type} (key : A -> Z) (x : A) (l : list A) :
  StronglySorted (fun a b => key a <= key b) l ->
  StronglySorted (fun a b => key a <= key b) (PyList.insert_by key x l).
Proof.
  induction l as [|y l IH]; intros Hs; cbn.
  - repeat constructor.
  - apply StronglySorted_inv in Hs as [Hs Hy].
    destruct (key x <=? key y) eqn:E.
    + apply Z.leb_le in E. constructor; [constructor; assumption|].
      constructor; [exact E|].
      eapply Forall_impl; [exact Hy|]. cbn. intros a Ha. lia.
    + apply Z.leb_gt in E. constructor; [apply IH; exact Hs|].
      rewrite insert_by_perm. constructor; [lia|exact Hy].
Qed.

(** [l.sort(key=...)] leaves the list in the order of the keys. *)
Lemma sort_by_sorted {A : Type} (key : A -> Z) (l : list A) :
  StronglySorted (fun a b => key a <= key b) (PyList.sort_by key l).
Proof.
  induction l as [|x l IH]; cbn; [constructor|].
  apply insert_by_sorted. exact IH.
Qed.

Lemma remove_sublist (j : nat) (l : list nat) : PyList.remove j l `sublist_of` l.
Proof.
  induction l as [|y l IH]; cbn; [constructor|].
  destruct (Nat.eqb j y); [apply sublist_cons; reflexivity|].
  apply sublist_skip. exact IH.
Qed.

Lemma filter_lookup_keys (good : list Chart.note_data) (l : list Chart.note_data)
    (j : nat) (d : Chart.note_data) :
  List.filter Spec.has_required_keys l !! j = Some d ->
  Spec.has_required_keys d = true.
Proof.
  intros Hj. apply list_elem_of_lookup_2, list_elem_of_In, filter_In in Hj.
  apply Hj.
Qed.

Lemma load_notes_keep {B : Type} (proj : GameState.t -> B)
    (l : list Chart.note_data) (acc : GameState.t * list Chart.note_data) :
  (forall a v, proj (GameState.set_next_id v a) = proj a) ->
  (forall a v, proj (GameState.set_notes v a) = proj a) ->
  (forall a v, proj (GameState.set_objects v a) = proj a) ->
  proj (fst (fold_left GameState.load_note l acc)) = proj (fst acc).
Proof.
  intros P1 P2 P3. revert acc. induction l as [|d l IH]; intros [a w]; [reflexivity|].
  cbn [fold_left]. rewrite IH. unfold GameState.load_note.
  destruct (GameState.make_note _ d); cbn [fst]; [|reflexivity].
  rewrite P1, P2, P3. reflexivity.
Qed.

(** X11: [load_chart] starts a fresh session: score, combo, maximum
    combo, clock and counters are zero, the game is neither playing nor
    paused, no track is activated, and the total of notes is the length
    of the list of active notes.  That list holds no note twice and is in
    the order of the perfect times; every note in it is a new, unhit and
    unjudged note. *)
Theorem load_chart_starts_fresh (c : Chart.t) (s : GameState.t) :
  let s' := snd (GameState.load_chart c s) in
  NoDup (GameState.notes s')
  /\ StronglySorted
       (fun i j => GameState.perfect_time_of s' i <= GameState.perfect_time_of s' j)
       (GameState.notes s')
  /\ (forall i, i ∈ GameState.notes s' ->
        exists n, GameState.objects s' !! i = Some n /\ Note.id n = i
                  /\ Note.hit n = false /\ Note.judgement n = None
                  /\ Note.held_time n = 0)
  /\ (GameState.score s', GameState.combo s', GameState.max_combo s',
      GameState.current_time_ms s') = (0, 0, 0, 0)
  /\ (GameState.is_playing s', GameState.is_paused s') = (false, false)
  /\ Spec.counts_of s' = JudgementSystem.mk_counts 0 0 0 0
  /\ Spec.total_notes_of s' = Z.of_nat (length (GameState.notes s'))
  /\ Forall (fun tr => Track.activated tr = false) (GameState.tracks s')
  /\ GameState.chart_end_time_ms s' = Chart.end_time_ms c
  /\ GameState.autoplay s' = GameState.autoplay s.
Proof.
  cbv zeta. unfold GameState.load_chart.
  set (s0 := GameState.set_chart_end_time_ms _ (GameState._reset_game_state s)).
  set (l := default [] (Chart.notes c)).
  set (good := List.filter Spec.has_required_keys l).
  assert (Hfold : exists s1 w,
            match Chart.notes c with
            | Some l => fold_left GameState.load_note l (s0, [])
            | None => (s0, [])
            end = (s1, w)
            /\ GameState.notes s1 = seq (GameState.next_id s) (length good)
            /\ (forall j d, good !! j = Some d ->
                  GameState.objects s1 !! (GameState.next_id s + j)%nat
                  = GameState.make_note (GameState.next_id s + j) d)
            /\ GameState.score s1 = 0 /\ GameState.combo s1 = 0
            /\ GameState.max_combo s1 = 0 /\ GameState.current_time_ms s1 = 0
            /\ GameState.is_playing s1 = false /\ GameState.is_paused s1 = false
            /\ GameState.judgement_system s1 = GameState.judgement_system s0
            /\ GameState.tracks s1 = GameState.tracks s0
            /\ GameState.chart_end_time_ms s1 = Chart.end_time_ms c
            /\ GameState.autoplay s1 = GameState.autoplay s).
  { unfold good, l. destruct (Chart.notes c) as [l'|]; cbn [default].
    - destruct (load_notes_fold l' s0 []) as (_ & H2 & H3 & _ & H5 & H6).
      destruct (fold_left GameState.load_note l' (s0, [])) as [s1 w] eqn:Hf.
      exists s1, w. cbn [fst snd] in H2, H3, H5, H6.
      split; [reflexivity|]. split; [exact H2|]. split; [exact H3|].
      pose proof (load_notes_keep GameState.score l' (s0, [])
                    ltac:(reflexivity) ltac:(reflexivity) ltac:(reflexivity)) as K1.
      pose proof (load_notes_keep GameState.combo l' (s0, [])
                    ltac:(reflexivity) ltac:(reflexivity) ltac:(reflexivity)) as K2.
      pose proof (load_notes_keep GameState.max_combo l' (s0, [])
                    ltac:(reflexivity) ltac:(reflexivity) ltac:(reflexivity)) as K3.
      pose proof (load_notes_keep GameState.current_time_ms l' (s0, [])
                    ltac:(reflexivity) ltac:(reflexivity) ltac:(reflexivity)) as K4.
      pose proof (load_notes_keep GameState.is_playing l' (s0, [])
                    ltac:(reflexivity) ltac:(reflexivity) ltac:(reflexivity)) as K5.
      pose proof (load_notes_keep GameState.is_paused l' (s0, [])
                    ltac:(reflexivity) ltac:(reflexivity) ltac:(reflexivity)) as K6.
      pose proof (load_notes_keep GameState.tracks l' (s0, [])
                    ltac:(reflexivity) ltac:(reflexivity) ltac:(reflexivity)) as K7.
      pose proof (load_notes_keep GameState.autoplay l' (s0, [])
                    ltac:(reflexivity) ltac:(reflexivity) ltac:(reflexivity)) as K8.
      rewrite Hf in K1, K2, K3, K4, K5, K6, K7, K8.
      cbn [fst] in *.
      repeat split; try assumption; try (rewrite H6; reflexivity).
    - exists s0, []. cbn. repeat split; auto. intros j d Hj. discriminate Hj. }
  destruct Hfold as (s1 & w & -> & Hn & Ho & K1 & K2 & K3 & K4 & K5 & K6 & K7 & K8
                     & K9 & K10).
  cbn [fst snd].
  set (sorted := PyList.sort_by (GameState.perfect_time_of s1) (GameState.notes s1)).
  assert (Hperm : Permutation sorted (seq (GameState.next_id s) (length good))).
  { unfold sorted. rewrite sort_by_perm, Hn. reflexivity. }
  split.
  { cbn. fold sorted. rewrite Hperm. apply NoDup_ListNoDup, List.seq_NoDup. }
  split.
  { cbn. fold sorted. apply (sort_by_sorted (GameState.perfect_time_of s1)). }
  split.
  { intros i Hi. cbn in Hi. fold sorted in Hi. rewrite Hperm in Hi.
    apply list_elem_of_In, in_seq in Hi.
    destruct (lookup_lt_is_Some_2 good (i - GameState.next_id s)%nat) as [d Hd];
      [lia|].
    pose proof (Ho _ _ Hd) as Hobj.
    replace (GameState.next_id s + (i - GameState.next_id s))%nat with i in Hobj
      by lia.
    pose proof (filter_lookup_keys good l _ _ Hd) as Hkeys.
    cbn. rewrite Hobj.
    destruct d as [ty [tr|] [pt|] du|]; try discriminate Hkeys.
    cbn. eexists. split; [reflexivity|]. cbn. auto. }
  cbn. fold sorted. rewrite K1, K2, K3, K4, K5, K6.
  split; [reflexivity|]. split; [reflexivity|].
  unfold Spec.counts_of, Spec.total_notes_of. cbn. rewrite K7, K8, K9, K10.
  split; [reflexivity|]. split; [reflexivity|].
  split; [|split; reflexivity].
  cbn. apply Forall_forall. intros tr Htr.
  apply list_elem_of_In, in_map_iff in Htr. destruct Htr as (tr0 & <- & _).
  reflexivity.
Qed.

Lemma settings_of_statics (s s' : GameState.t) :
  Spec.statics s' = Spec.statics s -> Spec.settings s' = Spec.settings s.
Proof. unfold Spec.statics, Spec.settings. congruence. Qed.

Lemma judge_note_settings (i : nat) (d : Z) (s : GameState.t) :
  Spec.settings (snd (GameState._judge_note i d s)) = Spec.settings s.
Proof. apply settings_of_statics, judge_note_statics. Qed.

Lemma judge_miss_settings (i : nat) (s : GameState.t) :
  Spec.settings (GameState._judge_miss i s) = Spec.settings s.
Proof. reflexivity. Qed.

Lemma auto_miss_step_settings (s : GameState.t) (j : nat) :
  Spec.settings (GameState.auto_miss_step s j) = Spec.settings s.
Proof. destruct (auto_miss_step_cases s j) as [-> | ->]; reflexivity. Qed.

Lemma end_marker_step_settings (e : Z) (s : GameState.t) (j : nat) :
  Spec.settings (GameState.end_marker_step e s j) = Spec.settings s.
Proof. destruct (end_marker_step_cases e s j) as [-> | ->]; reflexivity. Qed.

Lemma drag_step_settings (s : GameState.t) (j : nat) :
  Spec.settings (GameState.drag_step s j) = Spec.settings s.
Proof.
  unfold GameState.drag_step, GameState._judge_perfect.
  repeat break_match; try reflexivity. apply judge_note_settings.
Qed.

Lemma lifecycle_step_settings (s : GameState.t) (j : nat) :
  Spec.settings (GameState.lifecycle_step s j) = Spec.settings s.
Proof. unfold GameState.lifecycle_step. step_cases; reflexivity. Qed.

Lemma release_step_settings (k : Z) (s : GameState.t) (j : nat) :
  Spec.settings (GameState.release_step k s j) = Spec.settings s.
Proof. unfold GameState.release_step. step_cases; reflexivity. Qed.

Lemma autoplay_step_settings (s : GameState.t) (j : nat) :
  Spec.settings (GameState.state_of (GameState.autoplay_step s j)) = Spec.settings s.
Proof.
  unfold GameState.autoplay_step, GameState._judge_perfect.
  destruct (GameState.objects s !! j) as [n|]; [|reflexivity].
  destruct (negb (Note.hit n)).
  - destruct (_ <=? _); [|reflexivity].
    destruct (NoteType.eqb _ _); [|apply judge_note_settings].
    destruct (GameState.activate_track _ s) as [s1|] eqn:Ha; [|reflexivity].
    cbn [GameState.state_of]. rewrite judge_note_settings.
    apply settings_of_statics, (activate_track_fields _ _ _ Ha).
  - destruct (_ && _); [|reflexivity].
    destruct (GameState.activate_track _ s) as [s1|] eqn:Ha; [|reflexivity].
    cbn [GameState.state_of].
    apply (settings_of_statics s), (activate_track_fields _ _ _ Ha).
Qed.

Lemma check_game_over_settings (s : GameState.t) :
  Spec.settings (GameState._check_game_over s) = Spec.settings s.
Proof.
  unfold GameState._check_game_over.
  destruct (negb (GameState.is_playing s)); [reflexivity|].
  assert (Hfb : Spec.settings match GameState.notes s with
                              | [] => GameState.stop_game s
                              | _ :: _ => s
                              end = Spec.settings s)
    by (destruct (GameState.notes s); reflexivity).
  destruct (GameState.chart_end_time_ms s) as [e|]; [|exact Hfb].
  destruct (e <=? GameState.now s); [|exact Hfb].
  change (Spec.settings (GameState.stop_game ?x)) with (Spec.settings x).
  apply (fold_left_preserves _ Spec.settings). intros a b.
  apply end_marker_step_settings.
Qed.

Lemma finish_update_settings (s : GameState.t) :
  Spec.settings (GameState.finish_update s) = Spec.settings s.
Proof.
  unfold GameState.finish_update.
  rewrite check_game_over_settings.
  rewrite (fold_left_preserves _ Spec.settings)
    by (intros a b; apply lifecycle_step_settings).
  destruct (negb (GameState.autoplay s)); [|reflexivity].
  apply (fold_left_preserves _ Spec.settings). intros a b. apply drag_step_settings.
Qed.

Lemma update_settings (dt : Z) (s : GameState.t) :
  Spec.settings (GameState.state_of (GameState.update dt s)) = Spec.settings s.
Proof.
  unfold GameState.update.
  destruct (negb (GameState.is_playing s) || GameState.is_paused s); [reflexivity|].
  assert (H1 : Spec.settings (GameState.advance_time dt s) = Spec.settings s).
  { unfold GameState.advance_time. step_cases; reflexivity. }
  set (s1 := GameState.advance_time dt s) in *.
  pose proof (settings_of_statics _ _ (cache_impl_statics s1)) as H2.
  set (s2 := GameState._update_notes_cache_impl s1) in *.
  destruct (GameState.autoplay s2).
  - unfold GameState._process_autoplay.
    pose proof (run_autoplay_preserves Spec.settings (GameState.notes s2) s2
                  autoplay_step_settings) as H3.
    destruct (GameState.run_autoplay (GameState.notes s2) s2) as [s3|s3];
      cbn [GameState.state_of] in *.
    + rewrite finish_update_settings. congruence.
    + congruence.
  - cbn [GameState.state_of]. rewrite finish_update_settings.
    unfold GameState._process_auto_miss.
    rewrite (fold_left_preserves _ Spec.settings)
      by (intros a b; apply auto_miss_step_settings).
    congruence.
Qed.

Lemma judge_target_settings (k : Z) (s : GameState.t) :
  Spec.settings (snd (GameState.judge_target k s)) = Spec.settings s.
Proof.
  pose proof (settings_of_statics _ _ (cache_impl_statics s)) as H1.
  destruct (judge_target_cases k s) as [->|(j & d & m & _ & _ & ->)]; cbn [snd];
    [exact H1|].
  rewrite judge_note_settings. exact H1.
Qed.

Lemma judge_note_call_settings (k : Z) (action : string) (s : GameState.t) :
  Spec.settings (snd (GameState.judge_note k action s)) = Spec.settings s.
Proof.
  unfold GameState.judge_note.
  destruct (negb (GameState.is_playing s) || GameState.is_paused s); [reflexivity|].
  destruct ((k <? 0) || (GameState.num_tracks <=? k)); [reflexivity|].
  destruct (String.eqb action "press");
    [rewrite judge_target_settings; reflexivity|].
  destruct (String.eqb action "release"); [|reflexivity].
  rewrite judge_target_settings.
  change (Spec.settings (GameState.release_track k ?x)) with (Spec.settings x).
  apply (fold_left_preserves _ Spec.settings). intros a b.
  apply release_step_settings.
Qed.

Lemma run_calls_settings (calls : list Spec.call) (s : GameState.t) :
  Spec.settings (Spec.run_calls calls s) = Spec.settings s.
Proof.
  apply (fold_left_preserves _ Spec.settings). intros a c.
  destruct c; cbn [Spec.run_call];
    auto using judge_note_call_settings, update_settings.
Qed.

Lemma lifecycle_pass_sublist (l : list nat) (s : GameState.t) :
  GameState.notes (fold_left GameState.lifecycle_step l s)
  `sublist_of` GameState.notes s.
Proof.
  apply (fold_left_invariant GameState.lifecycle_step
           (fun s' => GameState.notes s' `sublist_of` GameState.notes s));
    [reflexivity|].
  intros a j Ha. etransitivity; [|exact Ha].
  destruct (lifecycle_step_quiet a j) as (_ & _ & [-> | ->]);
    [reflexivity|apply remove_sublist].
Qed.

Lemma finish_update_sublist (s : GameState.t) :
  GameState.notes (GameState.finish_update s) `sublist_of` GameState.notes s.
Proof.
  unfold GameState.finish_update. rewrite check_game_over_notes.
  etransitivity; [apply lifecycle_pass_sublist|].
  destruct (negb (GameState.autoplay s)); [|reflexivity].
  rewrite (proj1 (proj2 (pass_quiet GameState.drag_step (GameState.notes s) s
                           drag_step_quiet))).
  reflexivity.
Qed.

Lemma update_sublist (dt : Z) (s : GameState.t) :
  GameState.notes (GameState.state_of (GameState.update dt s))
  `sublist_of` GameState.notes s.
Proof.
  unfold GameState.update.
  destruct (negb (GameState.is_playing s) || GameState.is_paused s); [reflexivity|].
  destruct (advance_time_fields dt s) as (_ & _ & _ & _ & _ & Hn1 & _).
  set (s1 := GameState.advance_time dt s) in *.
  destruct (cache_impl_objects s1) as (_ & Hn2 & _).
  set (s2 := GameState._update_notes_cache_impl s1) in *.
  assert (Hn : GameState.notes s2 = GameState.notes s) by congruence.
  destruct (GameState.autoplay s2).
  - unfold GameState._process_autoplay.
    pose proof (run_autoplay_preserves GameState.notes (GameState.notes s2) s2
                  autoplay_step_notes) as Hn3.
    destruct (GameState.run_autoplay (GameState.notes s2) s2) as [s3|s3];
      cbn [GameState.state_of] in *.
    + etransitivity; [apply finish_update_sublist|]. rewrite Hn3, Hn. reflexivity.
    + rewrite Hn3, Hn. reflexivity.
  - cbn [GameState.state_of].
    etransitivity; [apply finish_update_sublist|].
    unfold GameState._process_auto_miss.
    rewrite (proj1 (proj2 (pass_quiet GameState.auto_miss_step (GameState.notes s2) s2
                             auto_miss_step_quiet))), Hn.
    reflexivity.
Qed.

Lemma judge_note_call_notes (k : Z) (action : string) (s : GameState.t) :
  GameState.notes (snd (GameState.judge_note k action s)) = GameState.notes s.
Proof.
  unfold GameState.judge_note.
  destruct (negb (GameState.is_playing s) || GameState.is_paused s); [reflexivity|].
  destruct ((k <? 0) || (GameState.num_tracks <=? k)); [reflexivity|].
  destruct (String.eqb action "press");
    [rewrite judge_target_notes; reflexivity|].
  destruct (String.eqb action "release"); [|reflexivity].
  rewrite judge_target_notes. cbn. apply release_pass_static.
Qed.

(** X12: the list of active notes only shrinks: after any presses,
    releases and ticks it is a sublist of what it was, so it still holds
    no note twice; no call adds a note, and none changes the total of
    notes, the difficulty, the end marker or the autoplay setting. *)
Theorem active_notes_only_shrink (s : GameState.t) (calls : list Spec.call) :
  GameState.notes (Spec.run_calls calls s) `sublist_of` GameState.notes s
  /\ (NoDup (GameState.notes s) -> NoDup (GameState.notes (Spec.run_calls calls s)))
  /\ Spec.settings (Spec.run_calls calls s) = Spec.settings s.
Proof.
  assert (H : GameState.notes (Spec.run_calls calls s)
              `sublist_of` GameState.notes s).
  { apply (fold_left_invariant Spec.run_call
             (fun s' => GameState.notes s' `sublist_of` GameState.notes s));
      [reflexivity|].
    intros a c Ha. etransitivity; [|exact Ha].
    destruct c; cbn [Spec.run_call];
      [rewrite judge_note_call_notes; reflexivity
      |rewrite judge_note_call_notes; reflexivity
      |apply update_sublist]. }
  split; [exact H|]. split; [|apply run_calls_settings].
  intros Hnd. eapply sublist_NoDup; eassumption.
Qed.

(** ** HOLD notes under continuous activation *)

Lemma lifecycle_pass_keeps (i : nat) (l : list nat) (s : GameState.t) :
  i ∉ l -> i ∈ GameState.notes s ->
  i ∈ GameState.notes (fold_left GameState.lifecycle_step l s).
Proof.
  revert s. induction l as [|j l IH]; intros s Hi Hin; cbn [fold_left];
    [exact Hin|].
  apply not_elem_of_cons in Hi as [Hne Hi].
  apply IH; [exact Hi|].
  destruct (lifecycle_step_quiet s j) as (_ & _ & [-> | ->]); [exact Hin|].
  apply remove_elem_of_other; [congruence|exact Hin].
Qed.

(** The lifecycle step of an active note: the note gets its update and
    leaves the list exactly when it is then complete. *)
Lemma lifecycle_step_active (i : nat) (n : Note.t) (s : GameState.t) :
  GameState.objects s !! i = Some n ->
  NoDup (GameState.notes s) -> i ∈ GameState.notes s ->
  let n' := Note.update (GameState.now s)
              (GameState.check_track_state (Note.track_index n) s) (-1) n in
  let s' := GameState.lifecycle_step s i in
  GameState.objects s' !! i = Some n'
  /\ Spec.events_of i s' = Spec.events_of i s
  /\ (i ∈ GameState.notes s' <-> Note.is_complete (GameState.now s) n' = false).
Proof.
  intros Hn Hnd Hin. cbv zeta. unfold GameState.lifecycle_step. rewrite Hn.
  set (n' := Note.update _ _ _ n).
  set (s1 := GameState.set_objects _ s).
  change (GameState.now s1) with (GameState.now s).
  change (GameState.notes s1) with (GameState.notes s).
  rewrite (bool_decide_eq_true_2 _ Hin).
  destruct (Note.is_complete (GameState.now s) n') eqn:Hc.
  - cbn. rewrite lookup_insert_eq. split; [reflexivity|]. split; [reflexivity|].
    split; [|discriminate].
    intros H. exfalso. revert H. apply remove_not_elem_of. exact Hnd.
  - cbn. rewrite lookup_insert_eq. split; [reflexivity|]. split; [reflexivity|].
    split; [reflexivity|intros _; exact Hin].
Qed.

(** The lifecycle pass over a list in which the note [i] occurs. *)
Lemma lifecycle_pass_active (i : nat) (n : Note.t) (s : GameState.t) :
  NoDup (GameState.notes s) -> i ∈ GameState.notes s ->
  GameState.objects s !! i = Some n ->
  let n' := Note.update (GameState.now s)
              (GameState.check_track_state (Note.track_index n) s) (-1) n in
  let s' := fold_left GameState.lifecycle_step (GameState.notes s) s in
  GameState.objects s' !! i = Some n'
  /\ Spec.events_of i s' = Spec.events_of i s
  /\ (i ∈ GameState.notes s' <-> Note.is_complete (GameState.now s) n' = false).
Proof.
  intros Hnd Hin Hn. cbv zeta.
  destruct (split_NoDup i (GameState.notes s) Hnd Hin) as (l1 & l2 & Hl & Hl1 & Hl2).
  rewrite Hl, !fold_left_app. cbn [fold_left].
  destruct (lifecycle_pass_other i l1 s Hl1) as (Hs1 & Hnd1 & _ & Ht1 & Htr1).
  specialize (Hnd1 Hnd).
  pose proof (lifecycle_pass_keeps i l1 s Hl1 Hin) as Hin1.
  set (s1 := fold_left GameState.lifecycle_step l1 s) in *.
  assert (Hn1 : GameState.objects s1 !! i = Some n) by (rewrite (proj1 Hs1); exact Hn).
  destruct (lifecycle_step_active i n s1 Hn1 Hnd1 Hin1) as (Ho2 & He2 & Hin2).
  cbv zeta in Ho2, He2, Hin2.
  rewrite (check_track_state_tracks _ s s1 Htr1) in Ho2, Hin2.
  unfold GameState.now in Ho2, Hin2. rewrite Ht1 in Ho2, Hin2.
  set (s2 := GameState.lifecycle_step s1 i) in *.
  destruct (lifecycle_pass_other i l2 s2 Hl2) as (Hs3 & _ & Hout3 & _).
  split; [rewrite (proj1 Hs3); exact Ho2|].
  split; [rewrite (proj2 Hs3), He2; apply Hs1|].
  rewrite <- Hin2. split.
  - intros H. destruct (decide (i ∈ GameState.notes s2)) as [Hy|Hno]; [exact Hy|].
    exfalso. exact (Hout3 Hno H).
  - apply lifecycle_pass_keeps. exact Hl2.
Qed.

Lemma check_game_over_tracks (s : GameState.t) :
  GameState.tracks (GameState._check_game_over s) = GameState.tracks s.
Proof.
  unfold GameState._check_game_over.
  destruct (negb (GameState.is_playing s)); [reflexivity|].
  assert (Hfb : GameState.tracks match GameState.notes s with
                                 | [] => GameState.stop_game s
                                 | _ :: _ => s
                                 end = GameState.tracks s)
    by (destruct (GameState.notes s); reflexivity).
  destruct (GameState.chart_end_time_ms s) as [e|]; [|exact Hfb].
  destruct (e <=? GameState.now s); [|exact Hfb].
  cbn. apply (pass_quiet (GameState.end_marker_step e) (GameState.notes s) s).
  apply end_marker_step_quiet.
Qed.

(** A tick without autoplay on a hit note of the active list: neither
    policy touches the note, the lifecycle pass gives it its update and
    evicts it exactly when it is then complete. *)
Lemma update_hit_note (s : GameState.t) (delta_time_ms : Z) (i : nat)
    (n : Note.t) :
  GameState.is_playing s = true -> GameState.is_paused s = false ->
  GameState.autoplay s = false ->
  NoDup (GameState.notes s) -> i ∈ GameState.notes s ->
  GameState.objects s !! i = Some n -> Note.hit n = true ->
  let now' := GameState.current_time_ms (GameState.advance_time delta_time_ms s) in
  let n' := Note.update now'
              (GameState.check_track_state (Note.track_index n) s) (-1) n in
  exists s',
    GameState.update delta_time_ms s = GameState.Returned s'
    /\ GameState.objects s' !! i = Some n'
    /\ Spec.events_of i s' = Spec.events_of i s
    /\ (i ∈ GameState.notes s' <-> Note.is_complete now' n' = false)
    /\ GameState.tracks s' = GameState.tracks s
    /\ GameState.current_time_ms s' = now'.
Proof.
  intros Hplay Hpause Hauto Hnd Hin Hn Hhit. cbv zeta.
  unfold GameState.update. rewrite Hplay, Hpause. cbn [negb orb].
  destruct (advance_time_fields delta_time_ms s)
    as (Hj1 & _ & _ & Ha1 & Ho1 & Hn1 & Ht1).
  set (s1 := GameState.advance_time delta_time_ms s) in *.
  destruct (cache_impl_objects s1) as (Ho2 & Hn2 & Ht2).
  destruct (cache_impl_judged s1) as (Hj2 & _).
  pose proof (cache_impl_statics s1) as Hst2.
  set (s2 := GameState._update_notes_cache_impl s1) in *.
  assert (Ha2 : GameState.autoplay s2 = false).
  { rewrite (statics_autoplay _ _ Hst2), Ha1. exact Hauto. }
  assert (Hc2 : GameState.current_time_ms s2 = GameState.current_time_ms s1).
  { unfold Spec.statics in Hst2. congruence. }
  rewrite Ha2.
  assert (Hs2 : Spec.same_note i s s2) by (apply same_note_ext; congruence).
  assert (Hn_2 : GameState.objects s2 !! i = Some n)
    by (rewrite (proj1 Hs2); exact Hn).
  unfold GameState._process_auto_miss.
  pose proof (pass_hit GameState.auto_miss_step i n (GameState.notes s2) s2
                (fun j s => auto_miss_step_other i j s)
                (auto_miss_step_hit i n Hhit) Hn_2) as Hs3.
  destruct (pass_quiet GameState.auto_miss_step (GameState.notes s2) s2
              auto_miss_step_quiet) as (Ht3 & Hn3 & Hc3).
  set (s3 := fold_left GameState.auto_miss_step (GameState.notes s2) s2) in *.
  assert (Ha3 : GameState.autoplay s3 = false).
  { unfold s3. rewrite (fold_left_preserves _ GameState.autoplay); [exact Ha2|].
    intros a b. unfold GameState.auto_miss_step. step_cases; reflexivity. }
  assert (Hn_3 : GameState.objects s3 !! i = Some n)
    by (rewrite (proj1 Hs3); exact Hn_2).
  unfold GameState.finish_update. rewrite Ha3. cbn [negb].
  pose proof (pass_hit GameState.drag_step i n (GameState.notes s3) s3
                (fun j s => drag_step_other i j s)
                (drag_step_hit i n Hhit) Hn_3) as Hs4.
  destruct (pass_quiet GameState.drag_step (GameState.notes s3) s3 drag_step_quiet)
    as (Ht4 & Hn4 & Hc4).
  set (s4 := fold_left GameState.drag_step (GameState.notes s3) s3) in *.
  assert (Hnotes4 : GameState.notes s4 = GameState.notes s) by congruence.
  assert (Hn_4 : GameState.objects s4 !! i = Some n)
    by (rewrite (proj1 Hs4); exact Hn_3).
  assert (Hnow4 : GameState.now s4 = GameState.current_time_ms s1).
  { unfold GameState.now. congruence. }
  assert (Htr4 : GameState.tracks s4 = GameState.tracks s) by congruence.
  destruct (lifecycle_pass_active i n s4) as (Ho5 & He5 & Hin5).
  { rewrite Hnotes4. exact Hnd. }
  { rewrite Hnotes4. exact Hin. }
  { exact Hn_4. }
  cbv zeta in Ho5, He5, Hin5.
  rewrite Hnow4, (check_track_state_tracks _ s s4 Htr4) in Ho5, Hin5.
  set (n' := Note.update _ _ _ n) in *.
  assert (Ht5 : GameState.tracks (fold_left GameState.lifecycle_step
                                    (GameState.notes s4) s4) = GameState.tracks s4).
  { apply (fold_left_preserves _ GameState.tracks). intros a b.
    apply lifecycle_step_quiet. }
  assert (Hc5 : GameState.current_time_ms (fold_left GameState.lifecycle_step
                                             (GameState.notes s4) s4)
                = GameState.current_time_ms s4).
  { apply (fold_left_preserves _ GameState.current_time_ms). intros a b.
    apply lifecycle_step_quiet. }
  set (s5 := fold_left GameState.lifecycle_step (GameState.notes s4) s4) in *.
  assert (Hh' : Note.hit n' = true).
  { unfold n'. rewrite (proj1 (note_update_judged _ _ _ n)). exact Hhit. }
  destruct (check_game_over_hit i n' s5 Ho5 Hh') as [Hs6 Hn6].
  exists (GameState._check_game_over s5).
  split; [reflexivity|].
  split; [rewrite (proj1 Hs6); exact Ho5|].
  split.
  { rewrite (proj2 Hs6), He5, (proj2 Hs4), (proj2 Hs3). apply Hs2. }
  split; [rewrite Hn6; exact Hin5|].
  split; [rewrite check_game_over_tracks; congruence|].
  rewrite check_game_over_time. congruence.
Qed.

Lemma advance_time_clock (dt : Z) (s : GameState.t) :
  GameState.current_time_ms (GameState.advance_time dt s)
  = GameState.current_time_ms s + dt
  \/ GameState.current_time_ms (GameState.advance_time dt s)
     = GameState.current_time_ms s.
Proof. unfold GameState.advance_time. step_cases; auto. Qed.

(** One tick on a HOLD note that was hit PERFECT and is held. *)
Lemma held_perfect_tick (s : GameState.t) (i : nat) (n : Note.t)
    (delta_time_ms : Z) :
  Spec.held_perfect i n s ->
  GameState.is_playing s = true -> GameState.is_paused s = false ->
  let now' := GameState.current_time_ms (GameState.advance_time delta_time_ms s) in
  let m := Note.update now' true (-1) n in
  exists s',
    GameState.update delta_time_ms s = GameState.Returned s'
    /\ GameState.current_time_ms s' = now'
    /\ GameState.objects s' !! i = Some m
    /\ Note.judgement m = Some JudgementResult.PERFECT
    /\ Note.held_time m = Z.min (now' - Note.perfect_time n) (Note.duration n)
    /\ (i ∉ GameState.notes s'
        <-> Note.duration n <= Note.held_time m
            \/ Note.perfect_time n + 200 < now')
    /\ Spec.events_of i s' = Spec.events_of i s
    /\ (i ∈ GameState.notes s' -> Spec.held_perfect i m s')
    /\ (i ∉ GameState.notes s' -> Spec.evicted i s').
Proof.
  intros (Hauto & Hnd & Hin & Hn & Hty & Hhit & Hjud & Hact) Hplay Hpause.
  cbv zeta.
  destruct (update_hit_note s delta_time_ms i n Hplay Hpause Hauto Hnd Hin Hn Hhit)
    as (s' & Hu & Ho & He & Hiff & Htr & Hclock).
  cbv zeta in Ho, Hiff, Hclock. rewrite Hact in Ho, Hiff.
  set (now' := GameState.current_time_ms (GameState.advance_time delta_time_ms s))
    in *.
  set (m := Note.update now' true (-1) n) in *.
  destruct (note_update_hit now' true (-1) n) as (G1 & G2 & G3 & G4 & G5 & G6).
  fold m in G1, G2, G3, G4, G5, G6.
  assert (Hheld : Note.held_time m
                  = Z.min (now' - Note.perfect_time n) (Note.duration n)).
  { unfold m. rewrite note_update_held_time, Hty, Hhit. reflexivity. }
  assert (Hc : Note.is_complete now' m
               = (Note.duration n <=? Note.held_time m)
                 || (Note.perfect_time n + 200 <? now')).
  { unfold Note.is_complete. rewrite G1, G3, G4, G5, Hty, Hhit. reflexivity. }
  assert (Hout : i ∉ GameState.notes s'
                 <-> Note.duration n <= Note.held_time m
                     \/ Note.perfect_time n + 200 < now').
  { rewrite Hiff, Hc, not_false_iff_true, orb_true_iff, Z.leb_le, Z.ltb_lt.
    reflexivity. }
  exists s'. split; [exact Hu|]. split; [exact Hclock|]. split; [exact Ho|].
  split; [rewrite G2; exact Hjud|]. split; [exact Hheld|].
  split; [exact Hout|]. split; [exact He|]. split.
  - intros Hin'. unfold Spec.held_perfect.
    pose proof (update_settings delta_time_ms s) as Hset.
    pose proof (update_sublist delta_time_ms s) as Hsub.
    rewrite Hu in Hset, Hsub. cbn [GameState.state_of] in Hset, Hsub.
    split; [unfold Spec.settings in Hset; congruence|].
    split; [eapply sublist_NoDup; eassumption|].
    split; [exact Hin'|]. split; [exact Ho|].
    split; [rewrite G3; exact Hty|]. split; [rewrite G1; exact Hhit|].
    split; [rewrite G2; exact Hjud|].
    rewrite G6, (check_track_state_tracks _ s s' Htr). exact Hact.
  - intros Hout'. split; [exact Hout'|]. exists m.
    split; [exact Ho|rewrite G1; exact Hhit].
Qed.

(** Ticks, each shorter than the duration less 200 ms, on a HOLD note of
    more than 200 ms that was hit PERFECT and is held. *)
Lemma held_perfect_ticks (i : nat) (ticks : list Z) :
  forall (s : GameState.t) (n : Note.t),
    Spec.held_perfect i n s ->
    200 < Note.duration n ->
    Forall (fun dt => dt < Note.duration n - 200) ticks ->
    Note.held_time n < Note.duration n ->
    GameState.current_time_ms s <= Note.perfect_time n + 200 ->
    let s' := Spec.run_calls (Spec.Tick <$> ticks) s in
    exists m,
      GameState.objects s' !! i = Some m
      /\ Note.judgement m = Some JudgementResult.PERFECT
      /\ Note.held_time m < Note.duration n
      /\ (Note.perfect_time n + 200 < GameState.current_time_ms s' ->
          i ∉ GameState.notes s').
Proof.
  induction ticks as [|dt ticks IH]; intros s n Hheld Hdur Hticks Hlt Hnow;
    cbv zeta.
  - exists n. cbn. split; [apply Hheld|]. split; [apply Hheld|].
    split; [exact Hlt|]. intros H. exfalso. lia.
  - apply Forall_cons in Hticks as [Hdt Hticks].
    rewrite fmap_cons. unfold Spec.run_calls. cbn [fold_left Spec.run_call].
    fold (Spec.run_calls (Spec.Tick <$> ticks)
            (GameState.state_of (GameState.update dt s))).
    destruct (negb (GameState.is_playing s) || GameState.is_paused s) eqn:Hidle.
    { assert (Hsame : GameState.update dt s = GameState.Returned s)
        by (unfold GameState.update; rewrite Hidle; reflexivity).
      rewrite Hsame. cbn [GameState.state_of]. apply IH; assumption. }
    apply orb_false_elim in Hidle as [Hplay Hpause].
    apply negb_false_iff in Hplay.
    destruct (held_perfect_tick s i n dt Hheld Hplay Hpause)
      as (s1 & Hu & Hclock & Ho & Hjud & Hht & Hout & _ & Hkeep & Hev).
    cbv zeta in Hclock, Ho, Hjud, Hht, Hout, Hkeep.
    rewrite Hu. cbn [GameState.state_of].
    set (now' := GameState.current_time_ms (GameState.advance_time dt s)) in *.
    set (m := Note.update now' true (-1) n) in *.
    destruct (note_update_hit now' true (-1) n) as (_ & _ & _ & G4 & G5 & _).
    fold m in G4, G5.
    assert (Hbound : now' < Note.perfect_time n + Note.duration n).
    { unfold now'. destruct (advance_time_clock dt s) as [-> | ->]; lia. }
    assert (Hlt' : Note.held_time m < Note.duration n) by lia.
    destruct (decide (i ∈ GameState.notes s1)) as [Hin1|Hout1].
    + destruct (IH s1 m (Hkeep Hin1)) as (m' & Ho' & Hjud' & Hht' & Hlate').
      * rewrite G5. exact Hdur.
      * rewrite G5. exact Hticks.
      * rewrite G5. exact Hlt'.
      * rewrite G4, Hclock.
        destruct (Z_le_gt_dec now' (Note.perfect_time n + 200)) as [Hle|Hgt];
          [exact Hle|].
        exfalso. apply (proj2 Hout); [right; lia|exact Hin1].
      * exists m'. rewrite G4, G5 in *. auto.
    + destruct (run_calls_evicted i (Spec.Tick <$> ticks) s1 (Hev Hout1))
        as [[Hout' _] [Hsame _]].
      exists m. split; [rewrite Hsame; exact Ho|]. split; [exact Hjud|].
      split; [exact Hlt'|]. intros _. exact Hout'.
Qed.

(** C5, counterexample: Scenario 3 in the engine.  The HOLD note (track 1,
    perfect time 2000 ms, duration 1000 ms) is pressed at 2010 ms and
    judged PERFECT, track 1 stays activated, and ticks of 16 ms follow.
    The twelfth tick, at 2202 ms, evicts the note through the timeout of
    [is_complete] with a held time of 202 ms, and the session ends for
    want of notes.  With a later note that keeps the session running the
    clock reaches 3018 ms, and the held time is still 202 ms: the note
    has completed, PERFECT, without [held_time >= duration]. *)
Lemma hold_note_evicted_before_duration :
  let frames k := Spec.Tick <$> replicate k 16 in
  let s := Spec.run_calls (frames 12%nat) (Scenario.hold_pressed_at 2010) in
  let s' := Spec.run_calls (frames 63%nat)
              (Scenario.hold_then_normal_pressed_at 2010) in
  (Note.judgement <$> GameState.objects (Scenario.hold_pressed_at 2010) !! 0%nat
   = Some (Some JudgementResult.PERFECT)
   /\ GameState.current_time_ms s = 2202
   /\ GameState.check_track_state 1 s = true
   /\ GameState.notes s = [] /\ GameState.is_playing s = false
   /\ exists n, GameState.objects s !! 0%nat = Some n
        /\ Note.judgement n = Some JudgementResult.PERFECT
        /\ Note.duration n = 1000 /\ Note.held_time n = 202
        /\ Note.hit n && (Note.duration n <=? Note.held_time n) = false)
  /\ (GameState.current_time_ms s' = 3018
      /\ GameState.check_track_state 1 s' = true
      /\ GameState.notes s' = [1%nat] /\ GameState.is_playing s' = true
      /\ exists n, GameState.objects s' !! 0%nat = Some n
           /\ Note.judgement n = Some JudgementResult.PERFECT
           /\ Note.duration n = 1000 /\ Note.held_time n = 202
           /\ Note.hit n && (Note.duration n <=? Note.held_time n) = false).
Proof.
  cbv zeta. split.
  - do 5 (split; [vm_compute; reflexivity|]).
    eexists. split; [vm_compute; reflexivity|]. repeat split.
  - do 4 (split; [vm_compute; reflexivity|]).
    eexists. split; [vm_compute; reflexivity|]. repeat split.
Qed.

(** C5: [Note.update] changes [held_time] only for a HOLD note that is hit
    and whose track is activated, and then to
    [min(current_time - perfect_time, duration)], which never exceeds the
    duration; it never changes the judgement.  In a tick of
    [GameState.update] without autoplay, an active HOLD note that was hit
    PERFECT and whose track is activated keeps PERFECT, gets no further
    judgement, gets that held time for the new clock, and leaves the
    active notes exactly when [held_time >= duration] or the clock has
    passed [perfect_time + 200]; while it stays, the next tick finds it
    held as before, and once it has left nothing changes it.  So it
    completes through [held_time >= duration] only in a tick that takes
    the clock to [perfect_time + duration] or later: when the duration
    exceeds 200 ms and every tick is shorter than the duration less
    200 ms, the held time stays below the duration for good, and the note
    is out of the active notes as soon as the clock has passed
    [perfect_time + 200]. *)
Theorem hold_note_held_time_spec (n : Note.t) (t k : Z) (a : bool) :
  let n' := Note.update t a k n in
  (Note.held_time n' <> Note.held_time n ->
   Note.type n = NoteType.HOLD /\ Note.hit n = true /\ a = true)
  /\ (Note.type n = NoteType.HOLD -> Note.hit n = true -> a = true ->
      Note.held_time n' = Z.min (t - Note.perfect_time n) (Note.duration n)
      /\ Note.held_time n' <= Note.duration n)
  /\ (Note.held_time n <= Note.duration n -> Note.held_time n' <= Note.duration n)
  /\ Note.judgement n' = Note.judgement n
  /\ (forall (s : GameState.t) (i : nat) (delta_time_ms : Z),
        Spec.held_perfect i n s ->
        GameState.is_playing s = true -> GameState.is_paused s = false ->
        let now' :=
          GameState.current_time_ms (GameState.advance_time delta_time_ms s) in
        let m := Note.update now' true (-1) n in
        exists s',
          GameState.update delta_time_ms s = GameState.Returned s'
          /\ GameState.current_time_ms s' = now'
          /\ GameState.objects s' !! i = Some m
          /\ Note.judgement m = Some JudgementResult.PERFECT
          /\ Spec.events_of i s' = Spec.events_of i s
          /\ Note.held_time m
             = Z.min (now' - Note.perfect_time n) (Note.duration n)
          /\ (i ∉ GameState.notes s'
              <-> Note.duration n <= Note.held_time m
                  \/ Note.perfect_time n + 200 < now')
          /\ (i ∈ GameState.notes s' -> Spec.held_perfect i m s')
          /\ (i ∉ GameState.notes s' ->
              forall calls,
                GameState.objects (Spec.run_calls calls s') !! i = Some m
                /\ Spec.events_of i (Spec.run_calls calls s')
                   = Spec.events_of i s'))
  /\ (forall (s : GameState.t) (i : nat) (ticks : list Z),
        Spec.held_perfect i n s ->
        200 < Note.duration n ->
        Forall (fun dt => dt < Note.duration n - 200) ticks ->
        Note.held_time n < Note.duration n ->
        GameState.current_time_ms s <= Note.perfect_time n + 200 ->
        let s' := Spec.run_calls (Spec.Tick <$> ticks) s in
        exists m,
          GameState.objects s' !! i = Some m
          /\ Note.judgement m = Some JudgementResult.PERFECT
          /\ Note.held_time m < Note.duration n
          /\ (Note.perfect_time n + 200 < GameState.current_time_ms s' ->
              i ∉ GameState.notes s')).
Proof.
  cbv zeta. rewrite note_update_held_time.
  destruct (note_update_hit t a k n) as (_ & Hj & _).
  split; [|split; [|split; [|split; [exact Hj|split]]]].
  - destruct (Note.type n), (Note.hit n), a; cbn; intros H; auto; congruence.
  - intros -> -> ->. cbn. split; [reflexivity|lia].
  - destruct (_ && _); lia.
  - intros s i dt Hheld Hplay Hpause.
    destruct (held_perfect_tick s i n dt Hheld Hplay Hpause)
      as (s' & Hu & Hclock & Ho & Hjud & Hht & Hout & He & Hkeep & Hev).
    cbv zeta in Hclock, Ho, Hjud, Hht, Hout, Hkeep.
    exists s'. do 8 (split; [assumption|]).
    intros Hout' calls.
    destruct (run_calls_evicted i calls s' (Hev Hout')) as [_ [Hsame Hevents]].
    split; [rewrite Hsame; exact Ho|exact Hevents].
  - intros s i ticks. apply held_perfect_ticks.
Qed.

Lemma hold_note_held_time_spec_witness :
  (exists s',
     GameState.update 192 (Scenario.hold_pressed_at 2010) = GameState.Returned s'
     /\ GameState.current_time_ms s' = 2202
     /\ (0%nat ∉ GameState.notes s')
     /\ Note.held_time <$> GameState.objects s' !! 0%nat = Some 202)
  /\ (let s' := Spec.run_calls (Spec.Tick <$> replicate 63 16)
                  (Scenario.hold_then_normal_pressed_at 2010) in
      exists m,
        GameState.objects s' !! 0%nat = Some m
        /\ Note.judgement m = Some JudgementResult.PERFECT
        /\ Note.held_time m < 1000
        /\ (2200 < GameState.current_time_ms s' -> 0%nat ∉ GameState.notes s')).
Proof.
  pose (n := GameState.mark JudgementResult.PERFECT
               (Note.__init__ 0 1 NoteType.HOLD 2000 1000)).
  destruct (hold_note_held_time_spec n 2010 (-1) true)
    as (_ & _ & _ & _ & Htick & Hticks).
  split.
  - assert (Hheld : Spec.held_perfect 0%nat n (Scenario.hold_pressed_at 2010)).
    { split; [reflexivity|]. split; [exact (NoDup_singleton 0%nat)|].
      split; [exact (list_elem_of_here 0%nat [])|].
      repeat split; reflexivity. }
    destruct (Htick (Scenario.hold_pressed_at 2010) 0%nat 192 Hheld eq_refl eq_refl)
      as (s' & Hu & Hclock & Ho & _ & _ & _ & Hout & _).
    exists s'. split; [exact Hu|]. split; [exact Hclock|].
    split; [|rewrite Ho; reflexivity].
    apply (proj2 Hout). right. reflexivity.
  - set (s := Scenario.hold_then_normal_pressed_at 2010).
    assert (Hnotes : GameState.notes s = [0%nat; 1%nat])
      by (vm_compute; reflexivity).
    assert (Hauto : GameState.autoplay s = false) by (vm_compute; reflexivity).
    assert (Hobj : GameState.objects s !! 0%nat = Some n)
      by (vm_compute; reflexivity).
    assert (Htrack : GameState.check_track_state (Note.track_index n) s = true)
      by (vm_compute; reflexivity).
    assert (Hclock : GameState.current_time_ms s <= Note.perfect_time n + 200)
      by (vm_compute; discriminate).
    assert (Hheld : Spec.held_perfect 0%nat n s).
    { split; [exact Hauto|]. rewrite Hnotes.
      split; [apply NoDup_cons_2; [|apply NoDup_singleton]|].
      { intros H. apply list_elem_of_singleton in H. discriminate H. }
      split; [apply list_elem_of_here|]. split; [exact Hobj|].
      split; [reflexivity|]. split; [reflexivity|]. split; [reflexivity|].
      exact Htrack. }
    apply (Hticks s 0%nat (replicate 63 16) Hheld).
    + reflexivity.
    + apply Forall_replicate. reflexivity.
    + reflexivity.
    + exact Hclock.
Defined.

(** ** Scores of the four results *)

(** The exponent of [MAX_SCORE / n]: the quotient is far from the
    subnormal range. *)
Lemma truediv_MAX_SCORE_exponent (n : Z) :
  1 <= n -> Zdigits2 n <= 1000 ->
  exists (m : positive) (e : Z),
    PyFloat.int_truediv 1000000 n = S754_finite false m e
    /\ 2 ^ 52 <= Z.pos m < 2 ^ 53
    /\ -1033 <= e < 0.
Proof.
  intros Hn Hd1000.
  destruct (truediv_MAX_SCORE_digits n Hn Hd1000) as (m & e & Heq & Hm & He & _).
  exists m, e. split; [exact Heq|]. split; [exact Hm|]. split; [|lia].
  assert (Hn0 : 0 < n) by lia.
  pose proof (Zdigits2_bounds n Hn0) as Hdn.
  pose proof (Zdigits2_pos n Hn0) as Hd1.
  set (d := Zdigits2 n) in *.
  set (B := 2 ^ (d - 1)) in *.
  assert (HB : 0 < B) by (apply Z.pow_pos_nonneg; lia).
  assert (HA : 2 ^ d = 2 * B).
  { unfold B. replace d with (1 + (d - 1)) at 1 by lia.
    rewrite Z.pow_add_r by lia. reflexivity. }
  set (P := 2 ^ (33 + d)).
  assert (HP : P = 17179869184 * B).
  { unfold P. rewrite Z.pow_add_r, HA by lia. change (2 ^ 33) with 8589934592. lia. }
  set (q := (1000000 * P) / n). set (r := (1000000 * P) mod n).
  assert (Hqr : 1000000 * P = n * q + r) by (apply Z.div_mod; lia).
  assert (Hr : 0 <= r < n) by (apply Z.mod_pos_bound; lia).
  assert (Hq : 4503599627370496 <= q < 18014398509481984).
  { apply (quotient_bounds n B q r); [lia|lia| |lia]. rewrite <- HP. exact Hqr. }
  assert (Hdq : 53 <= Zdigits2 q <= 54).
  { destruct (Z_lt_le_dec q 9007199254740992).
    - rewrite (Zdigits2_unique q 53); [lia| |lia].
      change (2 ^ (53 - 1)) with 4503599627370496.
      change (2 ^ 53) with 9007199254740992. lia.
    - rewrite (Zdigits2_unique q 54); [lia| |lia].
      change (2 ^ (54 - 1)) with 9007199254740992.
      change (2 ^ 54) with 18014398509481984. lia. }
  rewrite int_truediv_pos in Heq by lia.
  rewrite div_core_MAX_SCORE in Heq by (fold d; lia).
  fold d P q r in Heq.
  destruct (binary_round_aux_normal false q (- (33 + d)) (new_location n r))
    as (m' & e' & c & Heq' & _ & He' & _).
  { change (2 ^ 52) with 4503599627370496. lia. }
  { lia. }
  { lia. }
  rewrite Heq' in Heq. injection Heq as _ ->. lia.
Qed.

(** Multiplying a normal number below one by [0.65]: the product is
    finite, positive, and its ceiling does not exceed that of the number. *)
Lemma mul_lit_0_65 (m : positive) (e : Z) :
  2 ^ 52 <= Z.pos m < 2 ^ 53 -> -1073 <= e < 0 ->
  exists (m' : positive) (e' : Z),
    PyFloat.mul (S754_finite false m e) PyFloat.lit_0_65 = S754_finite false m' e'
    /\ 0 < PyFloat.ceil (S754_finite false m' e')
         <= PyFloat.ceil (S754_finite false m e).
Proof.
  intros Hm He. unfold PyFloat.mul, PyFloat.lit_0_65, SFmul.
  change (xorb false false) with false.
  rewrite Pos2Z.inj_mul.
  set (C := Z.pos 5854679515581645).
  set (M := Z.pos m * C).
  change (2 ^ 52) with 4503599627370496 in Hm.
  change (2 ^ 53) with 9007199254740992 in Hm.
  assert (HC : C = 5854679515581645) by reflexivity.
  assert (HM : 2 ^ 104 <= M < 2 ^ 106).
  { change (2 ^ 104) with 20282409603651670423947251286016.
    change (2 ^ 106) with 81129638414606681695789005144064.
    unfold M. clearbody C. nia. }
  assert (Hsh : exists sh, (sh = 52 \/ sh = 53) /\ Zdigits2 M = 53 + sh).
  { destruct (Z_lt_le_dec M (2 ^ 105)) as [Hlt|Hge].
    - exists 52. split; [auto|]. apply Zdigits2_unique; [|lia].
      change (53 + 52 - 1) with 104. change (53 + 52) with 105. lia.
    - exists 53. split; [auto|]. apply Zdigits2_unique; [|lia].
      change (53 + 53 - 1) with 105. change (53 + 53) with 106. lia. }
  destruct Hsh as (sh & Hsh & HD).
  destruct (binary_round_aux_normal false M (e + -53) loc_Exact)
    as (m' & e' & c & Heq & Hm' & He' & Hval & Hc & _).
  { change (2 ^ 52) with 4503599627370496.
    change (2 ^ 104) with 20282409603651670423947251286016 in HM. lia. }
  { rewrite HD. lia. }
  { rewrite HD. lia. }
  rewrite HD in He', Hval, Hc.
  replace (53 + sh - 53) with sh in He', Hval, Hc by lia.
  exists m', e'. split; [exact Heq|].
  rewrite (ceil_finite_scaled m' e' c (e + -53 + sh)) by lia.
  rewrite (ceil_finite_scaled m e (Z.pos m) e);
    [|lia|rewrite Z.sub_diag; simpl; lia|lia].
  replace (- (e + -53 + sh)) with ((53 - sh) + - e) by lia.
  rewrite Z.pow_add_r by lia.
  assert (Hpe : 0 < 2 ^ (- e)) by (apply Z.pow_pos_nonneg; lia).
  set (T := 2 ^ (- e)) in *.
  set (a := M / 2 ^ sh) in *.
  assert (Ha : 2 ^ sh * a <= M < 2 ^ sh * a + 2 ^ sh).
  { assert (0 < 2 ^ sh) by (apply Z.pow_pos_nonneg; lia).
    pose proof (Z.div_mod M (2 ^ sh) ltac:(lia)) as H1.
    pose proof (Z.mod_pos_bound M (2 ^ sh) ltac:(lia)) as H2.
    fold a in H1. lia. }
  assert (Hcb : 0 < c /\ c <= Z.pos m * 2 ^ (53 - sh)).
  { change (2 ^ 104) with 20282409603651670423947251286016 in HM.
    unfold M in Ha, HM. rewrite HC in Ha, HM.
    clear - Hm Ha HM Hc Hsh.
    destruct Hsh as [-> | ->].
    - change (2 ^ 52) with 4503599627370496 in Ha.
      change (2 ^ (53 - 52)) with 2. lia.
    - change (2 ^ 53) with 9007199254740992 in Ha.
      change (2 ^ (53 - 53)) with 1. lia. }
  assert (Hk : 0 < 2 ^ (53 - sh)) by (apply Z.pow_pos_nonneg; lia).
  set (K := 2 ^ (53 - sh)) in *.
  clearbody T K. clear - Hcb Hpe Hk.
  assert (H1 : - c / (K * T) <= -1).
  { assert (- c / (K * T) < 0); [|lia]. apply Z.div_lt_upper_bound; nia. }
  assert (H2 : - Z.pos m / T <= - c / (K * T)).
  { rewrite <- Z.div_div by lia.
    apply Z.div_le_mono; [lia|].
    apply Z.div_le_lower_bound; [lia|]. nia. }
  lia.
Qed.

Lemma calculate_score_miss_bad (js : JudgementSystem.t) :
  0 <= JudgementSystem.total_notes js < 2 ^ 1000 ->
  JudgementSystem.calculate_score JudgementResult.MISS js = 0
  /\ JudgementSystem.calculate_score JudgementResult.BAD js = 0.
Proof.
  intros [Hlo Hhi]. unfold JudgementSystem.calculate_score.
  destruct (JudgementSystem.total_notes js =? 0) eqn:E; [auto|].
  apply Z.eqb_neq in E.
  destruct (truediv_MAX_SCORE (JudgementSystem.total_notes js))
    as (m & e & Heq & _); [split; [lia|exact Hhi]|].
  unfold JudgementSystem.MAX_SCORE. rewrite Heq. split; reflexivity.
Qed.

Lemma calculate_score_good (js : JudgementSystem.t) :
  1 <= JudgementSystem.total_notes js < 2 ^ 1000 ->
  0 < JudgementSystem.calculate_score JudgementResult.GOOD js
    <= JudgementSystem.calculate_score JudgementResult.PERFECT js.
Proof.
  intros [Hlo Hhi]. unfold JudgementSystem.calculate_score.
  replace (JudgementSystem.total_notes js =? 0) with false
    by (symmetry; apply Z.eqb_neq; lia).
  unfold JudgementSystem.MAX_SCORE, JudgementSystem.judgement_scores,
    JudgementSystem.DEFAULT_JUDGEMENT_SCORES.
  destruct (truediv_MAX_SCORE_exponent (JudgementSystem.total_notes js))
    as (m & e & Heq & Hm & He); [exact Hlo| |].
  { apply Zdigits2_le; [|discriminate|exact Hhi].
    eapply Z.lt_le_trans; [|exact Hlo]. reflexivity. }
  rewrite Heq, mul_lit_1_0 by lia.
  destruct (mul_lit_0_65 m e Hm) as (m' & e' & -> & Hc); [lia|exact Hc].
Qed.

(** X13: for a chart of fewer than 2 ^ 1000 notes the scores of the four
    results are ordered as their weights: a Miss and a Bad score nothing,
    a Good scores more than nothing and no more than a Perfect, and a
    Perfect scores no more than MAX_SCORE; with no notes every score is 0. *)
Theorem scores_ordered_by_weight (js : JudgementSystem.t) :
  0 <= JudgementSystem.total_notes js < 2 ^ 1000 ->
  JudgementSystem.calculate_score JudgementResult.MISS js = 0
  /\ JudgementSystem.calculate_score JudgementResult.BAD js = 0
  /\ 0 <= JudgementSystem.calculate_score JudgementResult.GOOD js
       <= JudgementSystem.calculate_score JudgementResult.PERFECT js
  /\ JudgementSystem.calculate_score JudgementResult.PERFECT js
     <= JudgementSystem.MAX_SCORE
  /\ (1 <= JudgementSystem.total_notes js ->
      0 < JudgementSystem.calculate_score JudgementResult.GOOD js)
  /\ (JudgementSystem.total_notes js = 0 ->
      forall r, JudgementSystem.calculate_score r js = 0).
Proof.
  intros [Hlo Hhi].
  destruct (calculate_score_miss_bad js (conj Hlo Hhi)) as [Hmiss Hbad].
  split; [exact Hmiss|]. split; [exact Hbad|].
  destruct (Z.eq_dec (JudgementSystem.total_notes js) 0) as [H0|Hne].
  - assert (Hall : forall r, JudgementSystem.calculate_score r js = 0).
    { intros r. unfold JudgementSystem.calculate_score. rewrite H0. reflexivity. }
    rewrite !Hall. unfold JudgementSystem.MAX_SCORE.
    split; [lia|]. split; [lia|]. split; [lia|]. intros _. exact Hall.
  - assert (H1 : 1 <= JudgementSystem.total_notes js) by lia.
    pose proof (calculate_score_good js (conj H1 Hhi)) as Hgood.
    pose proof (calculate_score_perfect js (conj H1 Hhi)) as Hperf.
    split; [lia|]. split.
    { rewrite Hperf. unfold JudgementSystem.MAX_SCORE.
      apply Z.div_le_upper_bound; [lia|]. clear - H1. nia. }
    split; [intros _; lia|]. intros H0. contradiction.
Qed.

Lemma scores_ordered_by_weight_witness :
  JudgementSystem.calculate_score JudgementResult.BAD Scenario.three_notes = 0
  /\ 0 <= JudgementSystem.calculate_score JudgementResult.GOOD Scenario.three_notes
       <= JudgementSystem.calculate_score JudgementResult.PERFECT Scenario.three_notes.
Proof.
  destruct (scores_ordered_by_weight Scenario.three_notes)
    as (_ & Hbad & Hgood & _).
  - vm_compute. split; [discriminate|reflexivity].
  - split; [exact Hbad|exact Hgood].
Defined.

(** ** Relations that every call respects

    A relation between states that is reflexive and transitive, that
    holds whenever the scoreboard and the log of notifications are
    untouched, and that holds across each of the three ways in which the
    engine records a judgement, holds between a state and the state after
    any presses, releases and ticks. *)

Section Closure.

Variable R : GameState.t -> GameState.t -> Prop.
Hypothesis R_refl : forall s, R s s.
Hypothesis R_trans : forall s1 s2 s3, R s1 s2 -> R s2 s3 -> R s1 s3.
Hypothesis R_frame : forall s s',
  GameState.judged s' = GameState.judged s ->
  GameState.judgement_system s' = GameState.judgement_system s ->
  GameState.score s' = GameState.score s ->
  GameState.combo s' = GameState.combo s ->
  GameState.max_combo s' = GameState.max_combo s ->
  R s s'.
Hypothesis R_miss : forall s j, R s (GameState._judge_miss j s).
Hypothesis R_note : forall s j d, R s (snd (GameState._judge_note j d s)).
Hypothesis R_forced : forall s j objs,
  R s (GameState.set_judged ((j, JudgementResult.BAD) :: GameState.judged s)
         (GameState.set_judgement (Some JudgementResult.BAD)
            (GameState.set_judgement_system
               (JudgementSystem.record JudgementResult.BAD
                  (GameState.judgement_system s))
               (GameState.set_objects objs s)))).

Lemma closure_pass (step : GameState.t -> nat -> GameState.t) (l : list nat)
    (s : GameState.t) :
  (forall a j, R a (step a j)) -> R s (fold_left step l s).
Proof.
  intros Hstep.
  apply (fold_left_invariant step (fun s' => R s s')); [apply R_refl|].
  intros a j Ha. eapply R_trans; [exact Ha|apply Hstep].
Qed.

Lemma closure_auto_miss_step (s : GameState.t) (j : nat) :
  R s (GameState.auto_miss_step s j).
Proof. destruct (auto_miss_step_cases s j) as [-> | ->]; auto. Qed.

Lemma closure_end_marker_step (e : Z) (s : GameState.t) (j : nat) :
  R s (GameState.end_marker_step e s j).
Proof. destruct (end_marker_step_cases e s j) as [-> | ->]; auto. Qed.

Lemma closure_drag_step (s : GameState.t) (j : nat) :
  R s (GameState.drag_step s j).
Proof.
  unfold GameState.drag_step, GameState._judge_perfect.
  repeat break_match; auto.
Qed.

Lemma closure_lifecycle_step (s : GameState.t) (j : nat) :
  R s (GameState.lifecycle_step s j).
Proof.
  unfold GameState.lifecycle_step.
  repeat break_match; try apply R_refl; apply R_frame; reflexivity.
Qed.

Lemma closure_release_step (k : Z) (s : GameState.t) (j : nat) :
  R s (GameState.release_step k s j).
Proof.
  unfold GameState.release_step.
  repeat break_match; try apply R_refl.
  exact (R_forced s j (alter (Note.set_judgement (Some JudgementResult.BAD)) j
                         (GameState.objects s))).
Qed.

Lemma closure_activate_track (k : Z) (s s' : GameState.t) :
  GameState.activate_track k s = Some s' -> R s s'.
Proof.
  unfold GameState.activate_track. destruct (PyList.index _ _); [|discriminate].
  intros [= <-]. apply R_frame; reflexivity.
Qed.

Lemma closure_autoplay_step (s : GameState.t) (j : nat) :
  R s (GameState.state_of (GameState.autoplay_step s j)).
Proof.
  unfold GameState.autoplay_step, GameState._judge_perfect.
  destruct (GameState.objects s !! j) as [n|]; [|apply R_refl].
  destruct (negb (Note.hit n)).
  - destruct (_ <=? _); [|apply R_refl].
    destruct (NoteType.eqb _ _); [|apply R_note].
    destruct (GameState.activate_track _ s) as [s1|] eqn:Ha; [|apply R_refl].
    cbn [GameState.state_of].
    eapply R_trans; [eapply closure_activate_track; exact Ha|apply R_note].
  - destruct (_ && _); [|apply R_refl].
    destruct (GameState.activate_track _ s) as [s1|] eqn:Ha; [|apply R_refl].
    cbn [GameState.state_of].
    eapply R_trans; [eapply closure_activate_track; exact Ha|].
    apply R_frame; reflexivity.
Qed.

Lemma closure_run_autoplay (l : list nat) (s : GameState.t) :
  R s (GameState.state_of (GameState.run_autoplay l s)).
Proof.
  revert s. induction l as [|j l IH]; intros s; cbn [GameState.run_autoplay].
  - apply R_refl.
  - pose proof (closure_autoplay_step s j) as H1.
    destruct (GameState.autoplay_step s j) as [s1|s1]; cbn [GameState.state_of] in *.
    + eapply R_trans; [exact H1|apply IH].
    + exact H1.
Qed.

Lemma closure_check_game_over (s : GameState.t) :
  R s (GameState._check_game_over s).
Proof.
  unfold GameState._check_game_over.
  destruct (negb (GameState.is_playing s)); [apply R_refl|].
  assert (Hfb : R s match GameState.notes s with
                    | [] => GameState.stop_game s
                    | _ :: _ => s
                    end).
  { destruct (GameState.notes s); [apply R_frame; reflexivity|apply R_refl]. }
  destruct (GameState.chart_end_time_ms s) as [e|]; [|exact Hfb].
  destruct (e <=? GameState.now s); [|exact Hfb].
  eapply R_trans;
    [apply (closure_pass (GameState.end_marker_step e)); intros a j;
     apply closure_end_marker_step|].
  apply R_frame; reflexivity.
Qed.

Lemma closure_finish_update (s : GameState.t) :
  R s (GameState.finish_update s).
Proof.
  unfold GameState.finish_update.
  eapply R_trans; [|apply closure_check_game_over].
  eapply R_trans;
    [|apply (closure_pass GameState.lifecycle_step); intros a j;
      apply closure_lifecycle_step].
  destruct (negb (GameState.autoplay s)); [|apply R_refl].
  apply (closure_pass GameState.drag_step). intros a j. apply closure_drag_step.
Qed.

Lemma closure_cache_impl (s : GameState.t) :
  R s (GameState._update_notes_cache_impl s).
Proof.
  unfold GameState._update_notes_cache_impl.
  destruct (negb (GameState._update_notes_cache s)); [apply R_refl|].
  apply R_frame; reflexivity.
Qed.

Lemma closure_update (dt : Z) (s : GameState.t) :
  R s (GameState.state_of (GameState.update dt s)).
Proof.
  unfold GameState.update.
  destruct (negb (GameState.is_playing s) || GameState.is_paused s); [apply R_refl|].
  assert (H1 : R s (GameState.advance_time dt s)).
  { unfold GameState.advance_time.
    destruct (_ || _); [apply R_frame; reflexivity|apply R_refl]. }
  set (s1 := GameState.advance_time dt s) in *.
  pose proof (closure_cache_impl s1) as H2.
  set (s2 := GameState._update_notes_cache_impl s1) in *.
  assert (H12 : R s s2) by (eapply R_trans; eassumption).
  destruct (GameState.autoplay s2).
  - unfold GameState._process_autoplay.
    pose proof (closure_run_autoplay (GameState.notes s2) s2) as H3.
    destruct (GameState.run_autoplay (GameState.notes s2) s2) as [s3|s3];
      cbn [GameState.state_of] in *.
    + eapply R_trans; [exact H12|]. eapply R_trans; [exact H3|].
      apply closure_finish_update.
    + eapply R_trans; eassumption.
  - cbn [GameState.state_of]. eapply R_trans; [exact H12|].
    eapply R_trans; [|apply closure_finish_update].
    apply (closure_pass GameState.auto_miss_step). intros a j.
    apply closure_auto_miss_step.
Qed.

Lemma closure_judge_target (k : Z) (s : GameState.t) :
  R s (snd (GameState.judge_target k s)).
Proof.
  pose proof (closure_cache_impl s) as H1.
  destruct (judge_target_cases k s) as [->|(j & d & m & _ & _ & ->)]; cbn [snd];
    [exact H1|].
  eapply R_trans; [exact H1|apply R_note].
Qed.

Lemma closure_judge_note (k : Z) (action : string) (s : GameState.t) :
  R s (snd (GameState.judge_note k action s)).
Proof.
  unfold GameState.judge_note.
  destruct (negb (GameState.is_playing s) || GameState.is_paused s); [apply R_refl|].
  destruct ((k <? 0) || (GameState.num_tracks <=? k)); [apply R_refl|].
  destruct (String.eqb action "press").
  - eapply R_trans; [|apply closure_judge_target]. apply R_frame; reflexivity.
  - destruct (String.eqb action "release"); [|apply R_refl].
    eapply R_trans; [|apply closure_judge_target].
    eapply R_trans;
      [apply (closure_pass (GameState.release_step k)); intros a j;
       apply closure_release_step|].
    apply R_frame; reflexivity.
Qed.

Lemma closure_run_calls (calls : list Spec.call) (s : GameState.t) :
  R s (Spec.run_calls calls s).
Proof.
  apply (fold_left_invariant Spec.run_call (fun s' => R s s')); [apply R_refl|].
  intros a c Ha. eapply R_trans; [exact Ha|].
  destruct c; cbn [Spec.run_call];
    auto using closure_judge_note, closure_update.
Qed.

End Closure.

(** ** Counters and notifications *)

Lemma tally_app (new1 new2 : list (nat * JudgementResult.t))
    (c : JudgementSystem.counts) :
  Spec.tally (new2 ++ new1) c = Spec.tally new2 (Spec.tally new1 c).
Proof. unfold Spec.tally. apply fold_right_app. Qed.

Lemma tally_count (r : JudgementResult.t) (new : list (nat * JudgementResult.t))
    (c : JudgementSystem.counts) :
  JudgementSystem.count (Spec.tally new c) r
  = JudgementSystem.count c r + Spec.occurrences r new.
Proof.
  unfold Spec.occurrences, Spec.tally.
  induction new as [|[j q] new IH]; cbn -[Z.of_nat Z.add]; [cbn; lia|].
  destruct q, r; cbn -[Z.of_nat Z.add] in *; rewrite ?Nat2Z.inj_succ; lia.
Qed.

Lemma recorded_refl (s : GameState.t) : Spec.recorded s s.
Proof. exists []. split; reflexivity. Qed.

Lemma recorded_trans (s1 s2 s3 : GameState.t) :
  Spec.recorded s1 s2 -> Spec.recorded s2 s3 -> Spec.recorded s1 s3.
Proof.
  intros (n1 & J1 & C1) (n2 & J2 & C2). exists (n2 ++ n1).
  rewrite J2, J1, C2, C1, tally_app, app_assoc. split; reflexivity.
Qed.

Lemma recorded_one (s s' : GameState.t) (j : nat) (r : JudgementResult.t) :
  GameState.judged s' = (j, r) :: GameState.judged s ->
  GameState.judgement_system s'
  = JudgementSystem.record r (GameState.judgement_system s) ->
  Spec.recorded s s'.
Proof.
  intros Hj Hjs. exists [(j, r)]. unfold Spec.counts_of. rewrite Hj, Hjs.
  split; reflexivity.
Qed.

Lemma recorded_run_calls (calls : list Spec.call) (s : GameState.t) :
  Spec.recorded s (Spec.run_calls calls s).
Proof.
  apply closure_run_calls.
  - apply recorded_refl.
  - apply recorded_trans.
  - intros a a' Hj Hjs _ _ _. exists []. unfold Spec.counts_of.
    rewrite Hj, Hjs. split; reflexivity.
  - intros a j. destruct (judge_miss_fields j a) as (_ & Hj & Hjs & _).
    eapply recorded_one; eassumption.
  - intros a j d. destruct (judge_note_fields j d a) as (_ & _ & Hj & Hjs & _).
    eapply recorded_one; eassumption.
  - intros a j objs. eapply recorded_one; reflexivity.
Qed.

(** X14: the counters agree with the notifications: over any presses,
    releases and ticks the engine only adds notifications to those sent
    before, and each counter grows by the number of new notifications
    that carry its result. *)
Theorem counters_match_notifications (s : GameState.t) (calls : list Spec.call) :
  exists new,
    GameState.judged (Spec.run_calls calls s) = new ++ GameState.judged s
    /\ forall r,
         JudgementSystem.count (Spec.counts_of (Spec.run_calls calls s)) r
         = JudgementSystem.count (Spec.counts_of s) r + Spec.occurrences r new.
Proof.
  destruct (recorded_run_calls calls s) as (new & Hj & Hc).
  exists new. split; [exact Hj|]. intros r. rewrite Hc. apply tally_count.
Qed.

(** ** Score and combo *)

Lemma scored_refl (s : GameState.t) : Spec.scored s s.
Proof. split; [reflexivity|]. intros H. split; [exact H|lia]. Qed.

Lemma scored_trans (s1 s2 s3 : GameState.t) :
  Spec.scored s1 s2 -> Spec.scored s2 s3 -> Spec.scored s1 s3.
Proof.
  intros [T1 H1] [T2 H2]. split; [congruence|]. intros Hb.
  destruct (H1 Hb) as (Hb2 & Hs2 & Hm2). destruct (H2 Hb2) as (Hb3 & Hs3 & Hm3).
  split; [exact Hb3|lia].
Qed.

Lemma scored_frame (s s' : GameState.t) :
  Spec.total_notes_of s' = Spec.total_notes_of s ->
  GameState.score s' = GameState.score s ->
  GameState.combo s' = GameState.combo s ->
  GameState.max_combo s' = GameState.max_combo s ->
  Spec.scored s s'.
Proof.
  intros Hjs Hs Hc Hm. unfold Spec.scored, Spec.bounded.
  rewrite Hjs, Hs, Hc, Hm. split; [reflexivity|]. intros H. split; [exact H|lia].
Qed.

Lemma judge_note_max_combo (i : nat) (d : Z) (s : GameState.t) :
  let r := JudgementSystem.get_judgement d (GameState.judgement_system s) in
  GameState.max_combo (snd (GameState._judge_note i d s))
  = if JudgementResult.eqb r JudgementResult.MISS then GameState.max_combo s
    else Z.max (GameState.max_combo s) (GameState.combo s + 1).
Proof.
  cbv zeta. unfold GameState._judge_note.
  destruct (JudgementResult.eqb _ JudgementResult.MISS); reflexivity.
Qed.

Lemma scored_judge_note (s : GameState.t) (j : nat) (d : Z) :
  (forall r, 0 <= JudgementSystem.calculate_score r (GameState.judgement_system s)) ->
  Spec.scored s (snd (GameState._judge_note j d s)).
Proof.
  intros Hgain.
  destruct (judge_note_fields j d s) as (_ & _ & _ & Hjs & _).
  pose proof (judge_note_score j d s) as Hs.
  pose proof (judge_note_combo j d s) as Hc.
  pose proof (judge_note_max_combo j d s) as Hm.
  cbv zeta in Hjs, Hs, Hc, Hm.
  set (r := JudgementSystem.get_judgement d (GameState.judgement_system s)) in *.
  specialize (Hgain r).
  unfold Spec.scored, Spec.bounded, Spec.total_notes_of.
  rewrite Hjs, Hs, Hc, Hm. split; [reflexivity|].
  unfold JudgementSystem.MAX_SCORE. intros [Hb1 Hb2].
  destruct (JudgementResult.eqb r JudgementResult.MISS); lia.
Qed.

Lemma calculate_score_nonneg (js : JudgementSystem.t) (r : JudgementResult.t) :
  0 <= JudgementSystem.total_notes js < 2 ^ 1000 ->
  0 <= JudgementSystem.calculate_score r js.
Proof.
  intros [Hlo Hhi].
  destruct (Z.eq_dec (JudgementSystem.total_notes js) 0) as [H0|Hne].
  - unfold JudgementSystem.calculate_score. rewrite H0. reflexivity.
  - assert (H1 : 1 <= JudgementSystem.total_notes js) by (clear - Hlo Hne; lia).
    pose proof (calculate_score_good js (conj H1 Hhi)) as Hgood.
    destruct (calculate_score_miss_bad js (conj Hlo Hhi)) as [Hmiss Hbad].
    clear Hhi. destruct r; lia.
Qed.

Lemma calculate_score_total (js js' : JudgementSystem.t) (r : JudgementResult.t) :
  JudgementSystem.total_notes js' = JudgementSystem.total_notes js ->
  JudgementSystem.calculate_score r js' = JudgementSystem.calculate_score r js.
Proof. intros H. unfold JudgementSystem.calculate_score. rewrite H. reflexivity. Qed.

Lemma scored_run_calls (calls : list Spec.call) (s : GameState.t) :
  (forall r, 0 <= JudgementSystem.calculate_score r (GameState.judgement_system s)) ->
  Spec.scored s (Spec.run_calls calls s).
Proof.
  apply (closure_run_calls
           (fun a a' =>
              (forall r, 0 <= JudgementSystem.calculate_score r
                                (GameState.judgement_system a)) ->
              Spec.scored a a')).
  - intros a _. apply scored_refl.
  - intros s1 s2 s3 H12 H23 Hg. specialize (H12 Hg).
    eapply scored_trans; [exact H12|]. apply H23. intros r.
    rewrite (calculate_score_total (GameState.judgement_system s1)); [apply Hg|].
    apply H12.
  - intros a a' _ Hjs Hs Hc Hm _. apply scored_frame; try assumption.
    unfold Spec.total_notes_of. rewrite Hjs. reflexivity.
  - intros a j _. destruct (judge_miss_fields j a)
      as (_ & _ & Hjs & Hc & Hs & _).
    cbv zeta in Hjs, Hc, Hs.
    unfold Spec.scored, Spec.bounded, Spec.total_notes_of.
    rewrite Hjs, Hc, Hs. change (GameState.max_combo (GameState._judge_miss j a))
      with (GameState.max_combo a).
    split; [reflexivity|]. intros [Hb1 Hb2]. lia.
  - intros a j d Hg. apply scored_judge_note. exact Hg.
  - intros a j objs _. apply scored_frame; reflexivity.
Qed.

(** X15: for a chart of fewer than 2 ^ 1000 notes, presses, releases and
    ticks keep the score within 0 .. MAX_SCORE and the combo within
    0 .. maximum combo, and neither the score nor the maximum combo ever
    goes down. *)
Theorem score_and_combo_bounds (s : GameState.t) (calls : list Spec.call) :
  0 <= Spec.total_notes_of s < 2 ^ 1000 ->
  Spec.bounded s ->
  Spec.bounded (Spec.run_calls calls s)
  /\ GameState.score s <= GameState.score (Spec.run_calls calls s)
  /\ GameState.max_combo s <= GameState.max_combo (Spec.run_calls calls s).
Proof.
  intros Hn Hb.
  apply (scored_run_calls calls s); [|exact Hb].
  intros r. apply calculate_score_nonneg. exact Hn.
Qed.

Lemma score_and_combo_bounds_witness :
  let s := Scenario.boot Difficulty.NORMAL Scenario.single_normal in
  let s' := Spec.run_calls [Spec.Tick 1005; Spec.Press 0; Spec.Tick 16] s in
  0 <= GameState.score s' <= 1000000
  /\ 0 <= GameState.combo s' <= GameState.max_combo s'.
Proof.
  intros s s'.
  destruct (score_and_combo_bounds s [Spec.Tick 1005; Spec.Press 0; Spec.Tick 16])
    as (Hb & _).
  - vm_compute. split; [discriminate|reflexivity].
  - vm_compute. repeat split; discriminate.
  - exact Hb.
Defined.

(** ** The per-track cache *)

Lemma app_nil_r_fmap (o : option (list nat)) :
  (fun l : list nat => l ++ []) <$> o = o.
Proof. destruct o as [l|]; cbn; [rewrite app_nil_r|]; reflexivity. Qed.

Lemma cache_append_length (s : GameState.t) (cache : list (list nat)) (i : nat) :
  length (GameState.cache_append s cache i) = length cache.
Proof.
  unfold GameState.cache_append. repeat break_match; try reflexivity.
  apply length_alter.
Qed.

Lemma cache_append_lookup (s : GameState.t) (cache : list (list nat)) (i : nat)
    (k : Z) :
  0 <= k < GameState.num_tracks ->
  GameState.cache_append s cache i !! Z.to_nat k
  = (fun l => l ++ List.filter (Spec.unhit_on_track k s) [i]) <$> cache !! Z.to_nat k.
Proof.
  intros Hk. unfold GameState.num_tracks in Hk.
  unfold GameState.cache_append, Spec.unhit_on_track. cbn [List.filter].
  destruct (GameState.objects s !! i) as [n|];
    [|rewrite app_nil_r_fmap; reflexivity].
  unfold GameState.num_tracks.
  destruct (Z.eq_dec (Note.track_index n) k) as [->|Hne].
  - rewrite Z.eqb_refl.
    replace ((0 <=? k) && (k <? 4)) with true by lia. cbn [andb].
    destruct (negb (Note.hit n)).
    + apply list_lookup_alter_eq.
    + rewrite app_nil_r_fmap. reflexivity.
  - replace (Note.track_index n =? k) with false by lia. cbn [andb].
    rewrite app_nil_r_fmap.
    destruct ((0 <=? Note.track_index n) && (Note.track_index n <? 4)
              && negb (Note.hit n)) eqn:E; [|reflexivity].
    apply list_lookup_alter_ne. lia.
Qed.

Lemma cache_fold_lookup (s : GameState.t) (l : list nat) (cache : list (list nat))
    (k : Z) :
  0 <= k < GameState.num_tracks ->
  fold_left (GameState.cache_append s) l cache !! Z.to_nat k
  = (fun c => c ++ List.filter (Spec.unhit_on_track k s) l) <$> cache !! Z.to_nat k.
Proof.
  intros Hk. revert cache. induction l as [|i l IH]; intros cache.
  - cbn. symmetry. apply app_nil_r_fmap.
  - cbn [fold_left]. rewrite IH, cache_append_lookup by exact Hk.
    destruct (cache !! Z.to_nat k) as [c|]; [|reflexivity].
    cbn [fmap option_fmap option_map]. rewrite <- app_assoc.
    change (i :: l) with ([i] ++ l). rewrite List.filter_app. reflexivity.
Qed.

Lemma cache_fold_length (s : GameState.t) (l : list nat) (cache : list (list nat)) :
  length (fold_left (GameState.cache_append s) l cache) = length cache.
Proof.
  revert cache. induction l as [|i l IH]; intros cache; [reflexivity|].
  cbn [fold_left]. rewrite IH. apply cache_append_length.
Qed.

(** A rebuild leaves, for every track, the unhit notes of that track in
    the order of their perfect times. *)
Lemma cache_impl_rebuilt (s : GameState.t) (k : Z) :
  length (GameState._notes_by_track s) = 4%nat ->
  GameState._update_notes_cache s = true ->
  0 <= k < GameState.num_tracks ->
  GameState._notes_by_track (GameState._update_notes_cache_impl s) !! Z.to_nat k
  = Some (PyList.sort_by (GameState.perfect_time_of s)
            (List.filter (Spec.unhit_on_track k s) (GameState.notes s))).
Proof.
  intros Hlen Hflag Hk. unfold GameState._update_notes_cache_impl.
  rewrite Hflag. cbn. rewrite list_lookup_fmap, cache_fold_lookup by exact Hk.
  rewrite list_lookup_fmap.
  destruct (lookup_lt_is_Some_2 (GameState._notes_by_track s) (Z.to_nat k))
    as [c ->]; [unfold GameState.num_tracks in Hk; lia|].
  reflexivity.
Qed.

Lemma cache_impl_flag (s : GameState.t) :
  GameState._update_notes_cache (GameState._update_notes_cache_impl s) = false
  /\ length (GameState._notes_by_track (GameState._update_notes_cache_impl s))
     = length (GameState._notes_by_track s).
Proof.
  unfold GameState._update_notes_cache_impl.
  destruct (GameState._update_notes_cache s) eqn:E; cbn; [|auto].
  split; [reflexivity|].
  rewrite length_map, cache_fold_length, length_map. reflexivity.
Qed.

Lemma cache_impl_ok (s : GameState.t) :
  Spec.cache_ok s -> Spec.cache_ok (GameState._update_notes_cache_impl s).
Proof.
  intros [Hlen Hok]. destruct (cache_impl_flag s) as [Hf Hl].
  split; [congruence|]. intros _ k Hk.
  destruct (GameState._update_notes_cache s) eqn:E.
  - rewrite cache_impl_rebuilt by assumption.
    unfold GameState._update_notes_cache_impl. rewrite E. reflexivity.
  - unfold GameState._update_notes_cache_impl. rewrite E. cbn. apply Hok; auto.
Qed.

Lemma cache_ok_stale (s s' : GameState.t) :
  GameState._notes_by_track s' = GameState._notes_by_track s ->
  GameState._update_notes_cache s' = true ->
  Spec.cache_ok s -> Spec.cache_ok s'.
Proof.
  intros Hc Hf [Hlen _]. split; [congruence|]. intros Hf'. congruence.
Qed.

Lemma insert_by_ext {A : Type} (key key' : A -> Z) (x : A) (l : list A) :
  (forall a, key a = key' a) ->
  PyList.insert_by key x l = PyList.insert_by key' x l.
Proof.
  intros H. induction l as [|y l IH]; cbn; [reflexivity|].
  rewrite !H, IH. reflexivity.
Qed.

Lemma sort_by_ext {A : Type} (key key' : A -> Z) (l : list A) :
  (forall a, key a = key' a) -> PyList.sort_by key l = PyList.sort_by key' l.
Proof.
  intros H. induction l as [|x l IH]; cbn; [reflexivity|].
  rewrite IH. apply insert_by_ext. exact H.
Qed.

Lemma cache_ok_same (s s' : GameState.t) :
  GameState._notes_by_track s' = GameState._notes_by_track s ->
  GameState._update_notes_cache s' = GameState._update_notes_cache s ->
  GameState.notes s' = GameState.notes s ->
  (forall i, Spec.signature <$> GameState.objects s' !! i
             = Spec.signature <$> GameState.objects s !! i) ->
  Spec.cache_ok s -> Spec.cache_ok s'.
Proof.
  intros Hc Hf Hn Hsig [Hlen Hok]. split; [congruence|].
  intros Hf' k Hk. rewrite Hc, Hn, Hok by (congruence || assumption).
  f_equal.
  assert (Hpt : forall i, GameState.perfect_time_of s i
                          = GameState.perfect_time_of s' i).
  { intros i. unfold GameState.perfect_time_of. specialize (Hsig i).
    destruct (GameState.objects s' !! i), (GameState.objects s !! i);
      cbn in Hsig; try discriminate; [|reflexivity].
    unfold Spec.signature in Hsig. congruence. }
  assert (Hun : forall i, Spec.unhit_on_track k s i = Spec.unhit_on_track k s' i).
  { intros i. unfold Spec.unhit_on_track. specialize (Hsig i).
    destruct (GameState.objects s' !! i), (GameState.objects s !! i);
      cbn in Hsig; try discriminate; [|reflexivity].
    unfold Spec.signature in Hsig. injection Hsig as -> -> _. reflexivity. }
  rewrite (sort_by_ext _ _ _ Hpt). f_equal. apply List.filter_ext. exact Hun.
Qed.

Lemma signature_alter (f : Note.t -> Note.t) (j i : nat) (m : gmap nat Note.t) :
  (forall n, Spec.signature (f n) = Spec.signature n) ->
  Spec.signature <$> alter f j m !! i = Spec.signature <$> m !! i.
Proof.
  intros Hf. destruct (decide (j = i)) as [->|Hne].
  - rewrite lookup_alter_eq. destruct (m !! i); cbn; [rewrite Hf|]; reflexivity.
  - rewrite lookup_alter_ne by exact Hne. reflexivity.
Qed.

Lemma signature_insert (n n' : Note.t) (j i : nat) (m : gmap nat Note.t) :
  m !! j = Some n -> Spec.signature n' = Spec.signature n ->
  Spec.signature <$> <[j := n']> m !! i = Spec.signature <$> m !! i.
Proof.
  intros Hj Hs. destruct (decide (j = i)) as [->|Hne].
  - rewrite lookup_insert_eq, Hj. cbn. rewrite Hs. reflexivity.
  - rewrite lookup_insert_ne by exact Hne. reflexivity.
Qed.

Lemma signature_update (t k : Z) (a : bool) (n : Note.t) :
  Spec.signature (Note.update t a k n) = Spec.signature n.
Proof.
  destruct n as [id tr ty pt du h ht j st ct]. unfold Note.update, Spec.signature.
  cbn. destruct (negb (k =? -1)); cbn; destruct ty, h, a; cbn; try destruct st;
    reflexivity.
Qed.

Lemma judge_note_cache (j : nat) (d : Z) (s : GameState.t) :
  GameState._notes_by_track (snd (GameState._judge_note j d s))
  = GameState._notes_by_track s
  /\ GameState._update_notes_cache (snd (GameState._judge_note j d s)) = true.
Proof.
  unfold GameState._judge_note.
  destruct (negb (JudgementResult.eqb _ JudgementResult.MISS)); split; reflexivity.
Qed.

Lemma cache_ok_judge_note (j : nat) (d : Z) (s : GameState.t) :
  Spec.cache_ok s -> Spec.cache_ok (snd (GameState._judge_note j d s)).
Proof.
  destruct (judge_note_cache j d s) as [Hc Hf]. apply cache_ok_stale; assumption.
Qed.

Lemma cache_ok_judge_miss (j : nat) (s : GameState.t) :
  Spec.cache_ok s -> Spec.cache_ok (GameState._judge_miss j s).
Proof. apply cache_ok_stale; reflexivity. Qed.

Lemma cache_ok_pass (step : GameState.t -> nat -> GameState.t) (l : list nat)
    (s : GameState.t) :
  (forall a j, Spec.cache_ok a -> Spec.cache_ok (step a j)) ->
  Spec.cache_ok s -> Spec.cache_ok (fold_left step l s).
Proof.
  intros Hstep Hs. apply (fold_left_invariant step Spec.cache_ok); [exact Hs|].
  intros a j. apply Hstep.
Qed.

Lemma cache_ok_auto_miss_step (s : GameState.t) (j : nat) :
  Spec.cache_ok s -> Spec.cache_ok (GameState.auto_miss_step s j).
Proof.
  destruct (auto_miss_step_cases s j) as [-> | ->];
    [auto|apply cache_ok_judge_miss].
Qed.

Lemma cache_ok_end_marker_step (e : Z) (s : GameState.t) (j : nat) :
  Spec.cache_ok s -> Spec.cache_ok (GameState.end_marker_step e s j).
Proof.
  destruct (end_marker_step_cases e s j) as [-> | ->];
    [auto|apply cache_ok_judge_miss].
Qed.

Lemma cache_ok_drag_step (s : GameState.t) (j : nat) :
  Spec.cache_ok s -> Spec.cache_ok (GameState.drag_step s j).
Proof.
  unfold GameState.drag_step, GameState._judge_perfect.
  repeat break_match; auto using cache_ok_judge_note, cache_ok_judge_miss.
Qed.

Lemma cache_ok_lifecycle_step (s : GameState.t) (j : nat) :
  Spec.cache_ok s -> Spec.cache_ok (GameState.lifecycle_step s j).
Proof.
  intros Hs. unfold GameState.lifecycle_step.
  destruct (GameState.objects s !! j) as [n|] eqn:Hn; [|exact Hs].
  set (n' := Note.update _ _ _ n).
  assert (H1 : Spec.cache_ok
                 (GameState.set_objects (<[j := n']> (GameState.objects s)) s)).
  { apply (cache_ok_same s); try reflexivity; [|exact Hs].
    intros i. cbn. apply (signature_insert n); [exact Hn|].
    apply signature_update. }
  destruct (Note.is_complete _ n'); [|exact H1].
  destruct (bool_decide _); [|exact H1].
  eapply cache_ok_stale; [| |exact H1]; reflexivity.
Qed.

Lemma cache_ok_release_step (k : Z) (s : GameState.t) (j : nat) :
  Spec.cache_ok s -> Spec.cache_ok (GameState.release_step k s j).
Proof.
  intros Hs. unfold GameState.release_step.
  repeat break_match; try exact Hs.
  apply (cache_ok_same s); try reflexivity; [|exact Hs].
  intros i. cbn. apply signature_alter. intros m. reflexivity.
Qed.

Lemma cache_ok_activate_track (k : Z) (s s' : GameState.t) :
  GameState.activate_track k s = Some s' -> Spec.cache_ok s -> Spec.cache_ok s'.
Proof.
  unfold GameState.activate_track. destruct (PyList.index _ _); [|discriminate].
  intros [= <-]. apply cache_ok_same; reflexivity.
Qed.

Lemma cache_ok_autoplay_step (s : GameState.t) (j : nat) :
  Spec.cache_ok s ->
  Spec.cache_ok (GameState.state_of (GameState.autoplay_step s j)).
Proof.
  intros Hs. unfold GameState.autoplay_step, GameState._judge_perfect.
  destruct (GameState.objects s !! j) as [n|] eqn:Hn; [|exact Hs].
  destruct (negb (Note.hit n)).
  - destruct (_ <=? _); [|exact Hs].
    destruct (NoteType.eqb _ _); [|apply cache_ok_judge_note; exact Hs].
    destruct (GameState.activate_track _ s) as [s1|] eqn:Ha; [|exact Hs].
    cbn [GameState.state_of]. apply cache_ok_judge_note.
    eapply cache_ok_activate_track; eassumption.
  - destruct (_ && _); [|exact Hs].
    destruct (GameState.activate_track _ s) as [s1|] eqn:Ha; [|exact Hs].
    cbn [GameState.state_of].
    pose proof (cache_ok_activate_track _ _ _ Ha Hs) as H1.
    destruct (activate_track_fields _ _ _ Ha) as (_ & _ & _ & Ho & _).
    apply (cache_ok_same s1); try reflexivity; [|exact H1].
    intros i. cbn. apply (signature_insert n); [rewrite Ho; exact Hn|].
    apply signature_update.
Qed.

Lemma cache_ok_run_autoplay (l : list nat) (s : GameState.t) :
  Spec.cache_ok s ->
  Spec.cache_ok (GameState.state_of (GameState.run_autoplay l s)).
Proof.
  revert s. induction l as [|j l IH]; intros s Hs; cbn [GameState.run_autoplay].
  - exact Hs.
  - pose proof (cache_ok_autoplay_step s j Hs) as H1.
    destruct (GameState.autoplay_step s j) as [s1|s1]; cbn [GameState.state_of] in *.
    + apply IH. exact H1.
    + exact H1.
Qed.

Lemma cache_ok_check_game_over (s : GameState.t) :
  Spec.cache_ok s -> Spec.cache_ok (GameState._check_game_over s).
Proof.
  intros Hs. unfold GameState._check_game_over.
  destruct (negb (GameState.is_playing s)); [exact Hs|].
  assert (Hfb : Spec.cache_ok match GameState.notes s with
                              | [] => GameState.stop_game s
                              | _ :: _ => s
                              end).
  { destruct (GameState.notes s); [|exact Hs].
    apply (cache_ok_same s); try reflexivity. exact Hs. }
  destruct (GameState.chart_end_time_ms s) as [e|]; [|exact Hfb].
  destruct (e <=? GameState.now s); [|exact Hfb].
  set (s1 := fold_left _ _ s).
  apply (cache_ok_same s1); try reflexivity.
  apply cache_ok_pass; [intros a j; apply cache_ok_end_marker_step|exact Hs].
Qed.

Lemma cache_ok_finish_update (s : GameState.t) :
  Spec.cache_ok s -> Spec.cache_ok (GameState.finish_update s).
Proof.
  intros Hs. unfold GameState.finish_update.
  apply cache_ok_check_game_over.
  apply cache_ok_pass; [intros a j; apply cache_ok_lifecycle_step|].
  destruct (negb (GameState.autoplay s)); [|exact Hs].
  apply cache_ok_pass; [intros a j; apply cache_ok_drag_step|exact Hs].
Qed.

Lemma cache_ok_update (dt : Z) (s : GameState.t) :
  Spec.cache_ok s -> Spec.cache_ok (GameState.state_of (GameState.update dt s)).
Proof.
  intros Hs. unfold GameState.update.
  destruct (negb (GameState.is_playing s) || GameState.is_paused s); [exact Hs|].
  assert (H1 : Spec.cache_ok (GameState.advance_time dt s)).
  { unfold GameState.advance_time. destruct (_ || _); [|exact Hs].
    apply (cache_ok_same s); try reflexivity. exact Hs. }
  apply cache_impl_ok in H1.
  set (s2 := GameState._update_notes_cache_impl _) in *.
  destruct (GameState.autoplay s2).
  - unfold GameState._process_autoplay.
    pose proof (cache_ok_run_autoplay (GameState.notes s2) s2 H1) as H3.
    destruct (GameState.run_autoplay (GameState.notes s2) s2) as [s3|s3];
      cbn [GameState.state_of] in *.
    + apply cache_ok_finish_update. exact H3.
    + exact H3.
  - cbn [GameState.state_of]. apply cache_ok_finish_update.
    apply cache_ok_pass; [intros a j; apply cache_ok_auto_miss_step|exact H1].
Qed.

Lemma cache_ok_judge_target (k : Z) (s : GameState.t) :
  Spec.cache_ok s -> Spec.cache_ok (snd (GameState.judge_target k s)).
Proof.
  intros Hs. apply cache_impl_ok in Hs.
  destruct (judge_target_cases k s) as [->|(j & d & m & _ & _ & ->)]; cbn [snd];
    [exact Hs|].
  apply cache_ok_judge_note. exact Hs.
Qed.

Lemma cache_ok_judge_note_call (k : Z) (action : string) (s : GameState.t) :
  Spec.cache_ok s -> Spec.cache_ok (snd (GameState.judge_note k action s)).
Proof.
  intros Hs. unfold GameState.judge_note.
  destruct (negb (GameState.is_playing s) || GameState.is_paused s); [exact Hs|].
  destruct ((k <? 0) || (GameState.num_tracks <=? k)); [exact Hs|].
  destruct (String.eqb action "press").
  - apply cache_ok_judge_target. apply (cache_ok_same s); try reflexivity. exact Hs.
  - destruct (String.eqb action "release"); [|exact Hs].
    apply cache_ok_judge_target.
    set (s1 := GameState.release_scan k s).
    apply (cache_ok_same s1); try reflexivity.
    apply cache_ok_pass; [intros a j; apply cache_ok_release_step|exact Hs].
Qed.

Lemma cache_ok_run_calls (calls : list Spec.call) (s : GameState.t) :
  Spec.cache_ok s -> Spec.cache_ok (Spec.run_calls calls s).
Proof.
  intros Hs. apply (fold_left_invariant Spec.run_call Spec.cache_ok); [exact Hs|].
  intros a c Ha. destruct c; cbn [Spec.run_call];
    auto using cache_ok_judge_note_call, cache_ok_update.
Qed.

Lemma cache_impl_shape (s : GameState.t) :
  exists cache,
    GameState._update_notes_cache_impl s
    = GameState.set_update_notes_cache false (GameState.set_notes_by_track cache s).
Proof.
  unfold GameState._update_notes_cache_impl.
  destruct (GameState._update_notes_cache s) eqn:E; cbn [negb]; [eauto|].
  exists (GameState._notes_by_track s). destruct s; cbn in *. subst. reflexivity.
Qed.

(** What [judge_note] collects from the list of a track. *)
Lemma target_fold_elem (s : GameState.t) (l : list nat) (acc : list (nat * Z))
    (x : nat * Z) :
  x ∈ fold_left (GameState.target_step s) l acc
  <-> x ∈ acc
      \/ (fst x ∈ l /\ Spec.judgeable s (fst x) = true
          /\ snd x = Spec.offset s (fst x)).
Proof.
  revert acc. induction l as [|i l IH]; intros acc; cbn [fold_left].
  - split; [auto|]. intros [H|[H _]]; [exact H|]. inversion H.
  - rewrite IH. unfold GameState.target_step, Spec.judgeable, Spec.offset,
      GameState.perfect_time_of.
    destruct (GameState.objects s !! i) as [n|] eqn:Hn.
    + destruct (negb (Note.hit n)
                && negb (NoteType.eqb (Note.type n) NoteType.DRAG)) eqn:E1;
        cbn [andb].
      * destruct (Z.abs (GameState.now s - Note.perfect_time n) <=? 200) eqn:E2.
        -- rewrite elem_of_app, list_elem_of_singleton. split.
           ++ intros [[H | ->]|(H1 & H2 & H3)]; [auto| |].
              ** right. cbn [fst snd]. rewrite Hn, E1, E2.
                 split; [apply list_elem_of_here|auto].
              ** right. split; [apply list_elem_of_further; exact H1|auto].
           ++ intros [H|(H1 & H2 & H3)]; [auto|].
              apply elem_of_cons in H1 as [H1|H1]; [|auto].
              left. right. destruct x as [j d]. cbn [fst snd] in *. subst j.
              rewrite Hn in H3. congruence.
        -- split.
           ++ intros [H|(H1 & H2 & H3)]; [auto|].
              right. split; [apply list_elem_of_further; exact H1|auto].
           ++ intros [H|(H1 & H2 & H3)]; [auto|].
              apply elem_of_cons in H1 as [H1|H1]; [|auto].
              rewrite H1, Hn, E1, E2 in H2. discriminate.
      * split.
        -- intros [H|(H1 & H2 & H3)]; [auto|].
           right. split; [apply list_elem_of_further; exact H1|auto].
        -- intros [H|(H1 & H2 & H3)]; [auto|].
           apply elem_of_cons in H1 as [H1|H1]; [|auto].
           rewrite H1, Hn, E1 in H2. discriminate.
    + split.
      * intros [H|(H1 & H2 & H3)]; [auto|].
        right. split; [apply list_elem_of_further; exact H1|auto].
      * intros [H|(H1 & H2 & H3)]; [auto|].
        apply elem_of_cons in H1 as [H1|H1]; [|auto].
        rewrite H1, Hn in H2. discriminate.
Qed.

(** The head of a sorted list has the least key. *)
Lemma sort_by_head {A : Type} (key : A -> Z) (l : list A) (x : A) (rest : list A) :
  PyList.sort_by key l = x :: rest ->
  x ∈ l /\ forall y, y ∈ l -> key x <= key y.
Proof.
  intros Hs. pose proof (sort_by_perm key l) as Hp.
  pose proof (sort_by_sorted key l) as Hsorted. rewrite Hs in Hp, Hsorted.
  split; [rewrite <- Hp; apply list_elem_of_here|].
  intros y Hy. rewrite <- Hp in Hy.
  apply StronglySorted_inv in Hsorted as [_ Hall].
  apply elem_of_cons in Hy as [-> | Hy]; [lia|].
  rewrite Forall_forall in Hall. apply Hall. exact Hy.
Qed.

Lemma candidate_elem (k : Z) (s : GameState.t) (i : nat) :
  i ∈ List.filter (Spec.candidate k s) (GameState.notes s)
  <-> i ∈ List.filter (Spec.unhit_on_track k s) (GameState.notes s)
      /\ Spec.judgeable s i = true.
Proof.
  rewrite !list_elem_of_In, !filter_In. unfold Spec.candidate.
  rewrite andb_true_iff. tauto.
Qed.

(** The part of [judge_note] that picks and judges a note, on a state
    whose cache is consistent. *)
Lemma judge_target_closest (k : Z) (s : GameState.t) :
  0 <= k < GameState.num_tracks -> Spec.cache_ok s ->
  let cands := List.filter (Spec.candidate k s) (GameState.notes s) in
  let r := GameState.judge_target k s in
  match fst r with
  | None => cands = [] /\ GameState.judged (snd r) = GameState.judged s
  | Some res =>
      exists j,
        j ∈ cands
        /\ (forall i, i ∈ cands -> Spec.offset s j <= Spec.offset s i)
        /\ res = JudgementSystem.get_judgement (Spec.offset s j)
                   (GameState.judgement_system s)
        /\ GameState.judged (snd r) = (j, res) :: GameState.judged s
  end.
Proof.
  intros Hk Hok. cbv zeta.
  pose proof (cache_impl_ok s Hok) as [_ Hc].
  specialize (Hc (proj1 (cache_impl_flag s)) k Hk).
  unfold GameState.judge_target.
  destruct (cache_impl_shape s) as [cache Hs1]. rewrite Hs1 in *.
  set (s1 := GameState.set_update_notes_cache false _) in *.
  change (GameState._notes_by_track s1) with cache in *.
  rewrite Hc. cbn [from_option]. unfold id.
  change (GameState.perfect_time_of s1) with (GameState.perfect_time_of s).
  change (Spec.unhit_on_track k s1) with (Spec.unhit_on_track k s).
  change (GameState.notes s1) with (GameState.notes s).
  set (track_notes := PyList.sort_by _ (List.filter (Spec.unhit_on_track k s) _)).
  assert (Htn : forall i, i ∈ track_notes
                          <-> i ∈ List.filter (Spec.unhit_on_track k s)
                                    (GameState.notes s)).
  { intros i. unfold track_notes. rewrite sort_by_perm. reflexivity. }
  set (targets := fold_left (GameState.target_step s1) track_notes []).
  assert (Ht : forall x, x ∈ targets
                         <-> fst x ∈ List.filter (Spec.candidate k s)
                                       (GameState.notes s)
                             /\ snd x = Spec.offset s (fst x)).
  { intros x. unfold targets. rewrite target_fold_elem, candidate_elem, Htn.
    change (Spec.judgeable s1) with (Spec.judgeable s).
    change (Spec.offset s1) with (Spec.offset s).
    split.
    - intros [H|(H1 & H2 & H3)]; [apply elem_of_nil in H; contradiction|auto].
    - intros [[H1 H2] H3]. right. auto. }
  destruct (PyList.sort_by snd targets) as [|[j d] rest] eqn:Hsort.
  - cbn [fst snd]. split; [|reflexivity].
    apply elem_of_nil_inv. intros i Hi.
    assert (Hin : (i, Spec.offset s i) ∈ targets) by (apply Ht; auto).
    rewrite <- (sort_by_perm snd targets), Hsort in Hin. inversion Hin.
  - destruct (sort_by_head snd targets _ _ Hsort) as [Hin Hmin].
    apply Ht in Hin as [Hj Hd]. cbn [fst snd] in Hj, Hd. subst d.
    destruct (judge_note_fields j (Spec.offset s j) s1) as (Hr & _ & Hjd & _).
    cbv zeta in Hr, Hjd.
    destruct (GameState._judge_note j (Spec.offset s j) s1) as [res s2].
    cbn [fst snd] in *. exists j. split; [exact Hj|]. split.
    { intros i Hi. apply (Hmin (i, Spec.offset s i)). apply Ht. auto. }
    split; [exact Hr|]. rewrite Hjd, Hr. reflexivity.
Qed.

Lemma load_chart_cache_ok (c : Chart.t) (s : GameState.t) :
  Spec.cache_ok (snd (GameState.load_chart c s)).
Proof.
  unfold GameState.load_chart.
  set (s0 := GameState.set_chart_end_time_ms _ _).
  assert (H : forall l acc,
            GameState._notes_by_track (fst (fold_left GameState.load_note l acc))
            = GameState._notes_by_track (fst acc)).
  { intros l acc. apply (load_notes_keep GameState._notes_by_track); reflexivity. }
  destruct (Chart.notes c) as [l|].
  - specialize (H l (s0, [])).
    destruct (fold_left GameState.load_note l (s0, [])) as [s1 w].
    cbn [fst snd] in *. split; [cbn; rewrite H; reflexivity|].
    intros Hf. discriminate Hf.
  - cbn. split; [reflexivity|]. intros Hf. discriminate Hf.
Qed.

Lemma start_game_cache_ok (s : GameState.t) :
  Spec.cache_ok s -> Spec.cache_ok (GameState.start_game s).
Proof.
  intros Hs. unfold GameState.start_game. destruct (GameState.notes s); [exact Hs|].
  apply (cache_ok_same s); try reflexivity. exact Hs.
Qed.

(** X16: the per-track cache is transparent.  In every state reached
    from a loaded chart by [start_game] and any presses, releases and
    ticks, the cache is consistent with the list of active notes unless
    it is marked stale, and what [judge_note] and [update] read after
    [_update_notes_cache_impl] is, for each track, exactly the unhit
    notes of that track in the order of their perfect times. *)
Theorem cache_stays_consistent (c : Chart.t) (s0 : GameState.t)
    (calls : list Spec.call) (k : Z) :
  0 <= k < GameState.num_tracks ->
  let s := Spec.run_calls calls
             (GameState.start_game (snd (GameState.load_chart c s0))) in
  Spec.cache_ok s
  /\ GameState._notes_by_track (GameState._update_notes_cache_impl s) !! Z.to_nat k
     = Some (PyList.sort_by (GameState.perfect_time_of s)
               (List.filter (Spec.unhit_on_track k s) (GameState.notes s))).
Proof.
  intros Hk s.
  assert (Hok : Spec.cache_ok s).
  { apply cache_ok_run_calls, start_game_cache_ok, load_chart_cache_ok. }
  split; [exact Hok|].
  destruct (cache_impl_ok s Hok) as [_ Hc].
  specialize (Hc (proj1 (cache_impl_flag s)) k Hk).
  destruct (cache_impl_shape s) as [cache Hs1]. rewrite Hs1 in *. exact Hc.
Qed.

Lemma cache_stays_consistent_witness :
  let s := Spec.run_calls [Spec.Tick 1005]
             (GameState.start_game
                (snd (GameState.load_chart Scenario.single_normal
                        (GameState.__init__ Difficulty.NORMAL 0)))) in
  GameState._notes_by_track (GameState._update_notes_cache_impl s) !! 0%nat
  = Some [0%nat].
Proof.
  intros s.
  destruct (cache_stays_consistent Scenario.single_normal
              (GameState.__init__ Difficulty.NORMAL 0) [Spec.Tick 1005] 0)
    as [_ H].
  - unfold GameState.num_tracks. lia.
  - exact H.
Defined.

(** X17: a press through [judge_note] on a track, in a running game
    whose cache is consistent, judges a closest note: if no unhit
    non-DRAG note of the track in the active list is within 200 ms of
    the clock, the press returns no result and records nothing;
    otherwise it judges one such note whose distance to the clock is the
    least, classifies that distance with [get_judgement] and records
    exactly that judgement.  In particular, when some such note is within
    the Perfect window, the press yields PERFECT. *)
Theorem press_judges_closest_note (s : GameState.t) (k : Z) :
  GameState.is_playing s = true -> GameState.is_paused s = false ->
  0 <= k < GameState.num_tracks -> Spec.cache_ok s ->
  let cands := List.filter (Spec.candidate k s) (GameState.notes s) in
  let r := GameState.judge_note k "press" s in
  match fst r with
  | None => cands = [] /\ GameState.judged (snd r) = GameState.judged s
  | Some res =>
      exists j,
        j ∈ cands
        /\ (forall i, i ∈ cands -> Spec.offset s j <= Spec.offset s i)
        /\ res = JudgementSystem.get_judgement (Spec.offset s j)
                   (GameState.judgement_system s)
        /\ GameState.judged (snd r) = (j, res) :: GameState.judged s
        /\ (forall i, i ∈ cands ->
              Spec.offset s i
              <= JudgementSystem.window (GameState.judgement_system s)
                   JudgementResult.PERFECT ->
              res = JudgementResult.PERFECT)
  end.
Proof.
  intros Hplay Hpause Hk Hok. cbv zeta. unfold GameState.judge_note.
  rewrite Hplay, Hpause. cbn [negb orb].
  replace ((k <? 0) || (GameState.num_tracks <=? k)) with false
    by (unfold GameState.num_tracks in *; lia).
  cbn [String.eqb Ascii.eqb Bool.eqb].
  set (sp := GameState.press_track k s).
  assert (Hsp : Spec.cache_ok sp).
  { apply (cache_ok_same s); try reflexivity. exact Hok. }
  pose proof (judge_target_closest k sp Hk Hsp) as H. cbv zeta in H.
  change (Spec.candidate k sp) with (Spec.candidate k s) in H.
  change (GameState.notes sp) with (GameState.notes s) in H.
  change (Spec.offset sp) with (Spec.offset s) in H.
  change (GameState.judgement_system sp) with (GameState.judgement_system s) in H.
  change (GameState.judged sp) with (GameState.judged s) in H.
  destruct (fst (GameState.judge_target k sp)) as [res|]; [|exact H].
  destruct H as (j & Hj & Hmin & Hres & Hjd).
  exists j. split; [exact Hj|]. split; [exact Hmin|]. split; [exact Hres|].
  split; [exact Hjd|].
  intros i Hi Hw. rewrite Hres. apply get_judgement_perfect.
  specialize (Hmin i Hi). lia.
Qed.

Lemma press_judges_closest_note_witness :
  fst (GameState.judge_note 0 "press" (Scenario.at_1005 Difficulty.NORMAL))
  = Some JudgementResult.PERFECT.
Proof.
  assert (Hok : Spec.cache_ok (Scenario.at_1005 Difficulty.NORMAL)).
  { split; [reflexivity|]. intros _ k Hk.
    assert (Hc : k = 0 \/ k = 1 \/ k = 2 \/ k = 3)
      by (unfold GameState.num_tracks in Hk; lia).
    destruct Hc as [-> | [-> | [-> | ->]]]; vm_compute; reflexivity. }
  assert (Hk : 0 <= 0 < GameState.num_tracks) by (unfold GameState.num_tracks; lia).
  pose proof (press_judges_closest_note (Scenario.at_1005 Difficulty.NORMAL) 0
                eq_refl eq_refl Hk Hok) as H.
  cbv zeta in H.
  destruct (fst (GameState.judge_note 0 "press" (Scenario.at_1005 Difficulty.NORMAL)))
    as [res|] eqn:E.
  - destruct H as (j & _ & _ & _ & _ & Hperf). f_equal.
    apply (Hperf 0%nat); vm_compute; [apply list_elem_of_here|discriminate].
  - destruct H as [H _]. vm_compute in H. discriminate H.
Defined.

(** ** An autoplay tick that raises *)

Lemma window_difficulty (js js' : JudgementSystem.t) (r : JudgementResult.t) :
  JudgementSystem.difficulty js' = JudgementSystem.difficulty js ->
  JudgementSystem.window js' r = JudgementSystem.window js r.
Proof.
  intros H. unfold JudgementSystem.window, JudgementSystem.judgement_windows.
  rewrite H. reflexivity.
Qed.

Lemma settings_window (s s' : GameState.t) (r : JudgementResult.t) :
  Spec.settings s' = Spec.settings s ->
  JudgementSystem.window (GameState.judgement_system s') r
  = JudgementSystem.window (GameState.judgement_system s) r.
Proof.
  unfold Spec.settings. intros [= Hd _ _ _]. apply window_difficulty. exact Hd.
Qed.

Lemma judge_perfect_tracks (j : nat) (s : GameState.t) :
  GameState.tracks (GameState._judge_perfect j s) = GameState.tracks s
  /\ GameState.is_playing (GameState._judge_perfect j s) = GameState.is_playing s.
Proof.
  unfold GameState._judge_perfect.
  destruct (judge_note_fields j 0 s) as (_ & _ & _ & _ & Ht & _ & _ & Hp & _).
  split; assumption.
Qed.

Lemma activate_track_tracks (k : Z) (s s' : GameState.t) :
  GameState.activate_track k s = Some s' ->
  length (GameState.tracks s') = length (GameState.tracks s)
  /\ GameState.is_playing s' = GameState.is_playing s.
Proof.
  unfold GameState.activate_track. destruct (PyList.index _ _); [|discriminate].
  intros [= <-]. cbn. rewrite length_alter. auto.
Qed.

Lemma autoplay_step_tracks (s : GameState.t) (j : nat) :
  length (GameState.tracks (GameState.state_of (GameState.autoplay_step s j)))
  = length (GameState.tracks s)
  /\ GameState.is_playing (GameState.state_of (GameState.autoplay_step s j))
     = GameState.is_playing s.
Proof.
  unfold GameState.autoplay_step.
  destruct (GameState.objects s !! j) as [n|]; [|auto].
  destruct (negb (Note.hit n)).
  - destruct (_ <=? _); [|auto].
    destruct (NoteType.eqb _ _).
    + destruct (GameState.activate_track _ s) as [s1|] eqn:Ha; [|auto].
      cbn [GameState.state_of].
      destruct (judge_perfect_tracks j s1) as [-> ->].
      apply (activate_track_tracks _ _ _ Ha).
    + cbn [GameState.state_of]. destruct (judge_perfect_tracks j s) as [-> ->]. auto.
  - destruct (_ && _); [|auto].
    destruct (GameState.activate_track _ s) as [s1|] eqn:Ha; [|auto].
    cbn. apply (activate_track_tracks _ _ _ Ha).
Qed.

Lemma index_out_of_range (len : nat) (k : Z) :
  k < - Z.of_nat len \/ Z.of_nat len <= k -> PyList.index len k = None.
Proof.
  intros H. unfold PyList.index.
  destruct (0 <=? k) eqn:E0.
  - replace (k <? Z.of_nat len) with false by lia. reflexivity.
  - replace (- Z.of_nat len <=? k) with false by lia. reflexivity.
Qed.

(** The autoplay policy reaches an unhit DRAG note inside its window
    whose track does not exist: the IndexError escapes. *)
Lemma run_autoplay_raises (i : nat) (n : Note.t) (l : list nat) (s : GameState.t) :
  i ∈ l -> GameState.objects s !! i = Some n ->
  Note.type n = NoteType.DRAG -> Note.hit n = false ->
  Z.abs (GameState.now s - Note.perfect_time n)
  <= JudgementSystem.window (GameState.judgement_system s) JudgementResult.PERFECT * 2 ->
  Note.track_index n < - Z.of_nat (length (GameState.tracks s))
  \/ Z.of_nat (length (GameState.tracks s)) <= Note.track_index n ->
  exists s', GameState.run_autoplay l s = GameState.Raised s'.
Proof.
  intros Hin Hn Hty Hhit. revert s Hn.
  induction l as [|j l IH]; intros s Hn Hwin Htr; [inversion Hin|].
  cbn [GameState.run_autoplay].
  destruct (decide (j = i)) as [->|Hne].
  - unfold GameState.autoplay_step. rewrite Hn, Hhit, Hty. cbn [negb NoteType.eqb].
    replace (_ <=? _) with true by (symmetry; apply Z.leb_le; exact Hwin).
    unfold GameState.activate_track. rewrite index_out_of_range by exact Htr.
    eauto.
  - pose proof (autoplay_step_other i j s Hne) as [Ho _].
    pose proof (autoplay_step_time s j) as Ht.
    pose proof (autoplay_step_settings s j) as Hs.
    pose proof (autoplay_step_tracks s j) as [Hl _].
    destruct (GameState.autoplay_step s j) as [s1|s1]; cbn [GameState.state_of] in *;
      [|eauto].
    apply IH.
    + apply elem_of_cons in Hin as [Hin|Hin]; [congruence|exact Hin].
    + rewrite Ho. exact Hn.
    + unfold GameState.now. rewrite Ht, (settings_window _ _ _ Hs). exact Hwin.
    + rewrite Hl. exact Htr.
Qed.

(** X18: [load_chart] does not check track indices, and the autoplay
    policy indexes [self.tracks] unchecked.  In an autoplay tick, if an
    unhit DRAG note of the active list is within twice the Perfect window
    of the new clock and its track index is outside [-4, 4), the
    IndexError escapes from [update]: the tick is aborted before the
    lifecycle pass, so no note is evicted, and the game is still
    playing. *)
Theorem autoplay_raises_on_missing_track (s : GameState.t) (delta_time_ms : Z)
    (i : nat) (n : Note.t) :
  GameState.is_playing s = true -> GameState.is_paused s = false ->
  GameState.autoplay s = true ->
  length (GameState.tracks s) = 4%nat ->
  i ∈ GameState.notes s -> GameState.objects s !! i = Some n ->
  Note.type n = NoteType.DRAG -> Note.hit n = false ->
  Z.abs (GameState.current_time_ms (GameState.advance_time delta_time_ms s)
         - Note.perfect_time n)
  <= JudgementSystem.window (GameState.judgement_system s) JudgementResult.PERFECT * 2 ->
  Note.track_index n < -4 \/ 4 <= Note.track_index n ->
  exists s',
    GameState.update delta_time_ms s = GameState.Raised s'
    /\ GameState.notes s' = GameState.notes s
    /\ GameState.is_playing s' = true.
Proof.
  intros Hplay Hpause Hauto Hlen Hin Hn Hty Hhit Hwin Htr.
  unfold GameState.update. rewrite Hplay, Hpause. cbn [negb orb].
  destruct (advance_time_fields delta_time_ms s)
    as (_ & Hjs1 & _ & Ha1 & Ho1 & Hn1 & Ht1).
  assert (Hp1 : GameState.is_playing (GameState.advance_time delta_time_ms s) = true).
  { unfold GameState.advance_time. destruct (_ || _); exact Hplay. }
  set (s1 := GameState.advance_time delta_time_ms s) in *.
  destruct (cache_impl_shape s1) as [cache ->].
  set (s2 := GameState.set_update_notes_cache false _).
  change (GameState.autoplay s2) with (GameState.autoplay s1).
  rewrite Ha1, Hauto. unfold GameState._process_autoplay.
  destruct (run_autoplay_raises i n (GameState.notes s2) s2) as [s' Hs'];
    try assumption.
  - change (GameState.notes s2) with (GameState.notes s1). rewrite Hn1. exact Hin.
  - change (GameState.objects s2) with (GameState.objects s1). rewrite Ho1. exact Hn.
  - change (GameState.now s2) with (GameState.current_time_ms s1).
    change (GameState.judgement_system s2) with (GameState.judgement_system s1).
    rewrite Hjs1. exact Hwin.
  - change (GameState.tracks s2) with (GameState.tracks s1). rewrite Ht1, Hlen.
    exact Htr.
  - rewrite Hs'. exists s'. split; [reflexivity|].
    pose proof (run_autoplay_preserves GameState.notes (GameState.notes s2) s2
                  autoplay_step_notes) as Hnotes.
    pose proof (run_autoplay_preserves GameState.is_playing (GameState.notes s2) s2
                  (fun a j => proj2 (autoplay_step_tracks a j))) as Hpl.
    rewrite Hs' in Hnotes, Hpl. cbn [GameState.state_of] in Hnotes, Hpl.
    split; [rewrite Hnotes; exact Hn1|rewrite Hpl; exact Hp1].
Qed.

Lemma autoplay_raises_on_missing_track_witness :
  exists s',
    GameState.update 900
      (GameState.set_autoplay true
         (Scenario.boot Difficulty.NORMAL
            (Chart.mk (Some [Scenario.descriptor "drag" 7 1000 None]) None)))
    = GameState.Raised s'
    /\ GameState.notes s' = [0%nat].
Proof.
  assert (Hwin : Z.abs (GameState.current_time_ms
                          (GameState.advance_time 900
                             (GameState.set_autoplay true
                                (Scenario.boot Difficulty.NORMAL
                                   (Chart.mk
                                      (Some [Scenario.descriptor "drag" 7 1000 None])
                                      None))))
                        - Note.perfect_time (Note.__init__ 0 7 NoteType.DRAG 1000 0))
                 <= JudgementSystem.window
                      (GameState.judgement_system
                         (GameState.set_autoplay true
                            (Scenario.boot Difficulty.NORMAL
                               (Chart.mk
                                  (Some [Scenario.descriptor "drag" 7 1000 None])
                                  None))))
                      JudgementResult.PERFECT * 2)
    by (vm_compute; discriminate).
  assert (Htr : Note.track_index (Note.__init__ 0 7 NoteType.DRAG 1000 0) < -4
                \/ 4 <= Note.track_index (Note.__init__ 0 7 NoteType.DRAG 1000 0))
    by (right; vm_compute; discriminate).
  destruct (autoplay_raises_on_missing_track
              (GameState.set_autoplay true
                 (Scenario.boot Difficulty.NORMAL
                    (Chart.mk (Some [Scenario.descriptor "drag" 7 1000 None]) None)))
              900 0%nat (Note.__init__ 0 7 NoteType.DRAG 1000 0)
              eq_refl eq_refl eq_refl eq_refl (list_elem_of_here 0%nat [])
              eq_refl eq_refl eq_refl Hwin Htr)
    as (s' & Hu & Hnotes & _).
  exists s'. split; [exact Hu|exact Hnotes].
Defined.

(** ** The end of a session *)

Lemma judge_miss_running (j : nat) (s : GameState.t) :
  GameState.is_playing (GameState._judge_miss j s) = GameState.is_playing s.
Proof. reflexivity. Qed.

Lemma judge_note_running (j : nat) (d : Z) (s : GameState.t) :
  GameState.is_playing (snd (GameState._judge_note j d s)) = GameState.is_playing s.
Proof.
  destruct (judge_note_fields j d s) as (_ & _ & _ & _ & _ & _ & _ & Hp & _).
  exact Hp.
Qed.

Lemma auto_miss_step_running (s : GameState.t) (j : nat) :
  GameState.is_playing (GameState.auto_miss_step s j) = GameState.is_playing s.
Proof. destruct (auto_miss_step_cases s j) as [-> | ->]; reflexivity. Qed.

Lemma drag_step_running (s : GameState.t) (j : nat) :
  GameState.is_playing (GameState.drag_step s j) = GameState.is_playing s.
Proof.
  unfold GameState.drag_step, GameState._judge_perfect.
  repeat break_match; try reflexivity. apply judge_note_running.
Qed.

Lemma lifecycle_step_running (s : GameState.t) (j : nat) :
  GameState.is_playing (GameState.lifecycle_step s j) = GameState.is_playing s.
Proof. unfold GameState.lifecycle_step. step_cases; reflexivity. Qed.

(** After the pass made at the end marker, every note of the list that
    is due by the marker is hit. *)
Lemma end_marker_pass_all (e : Z) (l : list nat) (s : GameState.t) :
  forall i n,
    i ∈ l ->
    GameState.objects (fold_left (GameState.end_marker_step e) l s) !! i = Some n ->
    Note.perfect_time n <= e -> Note.hit n = true.
Proof.
  assert (Hkeep : forall l a i,
            (forall n, GameState.objects a !! i = Some n ->
                       Note.perfect_time n <= e -> Note.hit n = true) ->
            forall n,
              GameState.objects (fold_left (GameState.end_marker_step e) l a) !! i
              = Some n ->
              Note.perfect_time n <= e -> Note.hit n = true).
  { clear. induction l as [|j l IH]; intros a i Ha; [exact Ha|].
    cbn [fold_left]. apply IH.
    destruct (end_marker_step_cases e a j) as [-> | ->]; [exact Ha|].
    intros n. destruct (judge_miss_fields j a) as (Ho & _). cbv zeta in Ho.
    rewrite Ho. destruct (decide (j = i)) as [->|Hne].
    - rewrite lookup_alter_eq. destruct (GameState.objects a !! i); [|discriminate].
      intros [= <-] _. reflexivity.
    - rewrite lookup_alter_ne by exact Hne. apply Ha. }
  revert s. induction l as [|j l IH]; intros s i n Hin; [inversion Hin|].
  cbn [fold_left].
  apply elem_of_cons in Hin as [->|Hin]; [|apply IH; exact Hin].
  apply Hkeep. intros m Hm Hpt. unfold GameState.end_marker_step in Hm |- *.
  destruct (GameState.objects s !! j) as [m0|] eqn:Hj.
  - destruct (negb (Note.hit m0) && (Note.perfect_time m0 <=? e)) eqn:E.
    + destruct (judge_miss_fields j s) as (Ho & _). cbv zeta in Ho.
      rewrite Ho, lookup_alter_eq, Hj in Hm. injection Hm as <-. reflexivity.
    + rewrite Hj in Hm. injection Hm as <-.
      destruct (Note.hit m0); [reflexivity|]. cbn in E. lia.
  - congruence.
Qed.

(** X19: when a tick without autoplay ends the session.  The game has
    stopped after the tick exactly when the end marker of the chart has
    been reached or the list of active notes has become empty.  A stopped
    game is not paused and ignores every later press, release and tick.
    If the end marker has been reached, every note still in the list whose
    perfect time is not after the marker has been judged. *)
Theorem tick_ends_session (s : GameState.t) (delta_time_ms : Z) :
  GameState.is_playing s = true -> GameState.is_paused s = false ->
  GameState.autoplay s = false ->
  exists s',
    GameState.update delta_time_ms s = GameState.Returned s'
    /\ (GameState.is_playing s' = false
        <-> (exists e, GameState.chart_end_time_ms s = Some e
                       /\ e <= GameState.current_time_ms s')
            \/ GameState.notes s' = [])
    /\ (GameState.is_playing s' = false ->
        GameState.is_paused s' = false
        /\ forall calls, Spec.run_calls calls s' = s')
    /\ (forall e i n,
          GameState.chart_end_time_ms s = Some e ->
          e <= GameState.current_time_ms s' ->
          i ∈ GameState.notes s' -> GameState.objects s' !! i = Some n ->
          Note.perfect_time n <= e -> Note.hit n = true).
Proof.
  intros Hplay Hpause Hauto.
  unfold GameState.update. rewrite Hplay, Hpause. cbn [negb orb].
  assert (H1 : GameState.is_playing (GameState.advance_time delta_time_ms s) = true
               /\ GameState.autoplay (GameState.advance_time delta_time_ms s) = false
               /\ GameState.chart_end_time_ms (GameState.advance_time delta_time_ms s)
                  = GameState.chart_end_time_ms s).
  { unfold GameState.advance_time. destruct (_ || _); auto. }
  destruct H1 as (Hp1 & Ha1 & He1).
  set (s1 := GameState.advance_time delta_time_ms s) in *.
  destruct (cache_impl_shape s1) as [cache ->].
  set (s2 := GameState.set_update_notes_cache false _).
  change (GameState.autoplay s2) with (GameState.autoplay s1). rewrite Ha1.
  unfold GameState._process_auto_miss, GameState.finish_update.
  set (s3 := fold_left GameState.auto_miss_step (GameState.notes s2) s2).
  assert (Hp3 : GameState.is_playing s3 = true).
  { unfold s3. rewrite (fold_left_preserves _ GameState.is_playing)
      by (intros a j; apply auto_miss_step_running). exact Hp1. }
  assert (Hs3 : Spec.settings s3 = Spec.settings s1).
  { unfold s3. rewrite (fold_left_preserves _ Spec.settings)
      by (intros a j; apply auto_miss_step_settings). reflexivity. }
  assert (Ha3 : GameState.autoplay s3 = false).
  { unfold Spec.settings in Hs3. congruence. }
  rewrite Ha3. cbn [negb].
  set (s4 := fold_left GameState.drag_step (GameState.notes s3) s3).
  assert (Hp4 : GameState.is_playing s4 = true).
  { unfold s4. rewrite (fold_left_preserves _ GameState.is_playing)
      by (intros a j; apply drag_step_running). exact Hp3. }
  assert (Hs4 : Spec.settings s4 = Spec.settings s1).
  { unfold s4. rewrite (fold_left_preserves _ Spec.settings)
      by (intros a j; apply drag_step_settings). exact Hs3. }
  set (s5 := fold_left GameState.lifecycle_step (GameState.notes s4) s4).
  assert (Hp5 : GameState.is_playing s5 = true).
  { unfold s5. rewrite (fold_left_preserves _ GameState.is_playing)
      by (intros a j; apply lifecycle_step_running). exact Hp4. }
  assert (Hs5 : Spec.settings s5 = Spec.settings s1).
  { unfold s5. rewrite (fold_left_preserves _ Spec.settings)
      by (intros a j; apply lifecycle_step_settings). exact Hs4. }
  assert (He5 : GameState.chart_end_time_ms s5 = GameState.chart_end_time_ms s).
  { unfold Spec.settings in Hs5. congruence. }
  clearbody s5. clear s4 Hp4 Hs4 s3 Hp3 Hs3 Ha3.
  exists (GameState._check_game_over s5). split; [reflexivity|].
  pose proof (check_game_over_time s5) as Htime.
  pose proof (check_game_over_notes s5) as Hnotes.
  rewrite Htime, Hnotes. rewrite <- He5.
  unfold GameState._check_game_over. rewrite Hp5. cbn [negb].
  unfold GameState.now.
  destruct (GameState.chart_end_time_ms s5) as [e|].
  - destruct (e <=? GameState.current_time_ms s5) eqn:E.
    + apply Z.leb_le in E. split; [|split].
      * split; [intros _; left; eauto|reflexivity].
      * intros _. split; [reflexivity|]. intros calls.
        apply run_calls_idle. left. reflexivity.
      * intros e' i n [= <-] _ Hi Hn Hpt.
        apply (end_marker_pass_all e (GameState.notes s5) s5 i n Hi); assumption.
    + apply Z.leb_gt in E.
      destruct (GameState.notes s5) as [|j l] eqn:Hl.
      * split; [|split].
        -- split; [intros _; right; reflexivity|reflexivity].
        -- intros _. split; [reflexivity|]. intros calls.
           apply run_calls_idle. left. reflexivity.
        -- intros e' i n [= <-] He'. lia.
      * split; [|split].
        -- rewrite Hp5. split; [discriminate|].
           intros [(e' & [= <-] & He')|Hnil]; [lia|discriminate].
        -- rewrite Hp5. discriminate.
        -- intros e' i n [= <-] He'. lia.
  - destruct (GameState.notes s5) as [|j l] eqn:Hl.
    + split; [|split].
      * split; [intros _; right; reflexivity|reflexivity].
      * intros _. split; [reflexivity|]. intros calls.
        apply run_calls_idle. left. reflexivity.
      * intros e' i n Hnone. discriminate.
    + split; [|split].
      * rewrite Hp5. split; [discriminate|].
        intros [(e' & Hnone & _)|Hnil]; discriminate.
      * rewrite Hp5. discriminate.
      * intros e' i n Hnone. discriminate.
Qed.

Lemma tick_ends_session_witness :
  exists s',
    GameState.update 1250 (Scenario.boot Difficulty.NORMAL Scenario.single_normal)
    = GameState.Returned s'
    /\ GameState.is_playing s' = false.
Proof.
  destruct (tick_ends_session
              (Scenario.boot Difficulty.NORMAL Scenario.single_normal) 1250
              eq_refl eq_refl eq_refl)
    as (s' & Hu & Hend & _).
  exists s'. split; [exact Hu|].
  apply Hend. right.
  vm_compute in Hu. injection Hu as <-. reflexivity.
Defined.

(** ** Changing the difficulty *)

Lemma score_frozen_run_calls (calls : list Spec.call) (s : GameState.t) :
  Spec.total_notes_of s = 0 ->
  GameState.score s <= JudgementSystem.MAX_SCORE ->
  Spec.total_notes_of (Spec.run_calls calls s) = 0
  /\ GameState.score (Spec.run_calls calls s) = GameState.score s.
Proof.
  apply (closure_run_calls
           (fun a a' =>
              Spec.total_notes_of a = 0 ->
              GameState.score a <= JudgementSystem.MAX_SCORE ->
              Spec.total_notes_of a' = 0
              /\ GameState.score a' = GameState.score a)).
  - auto.
  - intros s1 s2 s3 H12 H23 Ht Hs. destruct (H12 Ht Hs) as [Ht2 Hs2].
    destruct (H23 Ht2) as [Ht3 Hs3]; [rewrite Hs2; exact Hs|].
    split; [exact Ht3|congruence].
  - intros a a' _ Hjs Hs _ _ Ht _. unfold Spec.total_notes_of in *.
    rewrite Hjs, Hs. auto.
  - intros a j Ht _. split; [exact Ht|reflexivity].
  - intros a j d Ht Hs.
    destruct (judge_note_fields j d a) as (_ & _ & _ & Hjs & _).
    pose proof (judge_note_score j d a) as Hsc. cbv zeta in Hjs, Hsc.
    unfold Spec.total_notes_of in *. rewrite Hjs, Hsc. split; [exact Ht|].
    destruct (JudgementResult.eqb _ _); [reflexivity|].
    unfold JudgementSystem.calculate_score. rewrite Ht. cbn [Z.eqb]. lia.
  - intros a j objs Ht _. split; [exact Ht|reflexivity].
Qed.

(** X20: [set_difficulty] replaces the judgement system by a new one, so
    the counters and the total of notes are back to 0; until a chart is
    loaded again every judgement scores 0, and the score no longer
    changes whatever presses, releases and ticks follow. *)
Theorem set_difficulty_forgets_total (s : GameState.t) (d : Difficulty.t)
    (calls : list Spec.call) :
  GameState.score s <= JudgementSystem.MAX_SCORE ->
  let s1 := GameState.set_difficulty d s in
  Spec.total_notes_of s1 = 0
  /\ Spec.counts_of s1 = JudgementSystem.mk_counts 0 0 0 0
  /\ (forall r, JudgementSystem.calculate_score r
                  (GameState.judgement_system (Spec.run_calls calls s1)) = 0)
  /\ GameState.score (Spec.run_calls calls s1) = GameState.score s.
Proof.
  intros Hs s1.
  destruct (score_frozen_run_calls calls s1 eq_refl Hs) as [Ht Hsc].
  split; [reflexivity|]. split; [reflexivity|]. split; [|exact Hsc].
  intros r. unfold JudgementSystem.calculate_score.
  unfold Spec.total_notes_of in Ht. rewrite Ht. reflexivity.
Qed.

Lemma set_difficulty_forgets_total_witness :
  GameState.score
    (Spec.run_calls [Spec.Tick 1005; Spec.Press 0]
       (GameState.set_difficulty Difficulty.HARD
          (Scenario.boot Difficulty.NORMAL Scenario.single_normal)))
  = 0.
Proof.
  destruct (set_difficulty_forgets_total
              (Scenario.boot Difficulty.NORMAL Scenario.single_normal)
              Difficulty.HARD [Spec.Tick 1005; Spec.Press 0])
    as (_ & _ & _ & H).
  - vm_compute. discriminate.
  - exact H.
Defined.

(** ** should_game_end *)

Lemma miss_unhit_pass_all (l : list nat) (s : GameState.t) :
  forall i n,
    i ∈ l ->
    GameState.objects (fold_left GameState.miss_unhit_step l s) !! i = Some n ->
    Note.hit n = true.
Proof.
  assert (Hstep : forall a j,
            GameState.miss_unhit_step a j = a
            \/ GameState.miss_unhit_step a j = GameState._judge_miss j a).
  { intros a j. unfold GameState.miss_unhit_step. repeat break_match; auto. }
  assert (Hkeep : forall l a i,
            (forall n, GameState.objects a !! i = Some n -> Note.hit n = true) ->
            forall n,
              GameState.objects (fold_left GameState.miss_unhit_step l a) !! i = Some n ->
              Note.hit n = true).
  { clear - Hstep. induction l as [|j l IH]; intros a i Ha; [exact Ha|].
    cbn [fold_left]. apply IH.
    destruct (Hstep a j) as [-> | ->]; [exact Ha|].
    intros n. destruct (judge_miss_fields j a) as (Ho & _). cbv zeta in Ho.
    rewrite Ho. destruct (decide (j = i)) as [->|Hne].
    - rewrite lookup_alter_eq. destruct (GameState.objects a !! i); [|discriminate].
      intros [= <-]. reflexivity.
    - rewrite lookup_alter_ne by exact Hne. apply Ha. }
  revert s. induction l as [|j l IH]; intros s i n Hin; [inversion Hin|].
  cbn [fold_left].
  apply elem_of_cons in Hin as [->|Hin]; [|apply IH; exact Hin].
  apply Hkeep. intros m Hm. unfold GameState.miss_unhit_step in Hm |- *.
  destruct (GameState.objects s !! j) as [m0|] eqn:Hj.
  - destruct (Note.hit m0) eqn:E; cbn [negb] in *.
    + rewrite Hj in Hm. injection Hm as <-. exact E.
    + destruct (judge_miss_fields j s) as (Ho & _). cbv zeta in Ho.
      rewrite Ho, lookup_alter_eq, Hj in Hm. injection Hm as <-. reflexivity.
  - congruence.
Qed.

Lemma miss_unhit_pass_notes (l : list nat) (s : GameState.t) :
  GameState.notes (fold_left GameState.miss_unhit_step l s) = GameState.notes s.
Proof.
  apply (fold_left_preserves _ GameState.notes). intros a j.
  unfold GameState.miss_unhit_step. repeat break_match; reflexivity.
Qed.

(** X21: [should_game_end].  With an end marker the answer is whether the
    clock has reached it, and nothing changes.  Without one, the answer is
    True for an empty list of active notes; whenever the answer is True,
    every note still in the list is hit afterwards (those that were not
    have been missed by the call, which happens only once the clock is
    more than 3000 ms past the last perfect time); and whenever the answer
    is False the state is unchanged. *)
Theorem should_game_end_spec (s : GameState.t) :
  (forall e, GameState.chart_end_time_ms s = Some e ->
     GameState.should_game_end s = (e <=? GameState.current_time_ms s, s))
  /\ (GameState.chart_end_time_ms s = None ->
      (GameState.notes s = [] -> GameState.should_game_end s = (true, s))
      /\ GameState.notes (snd (GameState.should_game_end s)) = GameState.notes s
      /\ (fst (GameState.should_game_end s) = true ->
          forall i n,
            i ∈ GameState.notes s ->
            GameState.objects (snd (GameState.should_game_end s)) !! i = Some n ->
            Note.hit n = true)
      /\ (fst (GameState.should_game_end s) = false ->
          snd (GameState.should_game_end s) = s)
      /\ (snd (GameState.should_game_end s) <> s ->
          forall i, i ∈ GameState.notes s ->
            GameState.perfect_time_of s i + 3000 < GameState.current_time_ms s)).
Proof.
  unfold GameState.should_game_end, GameState.now. split.
  - intros e ->. reflexivity.
  - intros ->. destruct (GameState.notes s) as [|j l] eqn:Hl.
    + cbn. repeat split; auto; try discriminate.
      * intros _ i n Hi. inversion Hi.
      * intros H. contradiction.
    + split; [discriminate|].
      set (last := fold_left Z.max (map (GameState.perfect_time_of s) l)
                     (GameState.perfect_time_of s j)).
      destruct (last + 3000 <? GameState.current_time_ms s) eqn:E; cbn [fst snd].
      * split; [rewrite miss_unhit_pass_notes; exact Hl|].
        split; [intros _ i n Hi; apply miss_unhit_pass_all; exact Hi|].
        split; [discriminate|].
        intros _ i Hi. apply Z.ltb_lt in E.
        assert (Hmax : forall (xs : list Z) (a x : Z),
                  x = a \/ x ∈ xs -> x <= fold_left Z.max xs a).
        { clear. induction xs as [|y xs IH]; intros a x H; cbn.
          - destruct H as [->|H]; [lia|inversion H].
          - destruct H as [->|H].
            + etransitivity; [|apply IH; left; reflexivity]. lia.
            + apply elem_of_cons in H as [->|H].
              * etransitivity; [|apply IH; left; reflexivity]. lia.
              * apply IH. right. exact H. }
        assert (GameState.perfect_time_of s i <= last); [|lia].
        apply Hmax. apply elem_of_cons in Hi as [->|Hi]; [auto|].
        right. apply list_elem_of_fmap. eauto.
      * split; [exact Hl|].
        split.
        { intros Hall i n Hi Hn. unfold GameState.all_hit in Hall.
          rewrite forallb_forall in Hall. rewrite Hl in Hall.
          specialize (Hall i (proj1 (list_elem_of_In _ _) Hi)).
          rewrite Hn in Hall. exact Hall. }
        split; [reflexivity|]. intros H. contradiction.
Qed.

(** ** Properties that every Note object keeps

    The engine changes a Note object in three ways only: it marks it with
    a judgement, it forces the judgement of a hit HOLD note to BAD, and it
    calls [Note.update].  A property of notes that these three keep holds
    for every object of the store after any presses, releases and ticks. *)

Section NoteClosure.

Variable P : Note.t -> Prop.
Hypothesis P_mark : forall r n, P n -> P (GameState.mark r n).
Hypothesis P_forced : forall n,
  Note.hit n = true -> P n -> P (Note.set_judgement (Some JudgementResult.BAD) n).
Hypothesis P_update : forall t a n, P n -> P (Note.update t a (-1) n).

Lemma all_notes_frame (s s' : GameState.t) :
  GameState.objects s' = GameState.objects s ->
  Spec.all_notes P s -> Spec.all_notes P s'.
Proof. intros Ho H i n. rewrite Ho. apply H. Qed.

Lemma all_notes_alter (f : Note.t -> Note.t) (j : nat) (s s' : GameState.t) :
  GameState.objects s' = alter f j (GameState.objects s) ->
  (forall n, GameState.objects s !! j = Some n -> P n -> P (f n)) ->
  Spec.all_notes P s -> Spec.all_notes P s'.
Proof.
  intros Ho Hf H i n. rewrite Ho. destruct (decide (j = i)) as [->|Hne].
  - rewrite lookup_alter_eq. destruct (GameState.objects s !! i) as [m|] eqn:Hm;
      [|discriminate].
    intros [= <-]. apply Hf; [reflexivity|]. eapply H. exact Hm.
  - rewrite lookup_alter_ne by exact Hne. apply H.
Qed.

Lemma all_notes_insert (n' : Note.t) (j : nat) (s s' : GameState.t) :
  GameState.objects s' = <[j := n']> (GameState.objects s) -> P n' ->
  Spec.all_notes P s -> Spec.all_notes P s'.
Proof.
  intros Ho Hn' H i m. rewrite Ho. destruct (decide (j = i)) as [->|Hne].
  - rewrite lookup_insert_eq. intros [= <-]. exact Hn'.
  - rewrite lookup_insert_ne by exact Hne. apply H.
Qed.

Lemma all_notes_judge_miss (j : nat) (s : GameState.t) :
  Spec.all_notes P s -> Spec.all_notes P (GameState._judge_miss j s).
Proof.
  destruct (judge_miss_fields j s) as (Ho & _).
  apply (all_notes_alter _ j s _ Ho). intros n _. apply P_mark.
Qed.

Lemma all_notes_judge_note (j : nat) (d : Z) (s : GameState.t) :
  Spec.all_notes P s -> Spec.all_notes P (snd (GameState._judge_note j d s)).
Proof.
  destruct (judge_note_fields j d s) as (_ & Ho & _).
  apply (all_notes_alter _ j s _ Ho). intros n _. apply P_mark.
Qed.

Lemma all_notes_pass (step : GameState.t -> nat -> GameState.t) (l : list nat)
    (s : GameState.t) :
  (forall a j, Spec.all_notes P a -> Spec.all_notes P (step a j)) ->
  Spec.all_notes P s -> Spec.all_notes P (fold_left step l s).
Proof.
  intros Hstep Hs. apply (fold_left_invariant step (Spec.all_notes P)); [exact Hs|].
  intros a j. apply Hstep.
Qed.

Lemma all_notes_auto_miss_step (s : GameState.t) (j : nat) :
  Spec.all_notes P s -> Spec.all_notes P (GameState.auto_miss_step s j).
Proof.
  destruct (auto_miss_step_cases s j) as [-> | ->];
    [auto|apply all_notes_judge_miss].
Qed.

Lemma all_notes_end_marker_step (e : Z) (s : GameState.t) (j : nat) :
  Spec.all_notes P s -> Spec.all_notes P (GameState.end_marker_step e s j).
Proof.
  destruct (end_marker_step_cases e s j) as [-> | ->];
    [auto|apply all_notes_judge_miss].
Qed.

Lemma all_notes_drag_step (s : GameState.t) (j : nat) :
  Spec.all_notes P s -> Spec.all_notes P (GameState.drag_step s j).
Proof.
  unfold GameState.drag_step, GameState._judge_perfect.
  repeat break_match; auto using all_notes_judge_note, all_notes_judge_miss.
Qed.

Lemma all_notes_lifecycle_step (s : GameState.t) (j : nat) :
  Spec.all_notes P s -> Spec.all_notes P (GameState.lifecycle_step s j).
Proof.
  intros Hs. unfold GameState.lifecycle_step.
  destruct (GameState.objects s !! j) as [n|] eqn:Hn; [|exact Hs].
  set (n' := Note.update _ _ _ n).
  assert (H1 : Spec.all_notes P
                 (GameState.set_objects (<[j := n']> (GameState.objects s)) s)).
  { apply (all_notes_insert n' j s); [reflexivity| |exact Hs].
    apply P_update. eapply Hs. exact Hn. }
  destruct (Note.is_complete _ n'); [|exact H1].
  destruct (bool_decide _); [|exact H1].
  eapply all_notes_frame; [|exact H1]. reflexivity.
Qed.

Lemma all_notes_release_step (k : Z) (s : GameState.t) (j : nat) :
  Spec.all_notes P s -> Spec.all_notes P (GameState.release_step k s j).
Proof.
  intros Hs. unfold GameState.release_step.
  destruct (GameState.objects s !! j) as [n|] eqn:Hn; [|exact Hs].
  destruct (NoteType.eqb (Note.type n) NoteType.HOLD
            && (Note.track_index n =? k) && Note.hit n
            && negb (Note.is_complete (GameState.now s) n)) eqn:E; [|exact Hs].
  destruct (negb (GameState.is_bad (Note.judgement n))); [|exact Hs].
  apply (all_notes_alter (Note.set_judgement (Some JudgementResult.BAD)) j s);
    [reflexivity| |exact Hs].
  intros m Hm Pm. rewrite Hn in Hm. injection Hm as <-.
  apply P_forced; [|exact Pm].
  destruct (Note.hit n); [reflexivity|].
  rewrite andb_false_r in E. discriminate E.
Qed.

Lemma all_notes_autoplay_step (s : GameState.t) (j : nat) :
  Spec.all_notes P s ->
  Spec.all_notes P (GameState.state_of (GameState.autoplay_step s j)).
Proof.
  intros Hs. unfold GameState.autoplay_step, GameState._judge_perfect.
  destruct (GameState.objects s !! j) as [n|] eqn:Hn; [|exact Hs].
  destruct (negb (Note.hit n)).
  - destruct (_ <=? _); [|exact Hs].
    destruct (NoteType.eqb _ _); [|apply all_notes_judge_note; exact Hs].
    destruct (GameState.activate_track _ s) as [s1|] eqn:Ha; [|exact Hs].
    cbn [GameState.state_of]. apply all_notes_judge_note.
    destruct (activate_track_fields _ _ _ Ha) as (_ & _ & _ & Ho & _).
    eapply all_notes_frame; eassumption.
  - destruct (_ && _); [|exact Hs].
    destruct (GameState.activate_track _ s) as [s1|] eqn:Ha; [|exact Hs].
    cbn [GameState.state_of].
    destruct (activate_track_fields _ _ _ Ha) as (_ & _ & _ & Ho & _).
    apply (all_notes_insert (Note.update (GameState.now s1) true (-1) n) j s1);
      [reflexivity| |].
    + apply P_update. eapply Hs. exact Hn.
    + eapply all_notes_frame; eassumption.
Qed.

Lemma all_notes_run_autoplay (l : list nat) (s : GameState.t) :
  Spec.all_notes P s ->
  Spec.all_notes P (GameState.state_of (GameState.run_autoplay l s)).
Proof.
  revert s. induction l as [|j l IH]; intros s Hs; cbn [GameState.run_autoplay].
  - exact Hs.
  - pose proof (all_notes_autoplay_step s j Hs) as H1.
    destruct (GameState.autoplay_step s j) as [s1|s1]; cbn [GameState.state_of] in *.
    + apply IH. exact H1.
    + exact H1.
Qed.

Lemma all_notes_check_game_over (s : GameState.t) :
  Spec.all_notes P s -> Spec.all_notes P (GameState._check_game_over s).
Proof.
  intros Hs. unfold GameState._check_game_over.
  destruct (negb (GameState.is_playing s)); [exact Hs|].
  assert (Hfb : Spec.all_notes P match GameState.notes s with
                                 | [] => GameState.stop_game s
                                 | _ :: _ => s
                                 end).
  { destruct (GameState.notes s); [|exact Hs].
    apply (all_notes_frame s); [reflexivity|exact Hs]. }
  destruct (GameState.chart_end_time_ms s) as [e|]; [|exact Hfb].
  destruct (e <=? GameState.now s); [|exact Hfb].
  set (s1 := fold_left _ _ s).
  apply (all_notes_frame s1); [reflexivity|].
  apply all_notes_pass; [intros a j; apply all_notes_end_marker_step|exact Hs].
Qed.

Lemma all_notes_update (dt : Z) (s : GameState.t) :
  Spec.all_notes P s ->
  Spec.all_notes P (GameState.state_of (GameState.update dt s)).
Proof.
  intros Hs. unfold GameState.update.
  destruct (negb (GameState.is_playing s) || GameState.is_paused s); [exact Hs|].
  assert (H1 : Spec.all_notes P (GameState.advance_time dt s)).
  { apply (all_notes_frame s); [apply advance_time_fields|exact Hs]. }
  set (s1 := GameState.advance_time dt s) in *.
  assert (H2 : Spec.all_notes P (GameState._update_notes_cache_impl s1)).
  { apply (all_notes_frame s1); [apply cache_impl_objects|exact H1]. }
  set (s2 := GameState._update_notes_cache_impl s1) in *.
  assert (Hfin : forall a, Spec.all_notes P a ->
                           Spec.all_notes P (GameState.finish_update a)).
  { intros a Ha. unfold GameState.finish_update.
    apply all_notes_check_game_over.
    apply all_notes_pass; [intros b j; apply all_notes_lifecycle_step|].
    destruct (negb (GameState.autoplay a)); [|exact Ha].
    apply all_notes_pass; [intros b j; apply all_notes_drag_step|exact Ha]. }
  destruct (GameState.autoplay s2).
  - unfold GameState._process_autoplay.
    pose proof (all_notes_run_autoplay (GameState.notes s2) s2 H2) as H3.
    destruct (GameState.run_autoplay (GameState.notes s2) s2) as [s3|s3];
      cbn [GameState.state_of] in *; [apply Hfin|]; exact H3.
  - cbn [GameState.state_of]. apply Hfin.
    apply all_notes_pass; [intros a j; apply all_notes_auto_miss_step|exact H2].
Qed.

Lemma all_notes_judge_target (k : Z) (s : GameState.t) :
  Spec.all_notes P s -> Spec.all_notes P (snd (GameState.judge_target k s)).
Proof.
  intros Hs.
  assert (H1 : Spec.all_notes P (GameState._update_notes_cache_impl s)).
  { apply (all_notes_frame s); [apply cache_impl_objects|exact Hs]. }
  destruct (judge_target_cases k s) as [->|(j & d & m & _ & _ & ->)]; cbn [snd];
    [exact H1|].
  apply all_notes_judge_note. exact H1.
Qed.

Lemma all_notes_judge_note_call (k : Z) (action : string) (s : GameState.t) :
  Spec.all_notes P s -> Spec.all_notes P (snd (GameState.judge_note k action s)).
Proof.
  intros Hs. unfold GameState.judge_note.
  destruct (negb (GameState.is_playing s) || GameState.is_paused s); [exact Hs|].
  destruct ((k <? 0) || (GameState.num_tracks <=? k)); [exact Hs|].
  destruct (String.eqb action "press").
  - apply all_notes_judge_target. apply (all_notes_frame s); [reflexivity|exact Hs].
  - destruct (String.eqb action "release"); [|exact Hs].
    apply all_notes_judge_target.
    set (s1 := GameState.release_scan k s).
    apply (all_notes_frame s1); [reflexivity|].
    apply all_notes_pass; [intros a j; apply all_notes_release_step|exact Hs].
Qed.

Lemma all_notes_run_calls (calls : list Spec.call) (s : GameState.t) :
  Spec.all_notes P s -> Spec.all_notes P (Spec.run_calls calls s).
Proof.
  intros Hs. apply (fold_left_invariant Spec.run_call (Spec.all_notes P));
    [exact Hs|].
  intros a c Ha. destruct c; cbn [Spec.run_call];
    auto using all_notes_judge_note_call, all_notes_update.
Qed.

End NoteClosure.

Lemma note_ok_init (k : nat) (tr : Z) (ty : NoteType.t) (pt du : Z) :
  Spec.note_ok (Note.__init__ k tr ty pt du).
Proof. unfold Spec.note_ok. cbn. repeat split; auto; discriminate. Qed.

Lemma note_ok_mark (r : JudgementResult.t) (n : Note.t) :
  Spec.note_ok n -> Spec.note_ok (GameState.mark r n).
Proof.
  intros (H1 & H2 & H3 & H4). unfold Spec.note_ok. cbn.
  split; [intros _; discriminate|]. split; [discriminate|].
  split; [exact H3|exact H4].
Qed.

Lemma note_ok_forced (n : Note.t) :
  Note.hit n = true -> Spec.note_ok n ->
  Spec.note_ok (Note.set_judgement (Some JudgementResult.BAD) n).
Proof.
  intros Hhit (H1 & H2 & H3 & H4). unfold Spec.note_ok. cbn.
  split; [intros _; discriminate|]. split; [intros Hf; congruence|].
  split; [exact H3|exact H4].
Qed.

Lemma note_ok_update (t : Z) (a : bool) (n : Note.t) :
  Spec.note_ok n -> Spec.note_ok (Note.update t a (-1) n).
Proof.
  intros Hok.
  destruct (NoteType.eqb (Note.type n) NoteType.HOLD && Note.hit n && a) eqn:E.
  - apply andb_true_iff in E as [E Ha]. apply andb_true_iff in E as [Hty Hhit].
    destruct Hok as (H1 & H2 & H3 & H4).
    destruct n as [id tr ty pt du h ht j st ct]. cbn in *. subst h a.
    destruct ty; try discriminate.
    unfold Note.update, Spec.note_ok. cbn. destruct st; cbn;
      (split; [exact H1|]; split; [discriminate|]; split; [congruence|]; lia).
  - replace (Note.update t a (-1) n) with n; [exact Hok|].
    unfold Note.update. cbn. rewrite E. reflexivity.
Qed.

Lemma load_note_all_ok (acc : GameState.t * list Chart.note_data)
    (d : Chart.note_data) :
  Spec.all_notes Spec.note_ok (fst acc) ->
  Spec.all_notes Spec.note_ok (fst (GameState.load_note acc d)).
Proof.
  destruct acc as [s w]. cbn [fst]. intros Hs. unfold GameState.load_note.
  destruct (GameState.make_note (GameState.next_id s) d) as [n|] eqn:Hmk;
    cbn [fst]; [|exact Hs].
  apply (all_notes_insert Spec.note_ok n (Note.id n) s); [reflexivity| |exact Hs].
  destruct d as [ty [tr|] [pt|] du|]; try discriminate Hmk.
  injection Hmk as <-. apply note_ok_init.
Qed.

Lemma start_game_objects (s : GameState.t) :
  GameState.objects (GameState.start_game s) = GameState.objects s.
Proof. unfold GameState.start_game. destruct (GameState.notes s); reflexivity. Qed.

(** X22: the state of every Note object stays coherent.  If every object
    of the store satisfies: a hit note has a judgement; an unhit note has
    none, a held time of 0 and no start of hold; only HOLD notes have a
    held time other than 0; the held time does not exceed a duration that
    is not negative - then so does every object after any presses,
    releases and ticks, and after [load_chart]. *)
Theorem notes_stay_coherent (s : GameState.t) (calls : list Spec.call)
    (c : Chart.t) :
  Spec.all_notes Spec.note_ok s ->
  Spec.all_notes Spec.note_ok (Spec.run_calls calls s)
  /\ Spec.all_notes Spec.note_ok (snd (GameState.load_chart c s)).
Proof.
  intros Hs. split.
  - apply all_notes_run_calls; auto using note_ok_mark, note_ok_forced, note_ok_update.
  - unfold GameState.load_chart.
    set (s0 := GameState.set_chart_end_time_ms _ _).
    assert (H0 : Spec.all_notes Spec.note_ok s0) by exact Hs.
    assert (H : forall l acc,
              Spec.all_notes Spec.note_ok (fst acc) ->
              Spec.all_notes Spec.note_ok (fst (fold_left GameState.load_note l acc))).
    { induction l as [|d l IH]; intros acc Ha; [exact Ha|].
      cbn [fold_left]. apply IH, load_note_all_ok. exact Ha. }
    destruct (Chart.notes c) as [l|].
    + specialize (H l (s0, []) H0).
      destruct (fold_left GameState.load_note l (s0, [])) as [s1 w].
      exact H.
    + exact H0.
Qed.

Lemma notes_stay_coherent_witness :
  Spec.all_notes Spec.note_ok
    (Spec.run_calls [Spec.Tick 2010; Spec.Press 1; Spec.Tick 100; Spec.Release 1]
       (GameState.start_game
          (snd (GameState.load_chart Scenario.single_hold
                  (GameState.__init__ Difficulty.NORMAL 0))))).
Proof.
  assert (H0 : Spec.all_notes Spec.note_ok (GameState.__init__ Difficulty.NORMAL 0)).
  { intros i n H. vm_compute in H. discriminate H. }
  destruct (notes_stay_coherent (GameState.__init__ Difficulty.NORMAL 0) []
              Scenario.single_hold H0) as [_ H1].
  apply (all_notes_frame Spec.note_ok _ _
           (start_game_objects
              (snd (GameState.load_chart Scenario.single_hold
                      (GameState.__init__ Difficulty.NORMAL 0))))) in H1.
  destruct (notes_stay_coherent
              (GameState.start_game
                 (snd (GameState.load_chart Scenario.single_hold
                         (GameState.__init__ Difficulty.NORMAL 0))))
              [Spec.Tick 2010; Spec.Press 1; Spec.Tick 100; Spec.Release 1]
              Scenario.single_hold H1) as [H2 _].
  exact H2.
Defined.

(** ** The autoplay policy on a valid chart *)

Lemma on_a_track_mark (r : JudgementResult.t) (n : Note.t) :
  Spec.on_a_track n -> Spec.on_a_track (GameState.mark r n).
Proof. auto. Qed.

Lemma on_a_track_update (t : Z) (a : bool) (n : Note.t) :
  Spec.on_a_track n -> Spec.on_a_track (Note.update t a (-1) n).
Proof.
  unfold Spec.on_a_track. destruct n as [id tr ty pt du h ht j st ct].
  unfold Note.update. cbn. destruct ty, h, a; cbn; try destruct st; auto.
Qed.

Lemma activate_track_valid (k : Z) (s : GameState.t) :
  length (GameState.tracks s) = 4%nat -> 0 <= k < GameState.num_tracks ->
  exists s', GameState.activate_track k s = Some s'.
Proof.
  intros Hlen Hk. unfold GameState.activate_track, PyList.index.
  unfold GameState.num_tracks in Hk. rewrite Hlen.
  change (Z.of_nat 4) with 4.
  replace (0 <=? k) with true by lia.
  replace (k <? 4) with true by lia. eauto.
Qed.

Lemma autoplay_step_returns (s : GameState.t) (j : nat) :
  length (GameState.tracks s) = 4%nat -> Spec.all_notes Spec.on_a_track s ->
  exists s', GameState.autoplay_step s j = GameState.Returned s'.
Proof.
  intros Hlen Hv. unfold GameState.autoplay_step.
  destruct (GameState.objects s !! j) as [n|] eqn:Hn; [|eauto].
  destruct (activate_track_valid (Note.track_index n) s Hlen (Hv j n Hn))
    as [s1 Ha].
  rewrite Ha. repeat break_match; eauto.
Qed.

Lemma run_autoplay_returns (l : list nat) (s : GameState.t) :
  length (GameState.tracks s) = 4%nat -> Spec.all_notes Spec.on_a_track s ->
  exists s', GameState.run_autoplay l s = GameState.Returned s'.
Proof.
  revert s. induction l as [|j l IH]; intros s Hlen Hv; cbn [GameState.run_autoplay];
    [eauto|].
  destruct (autoplay_step_returns s j Hlen Hv) as [s1 Hs1].
  pose proof (autoplay_step_tracks s j) as [Hl _].
  pose proof (all_notes_autoplay_step Spec.on_a_track on_a_track_mark
                on_a_track_update s j Hv) as Hv1.
  rewrite Hs1 in *. cbn [GameState.state_of] in *.
  apply IH; [congruence|exact Hv1].
Qed.

Lemma run_autoplay_app (l1 l2 : list nat) (s : GameState.t) :
  GameState.run_autoplay (l1 ++ l2) s
  = match GameState.run_autoplay l1 s with
    | GameState.Returned s1 => GameState.run_autoplay l2 s1
    | GameState.Raised s1 => GameState.Raised s1
    end.
Proof.
  revert s. induction l1 as [|j l1 IH]; intros s; cbn; [reflexivity|].
  destruct (GameState.autoplay_step s j); [apply IH|reflexivity].
Qed.

(** What the lifecycle pass keeps of every note: its hit flag, its
    judgement and the judgements recorded for it. *)
Lemma lifecycle_pass_verdict (i : nat) (l : list nat) (s : GameState.t) (n : Note.t) :
  GameState.objects s !! i = Some n ->
  exists n',
    GameState.objects (fold_left GameState.lifecycle_step l s) !! i = Some n'
    /\ Note.hit n' = Note.hit n /\ Note.judgement n' = Note.judgement n
    /\ Spec.events_of i (fold_left GameState.lifecycle_step l s)
       = Spec.events_of i s.
Proof.
  intros Hn.
  apply (fold_left_invariant GameState.lifecycle_step
           (fun s' => exists n',
                        GameState.objects s' !! i = Some n'
                        /\ Note.hit n' = Note.hit n
                        /\ Note.judgement n' = Note.judgement n
                        /\ Spec.events_of i s' = Spec.events_of i s)).
  - exists n. auto.
  - intros a j (m & Hm & Hh & Hj & He).
    destruct (decide (j = i)) as [->|Hne].
    + unfold GameState.lifecycle_step. rewrite Hm.
      set (m' := Note.update _ _ _ m).
      destruct (note_update_judged (GameState.now a) (-1)
                  (GameState.check_track_state (Note.track_index m) a) m)
        as (Hh' & Hj' & _).
      fold m' in Hh', Hj'.
      exists m'. repeat break_match; cbn; rewrite lookup_insert_eq;
        (split; [reflexivity|]); (split; [congruence|]); (split; [congruence|]);
        exact He.
    + destruct (lifecycle_step_other i j a Hne) as [Ho Hev].
      exists m. rewrite Ho, Hev. auto.
Qed.

(** X23: autoplay on a chart whose notes all lie on one of the four
    tracks.  In an autoplay tick, an unhit note of the active list that
    is within twice the Perfect window of the new clock is judged
    PERFECT: the tick returns, records exactly one judgement for the
    note, PERFECT, and leaves it hit.  Unless it is a HOLD note, the
    note is evicted in the same tick and no later press, release or tick
    records another judgement for it. *)
Theorem autoplay_judges_perfect (s : GameState.t) (delta_time_ms : Z) (i : nat)
    (n : Note.t) :
  GameState.is_playing s = true -> GameState.is_paused s = false ->
  GameState.autoplay s = true ->
  length (GameState.tracks s) = 4%nat -> Spec.all_notes Spec.on_a_track s ->
  NoDup (GameState.notes s) -> i ∈ GameState.notes s ->
  GameState.objects s !! i = Some n -> Note.hit n = false ->
  Z.abs (GameState.current_time_ms (GameState.advance_time delta_time_ms s)
         - Note.perfect_time n)
  <= JudgementSystem.window (GameState.judgement_system s) JudgementResult.PERFECT * 2 ->
  exists s' n',
    GameState.update delta_time_ms s = GameState.Returned s'
    /\ Spec.events_of i s' = (i, JudgementResult.PERFECT) :: Spec.events_of i s
    /\ GameState.objects s' !! i = Some n'
    /\ Note.hit n' = true
    /\ Note.judgement n' = Some JudgementResult.PERFECT
    /\ (Note.type n <> NoteType.HOLD ->
        (i ∉ GameState.notes s')
        /\ forall calls,
             Spec.events_of i (Spec.run_calls calls s') = Spec.events_of i s').
Proof.
  intros Hplay Hpause Hauto Hlen Hv Hnd Hin Hn Hhit Hwin.
  unfold GameState.update. rewrite Hplay, Hpause. cbn [negb orb].
  destruct (advance_time_fields delta_time_ms s)
    as (Hj1 & Hjs1 & _ & Ha1 & Ho1 & Hn1 & Ht1).
  set (s1 := GameState.advance_time delta_time_ms s) in *.
  destruct (cache_impl_shape s1) as [cache ->].
  set (s2 := GameState.set_update_notes_cache false _).
  change (GameState.autoplay s2) with (GameState.autoplay s1).
  rewrite Ha1, Hauto. unfold GameState._process_autoplay.
  change (GameState.notes s2) with (GameState.notes s1). rewrite Hn1.
  assert (Hlen2 : length (GameState.tracks s2) = 4%nat).
  { change (GameState.tracks s2) with (GameState.tracks s1). congruence. }
  assert (Hv2 : Spec.all_notes Spec.on_a_track s2).
  { intros j m. change (GameState.objects s2) with (GameState.objects s1).
    rewrite Ho1. apply Hv. }
  assert (Hn2 : GameState.objects s2 !! i = Some n).
  { change (GameState.objects s2) with (GameState.objects s1). rewrite Ho1.
    exact Hn. }
  assert (He2 : Spec.events_of i s2 = Spec.events_of i s).
  { unfold Spec.events_of. change (GameState.judged s2) with (GameState.judged s1).
    rewrite Hj1. reflexivity. }
  assert (Hset2 : Spec.settings s2 = Spec.settings s).
  { unfold Spec.settings.
    change (GameState.judgement_system s2) with (GameState.judgement_system s1).
    change (GameState.chart_end_time_ms s2) with (GameState.chart_end_time_ms s1).
    change (GameState.autoplay s2) with (GameState.autoplay s1).
    rewrite Hjs1, Ha1. f_equal. f_equal. unfold s1, GameState.advance_time.
    destruct (_ || _); reflexivity. }
  assert (Hnow2 : GameState.now s2 = GameState.current_time_ms s1) by reflexivity.
  assert (Hnotes2 : GameState.notes s2 = GameState.notes s) by exact Hn1.
  clearbody s2.
  destruct (split_NoDup i (GameState.notes s) Hnd Hin) as (l1 & l2 & Hl & Hl1 & Hl2).
  rewrite Hl, run_autoplay_app.
  (* the notes before [i] *)
  destruct (run_autoplay_returns l1 s2 Hlen2 Hv2) as [s3a Hs3a].
  pose proof (run_autoplay_same i l1 s2 Hl1) as Hsame3a.
  pose proof (run_autoplay_preserves GameState.current_time_ms l1 s2
                autoplay_step_time) as Ht3a.
  pose proof (run_autoplay_preserves Spec.settings l1 s2 autoplay_step_settings)
    as Hset3a.
  pose proof (run_autoplay_preserves (fun a => length (GameState.tracks a)) l1 s2
                (fun a j => proj1 (autoplay_step_tracks a j))) as Hlen3a.
  pose proof (all_notes_run_autoplay Spec.on_a_track on_a_track_mark
                on_a_track_update l1 s2 Hv2) as Hv3a.
  rewrite Hs3a in *. cbn [GameState.state_of] in *.
  cbn [GameState.run_autoplay].
  (* the note itself *)
  assert (Hn3a : GameState.objects s3a !! i = Some n)
    by (rewrite (proj1 Hsame3a); exact Hn2).
  assert (Hwin3a : (Z.abs (GameState.now s3a - Note.perfect_time n)
                    <=? JudgementSystem.window (GameState.judgement_system s3a)
                          JudgementResult.PERFECT * 2) = true).
  { apply Z.leb_le. unfold GameState.now. rewrite Ht3a.
    rewrite (settings_window s s3a) by congruence.
    unfold GameState.now in Hnow2. rewrite Hnow2. exact Hwin. }
  assert (Hstep : exists s3p,
            GameState.autoplay_step s3a i
            = GameState.Returned (GameState._judge_perfect i s3p)
            /\ GameState.objects s3p = GameState.objects s3a
            /\ GameState.judged s3p = GameState.judged s3a
            /\ GameState.notes s3p = GameState.notes s3a
            /\ length (GameState.tracks s3p) = 4%nat
            /\ Spec.settings s3p = Spec.settings s3a).
  { unfold GameState.autoplay_step. rewrite Hn3a, Hhit. cbn [negb].
    rewrite Hwin3a.
    destruct (NoteType.eqb (Note.type n) NoteType.DRAG).
    - destruct (activate_track_valid (Note.track_index n) s3a) as [s3p Hact];
        [congruence|apply (Hv3a i n Hn3a)|].
      rewrite Hact. exists s3p. split; [reflexivity|].
      destruct (activate_track_fields _ _ _ Hact) as (Hst & Hjd & _ & Hob & Hnt).
      destruct (activate_track_tracks _ _ _ Hact) as [Hln _].
      split; [exact Hob|]. split; [exact Hjd|]. split; [exact Hnt|].
      split; [congruence|].
      apply settings_of_statics. exact Hst.
    - exists s3a. split; [reflexivity|]. split; [reflexivity|].
      split; [reflexivity|]. split; [reflexivity|].
      split; [congruence|reflexivity]. }
  destruct Hstep as (s3p & -> & Hop & Hjp & Hnp & Hlenp & Hsetp).
  unfold GameState._judge_perfect.
  destruct (judge_note_fields i 0 s3p) as (_ & Hob & Hjb & _ & Htb & _).
  cbv zeta in Hob, Hjb, Htb. rewrite get_judgement_0 in Hob, Hjb.
  pose proof (judge_note_settings i 0 s3p) as Hsetb.
  set (s3b := snd (GameState._judge_note i 0 s3p)) in *.
  set (m := GameState.mark JudgementResult.PERFECT n).
  assert (Hm3b : GameState.objects s3b !! i = Some m).
  { rewrite Hob, lookup_alter_eq, Hop, Hn3a. reflexivity. }
  assert (He3b : Spec.events_of i s3b
                 = (i, JudgementResult.PERFECT) :: Spec.events_of i s).
  { rewrite (events_of_cons i i _ s3p _ Hjb), Nat.eqb_refl. f_equal.
    unfold Spec.events_of at 1. rewrite Hjp.
    change (Spec.events_of i s3a = Spec.events_of i s).
    rewrite (proj2 Hsame3a). exact He2. }
  assert (Hv3b : Spec.all_notes Spec.on_a_track s3b).
  { apply (all_notes_alter Spec.on_a_track (GameState.mark JudgementResult.PERFECT)
             i s3p); [exact Hob| |].
    - intros m0 _ H0. exact H0.
    - intros j m0. rewrite Hop. apply Hv3a. }
  (* the notes after [i] *)
  destruct (run_autoplay_returns l2 s3b) as [s3 Hs3]; [congruence|exact Hv3b|].
  pose proof (run_autoplay_same i l2 s3b Hl2) as Hsame3.
  pose proof (run_autoplay_preserves GameState.notes l2 s3b autoplay_step_notes)
    as Hnotes3.
  pose proof (run_autoplay_preserves Spec.settings l2 s3b autoplay_step_settings)
    as Hset3.
  rewrite Hs3 in *. cbn [GameState.state_of] in *.
  assert (Hm3 : GameState.objects s3 !! i = Some m)
    by (rewrite (proj1 Hsame3); exact Hm3b).
  assert (Hnotes_all : GameState.notes s3 = GameState.notes s).
  { rewrite Hnotes3.
    destruct (judge_note_fields i 0 s3p) as (_ & _ & _ & _ & _ & Hnb & _).
    cbv zeta in Hnb. fold s3b in Hnb. rewrite Hnb, Hnp.
    pose proof (run_autoplay_preserves GameState.notes l1 s2 autoplay_step_notes)
      as Hnotes3a.
    rewrite Hs3a in Hnotes3a. cbn [GameState.state_of] in Hnotes3a.
    congruence. }
  assert (Ha3 : GameState.autoplay s3 = true).
  { assert (Hset : Spec.settings s3 = Spec.settings s) by congruence.
    unfold Spec.settings in Hset. congruence. }
  assert (He3 : Spec.events_of i s3
                = (i, JudgementResult.PERFECT) :: Spec.events_of i s).
  { rewrite (proj2 Hsame3). exact He3b. }
  (* the rest of the tick *)
  unfold GameState.finish_update. rewrite Ha3. cbn [negb].
  destruct (lifecycle_pass_verdict i (GameState.notes s3) s3 m Hm3)
    as (n' & Hn5 & Hh5 & Hj5 & He5).
  set (s5 := fold_left GameState.lifecycle_step (GameState.notes s3) s3) in *.
  assert (Hh5' : Note.hit n' = true) by exact Hh5.
  destruct (check_game_over_hit i n' s5 Hn5 Hh5') as [Hs6 Hn6].
  exists (GameState._check_game_over s5), n'.
  split; [reflexivity|].
  split; [rewrite (proj2 Hs6), He5; exact He3|].
  split; [rewrite (proj1 Hs6); exact Hn5|].
  split; [exact Hh5'|]. split; [exact Hj5|].
  intros Hty.
  assert (Hout : i ∉ GameState.notes s5).
  { unfold s5. rewrite Hnotes_all, Hl, fold_left_app. cbn [fold_left].
    destruct (lifecycle_pass_other i l1 s3 Hl1) as (Hsa & Hnda & _).
    assert (Hnd3 : NoDup (GameState.notes s3)) by (rewrite Hnotes_all; exact Hnd).
    specialize (Hnda Hnd3).
    set (s5a := fold_left GameState.lifecycle_step l1 s3) in *.
    assert (Hm5a : GameState.objects s5a !! i = Some m)
      by (rewrite (proj1 Hsa); exact Hm3).
    destruct (lifecycle_step_self i m s5a Hm5a Hty eq_refl Hnda) as [_ Hout5b].
    destruct (lifecycle_pass_other i l2 (GameState.lifecycle_step s5a i) Hl2)
      as (_ & _ & Hout5 & _).
    apply Hout5. exact Hout5b. }
  split; [rewrite Hn6; exact Hout|].
  intros calls.
  apply (run_calls_evicted i calls (GameState._check_game_over s5)).
  split; [rewrite Hn6; exact Hout|].
  exists n'. split; [rewrite (proj1 Hs6); exact Hn5|exact Hh5'].
Qed.

Lemma autoplay_judges_perfect_witness :
  exists s',
    GameState.update 900
      (GameState.set_autoplay true
         (Scenario.boot Difficulty.NORMAL Scenario.single_normal))
    = GameState.Returned s'
    /\ Spec.events_of 0 s' = [(0%nat, JudgementResult.PERFECT)]
    /\ (0%nat ∉ GameState.notes s').
Proof.
  assert (Hv : Spec.all_notes Spec.on_a_track
                 (GameState.set_autoplay true
                    (Scenario.boot Difficulty.NORMAL Scenario.single_normal))).
  { assert (HF : map_Forall (fun _ n => Spec.on_a_track n)
                    (GameState.objects
                       (GameState.set_autoplay true
                          (Scenario.boot Difficulty.NORMAL Scenario.single_normal)))).
    { apply map_Forall_to_list. vm_compute. repeat constructor; discriminate. }
    intros i n H. exact (HF i n H). }
  assert (Hwin : Z.abs (GameState.current_time_ms
                          (GameState.advance_time 900
                             (GameState.set_autoplay true
                                (Scenario.boot Difficulty.NORMAL
                                   Scenario.single_normal)))
                        - Note.perfect_time (Note.__init__ 0 0 NoteType.NORMAL 1000 0))
                 <= JudgementSystem.window
                      (GameState.judgement_system
                         (GameState.set_autoplay true
                            (Scenario.boot Difficulty.NORMAL Scenario.single_normal)))
                      JudgementResult.PERFECT * 2)
    by (vm_compute; discriminate).
  destruct (autoplay_judges_perfect
              (GameState.set_autoplay true
                 (Scenario.boot Difficulty.NORMAL Scenario.single_normal))
              900 0%nat (Note.__init__ 0 0 NoteType.NORMAL 1000 0)
              eq_refl eq_refl eq_refl eq_refl Hv (NoDup_singleton 0%nat)
              (list_elem_of_here 0%nat []) eq_refl eq_refl Hwin)
    as (s' & n' & Hu & He & _ & _ & _ & Hrest).
  exists s'. split; [exact Hu|]. split; [exact He|].
  apply Hrest. discriminate.
Defined.

(** ** The score as a sum *)

Lemma gains_app (js : JudgementSystem.t) (new1 new2 : list (nat * JudgementResult.t)) :
  Spec.gains js (new2 ++ new1) = Spec.gains js new2 + Spec.gains js new1.
Proof.
  unfold Spec.gains. induction new2 as [|e new2 IH]; cbn; [reflexivity|].
  rewrite IH. lia.
Qed.

Lemma gains_nonneg (js : JudgementSystem.t) (new : list (nat * JudgementResult.t)) :
  (forall r, 0 <= JudgementSystem.calculate_score r js) -> 0 <= Spec.gains js new.
Proof.
  intros H. unfold Spec.gains. induction new as [|e new IH]; cbn; [lia|].
  specialize (H (snd e)). lia.
Qed.

Lemma gains_total (js js' : JudgementSystem.t) (new : list (nat * JudgementResult.t)) :
  JudgementSystem.total_notes js' = JudgementSystem.total_notes js ->
  Spec.gains js' new = Spec.gains js new.
Proof.
  intros H. unfold Spec.gains. induction new as [|e new IH]; cbn; [reflexivity|].
  rewrite IH, (calculate_score_total js js' _ H). reflexivity.
Qed.

Lemma clamped_sum_run_calls (calls : list Spec.call) (s : GameState.t) :
  (forall r, 0 <= JudgementSystem.calculate_score r (GameState.judgement_system s)) ->
  JudgementSystem.calculate_score JudgementResult.MISS (GameState.judgement_system s) = 0 ->
  JudgementSystem.calculate_score JudgementResult.BAD (GameState.judgement_system s) = 0 ->
  GameState.score s <= JudgementSystem.MAX_SCORE ->
  exists new,
    GameState.judged (Spec.run_calls calls s) = new ++ GameState.judged s
    /\ Spec.total_notes_of (Spec.run_calls calls s) = Spec.total_notes_of s
    /\ GameState.score (Spec.run_calls calls s)
       = Z.min (GameState.score s + Spec.gains (GameState.judgement_system s) new)
           JudgementSystem.MAX_SCORE.
Proof.
  apply (closure_run_calls
           (fun a a' =>
              (forall r, 0 <= JudgementSystem.calculate_score r
                                (GameState.judgement_system a)) ->
              JudgementSystem.calculate_score JudgementResult.MISS
                (GameState.judgement_system a) = 0 ->
              JudgementSystem.calculate_score JudgementResult.BAD
                (GameState.judgement_system a) = 0 ->
              GameState.score a <= JudgementSystem.MAX_SCORE ->
              exists new,
                GameState.judged a' = new ++ GameState.judged a
                /\ Spec.total_notes_of a' = Spec.total_notes_of a
                /\ GameState.score a'
                   = Z.min (GameState.score a
                            + Spec.gains (GameState.judgement_system a) new)
                       JudgementSystem.MAX_SCORE)).
  - intros a _ _ _ Hs. exists []. cbn. repeat split; try lia.
  - intros s1 s2 s3 H12 H23 Hg Hm Hb Hs.
    destruct (H12 Hg Hm Hb Hs) as (n1 & J1 & T1 & S1).
    unfold Spec.total_notes_of in T1.
    destruct H23 as (n2 & J2 & T2 & S2).
    { intros r. rewrite (calculate_score_total _ _ r T1). apply Hg. }
    { rewrite (calculate_score_total _ _ _ T1). exact Hm. }
    { rewrite (calculate_score_total _ _ _ T1). exact Hb. }
    { rewrite S1. lia. }
    exists (n2 ++ n1). rewrite J2, J1, app_assoc. split; [reflexivity|].
    split; [unfold Spec.total_notes_of in *; congruence|].
    rewrite S2, S1, (gains_total _ _ n2 T1), gains_app.
    pose proof (gains_nonneg (GameState.judgement_system s1) n2 Hg).
    pose proof (gains_nonneg (GameState.judgement_system s1) n1 Hg).
    lia.
  - intros a a' Hj Hjs Hs _ _ _ _ _ Hsc. exists []. unfold Spec.total_notes_of.
    rewrite Hj, Hjs, Hs. cbn. repeat split; try lia.
  - intros a j _ Hm _ Hsc. exists [(j, JudgementResult.MISS)].
    destruct (judge_miss_fields j a) as (_ & Hj & Hjs & _ & Hs & _).
    cbv zeta in Hj, Hjs, Hs. unfold Spec.total_notes_of.
    rewrite Hj, Hjs, Hs. cbn. rewrite Hm. repeat split; try lia.
  - intros a j d Hg Hm _ Hsc.
    destruct (judge_note_fields j d a) as (_ & _ & Hj & Hjs & _).
    pose proof (judge_note_score j d a) as Hs. cbv zeta in Hj, Hjs, Hs.
    set (r := JudgementSystem.get_judgement d (GameState.judgement_system a)) in *.
    exists [(j, r)]. unfold Spec.total_notes_of. rewrite Hj, Hjs, Hs. cbn.
    split; [reflexivity|]. split; [reflexivity|].
    destruct r; cbn; rewrite ?Hm; try (f_equal; lia); try lia.
  - intros a j objs _ _ Hb Hsc. exists [(j, JudgementResult.BAD)].
    cbn. rewrite Hb. repeat split; try lia.
Qed.

(** X24: the score is the clamped sum of what the recorded judgements
    score.  For a chart of fewer than 2 ^ 1000 notes and a score not
    above MAX_SCORE, after any presses, releases and ticks the score is
    min(MAX_SCORE, score before + sum of calculate_score over the
    notifications sent in between), whether the judgement came from a
    press, the autoplay policy, the DRAG rule, an automatic Miss or a
    forced Bad. *)
Theorem score_is_clamped_sum (s : GameState.t) (calls : list Spec.call) :
  0 <= Spec.total_notes_of s < 2 ^ 1000 ->
  GameState.score s <= JudgementSystem.MAX_SCORE ->
  exists new,
    GameState.judged (Spec.run_calls calls s) = new ++ GameState.judged s
    /\ GameState.score (Spec.run_calls calls s)
       = Z.min (GameState.score s + Spec.gains (GameState.judgement_system s) new)
           JudgementSystem.MAX_SCORE.
Proof.
  intros Hn Hs.
  destruct (calculate_score_miss_bad (GameState.judgement_system s) Hn) as [Hm Hb].
  destruct (clamped_sum_run_calls calls s) as (new & Hj & _ & Hsc); try assumption.
  - intros r. apply calculate_score_nonneg. exact Hn.
  - exists new. split; assumption.
Qed.

Lemma score_is_clamped_sum_witness :
  exists new,
    GameState.judged
      (Spec.run_calls [Spec.Tick 1005; Spec.Press 0]
         (Scenario.boot Difficulty.NORMAL Scenario.single_normal))
    = new ++ []
    /\ GameState.score
         (Spec.run_calls [Spec.Tick 1005; Spec.Press 0]
            (Scenario.boot Difficulty.NORMAL Scenario.single_normal))
       = Z.min (0 + Spec.gains
                      (GameState.judgement_system
                         (Scenario.boot Difficulty.NORMAL Scenario.single_normal))
                      new)
           1000000.
Proof.
  destruct (score_is_clamped_sum
              (Scenario.boot Difficulty.NORMAL Scenario.single_normal)
              [Spec.Tick 1005; Spec.Press 0])
    as (new & Hj & Hs).
  - vm_compute. split; [discriminate|reflexivity].
  - vm_compute. discriminate.
  - exists new. split; [exact Hj|exact Hs].
Defined.

(** ** A release is judged like a press *)

Lemma erased_fields (n n' : Note.t) :
  Note.set_judgement None n' = Note.set_judgement None n ->
  Note.track_index n' = Note.track_index n /\ Note.hit n' = Note.hit n
  /\ Note.type n' = Note.type n /\ Note.perfect_time n' = Note.perfect_time n.
Proof.
  destruct n, n'. cbn. intros [= -> -> -> -> -> -> -> -> ->]. auto.
Qed.

Lemma candidate_ext (k : Z) (s s' : GameState.t) :
  (forall i, Note.set_judgement None <$> GameState.objects s' !! i
             = Note.set_judgement None <$> GameState.objects s !! i) ->
  GameState.current_time_ms s' = GameState.current_time_ms s ->
  forall i, Spec.candidate k s' i = Spec.candidate k s i
            /\ Spec.offset s' i = Spec.offset s i.
Proof.
  intros Ho Ht i. specialize (Ho i).
  unfold Spec.candidate, Spec.unhit_on_track, Spec.judgeable, Spec.offset,
    GameState.perfect_time_of, GameState.now.
  rewrite Ht.
  destruct (GameState.objects s' !! i) as [n'|], (GameState.objects s !! i) as [n|];
    cbn in Ho; try discriminate; [|auto].
  apply (inj Some) in Ho.
  destruct (erased_fields n n' Ho) as (-> & -> & -> & ->). auto.
Qed.

Lemma release_step_erased (k : Z) (s : GameState.t) (j i : nat) :
  Note.set_judgement None <$> GameState.objects (GameState.release_step k s j) !! i
  = Note.set_judgement None <$> GameState.objects s !! i.
Proof.
  unfold GameState.release_step. repeat break_match; try reflexivity. cbn.
  destruct (decide (j = i)) as [->|Hne].
  - rewrite lookup_alter_eq. destruct (GameState.objects s !! i) as [m|]; [|reflexivity].
    cbn. destruct m; reflexivity.
  - rewrite lookup_alter_ne by exact Hne. reflexivity.
Qed.

Lemma release_scan_erased (k : Z) (s : GameState.t) (i : nat) :
  Note.set_judgement None <$> GameState.objects (GameState.release_scan k s) !! i
  = Note.set_judgement None <$> GameState.objects s !! i.
Proof.
  unfold GameState.release_scan.
  apply (fold_left_invariant (GameState.release_step k)
           (fun s' => Note.set_judgement None <$> GameState.objects s' !! i
                      = Note.set_judgement None <$> GameState.objects s !! i));
    [reflexivity|].
  intros a j Ha. rewrite release_step_erased. exact Ha.
Qed.

Lemma get_judgement_difficulty (d : Z) (js js' : JudgementSystem.t) :
  JudgementSystem.difficulty js' = JudgementSystem.difficulty js ->
  JudgementSystem.get_judgement d js' = JudgementSystem.get_judgement d js.
Proof.
  intros H. unfold JudgementSystem.get_judgement.
  rewrite !(window_difficulty js js' _ H). reflexivity.
Qed.

(** X25: [judge_note] has the same search for a note on a release as on
    a press: in a running game whose cache is consistent, a release of a
    valid track returns exactly what a press of that track would return
    at that moment; a release within 200 ms of an unhit note of the
    track judges it. *)
Theorem release_judges_like_press (s : GameState.t) (k : Z) :
  GameState.is_playing s = true -> GameState.is_paused s = false ->
  0 <= k < GameState.num_tracks -> Spec.cache_ok s ->
  fst (GameState.judge_note k "release" s) = fst (GameState.judge_note k "press" s).
Proof.
  intros Hplay Hpause Hk Hok. unfold GameState.judge_note.
  rewrite Hplay, Hpause. cbn [negb orb].
  replace ((k <? 0) || (GameState.num_tracks <=? k)) with false
    by (unfold GameState.num_tracks in *; lia).
  cbn [String.eqb Ascii.eqb Bool.eqb].
  set (sp := GameState.press_track k s).
  set (sr := GameState.release_track k (GameState.release_scan k s)).
  assert (Hsp : Spec.cache_ok sp).
  { apply (cache_ok_same s); try reflexivity. exact Hok. }
  assert (Hsr : Spec.cache_ok sr).
  { apply (cache_ok_same (GameState.release_scan k s)); try reflexivity.
    apply cache_ok_pass; [intros a j; apply cache_ok_release_step|exact Hok]. }
  destruct (release_pass_static k (GameState.notes s) s) as [Hnotes Htime].
  assert (Hext : forall i, Spec.candidate k sr i = Spec.candidate k sp i
                           /\ Spec.offset sr i = Spec.offset sp i).
  { apply candidate_ext; [|exact Htime].
    intros i. apply (release_scan_erased k s i). }
  assert (Hcands : List.filter (Spec.candidate k sr) (GameState.notes sr)
                   = List.filter (Spec.candidate k sp) (GameState.notes sp)).
  { change (GameState.notes sr) with (GameState.notes (GameState.release_scan k s)).
    unfold GameState.release_scan. rewrite Hnotes.
    apply List.filter_ext. intros i. apply Hext. }
  assert (Hjs : forall d,
            JudgementSystem.get_judgement d (GameState.judgement_system sr)
            = JudgementSystem.get_judgement d (GameState.judgement_system sp)).
  { intros d. apply get_judgement_difficulty.
    pose proof (fold_left_preserves (GameState.release_step k) Spec.settings
                  (GameState.notes s) s (fun a j => release_step_settings k a j))
      as Hset.
    unfold Spec.settings in Hset. injection Hset as Hd _ _ _. exact Hd. }
  pose proof (judge_target_closest k sp Hk Hsp) as H1.
  pose proof (judge_target_closest k sr Hk Hsr) as H2.
  cbv zeta in H1, H2. rewrite Hcands in H2.
  destruct (fst (GameState.judge_target k sr)) as [r2|],
    (fst (GameState.judge_target k sp)) as [r1|].
  - destruct H1 as (j1 & Hj1 & Hmin1 & -> & _).
    destruct H2 as (j2 & Hj2 & Hmin2 & -> & _).
    rewrite Hjs. f_equal. f_equal.
    specialize (Hmin1 j2 Hj2). specialize (Hmin2 j1 Hj1).
    rewrite !(proj2 (Hext _)) in Hmin2. rewrite (proj2 (Hext _)). lia.
  - destruct H2 as (j2 & Hj2 & _). destruct H1 as [Hnil _].
    rewrite Hnil in Hj2. inversion Hj2.
  - destruct H1 as (j1 & Hj1 & _). destruct H2 as [Hnil _].
    rewrite Hnil in Hj1. inversion Hj1.
  - reflexivity.
Qed.

Lemma release_judges_like_press_witness :
  fst (GameState.judge_note 0 "release" (Scenario.at_1005 Difficulty.NORMAL))
  = Some JudgementResult.PERFECT.
Proof.
  assert (Hok : Spec.cache_ok (Scenario.at_1005 Difficulty.NORMAL)).
  { split; [reflexivity|]. intros _ k Hk.
    assert (Hc : k = 0 \/ k = 1 \/ k = 2 \/ k = 3)
      by (unfold GameState.num_tracks in Hk; lia).
    destruct Hc as [-> | [-> | [-> | ->]]]; vm_compute; reflexivity. }
  assert (Hk : 0 <= 0 < GameState.num_tracks) by (unfold GameState.num_tracks; lia).
  rewrite (release_judges_like_press (Scenario.at_1005 Difficulty.NORMAL) 0
             eq_refl eq_refl Hk Hok).
  vm_compute. reflexivity.
Defined.
